(* ===== verification/_CoqProject ===== *)
-Q . S2P
Prelude.v
Order.v
Page.v
Files.v
DataFile.v
Wal.v
WalLemmas.v
WalLog.v
Store.v
Replay.v
Recovery.v
StoreInv.v
StoreWrite.v
StoreFlush.v
StoreBackground.v
StoreOpen.v
Durability.v
GroupCommit.v
ByteLru.v
BufferPool.v
Node.v
Record.v
Handle.v
Tree.v
TreeBase.v
TreeEdit.v
TreeApply.v
TreeFinish.v
TreeRange.v
TreeBuild.v
TreeExamples.v
Token.v
Lexer.v
LexerFacts.v
LexerPrint.v
F64.v
Ast.v
Parser.v
Grammar.v
ParserFacts.v
Backend.v
Mvcc.v
MvccSweep.v
MvccSystem.v
MvccReads.v
MvccCommit.v
MvccFinish.v
MvccPersist.v
MvccBuild.v
MvccPublish.v
MvccScan.v
MvccIsolation.v
TreeBackend.v
MvccExamples.v
Utf8.v
Schema.v
Expression.v
Codec.v
Engine.v
CodecFacts.v
KvSim.v
Database.v
DbRows.v
DbOps.v
DbWrite.v
DbAccess.v
DbDelete.v
DbUpdate.v
DbCatalog.v
DbIndex.v
DbSelect.v
Relational.v
SessionKv.v
SqlSession.v
SessionFacts.v
EngineExamples.v
SessionExamples.v
PgText.v
Pg.v
Server.v
