(* ===== verification/Prelude.v ===== *)
(** * QuantaDB: a verification development

    (The header is completed at the end of the file's history.) *)
From stdpp Require Export base tactics list list_numbers gmap strings numbers fin_maps sorting.
From Stdlib Require Export ZArith Lia.
From Stdlib Require Strings.Byte.

(** ** Scopes and hint databases *)

Declare Scope quanta_scope.
Delimit Scope quanta_scope with quanta.
Create HintDb quanta.
Local Open Scope Z_scope.

(** ** Results: Rust's [Result<T, E>] *)

Inductive result (E A : Type) : Type :=
| Ok (a : A)
| Err (e : E).
Arguments Ok {E A} a.
Arguments Err {E A} e.

#[export] Instance result_ret {E} : MRet (result E) := fun A a => Ok a.
#[export] Instance result_bind {E} : MBind (result E) :=
  fun A B k m => match m with Ok a => k a | Err e => Err e end.
#[export] Instance result_fmap {E} : FMap (result E) :=
  fun A B f m => match m with Ok a => Ok (f a) | Err e => Err e end.

(** Rust's [Option::ok_or]. *)
Definition ok_or {E A} (o : option A) (e : E) : result E A :=
  match o with Some a => Ok a | None => Err e end.

(** Rust's [Iterator::collect::<Result<Vec<_>>>] over a fallible map: the
    first error wins and later elements are not visited. *)
Fixpoint try_map {E A B} (f : A -> result E B) (l : list A) : result E (list B) :=
  match l with
  | [] => Ok []
  | x :: l => y ← f x; ys ← try_map f l; Ok (y :: ys)
  end.

(** Rust's [Iterator::try_fold]. *)
Fixpoint try_fold {E A B} (f : B -> A -> result E B) (b : B) (l : list A) : result E B :=
  match l with
  | [] => Ok b
  | x :: l => b' ← f b x; try_fold f b' l
  end.

(** The error a result carries is rewritten by a [map_err]. *)
Definition map_err {E F A} (f : E -> F) (m : result E A) : result F A :=
  match m with Ok a => Ok a | Err e => Err (f e) end.

Definition is_ok {E A} (m : result E A) : bool :=
  match m with Ok _ => true | Err _ => false end.

Definition is_err {E A} (m : result E A) : bool := negb (is_ok m).

Lemma bind_Ok {E A B} (m : result E A) (k : A -> result E B) b :
  (m ≫= k) = Ok b -> exists a, m = Ok a /\ k a = Ok b.
Proof. destruct m; simpl; [eauto | discriminate]. Qed.

Lemma try_map_Ok_length {E A B} (f : A -> result E B) l ys :
  try_map f l = Ok ys -> length ys = length l.
Proof.
  revert ys. induction l as [|x l IH]; intros ys; simpl.
  - by intros [= <-].
  - intros (y & _ & (ys' & Hl & [= <-])%bind_Ok)%bind_Ok. simpl. by rewrite (IH ys').
Qed.

Lemma try_map_Forall2 {E A B} (f : A -> result E B) l ys :
  try_map f l = Ok ys <-> Forall2 (fun x y => f x = Ok y) l ys.
Proof.
  revert ys. induction l as [|x l IH]; intros ys; simpl; split.
  - intros [= <-]. constructor.
  - by inversion 1.
  - intros (y & Hy & (ys' & Hl & [= <-])%bind_Ok)%bind_Ok. constructor; [done|]. by apply IH.
  - inversion 1 as [|? y ? ys' Hy Hrest]; subst.
    rewrite Hy; simpl. by rewrite (proj2 (IH ys') Hrest).
Qed.

Lemma try_map_app {E A B} (f : A -> result E B) l1 l2 :
  try_map f (l1 ++ l2) = (y1 ← try_map f l1; y2 ← try_map f l2; Ok (y1 ++ y2)).
Proof.
  induction l1 as [|x l1 IH]; simpl.
  - destruct (try_map f l2); done.
  - destruct (f x); simpl; [|done]. rewrite IH.
    destruct (try_map f l1); simpl; [|done]. by destruct (try_map f l2).
Qed.

(** ** Fallible state-passing code

    A method on [&mut self] that returns a [Result]: what it did to the state
    before an error stays done, which is why the state is outside the
    result. *)
Definition ST (S E A : Type) : Type := S -> result E A * S.

#[export] Instance ST_ret {S E} : MRet (ST S E) := fun A a s => (Ok a, s).
#[export] Instance ST_bind {S E} : MBind (ST S E) :=
  fun A B k m s => match m s with
                   | (Ok a, s') => k a s'
                   | (Err e, s') => (Err e, s')
                   end.

#[export] Instance ST_fmap {S E} : FMap (ST S E) := fun A B f m => x ← m; mret (f x).

Definition get {S E} : ST S E S := fun s => (Ok s, s).
Definition modify {S E} (f : S -> S) : ST S E unit := fun s => (Ok tt, f s).
Definition throw {S E A} (e : E) : ST S E A := fun s => (Err e, s).

(** A call whose result is matched on instead of propagated. *)
Definition attempt {S E A} (m : ST S E A) : ST S E (result E A) := fun s => let '(r, s') := m s in (Ok r, s').

(** The [?] operator on a result that does not touch the state. *)
Definition lift {S E A} (m : result E A) : ST S E A := fun s => (m, s).

(** A method call on a field. *)
Definition zoom {S T E A} (field : S -> T) (set : T -> S -> S) (m : ST T E A) : ST S E A :=
  fun s => let '(r, t) := m (field s) in (r, set t s).

(** [for x in l { f(x)?; }] and its value-collecting variant. *)
Fixpoint for_each {S E A} (l : list A) (f : A -> ST S E unit) : ST S E unit :=
  match l with
  | [] => mret tt
  | x :: l => _ ← f x; for_each l f
  end.

Fixpoint collect {S E A B} (l : list A) (f : A -> ST S E B) : ST S E (list B) :=
  match l with
  | [] => mret []
  | x :: l => y ← f x; ys ← collect l f; mret (y :: ys)
  end.

(** The state an operation leaves behind, and what it returned. *)
Definition exec {S E A} (m : ST S E A) (s : S) : S := snd (m s).
Definition eval {S E A} (m : ST S E A) (s : S) : result E A := fst (m s).

Lemma ST_bind_Ok {S E A B} (m : ST S E A) (k : A -> ST S E B) s b s' :
  (m ≫= k) s = (Ok b, s') -> exists a s1, m s = (Ok a, s1) /\ k a s1 = (Ok b, s').
Proof. unfold mbind, ST_bind. destruct (m s) as [[a|e] s1]; [eauto|congruence]. Qed.

Lemma ST_bind_step {S E A B} (m : ST S E A) (k : A -> ST S E B) s a s1 :
  m s = (Ok a, s1) -> (m ≫= k) s = k a s1.
Proof. unfold mbind, ST_bind. by intros ->. Qed.

(** Runs the goal's state-passing code as far as its tests are known. *)
Ltac st_run :=
  unfold mbind, mret, ST_bind, ST_ret, lift, modify, get, throw, zoom; cbn beta iota.

(** Case analysis on the scrutinee of a [match] or an [if] of the goal or a
    hypothesis, recording the equation. *)
Ltac case_step :=
  match goal with
  | |- context [match ?x with _ => _ end] => destruct x eqn:?
  | H : context [match ?x with _ => _ end] |- _ => destruct x eqn:?
  end.

(** Turns every boolean comparison of the context into the proposition it
    decides. *)
Ltac bool_to_prop :=
  repeat match goal with
  | H : (_ && _) = true |- _ => apply andb_true_iff in H as [? ?]
  | H : (_ || _) = false |- _ => apply orb_false_iff in H as [? ?]
  | H : negb _ = true |- _ => apply negb_true_iff in H
  | H : negb _ = false |- _ => apply negb_false_iff in H
  | H : (_ =? _) = true |- _ => apply Z.eqb_eq in H
  | H : (_ =? _) = false |- _ => apply Z.eqb_neq in H
  | H : (_ <? _) = true |- _ => apply Z.ltb_lt in H
  | H : (_ <? _) = false |- _ => apply Z.ltb_ge in H
  | H : (_ <=? _) = true |- _ => apply Z.leb_le in H
  | H : (_ <=? _) = false |- _ => apply Z.leb_gt in H
  | H : bool_decide _ = true |- _ => apply bool_decide_eq_true in H
  | H : bool_decide _ = false |- _ => apply bool_decide_eq_false in H
  end.

(** ** Machine integers

    A [u16], [u32], [u64] or [usize] is a [Z] in range; [usize] is 64 bits
    wide on the targets the program supports.  Additions that the source
    checks are [checked_add]; casts are written out with [mod]. *)

Definition U8_MAX : Z := 2 ^ 8 - 1.
Definition U16_MAX : Z := 2 ^ 16 - 1.
Definition U32_MAX : Z := 2 ^ 32 - 1.
Definition U64_MAX : Z := 2 ^ 64 - 1.

Definition is_u16 (z : Z) : Prop := 0 <= z <= U16_MAX.
Definition is_u32 (z : Z) : Prop := 0 <= z <= U32_MAX.
Definition is_u64 (z : Z) : Prop := 0 <= z <= U64_MAX.

Definition checked_add (bound a b : Z) : option Z :=
  if a + b <=? bound then Some (a + b) else None.

Definition checked_sub (a b : Z) : option Z :=
  if b <=? a then Some (a - b) else None.

Definition checked_mul (bound a b : Z) : option Z :=
  if a * b <=? bound then Some (a * b) else None.

Definition saturating_add (bound a b : Z) : Z := Z.min bound (a + b).
Definition saturating_sub (a b : Z) : Z := Z.max 0 (a - b).

Lemma checked_add_Some bound a b c :
  checked_add bound a b = Some c <-> c = a + b /\ a + b <= bound.
Proof. unfold checked_add. case_step; bool_to_prop; split; intros; destruct_and?; simplify_eq; done || lia. Qed.

Lemma checked_add_None bound a b : checked_add bound a b = None <-> bound < a + b.
Proof. unfold checked_add. case_step; bool_to_prop; split; intros; destruct_and?; simplify_eq; done || lia. Qed.

(** ** Bytes *)

Abbreviation byte := Byte.byte.
Abbreviation x00 := Byte.x00.

#[export] Instance byte_eq_dec : EqDecision byte.
Proof. intros a b. destruct (Byte.byte_eq_dec a b); [by left | by right]. Defined.

#[export] Instance byte_countable : Countable byte.
Proof.
  refine (inj_countable Byte.to_N Byte.of_N _). apply Byte.of_to_N.
Defined.

Definition byte_to_Z (b : byte) : Z := Z.of_N (Byte.to_N b).

Definition byte_of_Z (z : Z) : byte :=
  match Byte.of_N (Z.to_N (z mod 256)) with Some b => b | None => x00 end.

Lemma byte_to_Z_range b : 0 <= byte_to_Z b < 256.
Proof. unfold byte_to_Z. pose proof (Byte.to_N_bounded b). lia. Qed.

Lemma byte_to_of_Z z : byte_to_Z (byte_of_Z z) = z mod 256.
Proof.
  unfold byte_to_Z, byte_of_Z.
  pose proof (Z.mod_pos_bound z 256 ltac:(lia)) as Hb.
  destruct (Byte.of_N (Z.to_N (z mod 256))) as [b|] eqn:E.
  - apply Byte.to_of_N in E. rewrite E. lia.
  - apply Byte.of_N_None_iff in E. lia.
Qed.

Lemma byte_to_Z_inj a b : byte_to_Z a = byte_to_Z b -> a = b.
Proof.
  unfold byte_to_Z. intros H. apply N2Z.inj in H.
  pose proof (Byte.of_to_N a) as Ha. pose proof (Byte.of_to_N b) as Hb.
  rewrite H in Ha. congruence.
Qed.

Lemma byte_of_to_Z b : byte_of_Z (byte_to_Z b) = b.
Proof.
  apply byte_to_Z_inj. rewrite byte_to_of_Z.
  apply Z.mod_small. apply byte_to_Z_range.
Qed.

(** The length of a byte string, as the [usize] that Rust's [len] gives. *)
Abbreviation blen l := (Z.of_nat (length l)).

(** [[0_u8; n]]. *)
Definition zeros (n : Z) : list byte := replicate (Z.to_nat n) x00.

Lemma length_zeros n : 0 <= n -> blen (zeros n) = n.
Proof. intros. unfold zeros. rewrite length_replicate. lia. Qed.

Lemma lookup_zeros n i : zeros n !! i = if bool_decide (i < Z.to_nat n)%nat then Some x00 else None.
Proof.
  unfold zeros. case_bool_decide; [by apply lookup_replicate_2|].
  apply lookup_ge_None_2. rewrite length_replicate. lia.
Qed.

Lemma nth_zeros n i : nth i (zeros n) x00 = x00.
Proof. unfold zeros. revert i. induction (Z.to_nat n); intros [|i]; simpl; done. Qed.

(** [bytes.iter().all(|byte| *byte == 0)]. *)
Definition all_zero (bytes : list byte) : bool := forallb (fun b => bool_decide (b = x00)) bytes.

Lemma all_zero_zeros n : all_zero (zeros n) = true.
Proof. unfold all_zero, zeros. induction (Z.to_nat n); simpl; done. Qed.

Lemma zeros_all_zero bytes : all_zero bytes = true -> bytes = zeros (blen bytes).
Proof.
  unfold all_zero, zeros. rewrite Nat2Z.id. induction bytes as [|b l IH]; [done|]. simpl.
  rewrite andb_true_iff. intros [Hb%bool_decide_eq_true Hl]. subst. f_equal. auto.
Qed.

Global Opaque zeros.

(** An ASCII byte-string literal, [b"..."]. *)
Definition bytes_of_string (s : string) : list byte := String.list_byte_of_string s.

(** ** Little- and big-endian encodings: [to_le_bytes], [from_le_bytes], ... *)

Fixpoint to_le (n : nat) (z : Z) : list byte :=
  match n with
  | O => []
  | S n => byte_of_Z z :: to_le n (z / 256)
  end.

Fixpoint from_le (l : list byte) : Z :=
  match l with
  | [] => 0
  | b :: l => byte_to_Z b + 256 * from_le l
  end.

Definition to_be (n : nat) (z : Z) : list byte := reverse (to_le n z).
Definition from_be (l : list byte) : Z := from_le (reverse l).

Lemma length_to_le n z : length (to_le n z) = n.
Proof. revert z. induction n; intros; simpl; by rewrite ?IHn. Qed.

Lemma length_to_be n z : length (to_be n z) = n.
Proof. unfold to_be. by rewrite length_reverse, length_to_le. Qed.

Lemma from_to_le n z : from_le (to_le n z) = z mod 256 ^ Z.of_nat n.
Proof.
  revert z. induction n as [|n IH]; intros z; cbn [to_le from_le].
  - by rewrite Z.mod_1_r.
  - rewrite byte_to_of_Z, IH, Nat2Z.inj_succ, Z.pow_succ_r by lia.
    rewrite Z.rem_mul_r by lia. lia.
Qed.

Lemma from_to_le_small n z : 0 <= z < 256 ^ Z.of_nat n -> from_le (to_le n z) = z.
Proof. intros. rewrite from_to_le. by apply Z.mod_small. Qed.

Lemma from_le_range l : 0 <= from_le l < 256 ^ blen l.
Proof.
  induction l as [|b l IH]; cbn [from_le length]; [lia|].
  pose proof (byte_to_Z_range b).
  rewrite Nat2Z.inj_succ, Z.pow_succ_r by lia. lia.
Qed.

Lemma to_from_le l : to_le (length l) (from_le l) = l.
Proof.
  induction l as [|b l IH]; cbn [to_le from_le length]; [done|].
  pose proof (byte_to_Z_range b) as Hb. f_equal.
  - apply byte_to_Z_inj. rewrite byte_to_of_Z.
    rewrite Z.mul_comm, Z.mod_add by lia. by apply Z.mod_small.
  - replace ((byte_to_Z b + 256 * from_le l) / 256) with (from_le l); [done|].
    rewrite Z.mul_comm, Z.div_add by lia. rewrite Z.div_small by done. lia.
Qed.

Lemma from_to_be_small n z : 0 <= z < 256 ^ Z.of_nat n -> from_be (to_be n z) = z.
Proof. intros. unfold from_be, to_be. rewrite reverse_involutive. by apply from_to_le_small. Qed.

Lemma to_le_inj n a b :
  0 <= a < 256 ^ Z.of_nat n -> 0 <= b < 256 ^ Z.of_nat n -> to_le n a = to_le n b -> a = b.
Proof. intros Ha Hb H. rewrite <- (from_to_le_small n a), <- (from_to_le_small n b) by done. by rewrite H. Qed.

Lemma to_be_inj n a b :
  0 <= a < 256 ^ Z.of_nat n -> 0 <= b < 256 ^ Z.of_nat n -> to_be n a = to_be n b -> a = b.
Proof. intros Ha Hb H. rewrite <- (from_to_be_small n a), <- (from_to_be_small n b) by done. by rewrite H. Qed.

(** ** Byte buffers

    [slice l off n] is [&l[off..off + n]], [put l off bs] is
    [l[off..off + bs.len()].copy_from_slice(bs)].  Both are used in range
    only, where Rust does not panic. *)

Definition slice {A} (l : list A) (off n : Z) : list A :=
  take (Z.to_nat n) (drop (Z.to_nat off) l).

Definition put {A} (l : list A) (off : Z) (bs : list A) : list A :=
  take (Z.to_nat off) l ++ bs ++ drop (Z.to_nat off + length bs) l.

Definition read_u16 (l : list byte) (off : Z) : Z := from_le (slice l off 2).
Definition read_u32 (l : list byte) (off : Z) : Z := from_le (slice l off 4).
Definition read_u64 (l : list byte) (off : Z) : Z := from_le (slice l off 8).

Definition write_u16 (l : list byte) (off v : Z) : list byte := put l off (to_le 2 v).
Definition write_u32 (l : list byte) (off v : Z) : list byte := put l off (to_le 4 v).
Definition write_u64 (l : list byte) (off v : Z) : list byte := put l off (to_le 8 v).

(** [bytes[off]], for an offset in range. *)
Definition byte_at (l : list byte) (off : Z) : byte := nth (Z.to_nat off) l x00.

Section Buffers.
Context {A : Type}.
Implicit Types l bs : list A.

Lemma length_slice l off n :
  0 <= off -> 0 <= n -> off + n <= blen l -> blen (slice l off n) = n.
Proof. intros. unfold slice. rewrite length_take, length_drop. lia. Qed.

Lemma length_put l off bs :
  0 <= off -> off + blen bs <= blen l -> blen (put l off bs) = blen l.
Proof.
  intros. unfold put. rewrite !length_app, length_take, length_drop. lia.
Qed.

Lemma lookup_slice l off n i :
  slice l off n !! i = if bool_decide (i < Z.to_nat n)%nat then l !! (Z.to_nat off + i)%nat else None.
Proof.
  unfold slice. case_bool_decide.
  - by rewrite lookup_take_lt, lookup_drop.
  - by rewrite lookup_take_ge by lia.
Qed.

Lemma lookup_put l off bs i :
  0 <= off -> off + blen bs <= blen l ->
  put l off bs !! i =
    if bool_decide (Z.to_nat off <= i < Z.to_nat off + length bs)%nat
    then bs !! (i - Z.to_nat off)%nat else l !! i.
Proof.
  intros Ho Hl. unfold put. case_bool_decide as Hi.
  - rewrite lookup_app_r by (rewrite length_take; lia).
    rewrite length_take, lookup_app_l by lia. f_equal. lia.
  - destruct (decide (i < Z.to_nat off)%nat).
    + rewrite lookup_app_l by (rewrite length_take; lia). by rewrite lookup_take_lt.
    + rewrite lookup_app_r by (rewrite length_take; lia). rewrite length_take.
      rewrite lookup_app_r by lia. rewrite lookup_drop. f_equal. lia.
Qed.

Lemma slice_put_eq l off bs n :
  n = blen bs -> 0 <= off -> off + blen bs <= blen l -> slice (put l off bs) off n = bs.
Proof.
  intros -> Ho Hl. apply list_eq. intros i. rewrite lookup_slice, lookup_put by done.
  repeat case_bool_decide; try lia.
  - f_equal; lia.
  - symmetry. apply lookup_ge_None. lia.
Qed.

Lemma slice_put_ne l off bs o n :
  0 <= off -> off + blen bs <= blen l -> 0 <= o -> 0 <= n ->
  (o + n <= off \/ off + blen bs <= o) ->
  slice (put l off bs) o n = slice l o n.
Proof.
  intros Ho Hl Ho' Hn Hd. apply list_eq. intros i. rewrite !lookup_slice.
  case_bool_decide; [|done]. rewrite lookup_put by done.
  case_bool_decide; [lia|done].
Qed.

Lemma slice_slice l off n o m :
  0 <= off -> 0 <= o -> 0 <= m -> o + m <= n -> slice (slice l off n) o m = slice l (off + o) m.
Proof.
  intros. apply list_eq. intros i. rewrite !lookup_slice.
  case_bool_decide; [|done]. rewrite bool_decide_true by lia. f_equal. lia.
Qed.

Lemma slice_app_l l1 l2 off n :
  0 <= off -> off + n <= blen l1 -> slice (l1 ++ l2) off n = slice l1 off n.
Proof.
  intros. apply list_eq. intros i. rewrite !lookup_slice.
  case_bool_decide; [|done]. rewrite lookup_app_l by lia. done.
Qed.

Lemma slice_app_r l1 l2 off n :
  blen l1 <= off -> slice (l1 ++ l2) off n = slice l2 (off - blen l1) n.
Proof.
  intros. apply list_eq. intros i. rewrite !lookup_slice.
  case_bool_decide; [|done]. rewrite lookup_app_r by lia. f_equal. lia.
Qed.

Lemma slice_all l n : n = blen l -> slice l 0 n = l.
Proof. intros ->. unfold slice. rewrite Nat2Z.id. simpl. by rewrite drop_0, take_ge. Qed.

Lemma slice_zero_length l off : slice l off 0 = [].
Proof. done. Qed.

Lemma slice_split l off n m :
  0 <= off -> 0 <= n -> 0 <= m -> off + n + m <= blen l ->
  slice l off (n + m) = slice l off n ++ slice l (off + n) m.
Proof.
  intros. apply list_eq. intros i.
  destruct (decide (i < Z.to_nat n)%nat).
  - rewrite lookup_app_l by (unfold slice; rewrite length_take, length_drop; lia).
    rewrite !lookup_slice. rewrite !bool_decide_true by lia. done.
  - rewrite lookup_app_r by (unfold slice; rewrite length_take, length_drop; lia).
    assert (Z.of_nat (length (slice l off n)) = n) by (apply length_slice; lia).
    rewrite !lookup_slice.
    case_bool_decide; [rewrite bool_decide_true by lia; f_equal; lia|].
    by rewrite bool_decide_false by lia.
Qed.
End Buffers.

(** The side conditions of the buffer lemmas: linear arithmetic once every
    buffer length is known. *)
Ltac buf_len :=
  repeat first
    [ rewrite length_put | rewrite length_slice | rewrite length_zeros
    | rewrite length_to_le | rewrite length_to_be | rewrite length_app
    | rewrite Nat2Z.inj_add | progress cbn [length] ];
  try lia.

Lemma read_u16_write_eq l off v :
  is_u16 v -> 0 <= off -> off + 2 <= blen l -> read_u16 (write_u16 l off v) off = v.
Proof.
  unfold is_u16, U16_MAX, read_u16, write_u16. intros.
  rewrite slice_put_eq by (rewrite ?length_to_le; lia). apply from_to_le_small. lia.
Qed.

Lemma read_u32_write_eq l off v :
  is_u32 v -> 0 <= off -> off + 4 <= blen l -> read_u32 (write_u32 l off v) off = v.
Proof.
  unfold is_u32, U32_MAX, read_u32, write_u32. intros.
  rewrite slice_put_eq by (rewrite ?length_to_le; lia). apply from_to_le_small. lia.
Qed.

Lemma read_u64_write_eq l off v :
  is_u64 v -> 0 <= off -> off + 8 <= blen l -> read_u64 (write_u64 l off v) off = v.
Proof.
  unfold is_u64, U64_MAX, read_u64, write_u64. intros.
  rewrite slice_put_eq by (rewrite ?length_to_le; lia). apply from_to_le_small. lia.
Qed.

Lemma read_u16_range l off : is_u16 (read_u16 l off).
Proof.
  unfold is_u16, read_u16, U16_MAX. pose proof (from_le_range (slice l off 2)) as H.
  assert (length (slice l off 2) <= 2)%nat by (unfold slice; rewrite length_take; lia).
  pose proof (Z.pow_le_mono_r 256 (blen (slice l off 2)) 2 ltac:(lia) ltac:(lia)). lia.
Qed.

Lemma read_u32_range l off : is_u32 (read_u32 l off).
Proof.
  unfold is_u32, read_u32, U32_MAX. pose proof (from_le_range (slice l off 4)) as H.
  assert (length (slice l off 4) <= 4)%nat by (unfold slice; rewrite length_take; lia).
  pose proof (Z.pow_le_mono_r 256 (blen (slice l off 4)) 4 ltac:(lia) ltac:(lia)). lia.
Qed.

Lemma read_u64_range l off : is_u64 (read_u64 l off).
Proof.
  unfold is_u64, read_u64, U64_MAX. pose proof (from_le_range (slice l off 8)) as H.
  assert (length (slice l off 8) <= 8)%nat by (unfold slice; rewrite length_take; lia).
  pose proof (Z.pow_le_mono_r 256 (blen (slice l off 8)) 8 ltac:(lia) ltac:(lia)). lia.
Qed.

Lemma length_put_ge {A} (l : list A) off bs : blen l <= blen (put l off bs).
Proof. unfold put. rewrite !length_app, length_take, length_drop. lia. Qed.

(** Reads a field back through the writes that built a buffer; the buffer
    is never shorter than the one it was built from. *)
Ltac buf_pose l :=
  lazymatch l with
  | put ?l' ?o ?b => pose proof (length_put_ge l' o b); buf_pose l'
  | zeros ?n => pose proof (length_zeros n ltac:(lia))
  | _ => idtac
  end.

Ltac buf_side :=
  rewrite ?length_to_le;
  try match goal with |- context [length (put ?a ?b ?c)] => buf_pose (put a b c) end;
  try match goal with |- context [length (zeros ?n)] => buf_pose (zeros n) end;
  cbn [length]; lia.

Ltac buf_read :=
  unfold read_u16, read_u32, read_u64, write_u16, write_u32, write_u64;
  repeat first
    [ rewrite slice_put_eq by buf_side
    | rewrite slice_put_ne by buf_side
    | rewrite from_to_le_small by lia ].

Lemma byte_at_slice l o : 0 <= o -> byte_at l o = nth 0 (slice l o 1) x00.
Proof.
  intros. unfold byte_at, slice.
  rewrite !nth_lookup. f_equal. change (Z.to_nat 1) with 1%nat.
  rewrite lookup_take_lt, lookup_drop by lia. f_equal. lia.
Qed.

Lemma slice_zeros n off m : 0 <= off -> 0 <= m -> off + m <= n -> slice (zeros n) off m = zeros m.
Proof.
  intros. apply list_eq. intros i. rewrite lookup_slice, !lookup_zeros.
  repeat case_bool_decide; done || lia.
Qed.

Lemma zeros_app a b : 0 <= a -> 0 <= b -> zeros (a + b) = zeros a ++ zeros b.
Proof.
  intros. apply list_eq. intros i. destruct (decide (i < Z.to_nat a)%nat).
  - rewrite lookup_app_l by (rewrite <- (Nat2Z.id (length _)), length_zeros; lia).
    rewrite !lookup_zeros. repeat case_bool_decide; done || lia.
  - assert (length (zeros a) = Z.to_nat a) as Ha by (rewrite <- (Nat2Z.id (length _)), length_zeros; lia).
    rewrite lookup_app_r by lia. rewrite !lookup_zeros. repeat case_bool_decide; done || lia.
Qed.

Lemma put_app_l {A} (a b : list A) off bs :
  0 <= off -> off + blen bs <= blen a -> put (a ++ b) off bs = put a off bs ++ b.
Proof.
  intros. unfold put. rewrite take_app_le, drop_app_le by lia. by rewrite <- !app_assoc.
Qed.

(** Filling a zeroed buffer from the front. *)
Lemma put_app_zeros pre n bs :
  blen bs <= n -> put (pre ++ zeros n) (blen pre) bs = (pre ++ bs) ++ zeros (n - blen bs).
Proof.
  intros Hn. replace (zeros n) with (zeros (blen bs) ++ zeros (n - blen bs)) by (rewrite <- zeros_app; [f_equal|..]; lia).
  assert (length (zeros (blen bs)) = length bs) as Hz by (apply Nat2Z.inj; apply length_zeros; lia).
  assert (drop (length pre + length bs) (pre ++ zeros (blen bs) ++ zeros (n - blen bs)) = zeros (n - blen bs)) as Hd
    by (rewrite app_assoc; apply drop_app_length'; rewrite length_app; lia).
  unfold put. by rewrite Nat2Z.id, take_app_length, Hd, app_assoc.
Qed.

Lemma elem_of_concat {A} (x : A) (ls : list (list A)) : x ∈ concat ls <-> exists l, x ∈ l /\ l ∈ ls.
Proof.
  induction ls as [|l ls IH]; simpl.
  - split; [by intros ?%elem_of_nil|]. by intros (l & _ & ?%elem_of_nil).
  - rewrite elem_of_app, IH. setoid_rewrite elem_of_cons. naive_solver.
Qed.
