(* ===== verification/Order.v ===== *)
(** * Ordered keys and ordered maps

    Rust compares byte strings lexicographically and iterates a [BTreeMap]
    in key order.  Keys are compared by [bytes_ltb]; an ordered map is a
    [gmap] whose iteration is [bt_list], its bindings sorted by key. *)
From S2P Require Import Prelude.
From Stdlib Require Import Sorted Permutation.
Local Open Scope Z_scope.

(** ** The order of byte strings *)

Fixpoint bytes_cmp (a b : list byte) : comparison :=
  match a, b with
  | [], [] => Eq
  | [], _ :: _ => Lt
  | _ :: _, [] => Gt
  | x :: a, y :: b =>
      match byte_to_Z x ?= byte_to_Z y with
      | Eq => bytes_cmp a b
      | c => c
      end
  end.

Definition bytes_ltb (a b : list byte) : bool := match bytes_cmp a b with Lt => true | _ => false end.
Definition bytes_leb (a b : list byte) : bool := match bytes_cmp a b with Gt => false | _ => true end.

Lemma bytes_cmp_refl a : bytes_cmp a a = Eq.
Proof. induction a; simpl; [done|]. by rewrite Z.compare_refl. Qed.

Lemma bytes_cmp_eq a b : bytes_cmp a b = Eq <-> a = b.
Proof.
  split; [|intros ->; apply bytes_cmp_refl]. revert b. induction a as [|x a IH]; intros [|y b]; simpl; try done.
  destruct (Z.compare_spec (byte_to_Z x) (byte_to_Z y)) as [Hxy| |]; try done.
  intros Hab. f_equal; [by apply byte_to_Z_inj|auto].
Qed.

Lemma bytes_cmp_antisym a b : bytes_cmp b a = CompOpp (bytes_cmp a b).
Proof.
  revert b. induction a as [|x a IH]; intros [|y b]; simpl; try done.
  rewrite (Z.compare_antisym (byte_to_Z x)). by destruct (byte_to_Z x ?= byte_to_Z y); simpl.
Qed.

(** The class of key orders: a boolean strict total order. *)
Class KeyOrder (K : Type) := {
  key_ltb : K -> K -> bool;
  key_ltb_irrefl : forall a, key_ltb a a = false;
  key_ltb_trans : forall a b c, key_ltb a b = true -> key_ltb b c = true -> key_ltb a c = true;
  key_ltb_total : forall a b, key_ltb a b = false -> key_ltb b a = false -> a = b;
}.

Lemma bytes_ltb_trans a b c : bytes_ltb a b = true -> bytes_ltb b c = true -> bytes_ltb a c = true.
Proof.
  unfold bytes_ltb. revert b c. induction a as [|x a IH]; intros [|y b] [|z c]; simpl; try done.
  destruct (Z.compare_spec (byte_to_Z x) (byte_to_Z y)), (Z.compare_spec (byte_to_Z y) (byte_to_Z z)),
    (Z.compare_spec (byte_to_Z x) (byte_to_Z z)); try lia; try done. apply IH.
Qed.

#[export] Instance bytes_order : KeyOrder (list byte).
Proof.
  refine {| key_ltb := bytes_ltb |}.
  - intros a. unfold bytes_ltb. by rewrite bytes_cmp_refl.
  - apply bytes_ltb_trans.
  - intros a b. unfold bytes_ltb. rewrite (bytes_cmp_antisym a b).
    destruct (bytes_cmp a b) eqn:E; simpl; try done. by apply bytes_cmp_eq in E.
Defined.

#[export] Instance Z_order : KeyOrder Z.
Proof.
  refine {| key_ltb := Z.ltb |}; intros *; bool_to_prop; rewrite ?Z.ltb_lt, ?Z.ltb_ge; lia.
Defined.

(** [<=] on keys, as the negation of [>]. *)
Definition key_leb {K} `{KeyOrder K} (a b : K) : bool := negb (key_ltb b a).

Definition key_lt {K} `{KeyOrder K} (a b : K) : Prop := key_ltb a b = true.
Definition key_le {K} `{KeyOrder K} (a b : K) : Prop := key_leb a b = true.

Lemma bytes_leb_key a b : bytes_leb a b = key_leb a b.
Proof. unfold bytes_leb, key_leb. simpl. unfold bytes_ltb. rewrite (bytes_cmp_antisym a b). by destruct (bytes_cmp a b). Qed.

Section KeyOrder.
Context {K : Type} `{KeyOrder K}.
Implicit Types a b c : K.

#[export] Instance key_lt_dec a b : Decision (key_lt a b).
Proof. unfold key_lt. apply _. Defined.
#[export] Instance key_le_dec : RelDecision (key_le (K:=K)).
Proof. intros a b. unfold key_le. apply _. Defined.

Lemma key_lt_irrefl a : ~ key_lt a a.
Proof. unfold key_lt. by rewrite key_ltb_irrefl. Qed.

Lemma key_lt_trans a b c : key_lt a b -> key_lt b c -> key_lt a c.
Proof. apply key_ltb_trans. Qed.

Lemma key_lt_asym a b : key_lt a b -> ~ key_lt b a.
Proof. intros Hab Hba. exact (key_lt_irrefl a (key_lt_trans _ _ _ Hab Hba)). Qed.

Lemma key_lt_ne a b : key_lt a b -> a <> b.
Proof. intros Hab ->. by apply key_lt_irrefl in Hab. Qed.

Lemma key_le_not_lt a b : key_le a b <-> ~ key_lt b a.
Proof. unfold key_le, key_leb, key_lt. destruct (key_ltb b a); simpl; split; done. Qed.

Lemma key_lt_total a b : key_lt a b \/ a = b \/ key_lt b a.
Proof.
  unfold key_lt. destruct (key_ltb a b) eqn:E1; [by left|]. destruct (key_ltb b a) eqn:E2; [by right; right|].
  right; left. by apply key_ltb_total.
Qed.

Lemma key_le_lt_eq a b : key_le a b <-> key_lt a b \/ a = b.
Proof.
  rewrite key_le_not_lt. split.
  - intros Hn. destruct (key_lt_total a b) as [?|[?|?]]; [by left|by right|done].
  - intros [?| ->]; [by apply key_lt_asym|apply key_lt_irrefl].
Qed.

Lemma key_lt_le a b : key_lt a b -> key_le a b.
Proof. intros. apply key_le_lt_eq. by left. Qed.

Lemma key_le_refl a : key_le a a.
Proof. apply key_le_lt_eq. by right. Qed.

Lemma key_le_lt_trans a b c : key_le a b -> key_lt b c -> key_lt a c.
Proof. intros [Hab| ->]%key_le_lt_eq Hbc; [by eapply key_lt_trans|done]. Qed.

Lemma key_lt_le_trans a b c : key_lt a b -> key_le b c -> key_lt a c.
Proof. intros Hab [Hbc| <-]%key_le_lt_eq; [by eapply key_lt_trans|done]. Qed.

Lemma key_le_trans a b c : key_le a b -> key_le b c -> key_le a c.
Proof. intros [Hab| ->]%key_le_lt_eq Hbc; [|done]. apply key_lt_le. by eapply key_lt_le_trans. Qed.

Lemma key_le_total a b : key_le a b \/ key_le b a.
Proof. destruct (key_lt_total a b) as [?|[->|?]]; [left|left|right]; auto using key_lt_le, key_le_refl. Qed.

Lemma key_le_antisym a b : key_le a b -> key_le b a -> a = b.
Proof. intros [?| ->]%key_le_lt_eq Hba; [|done]. apply key_le_not_lt in Hba. done. Qed.

(** ** Strictly increasing lists of bindings *)

Definition keys_sorted {V} (l : list (K * V)) : Prop := StronglySorted (fun x y => key_lt x.1 y.1) l.

Lemma keys_sorted_cons {V} (x : K * V) l :
  keys_sorted (x :: l) <-> keys_sorted l /\ Forall (fun y => key_lt x.1 y.1) l.
Proof. split; [by inversion 1|intros []; by constructor]. Qed.

Lemma keys_sorted_app {V} (l1 l2 : list (K * V)) :
  keys_sorted (l1 ++ l2) <->
  keys_sorted l1 /\ keys_sorted l2 /\ forall x y, x ∈ l1 -> y ∈ l2 -> key_lt x.1 y.1.
Proof.
  induction l1 as [|x l1 IH]; simpl.
  - split; [|tauto]. intros. split; [constructor|]. split; [done|]. by intros ? ? ?%elem_of_nil.
  - rewrite !keys_sorted_cons, IH, Forall_app, !Forall_forall. setoid_rewrite elem_of_cons.
    naive_solver.
Qed.

Lemma keys_sorted_NoDup {V} (l : list (K * V)) : keys_sorted l -> NoDup l.*1.
Proof.
  induction l as [|x l IH]; [constructor|]. rewrite keys_sorted_cons. intros [Hl Hx]. simpl. constructor; [|auto].
  intros (y & Hxy & Hy)%list_elem_of_fmap. rewrite Forall_forall in Hx. specialize (Hx y Hy).
  rewrite <- Hxy in Hx. by apply key_lt_irrefl in Hx.
Qed.

Lemma keys_sorted_unique {V} (l : list (K * V)) k v w :
  keys_sorted l -> (k, v) ∈ l -> (k, w) ∈ l -> v = w.
Proof.
  intros Hs. apply keys_sorted_NoDup in Hs. induction l as [|[k' u] l IH]; simpl in *; [by intros ?%elem_of_nil|].
  apply NoDup_cons in Hs as [Hk Hs]. rewrite !elem_of_cons.
  intros [[= -> ->]|Hv] [[= <-]|Hw]; [done| | |auto].
  - intros. destruct Hk. by apply (list_elem_of_fmap_2 fst _ (k', w)).
  - destruct Hk. subst. by apply (list_elem_of_fmap_2 fst _ (k, v)).
Qed.

Lemma keys_sorted_ext {V} (l1 l2 : list (K * V)) :
  keys_sorted l1 -> keys_sorted l2 -> (forall x, x ∈ l1 <-> x ∈ l2) -> l1 = l2.
Proof.
  revert l2. induction l1 as [|x l1 IH]; intros l2 H1 H2 Heq.
  - destruct l2 as [|y l2]; [done|]. destruct (not_elem_of_nil y). apply Heq. left.
  - destruct l2 as [|y l2]; [destruct (not_elem_of_nil x); apply Heq; left|].
    apply keys_sorted_cons in H1 as [H1 Hx]. apply keys_sorted_cons in H2 as [H2 Hy].
    rewrite Forall_forall in Hx, Hy.
    assert (x = y) as ->.
    { pose proof (proj1 (Heq x) ltac:(left)) as [->|Hxin]%elem_of_cons; [done|].
      pose proof (proj2 (Heq y) ltac:(left)) as [->|Hyin]%elem_of_cons; [done|].
      destruct (key_lt_asym _ _ (Hx y Hyin) (Hy x Hxin)). }
    f_equal. apply IH; [done..|]. intros z. split; intros Hz.
    + pose proof (proj1 (Heq z) ltac:(by right)) as [->|]%elem_of_cons; [|done].
      destruct (key_lt_irrefl y.1). exact (Hx y Hz).
    + pose proof (proj2 (Heq z) ltac:(by right)) as [->|]%elem_of_cons; [|done].
      destruct (key_lt_irrefl y.1). exact (Hy y Hz).
Qed.
End KeyOrder.

(** ** [BTreeMap] iteration *)

Section OrderedMap.
Context {K : Type} `{Countable K} `{!KeyOrder K} {V : Type}.
Implicit Types m : gmap K V.

Definition binding_le (x y : K * V) : Prop := key_le x.1 y.1.

#[local] Instance binding_le_dec : RelDecision binding_le.
Proof. intros x y. unfold binding_le. apply _. Defined.
#[local] Instance binding_le_total : Total binding_le.
Proof. intros x y. apply key_le_total. Qed.
#[local] Instance binding_le_trans : Transitive binding_le.
Proof. intros x y z. apply key_le_trans. Qed.

(** [m.iter()]: the bindings in key order. *)
Definition bt_list m : list (K * V) := merge_sort binding_le (map_to_list m).

(** [m.pop_first()]'s binding. *)
Definition bt_first m : option (K * V) := head (bt_list m).

Lemma bt_list_perm m : bt_list m ≡ₚ map_to_list m.
Proof. apply merge_sort_Permutation. Qed.

Lemma elem_of_bt_list m k v : (k, v) ∈ bt_list m <-> m !! k = Some v.
Proof. rewrite bt_list_perm. apply elem_of_map_to_list. Qed.

Lemma bt_list_sorted m : keys_sorted (bt_list m).
Proof.
  assert (StronglySorted binding_le (bt_list m)) as Hs by (apply (StronglySorted_merge_sort binding_le)).
  assert (NoDup (bt_list m).*1) as Hnd.
  { rewrite (Permutation_map fst (bt_list_perm m)). apply NoDup_fst_map_to_list. }
  induction (bt_list m) as [|x l IH]; [constructor|]. inversion Hs as [|? ? Hl Hx]; subst.
  simpl in Hnd. apply NoDup_cons in Hnd as [Hnx Hnd]. apply keys_sorted_cons. split; [auto|].
  rewrite Forall_forall in *. intros y Hy. specialize (Hx y Hy).
  apply key_le_lt_eq in Hx as [?|Hxy]; [done|]. destruct Hnx. rewrite Hxy. by apply list_elem_of_fmap_2.
Qed.

Lemma bt_list_unique m (l : list (K * V)) :
  keys_sorted l -> (forall k v, (k, v) ∈ l <-> m !! k = Some v) -> bt_list m = l.
Proof.
  intros Hl Hin. apply keys_sorted_ext; [apply bt_list_sorted|done|]. intros [k v]. by rewrite elem_of_bt_list, Hin.
Qed.

Lemma bt_first_None m : bt_first m = None -> m = ∅.
Proof.
  unfold bt_first. destruct (bt_list m) as [|x l] eqn:E; [|done]. intros _. apply map_eq. intros k.
  rewrite lookup_empty. destruct (m !! k) as [v|] eqn:Hk; [|done]. apply elem_of_bt_list in Hk. rewrite E in Hk.
  by apply not_elem_of_nil in Hk.
Qed.

Lemma bt_list_empty : bt_list ∅ = [].
Proof. unfold bt_list. by rewrite map_to_list_empty. Qed.

(** Removing the first binding drops the head of the iteration. *)
Lemma bt_list_pop m k v l : bt_list m = (k, v) :: l -> bt_list (delete k m) = l.
Proof.
  intros E. pose proof (bt_list_sorted m) as Hs. rewrite E in Hs.
  pose proof (keys_sorted_NoDup _ Hs) as Hnd. apply keys_sorted_cons in Hs as [Hs _].
  apply bt_list_unique; [done|]. intros k' v'. rewrite lookup_delete_Some, <- (elem_of_bt_list m), E, elem_of_cons.
  simpl in Hnd. apply NoDup_cons in Hnd as [Hk _]. split.
  - intros Hin. split; [|by right]. intros ->. destruct Hk. by apply (list_elem_of_fmap_2 fst _ (k', v')).
  - intros [Hne [[=]|]]; [|done]. by subst.
Qed.

Lemma bt_list_delete m k : bt_list (delete k m) = filter (fun x => x.1 <> k) (bt_list m).
Proof.
  apply bt_list_unique.
  - pose proof (bt_list_sorted m) as Hs. induction (bt_list m) as [|x l IH]; [constructor|].
    apply keys_sorted_cons in Hs as [Hs Hx]. rewrite filter_cons. destruct (decide _); [|auto].
    apply keys_sorted_cons. split; [auto|]. rewrite Forall_forall in *. intros y [_ Hy]%list_elem_of_filter. auto.
  - intros k' v. rewrite list_elem_of_filter, elem_of_bt_list, lookup_delete_Some. simpl. naive_solver.
Qed.

Lemma bt_list_insert_last m k v :
  (forall k' v', m !! k' = Some v' -> key_lt k' k) -> bt_list (<[k:=v]> m) = bt_list m ++ [(k, v)].
Proof.
  intros Hlt. apply bt_list_unique.
  - apply keys_sorted_app. split; [apply bt_list_sorted|]. split; [repeat constructor|].
    intros [k' v'] y Hx%elem_of_bt_list ->%list_elem_of_singleton. simpl. eauto.
  - intros k' v'. rewrite elem_of_app, elem_of_bt_list, list_elem_of_singleton, lookup_insert_Some.
    split; [intros [Hk|[= -> ->]]|intros [[-> ->]|[? ?]]]; auto.
    destruct (decide (k = k')) as [->|]; [|auto]. destruct (key_lt_irrefl k'). eauto.
Qed.

(** ** Changing one binding in the middle of the iteration *)

Lemma bt_list_length m : length (bt_list m) = size m.
Proof. rewrite bt_list_perm. apply length_map_to_list. Qed.

Lemma bt_split_around m l1 k v l2 :
  bt_list m = l1 ++ (k, v) :: l2 ->
  (forall x, x ∈ l1 -> key_lt x.1 k) /\ (forall x, x ∈ l2 -> key_lt k x.1).
Proof.
  intros E. pose proof (bt_list_sorted m) as Hs. rewrite E in Hs.
  apply keys_sorted_app in Hs as (_ & [_ Hr]%keys_sorted_cons & Hl). rewrite Forall_forall in Hr.
  split; [|exact Hr]. intros x Hx. apply (Hl x (k, v)); [done|by left].
Qed.

Lemma bt_list_middle m' l1 k v l2 :
  keys_sorted (l1 ++ l2) -> (forall x, x ∈ l1 -> key_lt x.1 k) -> (forall x, x ∈ l2 -> key_lt k x.1) ->
  (forall k' v', k' <> k -> (k', v') ∈ l1 ++ l2 <-> m' !! k' = Some v') -> m' !! k = Some v ->
  bt_list m' = l1 ++ (k, v) :: l2.
Proof.
  intros (Hs1 & Hs2 & Hlt)%keys_sorted_app Hb Ha Hin Hk. apply bt_list_unique.
  - apply keys_sorted_app. split; [done|]. split; [apply keys_sorted_cons; by rewrite Forall_forall|].
    intros x y Hx [->|Hy]%elem_of_cons; [by apply Hb|by apply Hlt].
  - intros k' v'. rewrite elem_of_app, elem_of_cons. destruct (decide (k' = k)) as [->|Hne].
    + split; [|intros Hv; rewrite Hk in Hv; injection Hv as ->; auto].
      intros [Hx|[[= ->]|Hx]]; [destruct (key_lt_irrefl k); exact (Hb _ Hx)|done|destruct (key_lt_irrefl k); exact (Ha _ Hx)].
    + rewrite <- Hin, elem_of_app by done. naive_solver.
Qed.

Lemma bt_list_update m l1 k v w l2 :
  bt_list m = l1 ++ (k, v) :: l2 -> bt_list (<[k:=w]> m) = l1 ++ (k, w) :: l2.
Proof.
  intros E. destruct (bt_split_around _ _ _ _ _ E) as [Hb Ha]. apply bt_list_middle; [|done|done| |by rewrite lookup_insert_eq].
  - pose proof (bt_list_sorted m) as Hs. rewrite E in Hs. apply keys_sorted_app in Hs as (Hs1 & [Hs2 _]%keys_sorted_cons & Hlt).
    apply keys_sorted_app. split; [done|]. split; [done|]. intros x y Hx Hy. apply Hlt; [done|by right].
  - intros k' v' Hne. rewrite lookup_insert_ne by done. rewrite <- (elem_of_bt_list m), E, !elem_of_app, elem_of_cons. naive_solver.
Qed.

Lemma bt_list_insert m l1 k v l2 :
  bt_list m = l1 ++ l2 -> (forall x, x ∈ l1 -> key_lt x.1 k) -> (forall x, x ∈ l2 -> key_lt k x.1) ->
  bt_list (<[k:=v]> m) = l1 ++ (k, v) :: l2.
Proof.
  intros E Hb Ha. pose proof (bt_list_sorted m) as Hs. rewrite E in Hs.
  apply bt_list_middle; [done..| |by rewrite lookup_insert_eq].
  intros k' v' Hne. rewrite lookup_insert_ne by done. by rewrite <- (elem_of_bt_list m), E.
Qed.

Lemma bt_list_remove m l1 k v l2 : bt_list m = l1 ++ (k, v) :: l2 -> bt_list (delete k m) = l1 ++ l2.
Proof.
  intros E. destruct (bt_split_around _ _ _ _ _ E) as [Hb Ha]. pose proof (bt_list_sorted m) as Hs. rewrite E in Hs.
  apply keys_sorted_app in Hs as (Hs1 & [Hs2 _]%keys_sorted_cons & Hlt). apply bt_list_unique.
  - apply keys_sorted_app. split; [done|]. split; [done|]. intros x y Hx Hy. apply Hlt; [done|by right].
  - intros k' v'. rewrite lookup_delete_Some, <- (elem_of_bt_list m), E, !elem_of_app, elem_of_cons.
    split; [|naive_solver]. intros [Hx|Hx]; (split; [intros ->; apply (key_lt_irrefl k')|auto]); [exact (Hb _ Hx)|exact (Ha _ Hx)].
Qed.

Lemma bt_absent m l1 l2 k :
  bt_list m = l1 ++ l2 -> (forall x, x ∈ l1 -> key_lt x.1 k) -> (forall x, x ∈ l2 -> key_lt k x.1) -> m !! k = None.
Proof.
  intros E Hb Ha. destruct (m !! k) as [v|] eqn:Hk; [|done]. apply elem_of_bt_list in Hk. rewrite E in Hk.
  apply elem_of_app in Hk as [Hk|Hk]; destruct (key_lt_irrefl k); [exact (Hb _ Hk)|exact (Ha _ Hk)].
Qed.
End OrderedMap.
