(* ===== verification/Page.v ===== *)
(** * Pages and storage errors

    Models [src/storage/src/page.rs] (the 8192-byte page image: its header
    fields, its CRC and its payload) and the error type of
    [src/storage/src/error.rs].  The checksum is the external crate
    [crc32fast]; it is the parameter of the class [Crc32]. *)
From S2P Require Import Prelude.
Local Open Scope Z_scope.

(** ** The external checksum

    [crc32fast::Hasher]: feeding the slices of a message in turn and
    finalizing gives a [u32] that depends on the concatenation alone. *)
Class Crc32 := {
  crc32 : list byte -> Z;
  crc32_u32 : forall l, is_u32 (crc32 l);
}.

(** A checksum to evaluate the model with: the sum of the bytes. *)
Definition byte_sum (l : list byte) : Z := foldr (fun b a => (byte_to_Z b + a) mod 2 ^ 32) 0 l.

Lemma byte_sum_u32 l : is_u32 (byte_sum l).
Proof.
  unfold is_u32, U32_MAX. destruct l as [|b l]; cbn [byte_sum foldr]; [lia|].
  pose proof (Z.mod_pos_bound (byte_to_Z b + foldr (fun b a => (byte_to_Z b + a) mod 2 ^ 32) 0 l) (2 ^ 32)). lia.
Qed.

Definition sum_crc : Crc32 := {| crc32 := byte_sum; crc32_u32 := byte_sum_u32 |}.

(** ** Errors *)

(** A page's corruption reasons, one constructor per message of the source. *)
Inductive page_fault :=
| InvalidPageMagic
| UnsupportedPageVersion (version : Z)
| PageChecksumMismatch (stored computed : Z)
| PayloadExceedsCapacity (payload_length : Z)
| HeaderContainsId (id : Z).

(** The reasons a log operation is refused. *)
Inductive wal_fault :=
| LogOffsetOverflow
| LogSizeOverflow
| RotationNeedsEmptySpare
| NoRetiredSegment
| BatchCommitEmpty
| BatchPageCountExceedsU32
| LsnSpaceExhausted
| RecordLengthOverflow
| RecordTooLargeForLog
| BatchDeclaresMoreThanPending (page_count pending : Z)
| UnexpectedCheckpoint.

Inductive config_fault :=
| PageReservationExceedsU64
| PageIdSpaceExhausted
| SinglePageWriteNoLsn
| CheckpointWhileBackground
| BackgroundAlreadyInFlight
| ZeroBufferPool
| ZeroQueueDepth
| ZeroBatchPages
| ZeroDelay.

(** Messages of the [GroupCommit] variant that do not wrap another error. *)
Inductive group_message :=
| WorkerPanicked
| CheckpointPanicked
| StoreMutexPoisoned
| NoManifestPage
| TooFewLsns (lsns writes : Z).

Inductive StorageError :=
| Io
| PageTooLarge (actual maximum : Z)
| InvalidPageLength (actual expected : Z)
| CorruptPage (page_id : Z) (reason : page_fault)
| CorruptDataFile (reason : string)
| CorruptWal (offset : Z) (reason : wal_fault)
| PageNotFound (page_id : Z)
| BufferPoolExhausted (capacity : Z)
| AlreadyOpen
| Configuration (reason : config_fault)
| CommitCoordinatorStopped
| GroupCommitFailed (cause : StorageError)
| GroupCommit (reason : group_message)
| Poisoned.

Abbreviation Result := (result StorageError).

(** ** The page *)

Definition PAGE_SIZE : Z := 8 * 1024.
Definition PAGE_HEADER_SIZE : Z := 64.
Definition MAX_PAGE_PAYLOAD : Z := PAGE_SIZE - PAGE_HEADER_SIZE.

Definition PAGE_MAGIC : list byte := bytes_of_string "QNPG".
Definition PAGE_FORMAT_VERSION : Z := 1.
Definition MAGIC_OFFSET : Z := 0.
Definition VERSION_OFFSET : Z := 4.
Definition PAGE_ID_OFFSET : Z := 8.
Definition LSN_OFFSET : Z := 16.
Definition PAYLOAD_LENGTH_OFFSET : Z := 24.
Definition CHECKSUM_OFFSET : Z := 28.

(** [PageId] and [Lsn] are newtypes of [u64]. *)
Abbreviation PageId := Z.
Abbreviation Lsn := Z.

Record Page := mkPage {
  id : PageId;
  lsn : Lsn;
  payload : list byte;
}.

#[export] Instance Page_eq_dec : EqDecision Page.
Proof. solve_decision. Defined.

Definition with_lsn (i : PageId) (l : Lsn) (p : list byte) : Result Page :=
  if MAX_PAGE_PAYLOAD <? blen p
  then Err (PageTooLarge (blen p) MAX_PAGE_PAYLOAD)
  else Ok (mkPage i l p).

Definition new_page (i : PageId) (p : list byte) : Result Page := with_lsn i 0 p.

(** A page the constructor can build from [u64] numbers. *)
Definition page_ok (p : Page) : Prop :=
  is_u64 (id p) /\ is_u64 (lsn p) /\ blen (payload p) <= MAX_PAGE_PAYLOAD.

Section Codec.
Context `{Crc32}.

Definition checksum_with_zeroed_field (bytes : list byte) : Z :=
  crc32 (slice bytes 0 CHECKSUM_OFFSET ++ zeros 4
         ++ slice bytes (CHECKSUM_OFFSET + 4) (blen bytes - (CHECKSUM_OFFSET + 4))).

(** The image before its checksum is written. *)
Definition encode_unsealed (p : Page) : list byte :=
  let bytes := zeros PAGE_SIZE in
  let bytes := put bytes MAGIC_OFFSET PAGE_MAGIC in
  let bytes := write_u16 bytes VERSION_OFFSET PAGE_FORMAT_VERSION in
  let bytes := write_u64 bytes PAGE_ID_OFFSET (id p) in
  let bytes := write_u64 bytes LSN_OFFSET (lsn p) in
  let bytes := write_u32 bytes PAYLOAD_LENGTH_OFFSET (blen (payload p)) in
  put bytes PAGE_HEADER_SIZE (payload p).

Definition encode (p : Page) : list byte :=
  let bytes := encode_unsealed p in
  write_u32 bytes CHECKSUM_OFFSET (checksum_with_zeroed_field bytes).

Definition decode (bytes : list byte) : Result Page :=
  if negb (blen bytes =? PAGE_SIZE) then Err (InvalidPageLength (blen bytes) PAGE_SIZE)
  else
    let page_id := read_u64 bytes PAGE_ID_OFFSET in
    if negb (bool_decide (slice bytes MAGIC_OFFSET 4 = PAGE_MAGIC))
    then Err (CorruptPage page_id InvalidPageMagic)
    else
      let version := read_u16 bytes VERSION_OFFSET in
      if negb (version =? PAGE_FORMAT_VERSION)
      then Err (CorruptPage page_id (UnsupportedPageVersion version))
      else
        let expected_checksum := read_u32 bytes CHECKSUM_OFFSET in
        let actual_checksum := checksum_with_zeroed_field bytes in
        if negb (expected_checksum =? actual_checksum)
        then Err (CorruptPage page_id (PageChecksumMismatch expected_checksum actual_checksum))
        else
          let payload_length := read_u32 bytes PAYLOAD_LENGTH_OFFSET in
          if MAX_PAGE_PAYLOAD <? payload_length
          then Err (CorruptPage page_id (PayloadExceedsCapacity payload_length))
          else Ok (mkPage page_id (read_u64 bytes LSN_OFFSET)
                          (slice bytes PAGE_HEADER_SIZE payload_length)).
End Codec.

(** ** Codec lemmas *)

Ltac page_consts :=
  unfold PAGE_SIZE, PAGE_HEADER_SIZE, MAX_PAGE_PAYLOAD, MAGIC_OFFSET, VERSION_OFFSET,
    PAGE_ID_OFFSET, LSN_OFFSET, PAYLOAD_LENGTH_OFFSET, CHECKSUM_OFFSET,
    PAGE_SIZE, PAGE_HEADER_SIZE in *.

Section CodecLemmas.
Context `{Crc32}.

Lemma length_PAGE_MAGIC : blen PAGE_MAGIC = 4.
Proof. done. Qed.

Lemma length_encode_unsealed p :
  blen (payload p) <= MAX_PAGE_PAYLOAD -> blen (encode_unsealed p) = PAGE_SIZE.
Proof.
  intros. pose proof length_PAGE_MAGIC. unfold encode_unsealed, write_u16, write_u32, write_u64.
  page_consts. buf_len.
Qed.

Lemma length_encode p : blen (payload p) <= MAX_PAGE_PAYLOAD -> blen (encode p) = PAGE_SIZE.
Proof.
  intros. unfold encode, write_u32. pose proof (length_encode_unsealed p ltac:(done)).
  page_consts. buf_len.
Qed.

(** Writing the checksum field does not change the checksum. *)
Lemma checksum_write_field bytes v :
  CHECKSUM_OFFSET + 4 <= blen bytes ->
  checksum_with_zeroed_field (write_u32 bytes CHECKSUM_OFFSET v) = checksum_with_zeroed_field bytes.
Proof.
  intros Hl. unfold checksum_with_zeroed_field, write_u32. page_consts.
  rewrite length_put by (rewrite ?length_to_le; lia).
  rewrite !slice_put_ne by (rewrite ?length_to_le; lia). done.
Qed.

Lemma encode_field_checksum p :
  blen (payload p) <= MAX_PAGE_PAYLOAD ->
  read_u32 (encode p) CHECKSUM_OFFSET = checksum_with_zeroed_field (encode p).
Proof.
  intros Hp. pose proof (length_encode_unsealed p Hp) as Hl. unfold encode.
  rewrite checksum_write_field by (rewrite Hl; page_consts; lia).
  rewrite read_u32_write_eq; [done|apply crc32_u32|page_consts; lia|rewrite Hl; page_consts; lia].
Qed.

(** The unsealed image's fields, which the checksum does not overlap. *)
Lemma encode_fields p :
  page_ok p ->
  slice (encode p) MAGIC_OFFSET 4 = PAGE_MAGIC /\
  read_u16 (encode p) VERSION_OFFSET = PAGE_FORMAT_VERSION /\
  read_u64 (encode p) PAGE_ID_OFFSET = id p /\
  read_u64 (encode p) LSN_OFFSET = lsn p /\
  read_u32 (encode p) PAYLOAD_LENGTH_OFFSET = blen (payload p) /\
  slice (encode p) PAGE_HEADER_SIZE (blen (payload p)) = payload p.
Proof.
  intros (Hi & Hn & Hp). unfold is_u64, U64_MAX in *.
  pose proof length_PAGE_MAGIC as HM.
  unfold encode, encode_unsealed, PAGE_FORMAT_VERSION. page_consts.
  split_and!; buf_read; done.
Qed.

Lemma decode_encode p : page_ok p -> decode (encode p) = Ok p.
Proof.
  intros Hp. pose proof Hp as (_ & _ & Hl).
  destruct (encode_fields p Hp) as (Hm & Hv & Hi & Hn & Hpl & Hs).
  unfold decode. rewrite length_encode by done. rewrite Z.eqb_refl. cbn [negb].
  rewrite Hm, Hv, Hi, Hn, Hpl, Hs, encode_field_checksum by done.
  rewrite bool_decide_true, !Z.eqb_refl by done. cbn [negb].
  replace (_ <? _) with false by lia. by destruct p.
Qed.

Lemma decode_ok bytes p : decode bytes = Ok p -> page_ok p.
Proof.
  unfold decode. intros Hd. repeat case_step; simplify_eq. bool_to_prop.
  split_and!; try apply read_u64_range. cbn [payload].
  pose proof (read_u32_range bytes PAYLOAD_LENGTH_OFFSET) as [? _]. page_consts.
  rewrite length_slice by lia. lia.
Qed.
End CodecLemmas.
