(* ===== verification/Files.v ===== *)
(** * Files and their durability

    The operating-system files that [data_file.rs] and [wal.rs] use through
    [std::fs::File]: positional reads and writes, [set_len], [sync_data].
    A file is a length and a total function from offsets to bytes; a byte
    at or past the length reads as zero, so a hole left by [set_len] or by
    a write past the end is a run of zeros.  An [osfile] keeps what the
    process sees ([cached]) beside what the last sync made durable
    ([synced]) and the states in between ([history], newest first), any
    part of which a crash may leave on disk. *)
From S2P Require Import Prelude.
Local Open Scope Z_scope.

Record file := mkFile {
  f_len : Z;
  f_byte : Z -> byte;
}.

Definition empty_file : file := mkFile 0 (fun _ => x00).

(** The byte at an offset: zero past the end. *)
Definition file_byte (f : file) (i : Z) : byte :=
  if (0 <=? i) && (i <? f_len f) then f_byte f i else x00.

Definition file_read (f : file) (off n : Z) : list byte :=
  map (fun i => file_byte f (off + Z.of_nat i)) (seq 0 (Z.to_nat n)).

Definition file_write (f : file) (off : Z) (bs : list byte) : file :=
  mkFile (if bool_decide (bs = []) then f_len f else Z.max (f_len f) (off + blen bs))
    (fun i => if (off <=? i) && (i <? off + blen bs) then nth (Z.to_nat (i - off)) bs x00
              else file_byte f i).

(** Zeros written over a range, as one write. *)
Definition file_zero (f : file) (from to : Z) : file :=
  if from <? to
  then mkFile (Z.max (f_len f) to)
         (fun i => if (from <=? i) && (i <? to) then x00 else file_byte f i)
  else f.

Definition file_set_len (f : file) (n : Z) : file := mkFile n (file_byte f).

Record osfile := mkOs {
  cached : file;
  synced : file;
  history : list file;
}.

Definition os_empty : osfile := mkOs empty_file empty_file [].

(** A write, a [set_len]: visible at once, durable at the next sync. *)
Definition os_update (o : osfile) (g : file -> file) : osfile :=
  mkOs (g (cached o)) (synced o) (g (cached o) :: history o).

(** [sync_data] and [sync_all]. *)
Definition os_sync (o : osfile) : osfile := mkOs (cached o) (cached o) [].

(** The file as another process start finds it. *)
Definition os_reopen (f : file) : osfile := mkOs f f [].

(** The states a crash may mix. *)
Definition states (o : osfile) : list file := synced o :: history o.

(** A crash image: each byte is the byte of some state since the last sync,
    and the length lies between the lengths of two of them. *)
Definition crashed (o : osfile) (f : file) : Prop :=
  (forall i, exists g, g ∈ states o /\ file_byte f i = file_byte g i) /\
  (exists g h, g ∈ states o /\ h ∈ states o /\ f_len g <= f_len f <= f_len h).

(** The newest state is what the process sees. *)
Definition os_ok (o : osfile) : Prop :=
  match history o with [] => cached o = synced o | g :: _ => cached o = g end.

(** ** Lemmas *)

Lemma length_file_read f off n : 0 <= n -> blen (file_read f off n) = n.
Proof. intros. unfold file_read. rewrite length_map, length_seq. lia. Qed.

Lemma lookup_file_read f off n i :
  file_read f off n !! i =
    if bool_decide (i < Z.to_nat n)%nat then Some (file_byte f (off + Z.of_nat i)) else None.
Proof.
  unfold file_read. change (@map nat byte) with (fmap (M := list) (A := nat) (B := byte)).
  rewrite list_lookup_fmap.
  case_bool_decide.
  - by rewrite lookup_seq_lt by lia.
  - by rewrite lookup_seq_ge by lia.
Qed.

Lemma file_read_ext f g off n :
  (forall i, off <= i < off + n -> file_byte f i = file_byte g i) ->
  file_read f off n = file_read g off n.
Proof.
  intros Hext. apply list_eq. intros i. rewrite !lookup_file_read.
  case_bool_decide; [|done]. f_equal. apply Hext. lia.
Qed.

Lemma slice_file_read f off n o m :
  0 <= o -> 0 <= m -> o + m <= n -> slice (file_read f off n) o m = file_read f (off + o) m.
Proof.
  intros. apply list_eq. intros i. rewrite lookup_slice, !lookup_file_read.
  case_bool_decide; [|done]. rewrite bool_decide_true by lia. f_equal. f_equal. lia.
Qed.

Lemma file_read_app f off n m :
  0 <= n -> 0 <= m -> file_read f off (n + m) = file_read f off n ++ file_read f (off + n) m.
Proof.
  intros. pose proof (length_file_read f off n ltac:(lia)) as Hl.
  apply list_eq. intros i. destruct (decide (i < Z.to_nat n)%nat).
  - rewrite lookup_app_l by lia. rewrite !lookup_file_read, !bool_decide_true by lia. done.
  - rewrite lookup_app_r by lia. rewrite !lookup_file_read.
    case_bool_decide; [rewrite bool_decide_true by lia; f_equal; f_equal; lia|].
    by rewrite bool_decide_false by lia.
Qed.

Lemma f_len_write f off bs :
  f_len (file_write f off bs) =
    if bool_decide (bs = []) then f_len f else Z.max (f_len f) (off + blen bs).
Proof. done. Qed.

Lemma f_len_write_le f off bs :
  0 <= off -> f_len f <= f_len (file_write f off bs).
Proof. intros. rewrite f_len_write. case_bool_decide; lia. Qed.

Lemma file_byte_write f off bs i :
  0 <= off ->
  file_byte (file_write f off bs) i =
    if (off <=? i) && (i <? off + blen bs) then nth (Z.to_nat (i - off)) bs x00
    else file_byte f i.
Proof.
  intros Ho. unfold file_byte at 1. rewrite f_len_write. cbn [f_byte file_write].
  destruct ((off <=? i) && (i <? off + blen bs)) eqn:E.
  - bool_to_prop. rewrite bool_decide_false by (intros ->; simpl in *; lia).
    replace (0 <=? i) with true by lia.
    replace (i <? _) with true by lia. done.
  - unfold file_byte. destruct (0 <=? i) eqn:Hi; [|done]. simpl.
    destruct (i <? f_len f) eqn:Hf; [|by destruct (i <? (if bool_decide _ then _ else _))].
    replace (i <? _) with true; [done|]. symmetry. apply Z.ltb_lt.
    bool_to_prop. case_bool_decide; lia.
Qed.

Lemma file_byte_write_lt f off bs i :
  0 <= off -> i < off -> file_byte (file_write f off bs) i = file_byte f i.
Proof. intros. rewrite file_byte_write by done. by replace (_ && _) with false by lia. Qed.

Lemma file_read_write_eq f off bs n :
  n = blen bs -> 0 <= off -> file_read (file_write f off bs) off n = bs.
Proof.
  intros -> Ho. apply list_eq. intros i. rewrite lookup_file_read. case_bool_decide.
  - rewrite file_byte_write by done.
    replace (_ && _) with true by lia.
    replace (Z.to_nat (off + Z.of_nat i - off)) with i by lia.
    symmetry. destruct (nth_lookup_or_length bs i x00); [done|lia].
  - symmetry. apply lookup_ge_None. lia.
Qed.

Lemma file_read_write_ne f off bs o n :
  0 <= off -> (o + n <= off \/ off + blen bs <= o) ->
  file_read (file_write f off bs) o n = file_read f o n.
Proof.
  intros Ho Hd. apply file_read_ext. intros i Hi. rewrite file_byte_write by done.
  by replace (_ && _) with false by lia.
Qed.

Lemma file_byte_set_len f n i :
  file_byte (file_set_len f n) i = if i <? n then file_byte f i else x00.
Proof.
  unfold file_byte at 1. cbn [f_len f_byte file_set_len].
  destruct (i <? n); rewrite ?andb_true_r, ?andb_false_r; [|done].
  destruct (0 <=? i) eqn:E; [done|]. unfold file_byte. by rewrite E.
Qed.

Lemma file_read_set_len f n o m :
  o + m <= n -> file_read (file_set_len f n) o m = file_read f o m.
Proof.
  intros. apply file_read_ext. intros i Hi. rewrite file_byte_set_len.
  by replace (i <? n) with true by lia.
Qed.

Lemma f_len_zero_le f from to : f_len f <= f_len (file_zero f from to).
Proof. unfold file_zero. case_step; cbn [f_len]; lia. Qed.

Lemma file_byte_zero f from to i :
  0 <= from ->
  file_byte (file_zero f from to) i =
    if (from <=? i) && (i <? to) then x00 else file_byte f i.
Proof.
  intros Hf. unfold file_zero. destruct (from <? to) eqn:Hlt; bool_to_prop.
  - unfold file_byte at 1. cbn [f_len f_byte].
    destruct ((from <=? i) && (i <? to)) eqn:E; [by case_step|].
    unfold file_byte. destruct (0 <=? i); [|done]. simpl.
    destruct (i <? f_len f) eqn:E2; [|by destruct (i <? Z.max _ _)].
    replace (i <? Z.max _ _) with true; [done|]. bool_to_prop. lia.
  - by replace (_ && _) with false by lia.
Qed.

Lemma file_read_zero_ne f from to o n :
  0 <= from -> (o + n <= from \/ to <= o) ->
  file_read (file_zero f from to) o n = file_read f o n.
Proof.
  intros Hf Hd. apply file_read_ext. intros i Hi. rewrite file_byte_zero by done.
  by replace (_ && _) with false by lia.
Qed.

(** A range past the end of a file reads as zeros. *)
Lemma file_read_past f off n :
  f_len f <= off -> file_read f off n = zeros n.
Proof.
  intros Hl. apply list_eq. intros i. rewrite lookup_file_read, lookup_zeros.
  case_bool_decide; [|done]. f_equal. unfold file_byte. by replace (_ && _) with false by lia.
Qed.

Global Opaque file_read.
