(* ===== verification/DataFile.v ===== *)
(** * The data file

    Models [src/storage/src/data_file.rs]: pages at the offset their ID
    gives, holes that read as absent pages, and the checks a read makes.
    The file is an [osfile]: [write] changes what the process sees, [sync]
    makes it durable. *)
From S2P Require Import Prelude Page Files.
Local Open Scope Z_scope.

Abbreviation DataFile := osfile.

Definition page_offset (page_id : PageId) : Result Z :=
  ok_or (checked_mul U64_MAX page_id PAGE_SIZE) (CorruptDataFile "page offset overflow").

(** [DataFile::open]: a partial final page is a torn append and is cut. *)
Definition open_data (d : DataFile) : DataFile :=
  let length := f_len (cached d) in
  let complete_length := length - length mod PAGE_SIZE in
  if negb (complete_length =? length)
  then os_update d (fun f => file_set_len f complete_length)
  else d.

Section DataFile.
Context `{Crc32}.

Definition read_shared (f : file) (page_id : PageId) : Result (option Page) :=
  offset ← page_offset page_id;
  if f_len f <? saturating_add U64_MAX offset PAGE_SIZE then Ok None
  else
    let bytes := file_read f offset PAGE_SIZE in
    if all_zero bytes then Ok None
    else
      page ← decode bytes;
      if negb (id page =? page_id) then Err (CorruptPage page_id (HeaderContainsId (id page)))
      else Ok (Some page).

Definition read (d : DataFile) (page_id : PageId) : Result (option Page) :=
  read_shared (cached d) page_id.

Definition write (d : DataFile) (page : Page) : Result DataFile :=
  offset ← page_offset (id page);
  Ok (os_update d (fun f => file_write f offset (encode page))).

Definition sync (d : DataFile) : DataFile := os_sync d.

Definition page_count (d : DataFile) : Z := f_len (cached d) / PAGE_SIZE.

Definition max_lsn (d : DataFile) : Result Z :=
  try_fold (fun maximum raw_page_id =>
              o ← read d raw_page_id;
              Ok (match o with Some page => Z.max maximum (lsn page) | None => maximum end))
    0 (seqZ 0 (page_count d)).
End DataFile.

(** ** The representation invariant: whole pages *)

Definition whole_pages (f : file) : Prop := 0 <= f_len f /\ f_len f mod PAGE_SIZE = 0.
Definition data_ok (d : DataFile) : Prop := whole_pages (cached d).

(** The page IDs whose offset fits a file. *)
Definition valid_id (page_id : PageId) : Prop := 0 <= page_id /\ (page_id + 1) * PAGE_SIZE <= U64_MAX.

Section DataFileLemmas.
Context `{Crc32}.

Lemma page_offset_valid i : valid_id i -> page_offset i = Ok (i * PAGE_SIZE).
Proof.
  intros [Hi Hm]. unfold page_offset, checked_mul, PAGE_SIZE in *.
  by replace (_ <=? _) with true by lia.
Qed.

Lemma open_data_ok d : 0 <= f_len (cached d) -> data_ok (open_data d).
Proof.
  intros Hl. unfold data_ok, whole_pages, open_data, PAGE_SIZE.
  pose proof (Z.mod_pos_bound (f_len (cached d)) (8 * 1024) ltac:(lia)).
  pose proof (Z.div_mod (f_len (cached d)) (8 * 1024) ltac:(lia)) as E.
  destruct (negb _) eqn:Eq; cbn [cached os_update f_len file_set_len].
  - split; [lia|].
    replace (f_len (cached d) - _) with ((f_len (cached d) / (8*1024)) * (8 * 1024)) by lia.
    apply Z.mod_mul. lia.
  - bool_to_prop. lia.
Qed.

Lemma whole_pages_write f i bs :
  valid_id i -> blen bs = PAGE_SIZE -> whole_pages f -> whole_pages (file_write f (i * PAGE_SIZE) bs).
Proof.
  intros [Hi _] Hl [Hf Hm]. unfold whole_pages. rewrite f_len_write, Hl.
  rewrite bool_decide_false by (intros ->; unfold PAGE_SIZE in Hl; simpl in Hl; lia).
  unfold PAGE_SIZE in *. split; [lia|].
  destruct (Z.max_spec (f_len f) (i * (8 * 1024) + 8 * 1024)) as [[_ ->]|[_ ->]]; [|done].
  replace (_ + _) with ((i + 1) * (8 * 1024)) by lia. apply Z.mod_mul. lia.
Qed.

Lemma write_ok d p :
  valid_id (id p) ->
  write d p = Ok (os_update d (fun f => file_write f (id p * PAGE_SIZE) (encode p))).
Proof. intros Hv. unfold write. by rewrite page_offset_valid. Qed.

Lemma all_zero_encode p : page_ok p -> all_zero (encode p) = false.
Proof.
  intros Hp. destruct (encode_fields p Hp) as (Hm & _).
  apply not_true_is_false. unfold all_zero. rewrite forallb_forall. intros E.
  assert (slice (encode p) MAGIC_OFFSET 4 !! 0%nat = Some Byte.x51) as Hx by (by rewrite Hm).
  rewrite lookup_slice, bool_decide_true in Hx by (simpl; lia).
  by apply list_elem_of_lookup_2, list_elem_of_In, E, bool_decide_eq_true in Hx.
Qed.

Lemma f_len_write_page f i bs :
  blen bs = PAGE_SIZE -> f_len (file_write f (i * PAGE_SIZE) bs) = Z.max (f_len f) ((i + 1) * PAGE_SIZE).
Proof.
  intros Hl. rewrite f_len_write, Hl, bool_decide_false; [lia|].
  intros ->. unfold PAGE_SIZE in Hl; simpl in Hl; lia.
Qed.

Lemma saturating_page_end i :
  valid_id i -> saturating_add U64_MAX (i * PAGE_SIZE) PAGE_SIZE = (i + 1) * PAGE_SIZE.
Proof. intros [Hi Hm]. unfold saturating_add. lia. Qed.

Lemma read_shared_write_eq f p :
  page_ok p -> valid_id (id p) ->
  read_shared (file_write f (id p * PAGE_SIZE) (encode p)) (id p) = Ok (Some p).
Proof.
  intros Hp Hv. pose proof (length_encode p (proj2 (proj2 Hp))) as Hl.
  unfold read_shared. rewrite page_offset_valid by done. cbn [mbind result_bind].
  rewrite f_len_write_page, saturating_page_end by done.
  replace (_ <? _) with false by lia.
  rewrite file_read_write_eq by (destruct Hv; unfold PAGE_SIZE in *; lia).
  rewrite all_zero_encode, decode_encode by done. cbn. by rewrite Z.eqb_refl.
Qed.

Lemma whole_pages_before f i : whole_pages f -> f_len f < (i + 1) * PAGE_SIZE -> f_len f <= i * PAGE_SIZE.
Proof.
  intros [Hf Hm] Hlt. assert (0 < PAGE_SIZE) by (unfold PAGE_SIZE; lia).
  pose proof (Z.div_mod (f_len f) PAGE_SIZE ltac:(lia)) as Hq.
  rewrite Hm, Z.add_0_r in Hq. assert (f_len f / PAGE_SIZE < i + 1) by nia. nia.
Qed.

Lemma read_shared_write_ne f i bs j :
  blen bs = PAGE_SIZE -> whole_pages f -> valid_id i -> valid_id j -> i <> j ->
  read_shared (file_write f (i * PAGE_SIZE) bs) j = read_shared f j.
Proof.
  intros Hl [Hf Hm] Hi Hj Hne. pose proof Hi as [? _]. pose proof Hj as [? _].
  unfold read_shared. rewrite page_offset_valid by done. cbn [mbind result_bind].
  rewrite f_len_write_page, saturating_page_end by done.
  assert (0 < PAGE_SIZE) by (unfold PAGE_SIZE; lia).
  rewrite file_read_write_ne by (rewrite ?Hl; nia).
  destruct (f_len f <? (j + 1) * PAGE_SIZE) eqn:E1.
  - destruct (Z.max _ _ <? _) eqn:E2; [done|]. bool_to_prop.
    rewrite file_read_past by (by apply whole_pages_before). by rewrite all_zero_zeros.
  - by replace (_ <? _) with false by (bool_to_prop; lia).
Qed.

(** What a read returns, when it returns a page, is a well-formed page
    under the ID asked for. *)
Lemma read_shared_sound f i p :
  read_shared f i = Ok (Some p) -> page_ok p /\ id p = i.
Proof.
  unfold read_shared. intros (off & _ & Hk)%bind_Ok. repeat case_step; simplify_eq.
  apply bind_Ok in Hk as (p' & Hd%decode_ok & Hk). repeat case_step; simplify_eq.
  by bool_to_prop.
Qed.

(** ** Reads as functions of a page's own bytes *)

Definition region (f : file) (i : PageId) : list byte := file_read f (i * PAGE_SIZE) PAGE_SIZE.

Definition read_region (bytes : list byte) (i : PageId) : Result (option Page) :=
  if all_zero bytes then Ok None
  else
    page ← decode bytes;
    if negb (id page =? i) then Err (CorruptPage i (HeaderContainsId (id page))) else Ok (Some page).

(** A file that ends before a page holds no bytes of it. *)
Definition page_present (f : file) (i : PageId) : Prop :=
  f_len f < (i + 1) * PAGE_SIZE -> all_zero (region f i) = true.

Lemma read_shared_region f i :
  valid_id i -> page_present f i -> read_shared f i = read_region (region f i) i.
Proof.
  intros Hv Hp. unfold read_shared, read_region. rewrite page_offset_valid by done.
  cbn [mbind result_bind]. rewrite saturating_page_end by done. fold (region f i).
  destruct (f_len f <? _) eqn:E; [|done]. bool_to_prop. by rewrite Hp.
Qed.

Lemma whole_pages_present f i : whole_pages f -> page_present f i.
Proof.
  intros Hw Hlt. unfold region. rewrite file_read_past by (by apply whole_pages_before).
  apply all_zero_zeros.
Qed.

Lemma length_region f i : blen (region f i) = PAGE_SIZE.
Proof. apply length_file_read. unfold PAGE_SIZE. lia. Qed.

(** Every way a page can fail to read is a corrupt page. *)
Lemma read_region_err bytes i e :
  blen bytes = PAGE_SIZE -> read_region bytes i = Err e -> exists j r, e = CorruptPage j r.
Proof.
  intros Hl. unfold read_region, decode. rewrite Hl, Z.eqb_refl. cbn [negb].
  intros He. repeat (case_step; simplify_eq/=; eauto).
Qed.

Lemma read_region_sound bytes i p : read_region bytes i = Ok (Some p) -> page_ok p /\ id p = i.
Proof.
  unfold read_region. case_step; [done|]. intros (p' & Hd%decode_ok & Hk)%bind_Ok.
  case_step; simplify_eq. by bool_to_prop.
Qed.

Lemma region_write_eq f p :
  page_ok p -> valid_id (id p) -> region (file_write f (id p * PAGE_SIZE) (encode p)) (id p) = encode p.
Proof.
  intros (_ & _ & Hp) [Hi _]. unfold region. apply file_read_write_eq.
  - by rewrite length_encode.
  - unfold PAGE_SIZE. lia.
Qed.

Lemma region_write_ne f i bs j :
  blen bs = PAGE_SIZE -> 0 <= i -> i <> j -> region (file_write f (i * PAGE_SIZE) bs) j = region f j.
Proof.
  intros Hl Hi Hne. unfold region. assert (0 < PAGE_SIZE) by (unfold PAGE_SIZE; lia).
  apply file_read_write_ne; [nia|]. rewrite Hl. nia.
Qed.

Lemma read_region_zeros n i : read_region (zeros n) i = Ok None.
Proof. unfold read_region. rewrite all_zero_zeros. reflexivity. Qed.

Lemma read_region_encode p : page_ok p -> read_region (encode p) (id p) = Ok (Some p).
Proof.
  intros Hp. unfold read_region. rewrite all_zero_encode, decode_encode by done. cbn. by rewrite Z.eqb_refl.
Qed.
End DataFileLemmas.
