(* ===== verification/Wal.v ===== *)
(** * The write-ahead log

    Models [src/storage/src/wal.rs]: the record format, the two recycled
    segment files, appends, rotation, recycling, and the scan that rebuilds
    the record list when the log is opened. *)
From S2P Require Import Prelude Page Files.
Local Open Scope Z_scope.

Definition WAL_MAGIC : list byte := bytes_of_string "QNWL".
Definition WAL_FORMAT_VERSION : Z := 1.
Definition WAL_HEADER_SIZE : Z := 40.
Definition WAL_CHECKSUM_OFFSET : Z := 32.
Definition NO_PAGE_ID : Z := U64_MAX.
Definition WAL_PREALLOCATE_BYTES : Z := Z.shiftl 64 20.
Definition WAL_ZERO_FILL_AHEAD : Z := Z.shiftl 4 20.
Definition STOP_MARKER : list byte := zeros 4.

Inductive WalKind :=
| PageImage (page_id : PageId) (payload : list byte)
| PageAppend (page_id : PageId) (offset : Z) (payload : list byte)
| BatchCommit (page_count : Z)
| Checkpoint.

#[export] Instance WalKind_eq_dec : EqDecision WalKind.
Proof. solve_decision. Defined.

Record WalRecord := mkRecord {
  r_lsn : Lsn;
  r_kind : WalKind;
}.

#[export] Instance WalRecord_eq_dec : EqDecision WalRecord.
Proof. solve_decision. Defined.

Definition is_checkpoint (r : WalRecord) : bool :=
  match r_kind r with Checkpoint => true | _ => false end.

(** ** The record format *)

Section Format.
Context `{Crc32}.

Definition record_checksum (header payload : list byte) : Z :=
  crc32 (slice header 0 WAL_CHECKSUM_OFFSET ++ zeros 4
         ++ slice header (WAL_CHECKSUM_OFFSET + 4) (WAL_HEADER_SIZE - (WAL_CHECKSUM_OFFSET + 4))
         ++ payload).

(** The record type, page ID and payload that [append] frames a kind with. *)
Definition frame (kind : WalKind) : Z * Z * list byte :=
  match kind with
  | PageImage page_id payload => (1, page_id, payload)
  | PageAppend page_id offset payload => (4, page_id, to_le 4 offset ++ payload)
  | BatchCommit page_count => (2, NO_PAGE_ID, to_le 4 page_count)
  | Checkpoint => (3, NO_PAGE_ID, [])
  end.

(** The header before its checksum is written. *)
Definition header_unsealed (record_type lsn page_id record_length payload_length : Z) : list byte :=
  let header := zeros WAL_HEADER_SIZE in
  let header := put header 0 WAL_MAGIC in
  let header := write_u16 header 4 WAL_FORMAT_VERSION in
  let header := put header 6 [byte_of_Z record_type] in
  let header := write_u32 header 8 record_length in
  let header := write_u32 header 12 payload_length in
  let header := write_u64 header 16 lsn in
  write_u64 header 24 page_id.

Definition record_header (record_type lsn page_id : Z) (payload : list byte) : list byte :=
  let header := header_unsealed record_type lsn page_id (WAL_HEADER_SIZE + blen payload) (blen payload) in
  write_u32 header WAL_CHECKSUM_OFFSET (record_checksum header payload).

(** One turn of the scan loop: the record at an offset and its length, or
    [None] where the source breaks out. *)
Definition parse_record (f : file) (offset previous_lsn : Z) : option (WalRecord * Z) :=
  let file_length := f_len f in
  if file_length <? saturating_add U64_MAX offset WAL_HEADER_SIZE then None
  else
    let header := file_read f offset WAL_HEADER_SIZE in
    if negb (bool_decide (slice header 0 4 = WAL_MAGIC)) then None
    else if negb (read_u16 header 4 =? WAL_FORMAT_VERSION) then None
    else
      let record_length := read_u32 header 8 in
      let payload_length := read_u32 header 12 in
      if negb (record_length =? WAL_HEADER_SIZE + payload_length)
         || (MAX_PAGE_PAYLOAD <? payload_length) then None
      else if file_length <? saturating_add U64_MAX offset record_length then None
      else
        let payload := file_read f (offset + WAL_HEADER_SIZE) payload_length in
        if negb (read_u32 header WAL_CHECKSUM_OFFSET =? record_checksum header payload) then None
        else
          let lsn := read_u64 header 16 in
          if (lsn =? 0) || (lsn <=? previous_lsn) then None
          else
            let page_id := read_u64 header 24 in
            let tag := byte_to_Z (byte_at header 6) in
            kind ←
              (if (tag =? 1) && negb (page_id =? NO_PAGE_ID) then Some (PageImage page_id payload)
               else if (tag =? 2) && (page_id =? NO_PAGE_ID) && (blen payload =? 4) then
                 let page_count := read_u32 payload 0 in
                 if page_count =? 0 then None else Some (BatchCommit page_count)
               else if (tag =? 3) && (page_id =? NO_PAGE_ID) && (blen payload =? 0) then Some Checkpoint
               else if (tag =? 4) && negb (page_id =? NO_PAGE_ID) && (4 <=? blen payload) then
                 Some (PageAppend page_id (read_u32 payload 0) (slice payload 4 (blen payload - 4)))
               else None);
            Some (mkRecord lsn kind, record_length).

(** The scan loop; every turn consumes at least a header, which bounds the
    number of turns. *)
Fixpoint scan_loop (fuel : nat) (f : file) (offset previous_lsn : Z) : list WalRecord * Z :=
  match fuel with
  | O => ([], offset)
  | S fuel =>
      match parse_record f offset previous_lsn with
      | None => ([], offset)
      | Some (r, record_length) =>
          let '(rs, end_offset) := scan_loop fuel f (offset + record_length) (r_lsn r) in
          (r :: rs, end_offset)
      end
  end.

Definition scan_fuel (f : file) : nat := S (Z.to_nat (f_len f / WAL_HEADER_SIZE)).

Definition scan (f : file) : list WalRecord * Z := scan_loop (scan_fuel f) f 0 0.

(** [scan_and_repair]: scan, then put a stop marker where the log ends. *)
Definition scan_and_repair (o : osfile) : osfile * list WalRecord * Z :=
  let '(records, offset) := scan (cached o) in
  let o' :=
    if saturating_add U64_MAX offset (blen STOP_MARKER) <=? f_len (cached o)
    then os_sync (os_update o (fun f => file_write f offset STOP_MARKER))
    else o in
  (o', records, offset).
End Format.

(** ** Segments *)

Record Segment := mkSegment {
  s_file : osfile;
  end_offset : Z;
  file_length : Z;
  allocated_offset : Z;
}.

(** [seal_file]: a stop marker at offset zero makes the file scan as empty. *)
Definition seal_file (o : osfile) : osfile :=
  os_sync (os_update o (fun f => file_write f 0 STOP_MARKER)).

(** [zero_fill]'s loop: real zeros, one chunk at a time. *)
Definition ZERO_CHUNK : Z := Z.shiftl 64 10.

Fixpoint zero_fill_loop (fuel : nat) (f : file) (offset to : Z) : file :=
  match fuel with
  | O => f
  | S fuel =>
      if offset <? to then
        let step := Z.min (to - offset) ZERO_CHUNK in
        zero_fill_loop fuel (file_write f offset (zeros step)) (offset + step) to
      else f
  end.

(** Its effect, as one write. *)
Definition zero_fill (f : file) (from to : Z) : file := file_zero f from to.

Section Segments.
Context `{Crc32}.

Definition segment_open (o : osfile) : Segment * list WalRecord :=
  let '(o, records, offset) := scan_and_repair o in
  let length := f_len (cached o) in
  let '(o, length) :=
    if length <? WAL_PREALLOCATE_BYTES
    then (os_sync (os_update o (fun f => file_set_len f WAL_PREALLOCATE_BYTES)), WAL_PREALLOCATE_BYTES)
    else (o, length) in
  (mkSegment o offset length offset, records).
End Segments.

(** [append_record]'s three parts: reserving file length ... *)
Definition reserve_length (s : Segment) (needed : Z) : Result Segment :=
  if file_length s <? needed then
    grown ← ok_or (checked_add U64_MAX needed WAL_PREALLOCATE_BYTES)
                  (CorruptWal (end_offset s) LogSizeOverflow);
    Ok (mkSegment (os_update (s_file s) (fun f => file_set_len f grown))
                  (end_offset s) grown (allocated_offset s))
  else Ok s.

(** ... zero-filling ahead of the log's end ... *)
Definition fill_ahead (s : Segment) (needed : Z) : Segment :=
  if allocated_offset s <? needed then
    let target := Z.min (saturating_add U64_MAX needed WAL_ZERO_FILL_AHEAD) (file_length s) in
    mkSegment (os_update (s_file s) (fun f => zero_fill f (allocated_offset s) target))
              (end_offset s) (file_length s) target
  else s.

(** ... and the record with its stop marker. *)
Definition write_record (o : osfile) (off : Z) (header payload : list byte) : osfile :=
  let o := os_update o (fun f => file_write f off header) in
  let o := os_update o (fun f => file_write f (off + WAL_HEADER_SIZE) payload) in
  os_update o (fun f => file_write f (off + (WAL_HEADER_SIZE + blen payload)) STOP_MARKER).

Definition append_record (s : Segment) (header payload : list byte) : Result Segment :=
  let record_length := WAL_HEADER_SIZE + blen payload in
  record_end ← ok_or (checked_add U64_MAX (end_offset s) record_length)
                     (CorruptWal (end_offset s) LogOffsetOverflow);
  let needed := record_end + blen STOP_MARKER in
  s ← reserve_length s needed;
  let s := fill_ahead s needed in
  Ok (mkSegment (write_record (s_file s) (end_offset s) header payload)
                record_end (file_length s) (allocated_offset s)).

Definition seal_and_sync (s : Segment) : Segment :=
  mkSegment (seal_file (s_file s)) 0 (file_length s) (allocated_offset s).

Definition segment_sync (s : Segment) : Segment :=
  mkSegment (os_sync (s_file s)) (end_offset s) (file_length s) (allocated_offset s).

(** ** The log

    The two segments are indexed by a [bool]: [false] is index 0 and [true]
    index 1, so [1 - i] is [negb i]. *)
Record Wal := mkWal {
  segments : Segment * Segment;
  active : bool;
  retired : option bool;
  records : list WalRecord;
  next_lsn : Z;
}.

Definition seg (w : Wal) (i : bool) : Segment := if i then (segments w).2 else (segments w).1.

Definition set_seg (i : bool) (s : Segment) (w : Wal) : Wal :=
  mkWal (if i then ((segments w).1, s) else (s, (segments w).2))
        (active w) (retired w) (records w) (next_lsn w).

Definition set_records (rs : list WalRecord) (w : Wal) : Wal :=
  mkWal (segments w) (active w) (retired w) rs (next_lsn w).

Definition set_next_lsn (n : Z) (w : Wal) : Wal :=
  mkWal (segments w) (active w) (retired w) (records w) n.

Definition active_offset (w : Wal) : Z := end_offset (seg w (active w)).

Definition wal_error {A} (reason : wal_fault) : ST Wal StorageError A :=
  w ← get; throw (CorruptWal (active_offset w) reason).

(** [seal_file] through the second handle that [retired_file] gives: the
    segment's in-memory end stays as it is. *)
Definition seal_segment_file (i : bool) (w : Wal) : Wal :=
  let sg := seg w i in
  set_seg i (mkSegment (seal_file (s_file sg)) (end_offset sg) (file_length sg) (allocated_offset sg)) w.

Section Log.
Context `{Crc32}.

Definition wal_open (primary secondary : osfile) : Wal :=
  let '(segment_a, records_a) := segment_open primary in
  let '(segment_b, records_b) := segment_open secondary in
  let '(rs, active, seal_garbage) :=
    match records_a, records_b with
    | _, [] => (records_a, false, None)
    | [], _ :: _ => (records_b, true, None)
    | a :: _, b :: _ =>
        let '(earlier, later, later_first, later_index) :=
          if r_lsn a <? r_lsn b then (records_a, records_b, b, true)
          else (records_b, records_a, a, false) in
        let seam_is_monotonic :=
          match last earlier with None => true | Some l => r_lsn l <? r_lsn later_first end in
        if seam_is_monotonic then (earlier ++ later, later_index, None)
        else (earlier, negb later_index, Some later_index)
    end in
  let next := match last rs with None => 1 | Some r => saturating_add U64_MAX (r_lsn r) 1 end in
  let w := mkWal (segment_a, segment_b) active None rs next in
  match seal_garbage with
  | Some index => set_seg index (seal_and_sync (seg w index)) w
  | None => w
  end.

Definition both_segments_live (w : Wal) : bool :=
  (0 <? end_offset (seg w false)) && (0 <? end_offset (seg w true)).

Definition can_rotate (w : Wal) : bool :=
  match retired w with Some _ => false | None => end_offset (seg w (negb (active w))) =? 0 end.

Definition rotate : ST Wal StorageError Z :=
  w ← get;
  if negb (can_rotate w) then throw (CorruptWal 0 RotationNeedsEmptySpare)
  else
    _ ← modify (fun w => mkWal (segments w) (negb (active w)) (Some (active w)) (records w) (next_lsn w));
    mret (next_lsn w).

Definition finish_recycle (boundary_lsn : Z) : ST Wal StorageError unit :=
  w ← get;
  i ← lift (ok_or (retired w) (CorruptWal 0 NoRetiredSegment));
  modify (fun w =>
    let s := seg w i in
    let w := set_seg i (mkSegment (s_file s) 0 (file_length s) (allocated_offset s)) w in
    mkWal (segments w) (active w) None
          (filter (fun r => boundary_lsn <= r_lsn r) (records w)) (next_lsn w)).

Definition append (kind : WalKind) : ST Wal StorageError Lsn :=
  w ← get;
  let lsn := next_lsn w in
  next ← lift (ok_or (checked_add U64_MAX lsn 1) (CorruptWal (active_offset w) LsnSpaceExhausted));
  _ ← modify (set_next_lsn next);
  let '(record_type, page_id, payload) := frame kind in
  record_length ← lift (ok_or (checked_add U64_MAX WAL_HEADER_SIZE (blen payload))
                              (CorruptWal (active_offset w) RecordLengthOverflow));
  if U32_MAX <? record_length then throw (CorruptWal (active_offset w) RecordTooLargeForLog)
  else
    s ← lift (append_record (seg w (active w)) (record_header record_type lsn page_id payload) payload);
    _ ← modify (set_seg (active w) s);
    _ ← modify (fun w => set_records (records w ++ [mkRecord lsn kind]) w);
    mret lsn.

Definition append_page (page_id : PageId) (payload : list byte) : ST Wal StorageError Lsn :=
  if MAX_PAGE_PAYLOAD <? blen payload then throw (PageTooLarge (blen payload) MAX_PAGE_PAYLOAD)
  else append (PageImage page_id payload).

Definition append_page_tail (page_id : PageId) (offset : Z) (payload : list byte) : ST Wal StorageError Lsn :=
  if MAX_PAGE_PAYLOAD <? blen payload then throw (PageTooLarge (blen payload) MAX_PAGE_PAYLOAD)
  else append (PageAppend page_id offset payload).

Definition append_checkpoint : ST Wal StorageError Lsn := append Checkpoint.

Definition append_batch_commit (page_count : Z) : ST Wal StorageError Lsn :=
  if page_count =? 0 then wal_error BatchCommitEmpty
  else if U32_MAX <? page_count then wal_error BatchPageCountExceedsU32
  else append (BatchCommit page_count).

Definition wal_sync (w : Wal) : Wal := set_seg (active w) (segment_sync (seg w (active w))) w.

Definition size_bytes (w : Wal) : Z := active_offset w.

Definition seal_live (s : Segment) : Segment :=
  if 0 <? end_offset s then seal_and_sync s else s.

Definition reset_after_checkpoint (w : Wal) : Wal :=
  mkWal (seal_live (seg w false), seal_live (seg w true)) (active w) None [] (next_lsn w).
End Log.

(** The part of a record list after its last checkpoint. *)
Fixpoint after_checkpoint (rs : list WalRecord) : list WalRecord :=
  match rs with
  | [] => []
  | r :: rs' => if existsb is_checkpoint rs' then after_checkpoint rs'
                else if is_checkpoint r then rs' else rs
  end.

Definition trim_records_to_last_checkpoint (w : Wal) : Wal :=
  set_records (after_checkpoint (records w)) w.

Definition ensure_next_lsn_after (durable_lsn : Z) : ST Wal StorageError unit :=
  w ← get;
  n ← lift (ok_or (checked_add U64_MAX durable_lsn 1) (CorruptWal (active_offset w) LsnSpaceExhausted));
  modify (fun w => set_next_lsn (Z.max (next_lsn w) n) w).
