(* ===== verification/WalLemmas.v ===== *)
(** * Properties of the log's record format and of its segments

    The scan reads back exactly what appends wrote, whatever stale bytes the
    recycled file holds behind the stop marker. *)
From S2P Require Import Prelude Page Files Wal.
Local Open Scope Z_scope.

(** ** [zero_fill] *)

Lemma blen_zeros_pos n : 0 < n -> zeros n <> [].
Proof. intros Hn Hz. pose proof (length_zeros n ltac:(lia)). rewrite Hz in *. simpl in *. lia. Qed.

Lemma zero_fill_loop_spec fuel f from to :
  0 <= from -> to - from <= Z.of_nat fuel * ZERO_CHUNK ->
  f_len (zero_fill_loop fuel f from to) = f_len (zero_fill f from to) /\
  forall i, file_byte (zero_fill_loop fuel f from to) i = file_byte (zero_fill f from to) i.
Proof.
  assert (ZERO_CHUNK = 65536) as HC by done.
  revert f from. induction fuel as [|fuel IH]; intros f from Hfrom Hfuel; cbn [zero_fill_loop].
  - unfold zero_fill, file_zero. replace (from <? to) with false by lia. done.
  - destruct (from <? to) eqn:Hlt; bool_to_prop.
    2: { unfold zero_fill, file_zero. replace (from <? to) with false by lia. done. }
    set (step := Z.min (to - from) ZERO_CHUNK).
    assert (0 < step) by (unfold step; lia).
    destruct (IH (file_write f from (zeros step)) (from + step)) as [IHl IHb]; [lia|unfold step in *; lia|].
    rewrite IHl. split.
    + unfold zero_fill, file_zero. rewrite f_len_write, bool_decide_false by (apply blen_zeros_pos; lia).
      rewrite length_zeros by lia. replace (from <? to) with true by lia.
      destruct (from + step <? to) eqn:?; bool_to_prop; cbn [f_len]; rewrite ?f_len_write;
        rewrite ?bool_decide_false by (apply blen_zeros_pos; lia); rewrite ?length_zeros by lia; lia.
    + intros i. rewrite IHb. unfold zero_fill. rewrite !file_byte_zero by lia.
      rewrite file_byte_write by lia. rewrite length_zeros, nth_zeros by lia.
      destruct ((from + step <=? i) && (i <? to)) eqn:E1;
      destruct ((from <=? i) && (i <? to)) eqn:E2;
      destruct ((from <=? i) && (i <? from + step)) eqn:E3; try done; lia.
Qed.

(** ** Well-formed records *)

Definition kind_ok (k : WalKind) : Prop :=
  match k with
  | PageImage i p => 0 <= i < NO_PAGE_ID /\ blen p <= MAX_PAGE_PAYLOAD
  | PageAppend i o p => 0 <= i < NO_PAGE_ID /\ is_u32 o /\ 4 + blen p <= MAX_PAGE_PAYLOAD
  | BatchCommit n => 1 <= n <= U32_MAX
  | Checkpoint => True
  end.

Definition framed_payload (k : WalKind) : list byte := (frame k).2.

Definition record_size (k : WalKind) : Z := WAL_HEADER_SIZE + blen (framed_payload k).

Section Format.
Context `{Crc32}.

Definition record_bytes (r : WalRecord) : list byte :=
  let '(t, i, p) := frame (r_kind r) in record_header t (r_lsn r) i p ++ p.

Lemma length_header_unsealed t l i n m : blen (header_unsealed t l i n m) = WAL_HEADER_SIZE.
Proof.
  unfold header_unsealed, write_u16, write_u32, write_u64, WAL_HEADER_SIZE.
  assert (blen WAL_MAGIC = 4) by done. buf_len.
Qed.

Lemma length_record_header t l i p : blen (record_header t l i p) = WAL_HEADER_SIZE.
Proof.
  unfold record_header, write_u32, WAL_CHECKSUM_OFFSET.
  pose proof (length_header_unsealed t l i (WAL_HEADER_SIZE + blen p) (blen p)) as Hl.
  rewrite length_put; rewrite ?Hl, ?length_to_le; unfold WAL_HEADER_SIZE; lia.
Qed.

Lemma record_checksum_sealed h v p :
  blen h = WAL_HEADER_SIZE ->
  record_checksum (write_u32 h WAL_CHECKSUM_OFFSET v) p = record_checksum h p.
Proof.
  intros Hl. unfold record_checksum, write_u32, WAL_CHECKSUM_OFFSET, WAL_HEADER_SIZE in *.
  rewrite !slice_put_ne by (rewrite ?length_to_le; lia). done.
Qed.

Lemma record_header_fields t l i p :
  1 <= t <= 4 -> is_u64 l -> is_u64 i -> blen p <= MAX_PAGE_PAYLOAD ->
  let h := record_header t l i p in
  slice h 0 4 = WAL_MAGIC /\ read_u16 h 4 = WAL_FORMAT_VERSION /\
  byte_to_Z (byte_at h 6) = t /\ read_u32 h 8 = WAL_HEADER_SIZE + blen p /\
  read_u32 h 12 = blen p /\ read_u64 h 16 = l /\ read_u64 h 24 = i /\
  read_u32 h WAL_CHECKSUM_OFFSET = record_checksum h p.
Proof.
  intros Ht Hl Hi Hp h. assert (blen WAL_MAGIC = 4) as HM by done.
  assert (read_u32 h WAL_CHECKSUM_OFFSET = record_checksum h p) as Hc.
  { unfold h, record_header. rewrite record_checksum_sealed by apply length_header_unsealed.
    apply read_u32_write_eq; [apply crc32_u32|unfold WAL_CHECKSUM_OFFSET; lia|].
    rewrite length_header_unsealed. unfold WAL_CHECKSUM_OFFSET, WAL_HEADER_SIZE. lia. }
  assert (slice h 6 1 = [byte_of_Z t]) as Ht'.
  { unfold h, record_header, header_unsealed, WAL_CHECKSUM_OFFSET, WAL_HEADER_SIZE.
    buf_read. done. }
  rewrite byte_at_slice, Ht', Hc by lia. cbn [nth]. rewrite byte_to_of_Z, Z.mod_small by lia.
  unfold is_u64, U64_MAX in *. unfold h, record_header, header_unsealed, WAL_CHECKSUM_OFFSET,
    WAL_HEADER_SIZE, WAL_FORMAT_VERSION. page_consts.
  split_and!; buf_read; done.
Qed.

Lemma parse_record_not_magic f off prev :
  file_read f off 4 <> WAL_MAGIC -> parse_record f off prev = None.
Proof.
  intros Hm. unfold parse_record. case_step; [done|].
  rewrite slice_file_read by (unfold WAL_HEADER_SIZE; lia). rewrite Z.add_0_r.
  by rewrite bool_decide_false.
Qed.

Lemma frame_ok k :
  kind_ok k ->
  let '(t, i, p) := frame k in 1 <= t <= 4 /\ is_u64 i /\ blen p <= MAX_PAGE_PAYLOAD.
Proof.
  destruct k; cbn [frame kind_ok]; unfold is_u64, NO_PAGE_ID, U64_MAX, is_u32; page_consts;
    rewrite ?length_app, ?length_to_le; cbn [length]; intros; split_and!; try lia.
Qed.

Lemma length_record_bytes r : blen (record_bytes r) = record_size (r_kind r).
Proof.
  unfold record_bytes, record_size, framed_payload.
  destruct (frame (r_kind r)) as [[t i] p] eqn:E. rewrite length_app, Nat2Z.inj_add.
  by rewrite length_record_header.
Qed.

(** An encoded record is parsed back, wherever it lies in the file. *)
Lemma parse_record_bytes f off prev r :
  kind_ok (r_kind r) -> is_u64 (r_lsn r) -> 0 <= prev < r_lsn r -> 0 <= off ->
  off + record_size (r_kind r) <= f_len f < U64_MAX ->
  file_read f off (record_size (r_kind r)) = record_bytes r ->
  parse_record f off prev = Some (r, record_size (r_kind r)).
Proof.
  intros Hk Hl Hprev Hoff Hlen Hread. pose proof (frame_ok _ Hk) as Hf.
  unfold record_bytes, record_size, framed_payload in *.
  destruct (frame (r_kind r)) as [[t i] p] eqn:E. cbn [snd] in *. destruct Hf as (Ht & Hi & Hp).
  pose proof (length_record_header t (r_lsn r) i p) as HL.
  assert (file_read f off WAL_HEADER_SIZE = record_header t (r_lsn r) i p /\
          file_read f (off + WAL_HEADER_SIZE) (blen p) = p) as [Hh Hpl].
  { rewrite file_read_app in Hread by (unfold WAL_HEADER_SIZE; lia).
    apply app_inj_1 in Hread; [done|].
    pose proof (length_file_read f off WAL_HEADER_SIZE ltac:(unfold WAL_HEADER_SIZE; lia)). lia. }
  destruct (record_header_fields t (r_lsn r) i p Ht Hl Hi Hp) as (F1&F2&F3&F4&F5&F6&F7&F8).
  unfold parse_record. rewrite Hh, F1, F2, F3, F4, F5, F6, F7, F8, Hpl.
  rewrite !Z.eqb_refl, bool_decide_true by done. cbn [negb orb].
  unfold saturating_add.
  replace (f_len f <? Z.min U64_MAX (off + WAL_HEADER_SIZE)) with false by lia.
  replace (MAX_PAGE_PAYLOAD <? blen p) with false by lia.
  replace (f_len f <? _) with false by lia.
  replace (r_lsn r =? 0) with false by lia. replace (r_lsn r <=? prev) with false by lia. cbn [orb].
  clear F1 F2 F3 F4 F5 F6 F7 F8 Hh Hpl Hread HL. destruct r as [l k]. cbn [r_kind r_lsn] in *.
  destruct k as [pi pp|pi po pp|c|]; cbn [frame kind_ok] in *; simplify_eq; cbn [Z.eqb Pos.eqb andb negb].
  - by replace (i =? NO_PAGE_ID) with false by lia.
  - replace (i =? NO_PAGE_ID) with false by lia. cbn [negb andb].
    rewrite length_app, length_to_le. rewrite (proj2 (Z.leb_le 4 _)) by lia.
    unfold read_u32. rewrite slice_app_l, slice_all by (rewrite ?length_to_le; lia).
    rewrite from_to_le_small by (unfold is_u32, U32_MAX in *; lia).
    rewrite slice_app_r by (rewrite ?length_to_le; lia). rewrite length_to_le.
    rewrite slice_all by lia. done.
  - rewrite length_to_le. unfold read_u32. rewrite slice_all by (rewrite length_to_le; lia).
    rewrite from_to_le_small by (unfold is_u32, U32_MAX in *; lia).
    cbn. by replace (c =? 0) with false by lia.
  - done.
Qed.

Ltac parse_case :=
  repeat match goal with |- (if ?c then _ else _) = _ -> _ => destruct c eqn:?; [by intros [=]|] end.

Lemma parse_record_length f off prev r n :
  parse_record f off prev = Some (r, n) -> n = read_u32 (file_read f off WAL_HEADER_SIZE) 8.
Proof. unfold parse_record. parse_case. by intros (k & _ & [= _ <-])%bind_Some. Qed.

Lemma parse_record_bound f off prev r n :
  f_len f < U64_MAX -> 0 <= off -> 0 <= prev ->
  parse_record f off prev = Some (r, n) ->
  WAL_HEADER_SIZE <= n /\ off + n <= f_len f /\ prev < r_lsn r <= U64_MAX.
Proof.
  intros Hu Ho Hp. unfold parse_record, saturating_add. parse_case.
  intros (k & _ & [= <- <-])%bind_Some. bool_to_prop.
  pose proof (read_u32_range (file_read f off WAL_HEADER_SIZE) 12) as [? _].
  pose proof (read_u64_range (file_read f off WAL_HEADER_SIZE) 16) as [? ?]. cbn [r_lsn]. lia.
Qed.

(** A parse looks at the record's own bytes only. *)
Lemma parse_record_ext f g off prev r n :
  0 <= off -> 0 <= prev -> f_len f < U64_MAX -> off + n <= f_len g ->
  parse_record f off prev = Some (r, n) ->
  (forall i, off <= i < off + n -> file_byte f i = file_byte g i) ->
  parse_record g off prev = Some (r, n).
Proof.
  intros Ho Hp Hu Hg Hpr Hext. pose proof (parse_record_bound _ _ _ _ _ Hu Ho Hp Hpr) as (Hn & Hle & _).
  pose proof (parse_record_length _ _ _ _ _ Hpr) as Hn'.
  pose proof (file_read_ext f g off WAL_HEADER_SIZE ltac:(intros; apply Hext; lia)) as Hh.
  unfold parse_record, saturating_add in *. rewrite <- Hh.
  set (h := file_read f off WAL_HEADER_SIZE) in *.
  replace (f_len g <? Z.min U64_MAX (off + WAL_HEADER_SIZE)) with false by lia.
  revert Hpr. destruct (f_len f <? Z.min U64_MAX (off + WAL_HEADER_SIZE)) eqn:?; [done|].
  do 2 (destruct (negb _); [done|]).
  destruct (_ || _) eqn:Hor; [done|]. bool_to_prop.
  destruct (f_len f <? Z.min U64_MAX (off + read_u32 h 8)) eqn:?; [done|].
  intros Hpr. fold h in Hn'. subst n. replace (f_len g <? _) with false by lia.
  rewrite (file_read_ext f g _ (read_u32 h 12)) in Hpr; [done|].
  intros i Hi. apply Hext. unfold WAL_HEADER_SIZE in *. lia.
Qed.
End Format.

(** ** Logs: runs of records that parse one after the other *)

Fixpoint last_lsn (prev : Z) (rs : list WalRecord) : Z :=
  match rs with [] => prev | r :: rs => last_lsn (r_lsn r) rs end.

Lemma last_lsn_app prev rs rs' : last_lsn prev (rs ++ rs') = last_lsn (last_lsn prev rs) rs'.
Proof. revert prev. induction rs; simpl; done. Qed.

Section Logs.
Context `{Crc32}.

Inductive log_at (f : file) : Z -> Z -> list WalRecord -> Z -> Prop :=
| log_nil off prev : log_at f off prev [] off
| log_cons off prev r n rs e :
    parse_record f off prev = Some (r, n) ->
    log_at f (off + n) (r_lsn r) rs e ->
    log_at f off prev (r :: rs) e.

Lemma log_at_app f off prev rs m rs' e :
  log_at f off prev rs m -> log_at f m (last_lsn prev rs) rs' e -> log_at f off prev (rs ++ rs') e.
Proof. induction 1; simpl; [done|]. intros. econstructor; eauto. Qed.

Lemma log_at_bound f off prev rs e :
  f_len f < U64_MAX -> 0 <= off -> 0 <= prev -> log_at f off prev rs e ->
  off + WAL_HEADER_SIZE * blen rs <= e /\ (rs <> [] -> e <= f_len f) /\
  prev <= last_lsn prev rs /\ (prev <= U64_MAX -> last_lsn prev rs <= U64_MAX) /\
  Forall (fun r => prev < r_lsn r <= last_lsn prev rs) rs.
Proof.
  intros Hu Ho Hp Hlog. induction Hlog as [|off prev r n rs e Hpr Hlog IH]; cbn [length last_lsn].
  - split_and!; try lia; done || constructor.
  - pose proof (parse_record_bound _ _ _ _ _ Hu Ho Hp Hpr) as (Hn & Hle & Hl).
    unfold WAL_HEADER_SIZE in *.
    destruct IH as (IH1 & IH2 & IH3 & IH4 & IH5); [lia..|].
    split_and!; try lia.
    + intros _. destruct rs; [|by apply IH2]. inversion Hlog; subst. lia.
    + constructor; [lia|]. eapply Forall_impl; [done|]. simpl. lia.
Qed.

Lemma log_at_end_le f off prev rs e :
  f_len f < U64_MAX -> 0 <= off <= f_len f -> 0 <= prev -> log_at f off prev rs e -> off <= e <= f_len f.
Proof.
  intros Hu [Ho Ho'] Hp Hlog. destruct (log_at_bound _ _ _ _ _ Hu Ho Hp Hlog) as (H1 & H2 & _).
  unfold WAL_HEADER_SIZE in *. destruct rs as [|r rs]; [inversion Hlog; subst; lia|].
  split; [lia|by apply H2].
Qed.

Lemma log_at_ext f g off prev rs e :
  f_len f < U64_MAX -> 0 <= off -> 0 <= prev -> (rs <> [] -> e <= f_len g) ->
  (forall i, off <= i < e -> file_byte f i = file_byte g i) ->
  log_at f off prev rs e -> log_at g off prev rs e.
Proof.
  intros Hu Ho Hp Hg Hext Hlog. induction Hlog as [|off prev r n rs e Hpr Hlog IH]; [constructor|].
  pose proof (parse_record_bound _ _ _ _ _ Hu Ho Hp Hpr) as (Hn & Hle & Hl).
  assert (off + n <= e) as Hne.
  { unfold WAL_HEADER_SIZE in *.
    destruct (log_at_bound f (off + n) (r_lsn r) rs e Hu ltac:(lia) ltac:(lia) Hlog) as (? & _). unfold WAL_HEADER_SIZE in *. lia. }
  unfold WAL_HEADER_SIZE in *. econstructor.
  - eapply parse_record_ext; try done; [specialize (Hg ltac:(done)); lia|].
    intros i Hi. apply Hext. lia.
  - apply IH; [lia|lia|intros; by apply Hg|]. intros i Hi. apply Hext. lia.
Qed.

Lemma scan_loop_log fuel f off prev rs e :
  scan_loop fuel f off prev = (rs, e) -> log_at f off prev rs e.
Proof.
  revert off prev rs e. induction fuel as [|fuel IH]; intros off prev rs e; simpl.
  - intros [= <- <-]. constructor.
  - destruct (parse_record f off prev) as [[r n]|] eqn:Hpr; [|intros [= <- <-]; constructor].
    destruct (scan_loop fuel f (off + n) (r_lsn r)) as [rs' e'] eqn:E.
    intros [= <- <-]. econstructor; eauto.
Qed.

Lemma log_scan_loop fuel f off prev rs e :
  log_at f off prev rs e -> parse_record f e (last_lsn prev rs) = None ->
  (length rs < fuel)%nat -> scan_loop fuel f off prev = (rs, e).
Proof.
  intros Hlog. revert fuel. induction Hlog as [|off prev r n rs e Hpr Hlog IH]; intros fuel Hend Hfuel;
    (destruct fuel as [|fuel]; [simpl in *; lia|]); cbn [scan_loop].
  - simpl in Hend. by rewrite Hend.
  - rewrite Hpr. simpl in *. by rewrite (IH fuel) by (done || lia).
Qed.

(** The loop's fuel is enough: the scan stops because a parse failed. *)
Lemma scan_loop_stops fuel f off prev rs e :
  f_len f < U64_MAX -> 0 <= off -> 0 <= prev ->
  f_len f < off + Z.of_nat fuel * WAL_HEADER_SIZE ->
  scan_loop fuel f off prev = (rs, e) -> parse_record f e (last_lsn prev rs) = None.
Proof.
  intros Hu. revert off prev rs e. induction fuel as [|fuel IH]; intros off prev rs e Ho Hp Hf; cbn [scan_loop].
  - intros [= <- <-]. unfold parse_record, saturating_add, WAL_HEADER_SIZE in *.
    by replace (_ <? _) with true by lia.
  - destruct (parse_record f off prev) as [[r n]|] eqn:Hpr; [|by intros [= <- <-]].
    pose proof (parse_record_bound _ _ _ _ _ Hu Ho Hp Hpr) as (Hn & Hle & Hl).
    destruct (scan_loop fuel f (off + n) (r_lsn r)) as [rs' e'] eqn:E.
    intros [= <- <-]. unfold WAL_HEADER_SIZE in *. apply (IH (off + n) (r_lsn r) rs' e'); [lia..|done].
Qed.

Lemma scan_fuel_enough f : 0 <= f_len f -> f_len f < Z.of_nat (scan_fuel f) * WAL_HEADER_SIZE.
Proof.
  intros. unfold scan_fuel, WAL_HEADER_SIZE.
  pose proof (Z.div_mod (f_len f) 40 ltac:(lia)).
  pose proof (Z.mod_pos_bound (f_len f) 40 ltac:(lia)).
  pose proof (Z.div_pos (f_len f) 40 ltac:(lia) ltac:(lia)). lia.
Qed.

Definition file_ok (f : file) : Prop := 0 <= f_len f < U64_MAX.

Lemma scan_log f rs e :
  file_ok f ->
  scan f = (rs, e) <-> log_at f 0 0 rs e /\ parse_record f e (last_lsn 0 rs) = None.
Proof.
  intros [Hf Hu]. pose proof (scan_fuel_enough f Hf). split.
  - intros Hs. split; [by eapply scan_loop_log|]. eapply scan_loop_stops; [..|done]; lia.
  - intros [Hlog Hend]. apply log_scan_loop; try done.
    destruct (log_at_bound f 0 0 rs e Hu ltac:(lia) ltac:(lia) Hlog) as (H1 & H2 & _).
    destruct rs as [|r rs]; [simpl; unfold scan_fuel; lia|].
    specialize (H2 ltac:(done)). unfold WAL_HEADER_SIZE in *. lia.
Qed.
End Logs.

(** ** Segments *)

Lemma WAL_PREALLOCATE_BYTES_eq : WAL_PREALLOCATE_BYTES = 67108864.
Proof. done. Qed.

Lemma length_STOP_MARKER : blen STOP_MARKER = 4.
Proof. done. Qed.

Lemma file_byte_set_len_grow f n i :
  f_len f <= n -> file_byte (file_set_len f n) i = file_byte f i.
Proof.
  intros. rewrite file_byte_set_len. destruct (i <? n) eqn:E; [done|]. bool_to_prop.
  unfold file_byte. by replace (_ && _) with false by lia.
Qed.

(** The last byte of the magic is not zero, so bytes past the end of the
    file never complete one. *)
Lemma magic_within f off : file_read f off 4 = WAL_MAGIC -> off + 3 < f_len f.
Proof.
  intros Hm. destruct (decide (off + 3 < f_len f)) as [|Hge]; [done|]. exfalso.
  assert (file_read f off 4 !! 3%nat = Some Byte.x4c) as Hl by (by rewrite Hm).
  rewrite lookup_file_read in Hl. simpl in Hl. unfold file_byte in Hl.
  change (Z.of_nat 3) with 3 in Hl.
  by replace (off + 3 <? f_len f) with false in Hl by lia; rewrite andb_false_r in Hl.
Qed.

(** Zeros over a range never make a magic where there was none. *)
Lemma zero_fill_keeps_stop f from to off :
  0 <= from -> file_read f off 4 <> WAL_MAGIC -> file_read (zero_fill f from to) off 4 <> WAL_MAGIC.
Proof.
  intros Hf Hm Hz. apply Hm. rewrite <- Hz. apply file_read_ext. intros i Hi.
  unfold zero_fill. rewrite file_byte_zero by done. destruct (_ && _) eqn:E; [|done]. exfalso.
  assert (file_read (zero_fill f from to) off 4 !! Z.to_nat (i - off) = Some x00) as Hx.
  { rewrite lookup_file_read, bool_decide_true by lia.
    unfold zero_fill. rewrite file_byte_zero by done.
    by replace (off + Z.of_nat (Z.to_nat (i - off))) with i by lia; rewrite E. }
  rewrite Hz in Hx. assert (Z.to_nat (i - off) < 4)%nat as Hlt by lia.
  by destruct (Z.to_nat (i - off)) as [|[|[|[|?]]]]; [..|lia].
Qed.

Section SegmentLemmas.
Context `{Crc32}.

Record seg_ok (s : Segment) (rs : list WalRecord) : Prop := {
  so_file : file_ok (cached (s_file s));
  so_log : log_at (cached (s_file s)) 0 0 rs (end_offset s);
  so_stop : file_read (cached (s_file s)) (end_offset s) 4 <> WAL_MAGIC;
  so_len : f_len (cached (s_file s)) = file_length s;
  so_alloc : end_offset s <= allocated_offset s;
  so_pre : WAL_PREALLOCATE_BYTES <= file_length s;
}.

Lemma seg_ok_end s rs : seg_ok s rs -> 0 <= end_offset s <= file_length s.
Proof.
  intros [[Hf Hu] Hlog _ <- _ _]. apply (log_at_end_le _ 0 0 rs); done || lia.
Qed.

Lemma seg_ok_scan s rs : seg_ok s rs -> scan (cached (s_file s)) = (rs, end_offset s).
Proof. intros [Hf Hlog Hst _ _ _]. apply scan_log; [done|]. split; [done|]. by apply parse_record_not_magic. Qed.

Lemma segment_open_ok o s rs :
  file_ok (cached o) -> segment_open o = (s, rs) ->
  seg_ok s rs /\ scan (cached o) = (rs, end_offset s).
Proof.
  intros Hf Hopen. unfold segment_open, scan_and_repair in Hopen.
  destruct (scan (cached o)) as [rs' e] eqn:Hs.
  pose proof (proj1 (scan_log _ _ _ Hf) Hs) as [Hlog Hend].
  pose proof Hf as [Hf0 Hu].
  pose proof (log_at_end_le _ _ _ _ _ Hu (conj (Z.le_refl 0) Hf0) (Z.le_refl 0) Hlog) as He.
  set (o1 := if saturating_add _ _ _ <=? _ then _ else o) in Hopen.
  assert (file_ok (cached o1) /\ log_at (cached o1) 0 0 rs' e /\
          file_read (cached o1) e 4 <> WAL_MAGIC /\ e <= f_len (cached o1)) as (Hf1 & Hlog1 & Hst1 & Hl1).
  { unfold o1. rewrite length_STOP_MARKER. unfold saturating_add. case_step; cbn [cached os_sync os_update].
    - bool_to_prop. assert (f_len (file_write (cached o) e STOP_MARKER) = f_len (cached o)) as HL.
      { rewrite f_len_write, bool_decide_false by done. rewrite length_STOP_MARKER. lia. }
      unfold file_ok. rewrite HL. split_and!; try lia.
      + eapply log_at_ext; [..|done]; try lia. intros i Hi.
        rewrite file_byte_write by lia. by replace (_ && _) with false by lia.
      + rewrite file_read_write_eq by (done || lia). done.
    - bool_to_prop. split_and!; try done; try lia. intros Hm%magic_within. lia. }
  clearbody o1. destruct (f_len (cached o1) <? WAL_PREALLOCATE_BYTES) eqn:Hlt; simplify_eq.
  - split; [|done]. pose proof WAL_PREALLOCATE_BYTES_eq. bool_to_prop.
    split; cbn [s_file cached os_sync os_update end_offset file_length allocated_offset]; try done; try lia.
    + destruct Hf1. eapply log_at_ext; [..|done]; try done; [cbn [f_len file_set_len]; lia|].
      intros i Hi. rewrite file_byte_set_len_grow by lia. done.
    + rewrite (file_read_ext _ (cached o1)); [done|].
      intros i Hi. by rewrite file_byte_set_len_grow by lia.
  - split; [|done]. bool_to_prop. split; done || (cbn [end_offset allocated_offset]; lia).
Qed.

(** Changes to the file behind the log's end and stop marker keep the
    segment's records. *)
Lemma seg_ok_grow s rs o len alloc :
  seg_ok s rs -> file_ok (cached o) -> f_len (cached o) = len ->
  (forall i, i < end_offset s -> file_byte (cached o) i = file_byte (cached (s_file s)) i) ->
  file_read (cached o) (end_offset s) 4 <> WAL_MAGIC ->
  end_offset s <= len -> end_offset s <= alloc -> file_length s <= len ->
  seg_ok (mkSegment o (end_offset s) len alloc) rs.
Proof.
  intros [[Hf Hu] Hlog Hst _ _ Hpre] Hfo Hl Hext Hst' Hle Hal Hln.
  split; try done; cbn [s_file end_offset file_length]; [|lia].
  eapply log_at_ext; [..|done]; try lia. intros i Hi. symmetry. apply Hext. lia.
Qed.

(** The largest offset the append lemmas consider: an [i64] file size. *)
Definition MAX_LOG_OFFSET : Z := 2 ^ 62.

Lemma write_record_bytes o off r :
  0 <= off ->
  let '(t, i, p) := frame (r_kind r) in
  let f := cached (write_record o off (record_header t (r_lsn r) i p) p) in
  let n := record_size (r_kind r) in
  file_read f off n = record_bytes r /\ file_read f (off + n) 4 = STOP_MARKER /\
  (forall j, j < off -> file_byte f j = file_byte (cached o) j) /\
  f_len f = Z.max (f_len (cached o)) (off + n + 4).
Proof.
  intros Ho. unfold record_size, record_bytes, framed_payload.
  destruct (frame (r_kind r)) as [[t i] p] eqn:E. cbn [snd]. cbn zeta.
  pose proof (length_record_header t (r_lsn r) i p) as HL.
  set (h := record_header t (r_lsn r) i p) in *. clearbody h.
  pose proof length_STOP_MARKER. assert (0 < WAL_HEADER_SIZE) by done.
  cbn [cached write_record os_update]. split_and!.
  - rewrite file_read_app by lia.
    rewrite file_read_write_ne by lia. rewrite file_read_write_ne by lia.
    rewrite file_read_write_eq by lia. f_equal.
    rewrite file_read_write_ne by lia. by rewrite file_read_write_eq by lia.
  - by rewrite file_read_write_eq by (done || lia).
  - intros j Hj. by rewrite !file_byte_write_lt by lia.
  - rewrite !f_len_write, (bool_decide_false (h = [])) by (intros ->; simpl in HL; lia).
    rewrite (bool_decide_false (STOP_MARKER = [])) by done.
    rewrite length_STOP_MARKER. case_bool_decide; subst; simpl; lia.
Qed.

Lemma seg_ok_write_record s rs r o :
  seg_ok s rs -> kind_ok (r_kind r) -> is_u64 (r_lsn r) -> last_lsn 0 rs < r_lsn r ->
  end_offset s + record_size (r_kind r) + 4 <= file_length s ->
  end_offset s + record_size (r_kind r) + 4 <= allocated_offset s ->
  (let '(t, i, p) := frame (r_kind r) in
   o = write_record (s_file s) (end_offset s) (record_header t (r_lsn r) i p) p) ->
  seg_ok (mkSegment o (end_offset s + record_size (r_kind r)) (file_length s) (allocated_offset s))
         (rs ++ [r]).
Proof.
  intros Hs Hk Hl Hlast Hlen Hal Ho. pose proof (seg_ok_end _ _ Hs) as He.
  pose proof (write_record_bytes (s_file s) (end_offset s) r ltac:(lia)) as Hw.
  destruct (frame (r_kind r)) as [[t i] p]. subst o.
  set (o := write_record _ _ _ _) in *. destruct Hw as (Hr & Hst & Hext & HL).
  destruct Hs as [[Hf Hu] Hlog _ Hfl _ Hpre]. clearbody o.
  rewrite Hfl, Z.max_l in HL by lia.
  assert (0 <= record_size (r_kind r)) by (unfold record_size, WAL_HEADER_SIZE; lia).
  split; cbn [s_file end_offset file_length allocated_offset]; try lia.
  - unfold file_ok. lia.
  - apply log_at_app with (m := end_offset s).
    + eapply log_at_ext; [..|done]; try lia. intros j Hj. symmetry. apply Hext. lia.
    + pose proof (log_at_bound _ 0 0 rs _ Hu ltac:(lia) ltac:(lia) Hlog) as (_ & _ & Hge & _).
      econstructor; [|constructor]. apply parse_record_bytes; done || lia.
  - by rewrite Hst.
Qed.

(** What the two preparations of an append establish. *)
Definition room_for (s s' : Segment) (rs : list WalRecord) : Prop :=
  seg_ok s' rs /\ end_offset s' = end_offset s /\ synced (s_file s') = synced (s_file s).

Lemma reserve_length_ok s rs needed :
  seg_ok s rs -> end_offset s <= needed <= MAX_LOG_OFFSET + 4 ->
  exists s', reserve_length s needed = Ok s' /\ room_for s s' rs /\ needed <= file_length s'.
Proof.
  intros Hs Hn. pose proof (seg_ok_end _ _ Hs) as He. unfold MAX_LOG_OFFSET in Hn.
  pose proof WAL_PREALLOCATE_BYTES_eq as HP. unfold reserve_length, checked_add.
  case_step; bool_to_prop; [|by exists s].
  replace (_ <=? U64_MAX) with true by (unfold U64_MAX; lia). cbn [ok_or mbind result_bind].
  eexists. split; [done|]. unfold room_for. cbn [end_offset file_length s_file synced os_update].
  split_and!; try done; try lia.
  destruct (so_file _ _ Hs). pose proof (so_len _ _ Hs).
  apply seg_ok_grow; cbn [cached os_update f_len file_set_len]; try done; try lia.
  - unfold file_ok. cbn [f_len file_set_len]. unfold U64_MAX. lia.
  - intros j Hj. apply file_byte_set_len_grow. lia.
  - rewrite (file_read_ext _ (cached (s_file s))); [apply Hs|].
    intros j Hj. apply file_byte_set_len_grow. lia.
  - apply Hs.
Qed.

Lemma fill_ahead_ok s rs needed :
  seg_ok s rs -> end_offset s <= needed <= file_length s ->
  room_for s (fill_ahead s needed) rs /\ file_length (fill_ahead s needed) = file_length s /\
  needed <= allocated_offset (fill_ahead s needed).
Proof.
  intros Hs Hn. pose proof (seg_ok_end _ _ Hs) as He. unfold fill_ahead, room_for.
  case_step; bool_to_prop; [|done].
  assert (0 < WAL_ZERO_FILL_AHEAD) by done. unfold saturating_add.
  destruct (so_file _ _ Hs) as [? Hu]. pose proof (so_len _ _ Hs) as HL. pose proof (so_alloc _ _ Hs).
  cbn [end_offset file_length s_file synced os_update allocated_offset].
  set (target := Z.min _ _). assert (needed <= target <= file_length s) by (unfold target; lia).
  clearbody target. split_and!; try done; try lia.
  apply seg_ok_grow; cbn [cached os_update]; try done; try lia.
  - unfold file_ok, zero_fill, file_zero. case_step; cbn [f_len]; lia.
  - unfold zero_fill, file_zero. case_step; cbn [f_len]; lia.
  - intros j Hj. unfold zero_fill. rewrite file_byte_zero by lia.
    by replace (_ && _) with false by lia.
  - apply zero_fill_keeps_stop; [lia|]. apply Hs.
Qed.

Lemma append_record_ok s rs r :
  seg_ok s rs -> kind_ok (r_kind r) -> is_u64 (r_lsn r) -> last_lsn 0 rs < r_lsn r ->
  end_offset s + record_size (r_kind r) <= MAX_LOG_OFFSET ->
  let '(t, i, p) := frame (r_kind r) in
  exists s', append_record s (record_header t (r_lsn r) i p) p = Ok s' /\
    seg_ok s' (rs ++ [r]) /\ end_offset s' = end_offset s + record_size (r_kind r) /\
    synced (s_file s') = synced (s_file s).
Proof.
  intros Hs Hk Hl Hlast Hmax. destruct (frame (r_kind r)) as [[t i] p] eqn:E.
  assert (WAL_HEADER_SIZE + blen p = record_size (r_kind r)) as Hsz by
    (unfold record_size, framed_payload; by rewrite E).
  pose proof length_STOP_MARKER as HSM. set (n := record_size (r_kind r)) in *.
  assert (0 <= n) by (rewrite <- Hsz; unfold WAL_HEADER_SIZE; lia).
  unfold append_record. rewrite Hsz, HSM. unfold checked_add.
  replace (end_offset s + n <=? U64_MAX) with true by (unfold U64_MAX, MAX_LOG_OFFSET in *; lia).
  cbn [ok_or mbind result_bind].
  destruct (reserve_length_ok s rs (end_offset s + n + 4)) as (s1 & -> & (Hs1 & He1 & Hy1) & Hl1); [done|lia|].
  cbn [mbind result_bind].
  destruct (fill_ahead_ok s1 rs (end_offset s + n + 4)) as ((Hs2 & He2 & Hy2) & Hl2 & Ha2); [done|lia|].
  set (s2 := fill_ahead _ _) in *. clearbody s2. eexists. split; [done|]. cbn [end_offset s_file].
  split_and!; [|lia|cbn; congruence].
  replace (end_offset s + n) with (end_offset s2 + n) by lia.
  eapply seg_ok_write_record; try done; try lia. by rewrite E.
Qed.
End SegmentLemmas.
