(* ===== verification/WalLog.v ===== *)
(** * The log as a list of records

    The invariant of the two-segment log: the older segment's records
    followed by the active one's are a single list with increasing LSNs, all
    below the next one.  Every operation of [wal.rs] is given its effect on
    that list, and opening the files rebuilds it. *)
From S2P Require Import Prelude Page Files Wal WalLemmas.
Local Open Scope Z_scope.

Section WalLog.
Context `{Crc32}.

(** A segment that holds [rs], whatever its in-memory end says: a retired
    segment is sealed through a second handle before its end is reset. *)
Definition seg_holds (s : Segment) (rs : list WalRecord) : Prop :=
  exists e, seg_ok (mkSegment (s_file s) e (file_length s) (allocated_offset s)) rs.

(** Everything the process wrote to the segment is durable. *)
Definition seg_synced (s : Segment) : Prop :=
  cached (s_file s) = synced (s_file s) /\ history (s_file s) = [].

Record wal_ok (w : Wal) (older newer : list WalRecord) : Prop := {
  wo_active : seg_ok (seg w (active w)) newer;
  wo_other : seg_holds (seg w (negb (active w))) older;
  wo_spare : end_offset (seg w (negb (active w))) = 0 -> older = [];
  wo_retired : forall i, retired w = Some i -> i = negb (active w);
  wo_order : Forall (fun r => last_lsn 0 older < r_lsn r) newer;
  wo_next : last_lsn (last_lsn 0 older) newer < next_lsn w <= U64_MAX;
}.

Lemma seg_ok_holds s rs : seg_ok s rs -> seg_holds s rs.
Proof. exists (end_offset s). by destruct s. Qed.

Lemma seg_holds_scan s rs : seg_holds s rs -> exists e, scan (cached (s_file s)) = (rs, e).
Proof. intros [e Hs]. exists e. by apply seg_ok_scan in Hs. Qed.


(** The last LSN of a non-empty list does not depend on what came before. *)
Lemma last_lsn_any rs p q : rs <> [] -> last_lsn p rs = last_lsn q rs.
Proof. by destruct rs. Qed.

Lemma seg_ok_last s rs : seg_ok s rs -> 0 <= last_lsn 0 rs <= U64_MAX.
Proof.
  intros [[Hf Hu] Hlog _ _ _ _].
  destruct (log_at_bound _ 0 0 rs _ Hu ltac:(lia) ltac:(lia) Hlog) as (_ & _ & ? & ? & _).
  unfold U64_MAX in *. lia.
Qed.

Lemma seg_ok_empty s rs : seg_ok s rs -> end_offset s = 0 -> rs = [].
Proof.
  intros [[Hf Hu] Hlog _ _ _ _] He.
  destruct (log_at_bound _ 0 0 rs _ Hu ltac:(lia) ltac:(lia) Hlog) as (Hb & _).
  destruct rs; [done|]. unfold WAL_HEADER_SIZE in Hb. simpl in Hb. lia.
Qed.

Lemma seg_set_same w i s : seg (set_seg i s w) i = s.
Proof. by destruct i. Qed.

Lemma seg_set_other w i s : seg (set_seg i s w) (negb i) = seg w (negb i).
Proof. by destruct i. Qed.

(** ** Appends *)

Definition append_room (w : Wal) (k : WalKind) : Prop :=
  active_offset w + record_size k <= MAX_LOG_OFFSET /\ next_lsn w < U64_MAX.

Lemma kind_ok_size k : kind_ok k -> WAL_HEADER_SIZE <= record_size k <= PAGE_SIZE.
Proof.
  intros Hk. pose proof (frame_ok k Hk) as Hf. unfold record_size, framed_payload.
  destruct (frame k) as [[t i] p]. cbn [snd]. destruct Hf as (_ & _ & Hp). page_consts.
  unfold WAL_HEADER_SIZE. lia.
Qed.

Lemma append_ok w older newer k :
  wal_ok w older newer -> kind_ok k -> append_room w k ->
  exists w', append k w = (Ok (next_lsn w), w') /\
    wal_ok w' older (newer ++ [mkRecord (next_lsn w) k]) /\
    next_lsn w' = next_lsn w + 1 /\ active w' = active w /\ retired w' = retired w /\
    active_offset w' = active_offset w + record_size k /\
    seg w' (negb (active w)) = seg w (negb (active w)) /\
    synced (s_file (seg w' (active w))) = synced (s_file (seg w (active w))) /\
    records w' = records w ++ [mkRecord (next_lsn w) k].
Proof.
  intros Hw Hk [Hroom Hlsn]. pose proof (kind_ok_size k Hk) as Hsz.
  pose proof (wo_next _ _ _ Hw) as Hnext. pose proof (wo_active _ _ _ Hw) as Hact.
  pose proof (seg_ok_last _ _ Hact) as Hlast.
  assert (0 <= last_lsn 0 older) as Hold.
  { destruct (wo_other _ _ _ Hw) as [e He]. apply seg_ok_last in He; lia. }
  assert (last_lsn 0 newer < next_lsn w) as Hnew.
  { destruct (decide (newer = [])) as [->|Hne]; [simpl in *; lia|].
    rewrite (last_lsn_any newer 0 (last_lsn 0 older)) by done. lia. }
  pose proof (append_record_ok (seg w (active w)) newer (mkRecord (next_lsn w) k) Hact Hk
    ltac:(cbn; unfold is_u64; lia) Hnew Hroom) as Happ. cbn [r_kind r_lsn] in Happ.
  pose proof (frame_ok k Hk) as Hf. unfold record_size, framed_payload in Hsz.
  unfold append, checked_add. st_run. replace (next_lsn w + 1 <=? U64_MAX) with true by lia.
  cbn [ok_or]. destruct (frame k) as [[t i] p]. destruct Hf as (_ & _ & Hp). cbn [snd] in Hsz.
  replace (WAL_HEADER_SIZE + blen p <=? U64_MAX) with true by (unfold U64_MAX, PAGE_SIZE in *; lia).
  cbn [ok_or]. replace (U32_MAX <? _) with false by (unfold U32_MAX, PAGE_SIZE in *; lia).
  destruct Happ as (s' & Hs' & Hok & Hend & Hsync). rewrite Hs'.
  eexists. split; [done|]. unfold active_offset in *.
  destruct w as [[a b] act ret rs nx]. destruct Hw as [Ha Ho Hsp Hr Hord Hn].
  destruct act; cbn in *; (split_and!; [|done..]); split; cbn; try done;
    rewrite ?last_lsn_app; cbn; try lia; (apply Forall_app; split; [done|]; constructor; [cbn|done]).
  all: destruct (decide (newer = [])) as [->|Hne]; [simpl in *; lia|];
    destruct newer as [|r0 ?]; [done|]; apply Forall_cons in Hord as [? _];
    pose proof (log_at_bound _ 0 0 _ _ (proj2 (so_file _ _ Hact)) ltac:(lia) ltac:(lia) (so_log _ _ Hact))
      as (_ & _ & _ & _ & HF); apply Forall_cons in HF as [? _]; simpl in *; lia.
Qed.

(** ** Syncs, rotation and recycling *)

Lemma wal_sync_ok w older newer :
  wal_ok w older newer ->
  wal_ok (wal_sync w) older newer /\ seg_synced (seg (wal_sync w) (active w)) /\
  seg (wal_sync w) (negb (active w)) = seg w (negb (active w)).
Proof.
  intros [[Ha1 Ha2 Ha3 Ha4 Ha5 Ha6] Ho Hsp Hr Hord Hn]. unfold wal_sync.
  destruct w as [[a b] act ret rs nx]. destruct act; cbn in *; (split_and!; [|done..]); by split.
Qed.

Lemma rotate_ok w older newer :
  wal_ok w older newer -> can_rotate w = true ->
  exists w', rotate w = (Ok (next_lsn w), w') /\ wal_ok w' newer [] /\ older = [] /\
    active w' = negb (active w) /\ retired w' = Some (active w) /\ next_lsn w' = next_lsn w /\
    segments w' = segments w.
Proof.
  intros [Ha Ho Hsp Hr Hord Hn] Hc. unfold rotate. st_run. rewrite Hc. cbn [negb].
  eexists. split; [done|]. cbn. unfold can_rotate in Hc. destruct (retired w) eqn:Hret; [done|].
  apply Z.eqb_eq in Hc. rewrite (Hsp Hc) in *. rewrite Hc in *. clear Hsp.
  destruct Ho as [e Ho]. pose proof (so_log _ _ Ho) as Hol. inversion Hol; subst.
  split_and!; try done. split; cbn [active retired next_lsn last_lsn].
  - change (seg _ (negb (active w))) with (seg w (negb (active w))).
    destruct (seg w (negb (active w))); cbn in *. by subst.
  - rewrite negb_involutive. by apply seg_ok_holds.
  - rewrite negb_involutive. change (seg _ (active w)) with (seg w (active w)).
    intros He. by apply seg_ok_empty in Ha.
  - intros i [= <-]. by rewrite negb_involutive.
  - constructor.
  - simpl in Hn. lia.
Qed.

(** Sealing a file makes it scan as empty, at once and durably. *)
Lemma seal_file_ok s rs :
  seg_holds s rs ->
  let s' := mkSegment (seal_file (s_file s)) 0 (file_length s) (allocated_offset s) in
  seg_ok s' [] /\ seg_synced s'.
Proof.
  intros [e Hs]. pose proof (seg_ok_end _ _ Hs) as He. destruct Hs as [[Hf Hu] Hlog Hst Hl Hal Hpre].
  pose proof WAL_PREALLOCATE_BYTES_eq. cbn [s_file end_offset file_length allocated_offset] in *.
  assert (f_len (file_write (cached (s_file s)) 0 STOP_MARKER) = f_len (cached (s_file s))) as HL.
  { rewrite f_len_write, bool_decide_false by done. rewrite length_STOP_MARKER. lia. }
  split; [|done]. split; cbn [s_file cached seal_file os_sync os_update end_offset file_length allocated_offset].
  - unfold file_ok. rewrite HL. lia.
  - constructor.
  - rewrite file_read_write_eq by (done || lia). done.
  - lia.
  - lia.
  - lia.
Qed.

Definition wal_synced (w : Wal) : Prop := forall i, seg_synced (seg w i).

Lemma newer_positive w older newer :
  wal_ok w older newer -> Forall (fun r => 0 < r_lsn r) newer /\ last_lsn 0 newer < next_lsn w.
Proof.
  intros Hw. destruct (wo_active _ _ _ Hw) as [[Hf Hu] Hlog _ _ _ _].
  destruct (log_at_bound _ 0 0 newer _ Hu ltac:(lia) ltac:(lia) Hlog) as (_ & _ & Hge & _ & HF).
  assert (0 <= last_lsn 0 older).
  { destruct (wo_other _ _ _ Hw) as [e He]. apply seg_ok_last in He. lia. }
  pose proof (wo_next _ _ _ Hw) as Hn. split.
  - eapply Forall_impl; [done|]. simpl. lia.
  - destruct (decide (newer = [])) as [->|Hne]; [simpl in *; lia|].
    rewrite (last_lsn_any newer 0 (last_lsn 0 older)) by done. lia.
Qed.

(** A log whose older segment is gone. *)
Lemma wal_ok_forget_older w w' older newer :
  wal_ok w older newer -> active w' = active w -> next_lsn w' = next_lsn w ->
  (forall i, retired w' = Some i -> i = negb (active w)) ->
  seg w' (active w) = seg w (active w) -> seg_holds (seg w' (negb (active w))) [] ->
  wal_ok w' [] newer.
Proof.
  intros Hw Ha Hn Hr Hs Ho. destruct (newer_positive _ _ _ Hw) as [Hpos Hlast].
  split; rewrite ?Ha, ?Hs, ?Hn; try done; [apply Hw|].
  pose proof (wo_next _ _ _ Hw). cbn. lia.
Qed.

Lemma seal_retired_ok w older newer :
  wal_ok w older newer -> wal_synced w ->
  let w' := seal_segment_file (negb (active w)) w in wal_ok w' [] newer /\ wal_synced w'.
Proof.
  intros Hw Hsy. pose proof (seal_file_ok _ _ (wo_other _ _ _ Hw)) as [Hseal Hsealed]. split.
  - apply (wal_ok_forget_older w _ older); try done.
    + apply Hw.
    + by destruct w as [[? ?] []].
    + unfold seal_segment_file. rewrite seg_set_same. by exists 0.
  - intros i. unfold seal_segment_file.
    destruct (bool_decide_reflect (i = negb (active w))) as [->|Hne].
    + rewrite seg_set_same. done.
    + replace i with (negb (negb (active w))) by (destruct i, (active w); done).
      rewrite seg_set_other. apply Hsy.
Qed.

Lemma finish_recycle_ok w newer boundary i :
  wal_ok w [] newer -> wal_synced w -> retired w = Some i ->
  exists w', finish_recycle boundary w = (Ok tt, w') /\ wal_ok w' [] newer /\ wal_synced w' /\
    retired w' = None /\ next_lsn w' = next_lsn w /\ active w' = active w /\
    0 <= end_offset (seg w' (negb (active w'))).
Proof.
  intros Hw Hsy Hr. unfold finish_recycle. st_run. rewrite Hr. cbn [ok_or].
  pose proof (wo_retired _ _ _ Hw _ Hr) as ->. eexists. split; [done|].
  cbn [retired next_lsn active]. split_and!; try done.
  - apply (wal_ok_forget_older w _ []); try done.
    + by destruct w as [[? ?] []].
    + destruct (wo_other _ _ _ Hw) as [e He]. exists e. by destruct w as [[? ?] []].
  - intros j. specialize (Hsy j). by destruct w as [[? ?] []], j.
  - by destruct w as [[? ?] []].
Qed.

Lemma seal_live_ok s rs :
  seg_holds s rs -> (end_offset s = 0 -> rs = []) -> 0 <= end_offset s -> seg_synced s ->
  seg_ok (seal_live s) [] /\ seg_synced (seal_live s).
Proof.
  intros Hs He Hpos Hsy. unfold seal_live. case_step; bool_to_prop; [by eapply seal_file_ok|].
  split; [|done]. assert (end_offset s = 0) as He0 by lia. rewrite (He He0) in Hs.
  destruct Hs as [e Hs]. pose proof (so_log _ _ Hs) as Hlog. inversion Hlog; subst.
  destruct s; cbn in *. by subst.
Qed.

Lemma reset_after_checkpoint_ok w older newer :
  wal_ok w older newer -> wal_synced w -> 0 <= end_offset (seg w (negb (active w))) ->
  let w' := reset_after_checkpoint w in
  wal_ok w' [] [] /\ wal_synced w' /\ retired w' = None /\ next_lsn w' = next_lsn w /\
  0 <= end_offset (seg w' (negb (active w'))).
Proof.
  intros Hw Hsy Hoff. pose proof (wo_next _ _ _ Hw) as Hnx.
  destruct (newer_positive _ _ _ Hw) as [_ Hlast]. pose proof (wo_active _ _ _ Hw) as Ha.
  pose proof (seg_ok_last _ _ Ha) as Hl0.
  destruct (seal_live_ok _ newer (seg_ok_holds _ _ Ha)) as [Ha1 Ha2];
    [intros; by eapply seg_ok_empty|apply seg_ok_end in Ha; lia|apply Hsy|].
  destruct (seal_live_ok _ older (wo_other _ _ _ Hw)) as [Ho1 Ho2]; [apply Hw|done|apply Hsy|].
  split_and!; try done.
  - split; try done.
    + by destruct w as [[? ?] []].
    + apply seg_ok_holds. by destruct w as [[? ?] []].
    + cbn [last_lsn reset_after_checkpoint next_lsn]. lia.
  - intros i. by destruct w as [[? ?] []], i.
  - apply seg_ok_end in Ho1 as [? _]. by destruct w as [[? ?] []].
Qed.

(** ** Opening *)

Lemma last_lsn_last rs p : last_lsn p rs = match last rs with Some r => r_lsn r | None => p end.
Proof.
  revert p. induction rs as [|r rs IH]; intros p; [done|]. cbn [last_lsn]. rewrite IH.
  rewrite last_cons. by destruct (last rs).
Qed.

Lemma seg_ok_first s r rs : seg_ok s (r :: rs) -> r_lsn r <= last_lsn 0 (r :: rs).
Proof.
  intros [[Hf Hu] Hlog _ _ _ _].
  destruct (log_at_bound _ 0 0 _ _ Hu ltac:(lia) ltac:(lia) Hlog) as (_ & _ & _ & _ & HF).
  apply Forall_cons in HF. lia.
Qed.

Lemma seg_ok_positive s rs : seg_ok s rs -> Forall (fun r => 0 < r_lsn r) rs.
Proof.
  intros [[Hf Hu] Hlog _ _ _ _].
  destruct (log_at_bound _ 0 0 _ _ Hu ltac:(lia) ltac:(lia) Hlog) as (_ & _ & _ & _ & HF).
  eapply Forall_impl; [done|]. simpl. lia.
Qed.

Lemma wal_ok_intro sa sb act older newer rs :
  seg_ok (if act : bool then sb else sa) newer -> seg_ok (if act : bool then sa else sb) older ->
  Forall (fun r => last_lsn 0 older < r_lsn r) newer -> rs = older ++ newer ->
  last_lsn 0 rs < U64_MAX ->
  wal_ok (mkWal (sa, sb) act None rs
            match last rs with None => 1 | Some r => saturating_add U64_MAX (r_lsn r) 1 end) older newer.
Proof.
  intros Hn Ho Hord -> Hmax. pose proof (seg_ok_last _ _ Ho). split; cbn [active retired next_lsn].
  - by destruct act.
  - apply seg_ok_holds. by destruct act.
  - intros He. eapply seg_ok_empty; [|done]. by destruct act.
  - done.
  - done.
  - rewrite <- last_lsn_app. rewrite last_lsn_last in *.
    destruct (last (older ++ newer)); unfold saturating_add, U64_MAX in *; lia.
Qed.

Lemma segment_open_synced o s rs :
  cached o = synced o -> history o = [] -> segment_open o = (s, rs) -> seg_synced s.
Proof.
  intros Hc Hh. unfold segment_open, scan_and_repair. destruct (scan (cached o)) as [rs' e].
  cbn beta iota zeta. destruct (saturating_add _ _ _ <=? _); destruct (f_len _ <? _);
    intros [= <- <-]; by split.
Qed.

Lemma wal_open_ok a b ra ea rb eb :
  file_ok (cached a) -> file_ok (cached b) ->
  cached a = synced a -> history a = [] -> cached b = synced b -> history b = [] ->
  scan (cached a) = (ra, ea) -> scan (cached b) = (rb, eb) ->
  last_lsn 0 ra < U64_MAX -> last_lsn 0 rb < U64_MAX ->
  forall older newer,
  (ra = older /\ rb = newer \/ ra = newer /\ rb = older) ->
  Forall (fun r => last_lsn 0 older < r_lsn r) newer ->
  exists older' newer', (older' = [] /\ newer' = older ++ newer \/ older' = older /\ newer' = newer) /\
    wal_ok (wal_open a b) older' newer' /\ records (wal_open a b) = older ++ newer /\
    wal_synced (wal_open a b) /\ retired (wal_open a b) = None /\
    next_lsn (wal_open a b) <= last_lsn 0 (older ++ newer) + 1 /\
    forall i, 0 <= end_offset (seg (wal_open a b) i) <= Z.max ea eb.
Proof.
  intros Hfa Hfb Hca Hha Hcb Hhb Hsa Hsb Hla Hlb older newer Hcase Hord.
  destruct (segment_open a) as [sa ra'] eqn:Ea. destruct (segment_open b) as [sb rb'] eqn:Eb.
  pose proof (segment_open_synced _ _ _ Hca Hha Ea) as Hya.
  pose proof (segment_open_synced _ _ _ Hcb Hhb Eb) as Hyb.
  apply segment_open_ok in Ea as Ea'; [|done]. destruct Ea' as [Hoa Hsa'].
  apply segment_open_ok in Eb as Eb'; [|done]. destruct Eb' as [Hob Hsb'].
  rewrite Hsa in Hsa'. rewrite Hsb in Hsb'. simplify_eq.
  pose proof (seg_ok_last _ _ Hoa). pose proof (seg_ok_last _ _ Hob).
  assert (forall (act : bool) rs nx i, 0 <= end_offset (seg (mkWal (sa, sb) act None rs nx) i) <=
            Z.max (end_offset sa) (end_offset sb)) as Hends.
  { intros act rs nx i. pose proof (seg_ok_end _ _ Hoa). pose proof (seg_ok_end _ _ Hob). destruct i; cbn; lia. }
  assert (forall (act : bool) rs nx, wal_synced (mkWal (sa, sb) act None rs nx)) as Hsync.
  { intros act rs nx i. destruct i; assumption. }
  assert (forall act rs, next_lsn (mkWal (sa, sb) act None rs
            match last rs with None => 1 | Some r => saturating_add U64_MAX (r_lsn r) 1 end)
            <= last_lsn 0 rs + 1) as Hnext.
  { intros act rs. cbn [next_lsn]. rewrite last_lsn_last. destruct (last rs); unfold saturating_add; lia. }
  assert (older ++ newer = ra' ++ rb' \/ ra' <> [] /\ rb' <> []) as Happ.
  { destruct ra', rb'; destruct Hcase as [[? ?]|[? ?]]; subst; rewrite ?app_nil_r; auto. }
  unfold wal_open. rewrite Ea, Eb. destruct rb' as [|b0 rb'].
  { destruct Happ as [Happ|[_ ?]]; [|done]. rewrite app_nil_r in Happ. exists [], ra'.
    rewrite Happ. destruct ra'; split_and!; auto; try apply Hnext; apply wal_ok_intro; try done; apply (seg_ok_positive _ _ Hoa). }
  destruct ra' as [|a0 ra'].
  { destruct Happ as [Happ|[? _]]; [|done]. cbn [app] in Happ. exists [], (b0 :: rb').
    rewrite Happ. split_and!; auto; try apply Hnext. apply wal_ok_intro; try done. apply (seg_ok_positive _ _ Hob). }
  pose proof (seg_ok_first _ _ _ Hoa) as Hfa0. pose proof (seg_ok_first _ _ _ Hob) as Hfb0.
  assert (last_lsn 0 (older ++ newer) < U64_MAX) as Hmax.
  { rewrite last_lsn_app. destruct Hcase as [[<- <-]|[<- <-]]; done. }
  exists older, newer. destruct Hcase as [[<- <-]|[<- <-]]; apply Forall_cons in Hord as Hord'; destruct Hord' as [Hlt _].
  - replace (r_lsn a0 <? r_lsn b0) with true by lia.
    rewrite last_lsn_last in Hlt. destruct (last (a0 :: ra')) as [l|] eqn:Hlast; [|by apply last_None in Hlast].
    replace (r_lsn l <? r_lsn b0) with true by lia.
    split_and!; auto; try apply Hnext. by apply wal_ok_intro.
  - replace (r_lsn a0 <? r_lsn b0) with false by lia.
    rewrite last_lsn_last in Hlt. destruct (last (b0 :: rb')) as [l|] eqn:Hlast; [|by apply last_None in Hlast].
    replace (r_lsn l <? r_lsn a0) with true by lia.
    split_and!; auto; try apply Hnext. by apply wal_ok_intro.
Qed.

(** Every record's LSN is below the next one. *)
Lemma wal_ok_lsn w older newer r : wal_ok w older newer -> r ∈ older ++ newer -> r_lsn r < next_lsn w.
Proof.
  intros Hw Hr. destruct (newer_positive _ _ _ Hw) as [_ Hlast]. destruct (wo_other _ _ _ Hw) as [e Ho].
  pose proof (wo_active _ _ _ Hw) as Ha.
  apply elem_of_app in Hr as [Hr|Hr].
  - destruct Ho as [[Hf Hu] Hlog _ _ _ _].
    destruct (log_at_bound _ 0 0 older _ Hu ltac:(lia) ltac:(lia) Hlog) as (_ & _ & _ & _ & HF).
    eapply Forall_forall in HF; [|exact Hr]. cbn in HF. pose proof (wo_next _ _ _ Hw) as Hn.
    destruct newer as [|r0 rs]; [simpl in Hn; lia|]. pose proof (seg_ok_first _ _ _ Ha).
    pose proof (wo_order _ _ _ Hw) as Hord. apply Forall_cons in Hord as [? _]. lia.
  - destruct Ha as [[Hf Hu] Hlog _ _ _ _].
    destruct (log_at_bound _ 0 0 newer _ Hu ltac:(lia) ltac:(lia) Hlog) as (_ & _ & _ & _ & HF).
    eapply Forall_forall in HF; [|exact Hr]. cbn in HF. lia.
Qed.

Lemma ensure_next_lsn_after_ok w older newer l :
  wal_ok w older newer -> l < U64_MAX ->
  exists w', ensure_next_lsn_after l w = (Ok tt, w') /\ wal_ok w' older newer /\
    l < next_lsn w' /\ next_lsn w <= next_lsn w' /\ next_lsn w' <= Z.max (next_lsn w) (l + 1) /\
    segments w' = segments w /\ active w' = active w /\ retired w' = retired w /\ records w' = records w.
Proof.
  intros [Ha Ho Hsp Hr Hord Hn] Hl. unfold ensure_next_lsn_after, checked_add. st_run.
  replace (l + 1 <=? U64_MAX) with true by lia. cbn [ok_or]. eexists. split; [done|].
  cbn [set_next_lsn next_lsn segments active retired records]. split_and!; try done; try lia.
  split; try done. cbn [next_lsn set_next_lsn]. lia.
Qed.
End WalLog.
