(* ===== verification/Store.v ===== *)
(** * The durable page store

    Models [src/storage/src/store.rs]: the table of dirty pages in front of
    the data file, batches of page images and of page appends through the
    log, paced flushing, checkpoints (foreground and background), page
    allocation, and recovery.

    A method on [&mut self] is an [ST] computation over [DurableStore].  A
    background checkpoint shares the dirty table, the data file and the
    retired segment's file with the store, so its parts run on the same
    state. *)
From S2P Require Import Prelude Page Files DataFile Wal.
Local Open Scope Z_scope.

Record PageWrite := mkPageWrite {
  w_page_id : PageId;
  w_payload : list byte;
}.

Record PageAppend := mkPageAppend {
  a_page_id : PageId;
  a_offset : Z;
  a_payload : list byte;
  a_sealed : bool;
}.

(** ** Page allocation *)

(** A [BTreeSet] is its sorted list of elements. *)
Fixpoint bt_insert (x : Z) (l : list Z) : list Z :=
  match l with
  | [] => [x]
  | y :: l' => if x <? y then x :: l else if x =? y then l else y :: bt_insert x l'
  end.

Record AllocatorState := mkAllocator {
  next_page_id : Z;
  free_pages : list PageId;
}.

Module Allocator.
(** The loop that pops free pages until [count] are taken. *)
Fixpoint pop_free (count : nat) (free : list PageId) : list PageId * list PageId :=
  match count, free with
  | S count, p :: free => let '(taken, rest) := pop_free count free in (p :: taken, rest)
  | _, _ => ([], free)
  end.

Definition reserve (count : Z) : ST AllocatorState StorageError (list PageId) :=
  a ← get;
  let '(page_ids, free) := pop_free (Z.to_nat count) (free_pages a) in
  _ ← modify (fun a => mkAllocator (next_page_id a) free);
  let fresh := count - blen page_ids in
  end_ ← lift (ok_or (checked_add U64_MAX (next_page_id a) fresh) (Configuration PageIdSpaceExhausted));
  _ ← modify (fun a => mkAllocator end_ (free_pages a));
  mret (page_ids ++ seqZ (next_page_id a) fresh).

Definition release (pages : list PageId) (a : AllocatorState) : AllocatorState :=
  mkAllocator (next_page_id a)
    (fold_left (fun free page_id => if page_id <? next_page_id a then bt_insert page_id free else free)
               pages (free_pages a)).

Definition free_page_count (a : AllocatorState) : Z := blen (free_pages a).

Definition note_written (page_id : PageId) (a : AllocatorState) : AllocatorState :=
  mkAllocator (Z.max (next_page_id a) (saturating_add U64_MAX page_id 1)) (free_pages a).
End Allocator.

(** ** Replay of the log *)

(** Place bytes at an offset, zero filling any gap before them. *)
Definition splice (base : list byte) (offset : Z) (bytes : list byte) : list byte :=
  let end_ := offset + blen bytes in
  let base := if blen base <? end_ then base ++ zeros (end_ - blen base) else base in
  put base offset bytes.

Record CommittedWrite := mkCommitted {
  c_lsn : Lsn;
  c_page_id : PageId;
  c_payload : list byte;
  append_at : option Z;
}.

(** The loop of [committed_page_images], from its two accumulators. *)
Fixpoint committed_loop (rs : list WalRecord) (pending committed : list CommittedWrite)
  : Result (list CommittedWrite) :=
  match rs with
  | [] => Ok committed
  | r :: rs =>
      match r_kind r with
      | PageImage page_id payload =>
          committed_loop rs (pending ++ [mkCommitted (r_lsn r) page_id payload None]) committed
      | Wal.PageAppend page_id offset payload =>
          committed_loop rs (pending ++ [mkCommitted (r_lsn r) page_id payload (Some offset)]) committed
      | BatchCommit page_count =>
          if blen pending <? page_count
          then Err (CorruptWal 0 (BatchDeclaresMoreThanPending page_count (blen pending)))
          else
            let committed_start := blen pending - page_count in
            committed_loop rs [] (committed ++ drop (Z.to_nat committed_start) pending)
      | Checkpoint => Err (CorruptWal 0 UnexpectedCheckpoint)
      end
  end.

Definition committed_page_images (rs : list WalRecord) : Result (list CommittedWrite) :=
  committed_loop (after_checkpoint rs) [] [].

(** ** The store *)

Record DurableStore := mkStore {
  data : DataFile;
  wal : Wal;
  dirty : gmap PageId Page;
  flushed : gmap PageId Lsn;
  flush_queue : list PageId;
  allocator : AllocatorState;
  open_pages : gset PageId;
  checkpoint_in_flight : bool;
  poisoned : bool;
}.

Definition set_data (d : DataFile) (s : DurableStore) : DurableStore :=
  mkStore d (wal s) (dirty s) (flushed s) (flush_queue s) (allocator s) (open_pages s)
          (checkpoint_in_flight s) (poisoned s).
Definition set_wal (w : Wal) (s : DurableStore) : DurableStore :=
  mkStore (data s) w (dirty s) (flushed s) (flush_queue s) (allocator s) (open_pages s)
          (checkpoint_in_flight s) (poisoned s).
Definition set_dirty (m : gmap PageId Page) (s : DurableStore) : DurableStore :=
  mkStore (data s) (wal s) m (flushed s) (flush_queue s) (allocator s) (open_pages s)
          (checkpoint_in_flight s) (poisoned s).
Definition set_flushed (m : gmap PageId Lsn) (s : DurableStore) : DurableStore :=
  mkStore (data s) (wal s) (dirty s) m (flush_queue s) (allocator s) (open_pages s)
          (checkpoint_in_flight s) (poisoned s).
Definition set_queue (q : list PageId) (s : DurableStore) : DurableStore :=
  mkStore (data s) (wal s) (dirty s) (flushed s) q (allocator s) (open_pages s)
          (checkpoint_in_flight s) (poisoned s).
Definition set_allocator (a : AllocatorState) (s : DurableStore) : DurableStore :=
  mkStore (data s) (wal s) (dirty s) (flushed s) (flush_queue s) a (open_pages s)
          (checkpoint_in_flight s) (poisoned s).
Definition set_open_pages (o : gset PageId) (s : DurableStore) : DurableStore :=
  mkStore (data s) (wal s) (dirty s) (flushed s) (flush_queue s) (allocator s) o
          (checkpoint_in_flight s) (poisoned s).
Definition set_in_flight (b : bool) (s : DurableStore) : DurableStore :=
  mkStore (data s) (wal s) (dirty s) (flushed s) (flush_queue s) (allocator s) (open_pages s)
          b (poisoned s).
Definition set_poisoned (b : bool) (s : DurableStore) : DurableStore :=
  mkStore (data s) (wal s) (dirty s) (flushed s) (flush_queue s) (allocator s) (open_pages s)
          (checkpoint_in_flight s) b.

Abbreviation StoreM := (ST DurableStore StorageError).

(** Calls on the store's parts. *)
Definition on_wal {A} (m : ST Wal StorageError A) : StoreM A := zoom wal set_wal m.
Definition on_allocator {A} (m : ST AllocatorState StorageError A) : StoreM A := zoom allocator set_allocator m.
Definition sync_wal : StoreM unit := modify (fun s => set_wal (wal_sync (wal s)) s).

(** The wrappers that poison the store when their body fails. *)
Definition poisoning {A} (m : StoreM A) : StoreM A :=
  fun s => match m s with
           | (Ok a, s') => (Ok a, s')
           | (Err e, s') => (Err e, set_poisoned true s')
           end.

Definition refuse_poisoned {A} (m : StoreM A) : StoreM A :=
  s ← get; if poisoned s then throw Poisoned else m.

Section Operations.
Context `{Crc32}.

(** ** Reads *)

Definition read_page (s : DurableStore) (page_id : PageId) : Result (option Page) :=
  match dirty s !! page_id with
  | Some page => Ok (Some page)
  | None => DataFile.read (data s) page_id
  end.

(** [SharedReader::read_page]: the same table, and a second handle on the
    same data file. *)
Definition shared_read_page (s : DurableStore) (page_id : PageId) : Result (option Page) :=
  match dirty s !! page_id with
  | Some page => Ok (Some page)
  | None => read_shared (cached (data s)) page_id
  end.

Definition store_page_count (s : DurableStore) : Z :=
  let dirty_end := foldr (fun p m => Z.max (saturating_add U64_MAX p.1 1) m) 0 (map_to_list (dirty s)) in
  Z.max (page_count (data s)) dirty_end.

(** ** Batches of page images *)

Definition note_dirty (w : PageWrite) (lsn : Lsn) : StoreM unit :=
  page ← lift (with_lsn (w_page_id w) lsn (w_payload w));
  _ ← modify (fun s => set_dirty (<[w_page_id w := page]> (dirty s)) s);
  _ ← modify (fun s => set_queue (flush_queue s ++ [w_page_id w]) s);
  modify (fun s => set_allocator (Allocator.note_written (w_page_id w) (allocator s)) s).

Definition write_pages_inner (writes : list PageWrite) (durable : bool) : StoreM (list Lsn) :=
  lsns ← collect writes (fun w => on_wal (append_page (w_page_id w) (w_payload w)));
  _ ← on_wal (append_batch_commit (blen writes));
  _ ← (if durable then sync_wal else mret tt);
  _ ← for_each (zip writes lsns) (fun '(w, lsn) => note_dirty w lsn);
  mret lsns.

Definition write_pages_with (writes : list PageWrite) (durable : bool) : StoreM (list Lsn) :=
  refuse_poisoned (
    _ ← lift (try_map (fun w => new_page (w_page_id w) (w_payload w)) writes);
    match writes with
    | [] => mret []
    | _ => poisoning (write_pages_inner writes durable)
    end).

Definition write_pages (writes : list PageWrite) : StoreM (list Lsn) := write_pages_with writes true.

Definition write_page (page_id : PageId) (payload : list byte) : StoreM Lsn :=
  lsns ← write_pages [mkPageWrite page_id payload];
  lift (ok_or (last lsns) (Configuration SinglePageWriteNoLsn)).

Definition allocate_page (payload : list byte) : StoreM PageId :=
  ids ← on_allocator (Allocator.reserve 1);
  page_id ← lift (ok_or (head ids) (Configuration PageIdSpaceExhausted));
  _ ← write_page page_id payload;
  mret page_id.

Definition reserve_page_ids (count : Z) : StoreM (list PageId) :=
  refuse_poisoned (on_allocator (Allocator.reserve count)).

Definition release_pages (pages : list PageId) : StoreM unit :=
  modify (fun s => set_allocator (Allocator.release pages (allocator s)) s).

(** ** Batches of appends *)

(** The image a page has before the batch. *)
Definition append_base (s : DurableStore) (page_id : PageId) : Result (list byte) :=
  match dirty s !! page_id with
  | Some page => Ok (payload page)
  | None => o ← DataFile.read (data s) page_id; Ok (match o with Some page => payload page | None => [] end)
  end.

(** One turn of the loop that builds the resulting images. *)
Definition grow_page (s : DurableStore) (grown : gmap PageId (list byte)) (a : PageAppend)
  : Result (gmap PageId (list byte)) :=
  target ← match grown !! a_page_id a with Some t => Ok t | None => append_base s (a_page_id a) end;
  end_ ← ok_or (checked_add U64_MAX (a_offset a) (blen (a_payload a))) (PageTooLarge U64_MAX MAX_PAGE_PAYLOAD);
  if MAX_PAGE_PAYLOAD <? end_ then Err (PageTooLarge end_ MAX_PAGE_PAYLOAD)
  else Ok (<[a_page_id a := splice target (a_offset a) (a_payload a)]> grown).

Definition newest_lsns (appends : list PageAppend) (lsns : list Lsn) : gmap PageId Lsn :=
  fold_left (fun m '(a, lsn) => <[a_page_id a := lsn]> m) (zip appends lsns) ∅.

Definition sealed_pages (appends : list PageAppend) : gset PageId :=
  list_to_set (a_page_id <$> filter (fun a => a_sealed a = true) appends).

Definition note_grown (newest : gmap PageId Lsn) (sealed : gset PageId) (p : PageId * list byte) : StoreM unit :=
  let '(page_id, payload) := p in
  let lsn := default 0 (newest !! page_id) in
  page ← lift (with_lsn page_id lsn payload);
  _ ← modify (fun s => set_dirty (<[page_id := page]> (dirty s)) s);
  _ ← (if decide (page_id ∈ sealed) then
         _ ← modify (fun s => set_open_pages (open_pages s ∖ {[page_id]}) s);
         modify (fun s => set_queue (flush_queue s ++ [page_id]) s)
       else modify (fun s => set_open_pages ({[page_id]} ∪ open_pages s) s));
  modify (fun s => set_allocator (Allocator.note_written page_id (allocator s)) s).

Definition append_pages_inner (appends : list PageAppend) (durable : bool) : StoreM (list Lsn) :=
  s ← get;
  grown ← lift (try_fold (grow_page s) ∅ appends);
  lsns ← collect appends (fun a => on_wal (append_page_tail (a_page_id a) (a_offset a) (a_payload a)));
  _ ← on_wal (append_batch_commit (blen appends));
  _ ← (if durable then sync_wal else mret tt);
  _ ← for_each (map_to_list grown) (note_grown (newest_lsns appends lsns) (sealed_pages appends));
  mret lsns.

Definition append_pages (appends : list PageAppend) : StoreM (list Lsn) :=
  match appends with
  | [] => mret []
  | _ => refuse_poisoned (poisoning (append_pages_inner appends true))
  end.

(** ** Both kinds under one sync *)

Definition apply_batch_inner (writes : list PageWrite) (appends : list PageAppend) (durable : bool)
  : StoreM (list Lsn * list Lsn) :=
  write_lsns ← match writes with [] => mret [] | _ => write_pages_inner writes false end;
  append_lsns ← match appends with [] => mret [] | _ => append_pages_inner appends false end;
  _ ← (if durable then sync_wal else mret tt);
  mret (write_lsns, append_lsns).

Definition apply_batch (writes : list PageWrite) (appends : list PageAppend) (durable : bool)
  : StoreM (list Lsn * list Lsn) :=
  refuse_poisoned (poisoning (apply_batch_inner writes appends durable)).

(** ** Flushing *)

(** The loop that pops the queue until [budget] pages are pending. *)
Fixpoint pop_pending (budget : Z) (dirty : gmap PageId Page) (flushed : gmap PageId Lsn)
    (queue : list PageId) : list Page * list PageId :=
  if budget <=? 0 then ([], queue)
  else match queue with
       | [] => ([], [])
       | page_id :: queue =>
           match dirty !! page_id with
           | None => pop_pending budget dirty flushed queue
           | Some page =>
               if bool_decide (flushed !! page_id = Some (lsn page))
               then pop_pending budget dirty flushed queue
               else let '(pending, rest) := pop_pending (budget - 1) dirty flushed queue in
                    (page :: pending, rest)
           end
       end.

Definition flush_page (page : Page) : StoreM unit :=
  s ← get;
  d ← lift (DataFile.write (data s) page);
  _ ← modify (set_data d);
  modify (fun s => set_flushed (<[id page := lsn page]> (flushed s)) s).

Definition flush_some_dirty (budget : Z) : StoreM Z :=
  s ← get;
  if checkpoint_in_flight s then mret 0
  else
    let '(pending, rest) := pop_pending budget (dirty s) (flushed s) (flush_queue s) in
    _ ← modify (set_queue rest);
    _ ← for_each pending flush_page;
    mret (blen pending).

(** ** Checkpoints *)

(** [while self.flush_some_dirty(usize::MAX)? > 0 {}]: a call that writes a
    page shortens the queue, so its length bounds the number of calls. *)
Fixpoint flush_all (fuel : nat) : StoreM unit :=
  match fuel with
  | O => mret tt
  | S fuel => n ← flush_some_dirty U64_MAX; if 0 <? n then flush_all fuel else mret tt
  end.

Definition drop_flushed (s : DurableStore) : DurableStore :=
  let kept := filter (fun '(page_id, page) => flushed s !! page_id <> Some (lsn page)) (dirty s) in
  set_flushed ∅ (set_dirty kept s).

Definition checkpoint_inner : StoreM Lsn :=
  _ ← modify (fun s => set_open_pages ∅ (set_queue (flush_queue s ++ elements (open_pages s)) s));
  s ← get;
  _ ← flush_all (S (length (flush_queue s)));
  _ ← modify (fun s => set_data (DataFile.sync (data s)) s);
  lsn ← on_wal append_checkpoint;
  _ ← sync_wal;
  _ ← modify (fun s => set_wal (reset_after_checkpoint (wal s)) s);
  _ ← modify drop_flushed;
  mret lsn.

Definition checkpoint : StoreM Lsn :=
  refuse_poisoned (
    s ← get;
    if checkpoint_in_flight s then throw (Configuration CheckpointWhileBackground)
    else poisoning checkpoint_inner).

Definition wal_size_bytes (s : DurableStore) : Z := size_bytes (wal s).

Definition can_begin_background_checkpoint (s : DurableStore) : bool :=
  negb (checkpoint_in_flight s) && negb (poisoned s) && can_rotate (wal s).

(** The job's handles on the dirty table, the data file and the retired
    segment are the store's own; the index of the segment says which. *)
Record BackgroundCheckpoint := mkJob {
  manifest : list (PageId * Lsn);
  retired_file : bool;
  boundary_lsn : Z;
}.

Definition begin_background_checkpoint : StoreM BackgroundCheckpoint :=
  refuse_poisoned (
    s ← get;
    if checkpoint_in_flight s then throw (Configuration BackgroundAlreadyInFlight)
    else
      boundary ← on_wal rotate;
      s ← get;
      let manifest := (fun '(page_id, page) => (page_id, lsn page)) <$> map_to_list (dirty s) in
      _ ← modify (set_in_flight true);
      i ← lift (ok_or (retired (wal s)) (CorruptWal 0 NoRetiredSegment));
      mret (mkJob manifest i boundary)).

(** [BackgroundCheckpoint::run]: the pages of one chunk that still carry
    the manifest's LSN, written through the shared handle ... *)
Definition chunk_pages (dirty : gmap PageId Page) (chunk : list (PageId * Lsn)) : list Page :=
  omap (fun '(page_id, l) =>
          match dirty !! page_id with
          | Some page => if lsn page =? l then Some page else None
          | None => None
          end) chunk.

Definition write_shared (page : Page) : StoreM unit :=
  s ← get; d ← lift (DataFile.write (data s) page); modify (set_data d).

Definition run_chunk (chunk : list (PageId * Lsn)) : StoreM (list (PageId * Lsn)) :=
  s ← get;
  let pages := chunk_pages (dirty s) chunk in
  _ ← for_each pages write_shared;
  mret ((fun page => (id page, lsn page)) <$> pages).

(** ... then the data file's sync, and only then the seal. *)
Definition run_sync : StoreM unit := modify (fun s => set_data (DataFile.sync (data s)) s).

Definition run_seal (i : bool) : StoreM unit :=
  modify (fun s => set_wal (seal_segment_file i (wal s)) s).

Definition CHUNK : nat := 64.

Fixpoint chunks {A} (fuel : nat) (l : list A) : list (list A) :=
  match fuel, l with
  | S fuel, _ :: _ => take CHUNK l :: chunks fuel (drop CHUNK l)
  | _, _ => []
  end.

Definition run (job : BackgroundCheckpoint) : StoreM (list (PageId * Lsn)) :=
  written ← collect (chunks (length (manifest job)) (manifest job)) run_chunk;
  _ ← run_sync;
  _ ← run_seal (retired_file job);
  mret (concat written).

Definition forget_written (s : DurableStore) (p : PageId * Lsn) : DurableStore :=
  let '(page_id, l) := p in
  let s := match dirty s !! page_id with
           | Some page => if lsn page =? l then set_dirty (delete page_id (dirty s)) s else s
           | None => s
           end in
  if bool_decide (flushed s !! page_id = Some l) then set_flushed (delete page_id (flushed s)) s else s.

Definition complete_background_checkpoint_inner (job : BackgroundCheckpoint) (written : list (PageId * Lsn))
  : StoreM unit :=
  _ ← on_wal (finish_recycle (boundary_lsn job));
  modify (fun s => fold_left forget_written written s).

Definition complete_background_checkpoint (job : BackgroundCheckpoint) (written : list (PageId * Lsn))
  : StoreM unit :=
  fun s =>
    let '(r, s) := complete_background_checkpoint_inner job written s in
    let s := set_in_flight false s in
    (r, match r with Ok _ => s | Err _ => set_poisoned true s end).

Definition abort_background_checkpoint : StoreM unit := modify (set_in_flight false).

(** ** Recovery and opening *)

(** One turn of the replay loop; the flag is [wrote_page]. *)
Definition replay_write (c : CommittedWrite) : ST (DataFile * bool) StorageError unit :=
  st ← get;
  let '(d, _) := st in
  current ← lift (match DataFile.read d (c_page_id c) with
                  | Ok page => Ok page
                  | Err (CorruptPage _ _) => Ok None
                  | Err error => Err error
                  end);
  if match current with Some page => c_lsn c <=? lsn page | None => false end then mret tt
  else
    let payload :=
      match append_at c with
      | Some offset =>
          splice (match current with Some page => payload page | None => [] end) offset (c_payload c)
      | None => c_payload c
      end in
    page ← lift (with_lsn (c_page_id c) (c_lsn c) payload);
    d ← lift (DataFile.write d page);
    modify (fun _ => (d, true)).

Definition recover : StoreM unit :=
  s ← get;
  writes ← lift (committed_page_images (records (wal s)));
  wrote_page ← zoom (fun s => (data s, false)) (fun '(d, _) s => set_data d s)
                 (_ ← for_each writes replay_write; st ← get; mret st.2);
  if wrote_page : bool then modify (fun s => set_data (DataFile.sync (data s)) s) else mret tt.

Definition calculate_next_page_id (s : DurableStore) : Result Z :=
  writes ← committed_page_images (records (wal s));
  Ok (Z.max (page_count (data s))
        (foldr (fun c m => Z.max (saturating_add U64_MAX (c_page_id c) 1) m) 0 writes)).

Definition fresh_store (d : DataFile) (w : Wal) : DurableStore :=
  mkStore d w ∅ ∅ [] (mkAllocator 0 []) ∅ false false.

Definition open_body : StoreM unit :=
  _ ← recover;
  s ← get;
  maximum_page_lsn ← lift (max_lsn (data s));
  _ ← on_wal (ensure_next_lsn_after maximum_page_lsn);
  s ← get;
  next ← lift (calculate_next_page_id s);
  _ ← modify (fun s => set_allocator (mkAllocator next (free_pages (allocator s))) s);
  _ ← modify (fun s => set_wal (trim_records_to_last_checkpoint (wal s)) s);
  s ← get;
  if both_segments_live (wal s) then _ ← checkpoint; mret tt else mret tt.

(** [DurableStore::open] on the three files of its directory. *)
Definition open_store (data_file wal_file wal_spare_file : osfile) : Result DurableStore :=
  let '(r, s) := open_body (fresh_store (open_data data_file) (wal_open wal_file wal_spare_file)) in
  match r with Ok _ => Ok s | Err e => Err e end.
End Operations.
