(* ===== verification/Replay.v ===== *)
(** * What the log commits, and its replay

    [committed_page_images] keeps whole batches only; replaying page images
    leaves, for each page, the newest of the image on disk and the last
    image the log commits. *)
From S2P Require Import Prelude Page Files DataFile Wal Store.
Local Open Scope Z_scope.

(** ** Committed batches *)

(** The page change a record carries, if it carries one. *)
Definition change_of (r : WalRecord) : option CommittedWrite :=
  match r_kind r with
  | PageImage i p => Some (mkCommitted (r_lsn r) i p None)
  | Wal.PageAppend i o p => Some (mkCommitted (r_lsn r) i p (Some o))
  | _ => None
  end.

Definition is_change (k : WalKind) : bool :=
  match k with PageImage _ _ | Wal.PageAppend _ _ _ => true | _ => false end.

(** A batch as [write_pages_inner] and [append_pages_inner] log it. *)
Fixpoint change_records (l : Lsn) (ks : list WalKind) : list WalRecord :=
  match ks with [] => [] | k :: ks => mkRecord l k :: change_records (l + 1) ks end.

Definition batch_records (l : Lsn) (ks : list WalKind) : list WalRecord :=
  change_records l ks ++ [mkRecord (l + blen ks) (BatchCommit (blen ks))].

Definition batch_changes (l : Lsn) (ks : list WalKind) : list CommittedWrite :=
  omap change_of (change_records l ks).

Lemma length_change_records l ks : length (change_records l ks) = length ks.
Proof. revert l. induction ks; intros; simpl; [done|]. by rewrite IHks. Qed.

Lemma length_batch_changes l ks :
  forallb is_change ks = true -> length (batch_changes l ks) = length ks.
Proof.
  unfold batch_changes. revert l. induction ks as [|k ks IH]; intros l Hk; [done|].
  simpl in Hk. apply andb_true_iff in Hk as [Hk Hks].
  destruct k; try done; cbn; by rewrite IH.
Qed.

Lemma after_checkpoint_app rs rs' :
  existsb is_checkpoint rs' = false -> after_checkpoint (rs ++ rs') = after_checkpoint rs ++ rs'.
Proof.
  intros Hn. assert (after_checkpoint rs' = rs') as Hrs'.
  { destruct rs' as [|r rs']; [done|]. simpl in *. apply orb_false_iff in Hn as [-> ->]. done. }
  induction rs as [|r rs IH]; simpl; [done|].
  rewrite existsb_app, Hn, orb_false_r. destruct (existsb is_checkpoint rs); [done|].
  by destruct (is_checkpoint r).
Qed.

Lemma change_records_no_checkpoint l ks :
  forallb is_change ks = true -> existsb is_checkpoint (change_records l ks) = false.
Proof.
  revert l. induction ks as [|k ks IH]; intros l Hk; [done|]. simpl in Hk.
  apply andb_true_iff in Hk as [Hk Hks]. simpl. rewrite IH by done. by destruct k.
Qed.

(** Changes accumulate as pending. *)
Lemma committed_loop_changes l ks rs p c :
  forallb is_change ks = true ->
  committed_loop (change_records l ks ++ rs) p c = committed_loop rs (p ++ batch_changes l ks) c.
Proof.
  unfold batch_changes. revert l p. induction ks as [|k ks IH]; intros l p Hk; simpl in *.
  - by rewrite app_nil_r.
  - apply andb_true_iff in Hk as [Hk Hks].
    destruct k; try done; cbn; rewrite IH by done; by rewrite <- app_assoc.
Qed.

(** Whatever a log left pending, what follows commits on top of it. *)
Lemma committed_loop_state rs p c w :
  committed_loop rs p c = Ok w ->
  exists p', forall rs', committed_loop (rs ++ rs') p c = committed_loop rs' p' w.
Proof.
  revert p c. induction rs as [|r rs IH]; intros p c; simpl.
  - intros [= <-]. by exists p.
  - destruct (r_kind r); try (by apply IH); [|done].
    case_step; [done|]. apply IH.
Qed.

Lemma prefix_snoc {A} (pre l : list A) x :
  pre `prefix_of` l ++ [x] -> pre = l ++ [x] \/ pre `prefix_of` l.
Proof.
  intros [k Hk]. destruct k as [|y k _] using rev_ind.
  - left. by rewrite app_nil_r in Hk.
  - right. exists k. rewrite app_assoc in Hk. by apply app_inj_tail in Hk as [-> _].
Qed.

Lemma change_records_prefix pre l ks :
  pre `prefix_of` change_records l ks -> pre = change_records l (take (length pre) ks).
Proof.
  revert l pre. induction ks as [|k ks IH]; intros l pre [rest Hr]; destruct pre as [|r pre]; simpl in *; try done.
  injection Hr as <- Hr. f_equal. apply IH. by exists rest.
Qed.

Lemma forallb_take {A} (f : A -> bool) n l : forallb f l = true -> forallb f (take n l) = true.
Proof.
  revert n. induction l as [|x l IH]; intros [|n]; simpl; try done.
  rewrite !andb_true_iff. intros [? ?]. auto.
Qed.

Section Batches.
Context (rs : list WalRecord) (w : list CommittedWrite) (Hw : committed_page_images rs = Ok w).
Context (l : Lsn) (ks : list WalKind) (Hks : forallb is_change ks = true).

Lemma committed_append_changes n :
  committed_page_images (rs ++ change_records l (take n ks)) = Ok w.
Proof.
  unfold committed_page_images in *. pose proof (forallb_take is_change n ks Hks) as Ht.
  rewrite after_checkpoint_app by (by apply change_records_no_checkpoint).
  destruct (committed_loop_state _ _ _ _ Hw) as [p' Hp].
  rewrite Hp, <- (app_nil_r (change_records _ _)), committed_loop_changes by done. done.
Qed.

Lemma committed_append_batch :
  committed_page_images (rs ++ batch_records l ks) = Ok (w ++ batch_changes l ks).
Proof.
  unfold committed_page_images, batch_records in *. rewrite after_checkpoint_app.
  2: { rewrite existsb_app, change_records_no_checkpoint by done. done. }
  destruct (committed_loop_state _ _ _ _ Hw) as [p' Hp].
  rewrite Hp, committed_loop_changes by done. simpl.
  pose proof (length_batch_changes l ks Hks) as Hl.
  rewrite length_app, Hl. rewrite (proj2 (Z.ltb_ge _ _)) by lia.
  rewrite drop_app_length'; [done|]. lia.
Qed.

(** A torn batch commits nothing; the whole batch commits all of it. *)
Lemma committed_batch_prefix pre :
  pre `prefix_of` batch_records l ks ->
  committed_page_images (rs ++ pre) = Ok w \/
  (pre = batch_records l ks /\ committed_page_images (rs ++ pre) = Ok (w ++ batch_changes l ks)).
Proof.
  intros [->|Hpre]%prefix_snoc.
  - right. split; [done|]. apply committed_append_batch.
  - left. rewrite (change_records_prefix _ _ _ Hpre). apply committed_append_changes.
Qed.
End Batches.

(** ** Replay of page images *)

(** The last image a list of committed writes has for a page. *)
Fixpoint last_image (w : list CommittedWrite) (i : PageId) : option Page :=
  match w with
  | [] => None
  | c :: w =>
      match last_image w i with
      | Some p => Some p
      | None => if c_page_id c =? i then Some (mkPage i (c_lsn c) (c_payload c)) else None
      end
  end.

(** The newest of what the disk holds and what the log commits. *)
Definition newest (r : Result (option Page)) (o : option Page) : Result (option Page) :=
  match o with
  | None => r
  | Some pw =>
      match r with
      | Ok (Some p) => if lsn pw <=? lsn p then r else Ok (Some pw)
      | _ => Ok (Some pw)
      end
  end.

Definition image_ok (c : CommittedWrite) : Prop :=
  append_at c = None /\ valid_id (c_page_id c) /\ is_u64 (c_lsn c) /\ blen (c_payload c) <= MAX_PAGE_PAYLOAD.

(** Images in the order of their LSNs. *)
Fixpoint images_ok (l : Z) (w : list CommittedWrite) : Prop :=
  match w with
  | [] => True
  | c :: w => l < c_lsn c /\ image_ok c /\ images_ok (c_lsn c) w
  end.

Lemma valid_id_u64 i : valid_id i -> is_u64 i.
Proof. unfold valid_id, is_u64, PAGE_SIZE. lia. Qed.

Lemma last_image_Some l w i p :
  images_ok l w -> last_image w i = Some p -> l < lsn p /\ id p = i /\ page_ok p.
Proof.
  revert l. induction w as [|c w IH]; intros l; [done|]. simpl. intros (Hl & Hc & Hw).
  destruct (last_image w i) as [q|].
  - intros [= <-]. destruct (IH _ Hw eq_refl) as (? & ? & ?). split_and!; done || lia.
  - case_step; [|done]. intros [= <-]. bool_to_prop. subst. cbn.
    destruct Hc as (_ & Hv & Hu & Hp). unfold page_ok. split_and!; try done. by apply valid_id_u64.
Qed.

Section Replay.
Context `{Crc32}.

Definition page_of (c : CommittedWrite) : Page := mkPage (c_page_id c) (c_lsn c) (c_payload c).

Definition write_page_to (d : DataFile) (p : Page) : DataFile :=
  os_update d (fun f => file_write f (id p * PAGE_SIZE) (encode p)).

Lemma image_page_ok c : image_ok c -> page_ok (page_of c).
Proof. intros (_ & Hv & Hl & Hp). unfold page_ok. split_and!; try done. by apply valid_id_u64. Qed.

Lemma replay_write_image d b c :
  whole_pages (cached d) -> image_ok c ->
  replay_write c (d, b) =
    (Ok tt, match read_shared (cached d) (c_page_id c) with
            | Ok (Some p) => if c_lsn c <=? lsn p then (d, b) else (write_page_to d (page_of c), true)
            | _ => (write_page_to d (page_of c), true)
            end).
Proof.
  intros Hd Hc. pose proof Hc as (Ha & Hv & Hl & Hp).
  assert (with_lsn (c_page_id c) (c_lsn c) (c_payload c) = Ok (page_of c)) as Hpage.
  { unfold with_lsn. by replace (_ <? _) with false by lia. }
  assert (DataFile.write d (page_of c) = Ok (write_page_to d (page_of c))) as Hwrite by (by apply write_ok).
  unfold replay_write. st_run. unfold DataFile.read. rewrite Ha.
  destruct (read_shared (cached d) (c_page_id c)) as [[p|]|e] eqn:Hr.
  - destruct (c_lsn c <=? lsn p); [done|]. by rewrite Hpage, Hwrite.
  - by rewrite Hpage, Hwrite.
  - rewrite read_shared_region in Hr by (done || by apply whole_pages_present).
    apply read_region_err in Hr as (j & r & ->); [|apply length_region]. by rewrite Hpage, Hwrite.
Qed.

(** One replayed image, on every page. *)
Lemma replay_step d b c :
  whole_pages (cached d) -> f_len (cached d) <= U64_MAX -> image_ok c ->
  exists d' b', replay_write c (d, b) = (Ok tt, (d', b')) /\
    whole_pages (cached d') /\ f_len (cached d') <= U64_MAX /\ (d' = d /\ b' = b \/ b' = true) /\
    forall i, valid_id i ->
      read_shared (cached d') i =
        newest (read_shared (cached d) i) (if c_page_id c =? i then Some (page_of c) else None).
Proof.
  intros Hd Hlen Hc. rewrite replay_write_image by done. pose proof Hc as (_ & Hv & _ & Hp).
  assert (forall i, valid_id i ->
    read_shared (cached (write_page_to d (page_of c))) i =
      if c_page_id c =? i then Ok (Some (page_of c)) else read_shared (cached d) i) as Hwr.
  { intros i Hi. case_step; bool_to_prop.
    - subst i. apply (read_shared_write_eq _ (page_of c)); [by apply image_page_ok|done].
    - apply read_shared_write_ne; try done. by apply length_encode. }
  assert (whole_pages (cached (write_page_to d (page_of c)))) as Hwh.
  { apply whole_pages_write; try done. by apply length_encode. }
  assert (f_len (cached (write_page_to d (page_of c))) <= U64_MAX) as Hln.
  { cbn [cached write_page_to os_update]. rewrite f_len_write_page by (by apply length_encode).
    destruct Hv. cbn [id page_of]. lia. }
  destruct (read_shared (cached d) (c_page_id c)) as [[p|]|e] eqn:Hr; [destruct (c_lsn c <=? lsn p) eqn:Hle|..].
  - exists d, b. split_and!; auto. intros i Hi. case_step; bool_to_prop; [subst i|done].
    rewrite Hr. cbn. by rewrite (proj2 (Z.leb_le _ _)).
  - eexists _, true. split_and!; auto. intros i Hi. rewrite Hwr by done. case_step; bool_to_prop; [subst i|done].
    rewrite Hr. cbn. by rewrite (proj2 (Z.leb_gt _ _)).
  - eexists _, true. split_and!; auto. intros i Hi. rewrite Hwr by done. case_step; bool_to_prop; [subst i|done].
    by rewrite Hr.
  - eexists _, true. split_and!; auto. intros i Hi. rewrite Hwr by done. case_step; bool_to_prop; [subst i|done].
    by rewrite Hr.
Qed.

Lemma newest_newest r p o :
  (forall q, o = Some q -> forall p', p = Some p' -> lsn p' < lsn q) ->
  newest (newest r p) o = newest r (match o with Some q => Some q | None => p end).
Proof.
  intros Hlt. destruct o as [q|]; [|done]. destruct p as [p'|]; [|done]. simpl.
  specialize (Hlt q eq_refl p' eq_refl).
  destruct r as [[x|]|e]; simpl; repeat (case_step; simpl; bool_to_prop; simplify_eq; try done; try lia).
Qed.

Lemma replay_images l w d b :
  images_ok l w -> whole_pages (cached d) -> f_len (cached d) <= U64_MAX ->
  exists d' b', for_each w replay_write (d, b) = (Ok tt, (d', b')) /\
    whole_pages (cached d') /\ f_len (cached d') <= U64_MAX /\ (d' = d /\ b' = b \/ b' = true) /\
    forall i, valid_id i ->
      read_shared (cached d') i = newest (read_shared (cached d) i) (last_image w i).
Proof.
  revert l d b. induction w as [|c w IH]; intros l d b Hw Hd Hln.
  - exists d, b. split_and!; auto.
  - simpl in Hw. destruct Hw as (Hl & Hc & Hw).
    destruct (replay_step d b c Hd Hln Hc) as (d1 & b1 & Hs & Hd1 & Hln1 & Hb1 & Hr1).
    destruct (IH _ d1 b1 Hw Hd1 Hln1) as (d' & b' & Hf & Hd' & Hln' & Hb' & Hr').
    exists d', b'. split_and!; try done.
    + cbn [for_each]. by rewrite (ST_bind_step _ _ _ _ _ Hs).
    + destruct Hb' as [[-> ->]| ->]; [done|by right].
    + intros i Hi. rewrite Hr', Hr1 by done. rewrite newest_newest.
      * simpl. destruct (last_image w i); [done|]. case_step; [|done]. bool_to_prop. by subst.
      * intros q Hq p' Hp'. case_step; simplify_eq. apply (last_image_Some _ _ _ _ Hw) in Hq. cbn. lia.
Qed.
End Replay.

(** ** Lists of images *)

Lemma last_image_app w w' i :
  last_image (w ++ w') i = match last_image w' i with Some p => Some p | None => last_image w i end.
Proof.
  induction w as [|c w IH]; simpl; [by destruct (last_image w' i)|].
  rewrite IH. by destruct (last_image w' i).
Qed.

Lemma last_image_In w i p : last_image w i = Some p -> exists c, c ∈ w /\ p = page_of c /\ c_page_id c = i.
Proof.
  induction w as [|c w IH]; simpl; [done|]. destruct (last_image w i) as [q|] eqn:E.
  - intros [= ->]. destruct (IH eq_refl) as (c' & ? & ?). exists c'. split; [by right|done].
  - case_step; [|done]. bool_to_prop. intros [= <-]. exists c. subst i. split; [by left|]. by destruct c.
Qed.

Lemma images_ok_app l l' w w' :
  images_ok l w -> (forall c, c ∈ w -> c_lsn c <= l') -> l <= l' -> images_ok l' w' -> images_ok l (w ++ w').
Proof.
  revert l. induction w as [|c w IH]; intros l Hw Hl Hll Hw'; simpl in *.
  - destruct w' as [|c' w']; [done|]. simpl in *. destruct Hw' as (? & ? & ?). split_and!; done || lia.
  - destruct Hw as (? & ? & ?). split_and!; try done. apply IH; try done.
    + intros c' Hc'. apply Hl. by right.
    + apply Hl. by left.
Qed.

Lemma images_ok_In l w c : images_ok l w -> c ∈ w -> image_ok c /\ l < c_lsn c.
Proof.
  revert l. induction w as [|c' w IH]; intros l; simpl; [by intros _ ?%elem_of_nil|].
  intros (? & ? & Hw) [-> | Hc]%elem_of_cons; [done|].
  destruct (IH _ Hw Hc). split; [done|lia].
Qed.

Lemma images_ok_suffix l w w' : images_ok l (w ++ w') -> images_ok l w'.
Proof.
  revert l. induction w as [|c w IH]; intros l; simpl; [done|]. intros (Hl & _ & Hw).
  apply IH in Hw. destruct w' as [|c' w']; [done|]. simpl in *. destruct Hw as (? & ? & ?). split_and!; done || lia.
Qed.

(** Only what the log holds is ever committed. *)
Lemma committed_loop_In rs p c w x :
  committed_loop rs p c = Ok w -> x ∈ w -> x ∈ c \/ x ∈ p \/ exists r, r ∈ rs /\ change_of r = Some x.
Proof.
  revert p c. induction rs as [|r rs IH]; intros p c; simpl.
  - intros [= <-]. auto.
  - destruct (r_kind r) as [i q|i o q|n|] eqn:Hk; intros Hc Hx.
    + apply IH in Hc as [?|[Hp|(r' & ? & ?)]]; [by left| |right; right; exists r'; split; [by right|done]|done].
      apply elem_of_app in Hp as [?|Hp%list_elem_of_singleton]; [by right; left|]. subst x.
      right; right. exists r. split; [by left|]. unfold change_of. by rewrite Hk.
    + apply IH in Hc as [?|[Hp|(r' & ? & ?)]]; [by left| |right; right; exists r'; split; [by right|done]|done].
      apply elem_of_app in Hp as [?|Hp%list_elem_of_singleton]; [by right; left|]. subst x.
      right; right. exists r. split; [by left|]. unfold change_of. by rewrite Hk.
    + case_step; [done|]. apply IH in Hc as [Hp|[Hp|(r' & ? & ?)]]; [|by apply elem_of_nil in Hp| |done].
      * apply elem_of_app in Hp as [?|Hp]; [by left|]. right; left.
        eapply subseteq_drop in Hp. done.
      * right; right. exists r'. split; [by right|done].
    + done.
Qed.

Lemma after_checkpoint_In rs r : r ∈ after_checkpoint rs -> r ∈ rs.
Proof.
  induction rs as [|r' rs IH]; simpl; [done|]. repeat case_step; intros Hr; try done.
  - right. auto.
  - by right.
Qed.

Lemma committed_In rs w x :
  committed_page_images rs = Ok w -> x ∈ w -> exists r, r ∈ rs /\ change_of r = Some x.
Proof.
  intros Hc Hx. destruct (committed_loop_In _ _ _ _ _ Hc Hx) as [?%elem_of_nil|[?%elem_of_nil|(r & Hr & ?)]]; try done.
  exists r. split; [by apply after_checkpoint_In|done].
Qed.
