(* ===== verification/Recovery.v ===== *)
(** * Recovery of the data file after a crash

    What must hold of the data file and of the log for recovery to restore
    every page: each page is either the same in all the states a crash may
    mix, or the log commits its newest image. *)
From S2P Require Import Prelude Page Files DataFile Wal Store Replay.
Local Open Scope Z_scope.

Section Recovery.
Context `{Crc32}.
Implicit Types (gs : list file) (w : list CommittedWrite).

(** Every state holds the same bytes for the page, and they read as [o]. *)
Definition stable gs (i : PageId) (o : option Page) : Prop :=
  exists R, read_region R i = Ok o /\ forall g, g ∈ gs -> region g i = R /\ page_present g i.

(** No state holds a version of the page newer than [pw]. *)
Definition not_newer gs (i : PageId) (pw : Page) : Prop :=
  forall g p, g ∈ gs -> read_region (region g i) i = Ok (Some p) -> lsn p < lsn pw \/ p = pw.

Definition recoverable gs w (i : PageId) (o : option Page) : Prop :=
  match last_image w i with
  | Some pw => o = Some pw /\ not_newer gs i pw
  | None => stable gs i o
  end.

(** A crash image of the data file.  The page checksum detects a torn
    page: bytes mixed from several states decode only if one of the
    states holds that very page. *)
Definition crash_data (o : osfile) (f : file) : Prop :=
  crashed o f /\
  forall i p, valid_id i -> read_region (region f i) i = Ok (Some p) ->
    exists g, g ∈ states o /\ read_region (region g i) i = Ok (Some p).

(** ** The file as [DataFile::open] leaves it *)

Definition opened (f : file) : file := cached (open_data (os_reopen f)).

Lemma f_len_opened f : 0 <= f_len f -> f_len (opened f) = f_len f - f_len f mod PAGE_SIZE.
Proof.
  intros. unfold opened, open_data. cbn [cached os_reopen]. case_step; [done|].
  bool_to_prop. cbn [cached os_reopen]. lia.
Qed.

Lemma states_opened f g : g ∈ states (open_data (os_reopen f)) -> g = f \/ g = opened f.
Proof.
  unfold states, opened, open_data. destruct (negb _); cbn [synced history cached os_reopen os_update];
    rewrite !elem_of_cons, elem_of_nil; tauto.
Qed.

Lemma opened_ok f : 0 <= f_len f -> whole_pages (opened f).
Proof. apply (open_data_ok (os_reopen f)). Qed.

Lemma opened_region f i :
  0 <= i -> 0 <= f_len f ->
  (f_len f < (i + 1) * PAGE_SIZE /\ region (opened f) i = zeros PAGE_SIZE) \/
  ((i + 1) * PAGE_SIZE <= f_len (opened f) /\ region (opened f) i = region f i).
Proof.
  intros Hi Hf. pose proof (f_len_opened f Hf) as HL. pose proof (opened_ok f Hf) as Hw.
  assert (0 < PAGE_SIZE) by (unfold PAGE_SIZE; lia).
  pose proof (Z.mod_pos_bound (f_len f) PAGE_SIZE ltac:(lia)).
  destruct (decide (f_len f < (i + 1) * PAGE_SIZE)) as [Hlt|Hge].
  - left. split; [done|]. apply file_read_past. apply whole_pages_before; [done|]. lia.
  - right. assert ((i + 1) * PAGE_SIZE <= f_len (opened f)).
    { destruct (decide (f_len (opened f) < (i + 1) * PAGE_SIZE)) as [Hlt|]; [|lia].
      apply whole_pages_before in Hlt; [|done]. lia. }
    split; [done|]. unfold opened, open_data in *. cbn [cached os_reopen] in *.
    case_step; [|done]. cbn [cached os_update os_reopen f_len file_set_len] in *.
    apply file_read_set_len. lia.
Qed.

(** ** What a crash does to one page *)

Lemma crashed_region o f i R :
  crashed o f -> (forall g, g ∈ states o -> region g i = R) -> region f i = R.
Proof.
  intros [Hb (g0 & _ & Hg0 & _)] HR. pose proof (HR _ Hg0) as H0.
  apply list_eq. intros k. unfold region. rewrite lookup_file_read. case_bool_decide as Hk.
  - destruct (Hb (i * PAGE_SIZE + Z.of_nat k)) as (g & Hg & ->). rewrite <- (HR _ Hg).
    unfold region. by rewrite lookup_file_read, bool_decide_true.
  - rewrite <- H0. unfold region. by rewrite lookup_file_read, bool_decide_false.
Qed.

Lemma stable_crashed o f i v :
  valid_id i -> 0 <= f_len f -> crashed o f -> stable (states o) i v ->
  read_region (region (opened f) i) i = Ok v /\ region (opened f) i = region f i /\ page_present f i.
Proof.
  intros [Hi _] Hf Hc (R & HR & Hg).
  assert (region f i = R) as HfR by (eapply crashed_region; [done|]; intros; by apply Hg).
  destruct (opened_region f i Hi Hf) as [[Hlt Hz]|[Hge Hz]].
  - destruct Hc as [_ (g & h & Hgs & _ & Hle & _)].
    assert (all_zero R = true) as Hzero.
    { destruct (Hg g Hgs) as [<- Hp]. apply Hp. lia. }
    assert (R = zeros PAGE_SIZE) as HRz.
    { rewrite (zeros_all_zero _ Hzero). f_equal. rewrite <- HfR. apply length_region. }
    rewrite Hz, HfR, <- HRz. split; [exact HR|]. split; [reflexivity|]. intros _. by rewrite HfR.
  - rewrite Hz, HfR. split; [exact HR|]. split; [reflexivity|]. intros Hlt.
    pose proof (f_len_opened f Hf).
    pose proof (Z.mod_pos_bound (f_len f) PAGE_SIZE ltac:(unfold PAGE_SIZE; lia)). lia.
Qed.

Lemma crash_newest o f w i v :
  valid_id i -> 0 <= f_len f -> crash_data o f -> recoverable (states o) w i v ->
  newest (read_shared (opened f) i) (last_image w i) = Ok v.
Proof.
  intros Hi Hf [Hc Htear] Hr.
  rewrite read_shared_region by (done || apply whole_pages_present, opened_ok, Hf).
  unfold recoverable in Hr. destruct (last_image w i) as [pw|].
  - destruct Hr as [-> Hnn]. unfold newest.
    destruct (read_region (region (opened f) i) i) as [[p|]|e] eqn:Hp; [|done|done].
    destruct (opened_region f i (proj1 Hi) Hf) as [[_ Hz]|[_ Hz]]; rewrite Hz in Hp.
    { rewrite read_region_zeros in Hp. discriminate Hp. }
    destruct (Htear i p Hi Hp) as (g & Hg & Hgp).
    destruct (Hnn g p Hg Hgp) as [Hlt | ->]; [|by rewrite Z.leb_refl].
    by replace (lsn pw <=? lsn p) with false by lia.
  - by apply (stable_crashed o).
Qed.

(** ** The replay restores every page *)

(** A file that needed no replay already held every page durably. *)
Lemma opened_stable o f w i v :
  valid_id i -> 0 <= f_len f -> crash_data o f -> recoverable (states o) w i v ->
  read_shared (opened f) i = Ok v -> stable (states (open_data (os_reopen f))) i v.
Proof.
  intros Hi Hf [Hc Htear] Hr Hread. pose proof (opened_ok f Hf) as Hwh.
  pose proof (whole_pages_present _ i Hwh) as Hpo. rewrite read_shared_region in Hread by assumption.
  exists (region (opened f) i). split; [exact Hread|].
  assert (region f i = region (opened f) i /\ page_present f i) as [Hsame Hpres].
  { unfold recoverable in Hr. destruct (last_image w i) as [pw|].
    - destruct Hr as [-> _]. destruct (opened_region f i (proj1 Hi) Hf) as [[_ Hz]|[Hge Hz]].
      + rewrite Hz, read_region_zeros in Hread. discriminate Hread.
      + split; [symmetry; exact Hz|]. intros Hlt. pose proof (f_len_opened f Hf).
        pose proof (Z.mod_pos_bound (f_len f) PAGE_SIZE ltac:(unfold PAGE_SIZE; lia)). lia.
    - destruct (stable_crashed o f i v Hi Hf Hc Hr) as (_ & Hx & Hy).
      split; [symmetry; exact Hx|exact Hy]. }
  intros g [-> | ->]%states_opened; [split; assumption|]. split; [reflexivity|exact Hpo].
Qed.

Lemma states_sync d g : g ∈ states (DataFile.sync d) -> g = cached d.
Proof. unfold states, DataFile.sync. cbn [synced history os_sync]. by rewrite list_elem_of_singleton. Qed.

(** After a sync, what the file reads is what is durable. *)
Lemma synced_stable d i v :
  whole_pages (cached d) -> valid_id i -> read_shared (cached d) i = Ok v ->
  stable (states (DataFile.sync d)) i v.
Proof.
  intros Hwh Hi Hr. pose proof (whole_pages_present _ i Hwh) as Hp.
  exists (region (cached d) i). split; [by rewrite <- read_shared_region|].
  intros g ->%states_sync. split; [reflexivity|exact Hp].
Qed.

Definition synced_if (b : bool) (d : DataFile) : DataFile := if b then DataFile.sync d else d.

Lemma recover_data o f w l (v : PageId -> option Page) :
  0 <= f_len f <= U64_MAX -> crash_data o f -> images_ok l w ->
  (forall i, valid_id i -> recoverable (states o) w i (v i)) ->
  exists d b, for_each w replay_write (open_data (os_reopen f), false) = (Ok tt, (d, b)) /\
    whole_pages (cached d) /\
    (forall i, valid_id i -> read_shared (cached d) i = Ok (v i)) /\
    (forall i, valid_id i -> stable (states (synced_if b d)) i (v i)) /\
    os_ok (synced_if b d) /\ Forall (fun g => 0 <= f_len g <= U64_MAX) (states (synced_if b d)).
Proof.
  intros [Hf Hu] Hc Hw Hv. pose proof (f_len_opened f Hf) as HL.
  pose proof (Z.mod_pos_bound (f_len f) PAGE_SIZE ltac:(unfold PAGE_SIZE; lia)) as Hmod.
  destruct (replay_images l w (open_data (os_reopen f)) false Hw (opened_ok f Hf))
    as (d & b & Hrun & Hwh & Hln & Hb & Hread); [fold (opened f); lia|]. fold (opened f) in Hread.
  assert (forall i, valid_id i -> read_shared (cached d) i = Ok (v i)) as Hreads.
  { intros i Hi. rewrite Hread by exact Hi. apply (crash_newest o); auto. }
  exists d, b. split; [exact Hrun|]. split; [exact Hwh|]. split; [exact Hreads|].
  destruct Hb as [[-> ->] | ->]; cbn [synced_if]; split_and!.
  - intros i Hi. apply (opened_stable o f w); auto.
  - unfold open_data. destruct (negb _); reflexivity.
  - apply Forall_forall. intros g [-> | ->]%states_opened; [lia|]. destruct (opened_ok f Hf). lia.
  - intros i Hi. apply synced_stable; auto.
  - reflexivity.
  - apply Forall_forall. intros g ->%states_sync. destruct Hwh. lia.
Qed.
End Recovery.
