(* ===== verification/StoreInv.v ===== *)
(** * The durability invariant of the store

    For a store whose batches are page images logged with a sync: what the
    dirty table, the data file in all the states a crash may leave, and the
    log say about every page, in every phase of a background checkpoint. *)
From S2P Require Import Prelude Page Files DataFile Wal WalLemmas WalLog Store Replay Recovery.
Local Open Scope Z_scope.

(** Where a background checkpoint stands: chunks still to write and pages
    written, then the data file synced, then the retired segment sealed. *)
Inductive phase :=
| Idle
| Running (job : BackgroundCheckpoint) (todo : list (list (PageId * Lsn))) (written : list (PageId * Lsn))
| DataSynced (job : BackgroundCheckpoint) (written : list (PageId * Lsn))
| LogSealed (job : BackgroundCheckpoint) (written : list (PageId * Lsn)).

Section Invariant.
Context `{Crc32}.
Implicit Types (d : DataFile) (v : PageId -> option Page) (m : gmap PageId Page).

(** ** The data file and the log *)

Record data_inv d w v m (nx : Z) : Prop := {
  di_os : os_ok d;
  di_whole : whole_pages (cached d);
  di_len : Forall (fun g => 0 <= f_len g <= U64_MAX) (states d);
  di_versions : forall g i p, g ∈ states d -> valid_id i ->
    read_region (region g i) i = Ok (Some p) -> lsn p < nx;
  di_recoverable : forall i, valid_id i -> recoverable (states d) w i (v i);
  di_clean : forall i, valid_id i -> m !! i = None -> stable (states d) i (v i);
  di_dirty : forall i p, m !! i = Some p ->
    valid_id i /\ id p = i /\ page_ok p /\ lsn p < nx /\ v i = Some p;
}.

Definition dirty_logged w m : Prop := forall i p, m !! i = Some p -> last_image w i = Some p.

Lemma cached_in_states d : os_ok d -> cached d ∈ states d.
Proof. unfold os_ok, states. destruct (history d) as [|g l]; intros ->; set_solver. Qed.

Lemma read_view s w v nx i :
  data_inv (data s) w v (dirty s) nx -> valid_id i -> read_page s i = Ok (v i).
Proof.
  intros Hd Hi. unfold read_page. destruct (dirty s !! i) as [p|] eqn:Hp.
  - apply Hd in Hp as (_ & _ & _ & _ & ->). done.
  - destruct (di_clean _ _ _ _ _ Hd i Hi Hp) as (R & HR & Hg).
    destruct (Hg _ (cached_in_states _ (di_os _ _ _ _ _ Hd))) as [<- Hpr].
    unfold DataFile.read. by rewrite read_shared_region.
Qed.

Lemma states_write d p g :
  g ∈ states (write_page_to d p) -> g ∈ states d \/ g = cached (write_page_to d p).
Proof. unfold states, write_page_to. cbn. set_solver. Qed.

Section WritePage.
Context d p (Hos : os_ok d) (Hwh : whole_pages (cached d)) (Hp : page_ok p) (Hv : valid_id (id p)).

Lemma write_region_eq : region (cached (write_page_to d p)) (id p) = encode p.
Proof. by apply region_write_eq. Qed.

Lemma write_region_ne i : i <> id p -> region (cached (write_page_to d p)) i = region (cached d) i.
Proof. intros Hi. apply region_write_ne; [apply length_encode, Hp|apply Hv|done]. Qed.

Lemma write_whole : whole_pages (cached (write_page_to d p)).
Proof. apply whole_pages_write; [done|apply length_encode, Hp|done]. Qed.

Lemma stable_write_ne i o : i <> id p -> stable (states d) i o -> stable (states (write_page_to d p)) i o.
Proof.
  intros Hne (R & HR & Hg). exists R. split; [done|]. intros g [? | ->]%states_write; [by apply Hg|].
  rewrite write_region_ne by done. split; [by apply Hg, cached_in_states|].
  apply whole_pages_present, write_whole.
Qed.

(** What a state may read as: an older state's page, or the one written. *)
Lemma write_versions g i q :
  g ∈ states (write_page_to d p) -> read_region (region g i) i = Ok (Some q) ->
  (exists g', g' ∈ states d /\ read_region (region g' i) i = Ok (Some q)) \/ i = id p /\ q = p.
Proof.
  intros [Hg | ->]%states_write Hq; [by left; exists g|].
  destruct (decide (i = id p)) as [-> | Hne].
  - rewrite write_region_eq, read_region_encode in Hq by done. right. by simplify_eq.
  - rewrite write_region_ne in Hq by done. left. exists (cached d). split; [by apply cached_in_states|done].
Qed.
End WritePage.

(** Writing a dirty page that the log commits keeps everything. *)
Lemma data_inv_write d w v m nx p :
  data_inv d w v m nx -> m !! id p = Some p -> last_image w (id p) = Some p ->
  data_inv (write_page_to d p) w v m nx.
Proof.
  intros [Hos Hwh Hlen Hver Hrec Hcl Hdi] Hm Hlast.
  destruct (Hdi _ _ Hm) as (Hv & _ & Hp & Hnx & Hvp). split; try done.
  - by apply write_whole.
  - apply Forall_forall. intros g [Hg | ->]%states_write; [by eapply Forall_forall in Hlen|].
    pose proof (proj1 (Forall_forall _ _) Hlen _ (cached_in_states _ Hos)) as Hl.
    cbn [cached write_page_to os_update]. rewrite f_len_write_page by (apply length_encode, Hp).
    destruct Hv. simpl in Hl. lia.
  - intros g i q Hg Hi Hq. destruct (write_versions d p Hos Hp Hv g i q Hg Hq) as [(g' & Hg' & Hq')|[-> ->]]; eauto.
  - intros i Hi. specialize (Hrec i Hi). unfold recoverable in *.
    destruct (last_image w i) as [pw|] eqn:Hi'.
    + destruct Hrec as [? Hnn]. split; [done|]. intros g q Hg Hq.
      destruct (write_versions d p Hos Hp Hv g i q Hg Hq) as [(g' & Hg' & Hq')|[-> ->]]; [by eapply Hnn|].
      right. congruence.
    + apply stable_write_ne; try done. congruence.
  - intros i Hi Hn. apply stable_write_ne; try done; [congruence|auto].
Qed.

(** ** The store *)

Record job_inv (s : DurableStore) (job : BackgroundCheckpoint) wn (todo written : list (PageId * Lsn)) : Prop := {
  ji_flight : checkpoint_in_flight s = true;
  ji_retired : retired (wal s) = Some (retired_file job);
  ji_covered : forall i p, dirty s !! i = Some p ->
    last_image wn i = Some p \/ (i, lsn p) ∈ todo \/ (i, lsn p) ∈ written;
  ji_written : forall i p, (i, lsn p) ∈ written -> dirty s !! i = Some p ->
    region (cached (data s)) i = encode p;
  ji_lsn : forall i l, (i, l) ∈ todo \/ (i, l) ∈ written -> l < next_lsn (wal s);
}.

Definition phase_ok (s : DurableStore) (ph : phase) (older : list WalRecord) wo wn : Prop :=
  match ph with
  | Idle => checkpoint_in_flight s = false /\ dirty_logged (wo ++ wn) (dirty s)
  | Running job todo written =>
      dirty_logged (wo ++ wn) (dirty s) /\ job_inv s job wn (concat todo) written
  | DataSynced job written =>
      dirty_logged (wo ++ wn) (dirty s) /\ job_inv s job wn [] written /\ history (data s) = []
  | LogSealed job written => older = [] /\ job_inv s job wn [] written /\ history (data s) = []
  end.

Record inv (s : DurableStore) (ph : phase) v (older newer : list WalRecord) wo wn : Prop := {
  iv_wal : wal_ok (wal s) older newer;
  iv_wsync : wal_synced (wal s);
  iv_off : 0 <= end_offset (seg (wal s) (negb (active (wal s))));
  iv_older : committed_page_images older = Ok wo;
  iv_newer : committed_page_images newer = Ok wn;
  iv_all : committed_page_images (older ++ newer) = Ok (wo ++ wn);
  iv_images : images_ok 0 (wo ++ wn);
  iv_wlsn : forall c, c ∈ wo ++ wn -> c_lsn c < next_lsn (wal s);
  iv_data : data_inv (data s) (wo ++ wn) v (dirty s) (next_lsn (wal s));
  iv_queued : forall i p, dirty s !! i = Some p ->
    flushed s !! i = Some (lsn p) \/ i ∈ flush_queue s \/ i ∈ open_pages s;
  iv_flushed : forall i l, flushed s !! i = Some l ->
    l < next_lsn (wal s) /\
    forall p, dirty s !! i = Some p -> lsn p = l -> region (cached (data s)) i = encode p;
  iv_live : poisoned s = false;
  iv_phase : phase_ok s ph older wo wn;
}.
End Invariant.
