(* ===== verification/StoreWrite.v ===== *)
(** * Writing a batch of page images

    [write_pages_inner] succeeds when the batch is well formed and fits the
    log, appends exactly its records, and leaves the invariant with the new
    images in view. *)
From S2P Require Import Prelude Page Files DataFile Wal WalLemmas WalLog Store Replay Recovery StoreInv.
Local Open Scope Z_scope.

Definition write_ok_input (w : PageWrite) : Prop :=
  valid_id (w_page_id w) /\ blen (w_payload w) <= MAX_PAGE_PAYLOAD.

Definition image_kinds (ws : list PageWrite) : list WalKind :=
  (fun w => PageImage (w_page_id w) (w_payload w)) <$> ws.

(** Room in the log for [n] page records and their commit. *)
Definition batch_room (w : Wal) (n : Z) : Prop :=
  active_offset w + (n + 1) * PAGE_SIZE <= MAX_LOG_OFFSET /\ next_lsn w + n + 1 <= U64_MAX /\ n <= U32_MAX.

Section Write.
Context `{Crc32}.

Lemma image_kind_ok w : write_ok_input w -> kind_ok (PageImage (w_page_id w) (w_payload w)).
Proof.
  intros [[? Hv] Hp]. cbn. split; [|done]. unfold NO_PAGE_ID, PAGE_SIZE in *. lia.
Qed.

Lemma set_wal_set_wal w w' s : set_wal w' (set_wal w s) = set_wal w' s.
Proof. done. Qed.

Lemma set_wal_id s : set_wal (wal s) s = s.
Proof. by destruct s. Qed.

Lemma on_wal_run {A} (m : ST Wal StorageError A) s a w' :
  m (wal s) = (Ok a, w') -> on_wal m s = (Ok a, set_wal w' s).
Proof. intros E. unfold on_wal, zoom. by rewrite E. Qed.

(** What a run of appends leaves unchanged in the log. *)
Definition appended (w w' : Wal) (older newer : list WalRecord) (rs : list WalRecord) : Prop :=
  wal_ok w' older (newer ++ rs) /\ next_lsn w' = next_lsn w + blen rs /\
  active w' = active w /\ retired w' = retired w /\
  seg w' (negb (active w)) = seg w (negb (active w)) /\
  synced (s_file (seg w' (active w))) = synced (s_file (seg w (active w))) /\
  active_offset w' <= active_offset w + blen rs * PAGE_SIZE.

Lemma append_step w older newer k :
  wal_ok w older newer -> kind_ok k -> append_room w k ->
  exists w', append k w = (Ok (next_lsn w), w') /\ appended w w' older newer [mkRecord (next_lsn w) k].
Proof.
  intros Hw Hk Hr. destruct (append_ok _ _ _ _ Hw Hk Hr) as (w' & Ha & ? & ? & ? & ? & ? & ? & ? & ?).
  exists w'. split; [done|]. pose proof (kind_ok_size k Hk) as [_ ?].
  unfold appended. cbn [length]. split_and!; try done; lia.
Qed.

Lemma appended_trans w w1 w2 older newer rs rs' :
  appended w w1 older newer rs -> appended w1 w2 older (newer ++ rs) rs' ->
  appended w w2 older newer (rs ++ rs').
Proof.
  intros (? & Hn1 & Ha1 & Hr1 & Ho1 & Hs1 & Hf1) (? & Hn2 & Ha2 & Hr2 & Ho2 & Hs2 & Hf2).
  unfold appended. rewrite app_assoc, length_app, Nat2Z.inj_add. rewrite Ha1 in *.
  split_and!; try done; try congruence; lia.
Qed.

Lemma room_append w k n :
  kind_ok k -> 0 <= n -> batch_room w n -> append_room w k.
Proof.
  intros Hk Hn (Hoff & Hlsn & _). pose proof (kind_ok_size k Hk) as [_ ?].
  unfold append_room, PAGE_SIZE in *. lia.
Qed.

Lemma append_images ws s older newer :
  wal_ok (wal s) older newer -> Forall write_ok_input ws -> batch_room (wal s) (blen ws) ->
  exists w',
    collect ws (fun w => on_wal (append_page (w_page_id w) (w_payload w))) s =
      (Ok (seqZ (next_lsn (wal s)) (blen ws)), set_wal w' s) /\
    appended (wal s) w' older newer (change_records (next_lsn (wal s)) (image_kinds ws)).
Proof.
  revert s newer. induction ws as [|w ws IH]; intros s newer Hw Hws Hroom.
  - exists (wal s). cbn. rewrite set_wal_id. split; [done|]. unfold appended. rewrite app_nil_r.
    cbn. split_and!; done || lia.
  - apply Forall_cons in Hws as [Hw1 Hws]. pose proof (image_kind_ok w Hw1) as Hk.
    destruct (append_step (wal s) older newer _ Hw Hk (room_append _ _ _ Hk (Nat2Z.is_nonneg _) Hroom)) as (w1 & Ha & Happ).
    destruct (IH (set_wal w1 s) (newer ++ [mkRecord (next_lsn (wal s)) (PageImage (w_page_id w) (w_payload w))]))
      as (w' & Hc & Happ').
    + apply Happ.
    + done.
    + destruct Happ as (_ & Hn & _ & _ & _ & _ & Ho). destruct Hroom as (? & ? & ?).
      cbn [wal set_wal] in *. cbn [length] in *. unfold batch_room, PAGE_SIZE in *. rewrite Hn. split_and!; lia.
    + exists w'. split.
      * cbn [collect]. erewrite ST_bind_step.
        2: { apply on_wal_run. unfold append_page. destruct Hw1 as [_ Hp].
             replace (_ <? _) with false by lia. done. }
        erewrite ST_bind_step by done. cbn [mret ST_ret]. unfold mret, ST_ret.
        rewrite set_wal_set_wal. f_equal. f_equal. cbn [length wal set_wal].
        rewrite (seqZ_cons (next_lsn (wal s))) by lia. f_equal.
        destruct Happ as (_ & Hn & _). cbn [length] in Hn. rewrite Hn. f_equal; lia.
      * cbn [image_kinds fmap list_fmap change_records].
        pose proof Happ as (_ & Hn & _). cbn [length wal set_wal] in *.
        replace (next_lsn w1) with (next_lsn (wal s) + 1) in Happ' by (rewrite Hn; done).
        exact (appended_trans _ _ _ _ _ [_] _ Happ Happ').
Qed.

(** The batch as the log commits it. *)
Definition batch_images (l : Lsn) (ws : list PageWrite) : list CommittedWrite := batch_changes l (image_kinds ws).

Lemma image_kinds_changes ws : forallb is_change (image_kinds ws) = true.
Proof. induction ws; [done|]. cbn. done. Qed.

Lemma batch_images_cons l w ws :
  batch_images l (w :: ws) = mkCommitted l (w_page_id w) (w_payload w) None :: batch_images (l + 1) ws.
Proof. done. Qed.

Lemma batch_images_ok l ws :
  Forall write_ok_input ws -> 0 <= l -> l + blen ws <= U64_MAX -> images_ok (l - 1) (batch_images l ws).
Proof.
  revert l. induction ws as [|w ws IH]; intros l Hws Hl Hu; [done|]. apply Forall_cons in Hws as [[Hv Hp] Hws].
  rewrite batch_images_cons. cbn [length] in Hu. cbn [images_ok c_lsn]. split; [lia|]. split.
  - unfold image_ok, is_u64. cbn [append_at c_page_id c_lsn c_payload]. split_and!; done || lia.
  - replace l with (l + 1 - 1) at 1 by lia. apply IH; done || lia.
Qed.

Lemma batch_images_lsn l ws c : c ∈ batch_images l ws -> l <= c_lsn c < l + blen ws.
Proof.
  revert l. induction ws as [|w ws IH]; intros l; [by intros ?%elem_of_nil|]. rewrite batch_images_cons.
  cbn [length]. intros [-> | Hc]%elem_of_cons; cbn [c_lsn]; [lia|]. apply IH in Hc. lia.
Qed.

(** What [note_dirty] does not touch. *)
Definition same_but_dirty (s s' : DurableStore) : Prop :=
  data s' = data s /\ wal s' = wal s /\ flushed s' = flushed s /\ open_pages s' = open_pages s /\
  checkpoint_in_flight s' = checkpoint_in_flight s /\ poisoned s' = poisoned s.

Lemma note_images ws l s :
  Forall write_ok_input ws ->
  exists s', for_each (zip ws (seqZ l (blen ws))) (fun '(w, lsn) => note_dirty w lsn) s = (Ok tt, s') /\
    (forall i, dirty s' !! i =
       match last_image (batch_images l ws) i with Some p => Some p | None => dirty s !! i end) /\
    flush_queue s' = flush_queue s ++ (w_page_id <$> ws) /\ same_but_dirty s s'.
Proof.
  revert l s. induction ws as [|w ws IH]; intros l s Hws.
  - exists s. cbn. rewrite app_nil_r. split_and!; done.
  - apply Forall_cons in Hws as [[Hv Hp] Hws].
    set (page := mkPage (w_page_id w) l (w_payload w)).
    assert (exists s1, note_dirty w l s = (Ok tt, s1) /\ dirty s1 = <[w_page_id w := page]> (dirty s) /\
              flush_queue s1 = flush_queue s ++ [w_page_id w] /\ same_but_dirty s s1)
      as (s1 & Hn & Hd1 & Hq1 & Hsame1).
    { unfold note_dirty, with_lsn. replace (_ <? _) with false by lia. st_run.
      eexists. split; [reflexivity|]. unfold same_but_dirty. split_and!; reflexivity. }
    destruct (IH (l + 1) s1 Hws) as (s' & Hf & Hd & Hq & Hsame). exists s'. split_and!.
    + cbn [length]. rewrite seqZ_cons by lia. cbn [zip zip_with for_each].
      replace (Z.succ l) with (l + 1) by lia. replace (Z.pred (Z.of_nat (S (length ws)))) with (blen ws) by lia.
      rewrite (ST_bind_step _ _ _ _ _ Hn). exact Hf.
    + intros i. rewrite Hd, batch_images_cons, Hd1. cbn [last_image c_page_id].
      destruct (last_image (batch_images (l + 1) ws) i); [done|].
      destruct (Z.eqb_spec (w_page_id w) i) as [<-|Hne]; [by rewrite lookup_insert_eq|by rewrite lookup_insert_ne].
    + rewrite Hq, Hq1. by rewrite <- app_assoc.
    + unfold same_but_dirty in *. intuition congruence.
Qed.

(** The whole of [write_pages_inner]: what it returns, what it logs, and the
    table it leaves. *)
Lemma write_pages_inner_run ws durable s older newer :
  wal_ok (wal s) older newer -> Forall write_ok_input ws -> ws <> [] -> batch_room (wal s) (blen ws) ->
  let l := next_lsn (wal s) in
  exists w1 s', write_pages_inner ws durable s = (Ok (seqZ l (blen ws)), s') /\
    appended (wal s) w1 older newer (batch_records l (image_kinds ws)) /\
    same_but_dirty (set_wal (if durable : bool then wal_sync w1 else w1) s) s' /\
    (forall i, dirty s' !! i =
       match last_image (batch_images l ws) i with Some p => Some p | None => dirty s !! i end) /\
    flush_queue s' = flush_queue s ++ (w_page_id <$> ws).
Proof.
  intros Hw Hws Hne Hroom l. destruct (append_images ws s older newer Hw Hws Hroom) as (w0 & Hc & Happ).
  pose proof Happ as (Hw0 & Hn0 & _ & _ & _ & _ & Ho0). fold l in Hn0.
  rewrite length_change_records in Hn0, Ho0. unfold image_kinds in Hn0, Ho0. rewrite length_fmap in Hn0, Ho0.
  assert (1 <= blen ws) by (destruct ws; [done|cbn [length]; lia]).
  destruct Hroom as (Hr1 & Hr2 & Hr3). assert (kind_ok (BatchCommit (blen ws))) as Hk by (cbn; lia).
  destruct (append_step w0 older _ (BatchCommit (blen ws)) Hw0 Hk) as (w1 & Ha & Happ1).
  { apply (room_append _ _ 0 Hk (Z.le_refl 0)). unfold batch_room, PAGE_SIZE, U32_MAX in *. lia. }
  destruct (note_images ws l (set_wal (if durable then wal_sync w1 else w1) s) Hws) as (s' & Hf & Hd & Hq & Hsame).
  exists w1, s'. split_and!; try assumption.
  - unfold write_pages_inner. erewrite ST_bind_step by exact Hc.
    erewrite ST_bind_step.
    2: { apply on_wal_run. unfold append_batch_commit.
         replace (blen ws =? 0) with false by lia. replace (U32_MAX <? blen ws) with false by lia. exact Ha. }
    rewrite set_wal_set_wal. destruct durable; (erewrite ST_bind_step by reflexivity);
      (erewrite ST_bind_step by exact Hf); reflexivity.
  - unfold batch_records. eapply appended_trans; [exact Happ|].
    replace (l + blen (image_kinds ws)) with (next_lsn w0); [|unfold image_kinds; rewrite length_fmap; lia].
    replace (blen (image_kinds ws)) with (blen ws); [exact Happ1|]. unfold image_kinds. by rewrite length_fmap.
Qed.

(** ** The invariant *)

(** A map overridden by the images of a batch. *)
Definition override (W : list CommittedWrite) (v : PageId -> option Page) : PageId -> option Page :=
  fun i => match last_image W i with Some p => Some p | None => v i end.

Lemma recoverable_batch gs w v nx W i :
  (forall g p, g ∈ gs -> read_region (region g i) i = Ok (Some p) -> lsn p < nx) ->
  images_ok (nx - 1) W -> recoverable gs w i (v i) -> recoverable gs (w ++ W) i (override W v i).
Proof.
  intros Hver HW Hr. unfold recoverable, override in *. rewrite last_image_app.
  destruct (last_image W i) as [p|] eqn:Hp; [|exact Hr].
  split; [reflexivity|]. intros g q Hg Hq. left. specialize (Hver g q Hg Hq).
  destruct (last_image_Some _ _ _ _ HW Hp). lia.
Qed.

Lemma data_inv_batch d w v m nx W m' nx' :
  data_inv d w v m nx -> images_ok (nx - 1) W -> nx <= nx' -> (forall c, c ∈ W -> c_lsn c < nx') ->
  (forall i, m' !! i = override W (fun j => m !! j) i) ->
  data_inv d (w ++ W) (override W v) m' nx'.
Proof.
  intros [Hos Hwh Hlen Hver Hrec Hcl Hdi] HW Hnx Hlt Hm. split; try assumption.
  { intros g i p Hg Hi Hp. specialize (Hver g i p Hg Hi Hp). lia. }
  { intros i Hi. apply (recoverable_batch _ _ _ nx); [|exact HW|exact (Hrec i Hi)]. intros. by eapply Hver. }
  all: unfold override in *.
  - intros i Hi Hn. rewrite Hm in Hn. destruct (last_image W i); [discriminate Hn|]. exact (Hcl i Hi Hn).
  - intros i p Hp. rewrite Hm in Hp. destruct (last_image W i) as [q|] eqn:Hq.
    + injection Hp as ->. destruct (last_image_Some _ _ _ _ HW Hq) as (? & ? & ?).
      destruct (last_image_In _ _ _ Hq) as (c & Hc & -> & Hci).
      destruct (images_ok_In _ _ _ HW Hc) as [(_ & Hv & _) _]. subst i.
      split_and!; [exact Hv|reflexivity|assumption|exact (Hlt _ Hc)|reflexivity].
    + destruct (Hdi i p Hp) as (? & ? & ? & ? & ?). split_and!; done || lia.
Qed.

Lemma batch_images_ids l ws c : c ∈ batch_images l ws -> c_page_id c ∈ w_page_id <$> ws.
Proof.
  revert l. induction ws as [|w ws IH]; intros l; [by intros ?%elem_of_nil|]. rewrite batch_images_cons.
  intros [-> | Hc]%elem_of_cons; [by left|]. right. by eapply IH.
Qed.

Lemma last_image_batch_lsn l ws i p : last_image (batch_images l ws) i = Some p -> l <= lsn p < l + blen ws.
Proof. intros (c & Hc & -> & _)%last_image_In. by apply batch_images_lsn in Hc. Qed.

Lemma job_inv_batch s s' job wn todo written l ws :
  job_inv s job wn todo written -> l = next_lsn (wal s) -> next_lsn (wal s) <= next_lsn (wal s') ->
  checkpoint_in_flight s' = checkpoint_in_flight s -> retired (wal s') = retired (wal s) -> data s' = data s ->
  (forall i, dirty s' !! i = override (batch_images l ws) (fun j => dirty s !! j) i) ->
  job_inv s' job (wn ++ batch_images l ws) todo written.
Proof.
  intros [Hf Hr Hc Hw Hl] -> Hnx Hf' Hr' Hd Hm. unfold override in Hm. split.
  - congruence.
  - congruence.
  - intros i p Hp. rewrite last_image_app. rewrite Hm in Hp.
    destruct (last_image _ i) as [q|]; [by left|]. exact (Hc i p Hp).
  - intros i p Hp Hdp. rewrite Hd. rewrite Hm in Hdp.
    destruct (last_image _ i) as [q|] eqn:Hq; [|exact (Hw i p Hp Hdp)].
    injection Hdp as ->. apply last_image_batch_lsn in Hq. specialize (Hl i (lsn p) (or_intror Hp)). lia.
  - intros i l Hil. specialize (Hl i l Hil). lia.
Qed.

Lemma dirty_logged_batch w m m' W :
  dirty_logged w m -> (forall i, m' !! i = override W (fun j => m !! j) i) -> dirty_logged (w ++ W) m'.
Proof.
  intros Hl Hm i p Hp. rewrite Hm in Hp. unfold override in Hp. rewrite last_image_app.
  destruct (last_image W i); [exact Hp|]. exact (Hl i p Hp).
Qed.

Lemma phase_ok_batch s s' ph older wo wn l ws :
  phase_ok s ph older wo wn -> l = next_lsn (wal s) -> next_lsn (wal s) <= next_lsn (wal s') ->
  checkpoint_in_flight s' = checkpoint_in_flight s -> retired (wal s') = retired (wal s) -> data s' = data s ->
  (forall i, dirty s' !! i = override (batch_images l ws) (fun j => dirty s !! j) i) ->
  phase_ok s' ph older wo (wn ++ batch_images l ws).
Proof.
  intros Hp Hl Hnx Hf Hr Hd Hm. destruct ph as [|job todo written|job written|job written]; cbn in *;
    rewrite ?Hd, ?Hf, ?app_assoc; destruct_and!; split_and!; try assumption;
    try (by eapply dirty_logged_batch); by eapply job_inv_batch.
Qed.

Lemma inv_write s ph v older newer wo wn ws :
  inv s ph v older newer wo wn -> Forall write_ok_input ws -> ws <> [] -> batch_room (wal s) (blen ws) ->
  let l := next_lsn (wal s) in let W := batch_images l ws in
  exists s', write_pages_inner ws true s = (Ok (seqZ l (blen ws)), s') /\
    inv s' ph (override W v) older (newer ++ batch_records l (image_kinds ws)) wo (wn ++ W).
Proof.
  intros [Hw Hsy Hoff Hco Hcn Hca Him Hwl Hd Hq Hfl Hlive Hph] Hws Hne Hroom l W.
  destruct (write_pages_inner_run ws true s older newer Hw Hws Hne Hroom)
    as (w1 & s' & Hrun & (Hw1 & Hn1 & Ha1 & Hr1 & Ho1 & _ & _) & Hsame & Hdirty & Hqueue).
  exists s'. split; [exact Hrun|]. fold l W in Hn1, Hdirty, Hw1 |- *.
  destruct Hsame as (Hdata & Hwal & Hflushed & Hopen & Hflight & Hpois). cbn in Hdata, Hwal, Hflushed, Hopen, Hflight, Hpois.
  destruct (wal_sync_ok _ _ _ Hw1) as (Hw2 & Hs2 & Ho2).
  assert (next_lsn (wal s') = l + blen ws + 1) as Hnext.
  { rewrite Hwal. cbn [wal_sync set_seg next_lsn]. rewrite Hn1. unfold batch_records.
    rewrite length_app, length_change_records. unfold image_kinds. rewrite length_fmap. cbn [length]. fold l. lia. }
  assert (active (wal s') = active (wal s)) as Hact by (rewrite Hwal; exact Ha1).
  assert (seg (wal s') (negb (active (wal s))) = seg (wal s) (negb (active (wal s)))) as Hother.
  { rewrite Hwal, <- Ha1, Ho2, Ha1. exact Ho1. }
  pose proof (image_kinds_changes ws) as Hch. pose proof (wo_next _ _ _ Hw) as Hnx.
  destruct Hroom as (_ & Hr2 & _). fold l in Hr2. pose proof (newer_positive _ _ _ Hw) as [_ Hpos].
  pose proof (seg_ok_last _ _ (wo_active _ _ _ Hw)) as Hpos0. fold l in Hpos.
  assert (images_ok (l - 1) W) as HW by (apply batch_images_ok; [exact Hws|lia|lia]).
  split; rewrite ?Hact, ?Hother, ?Hnext.
  - rewrite Hwal. exact Hw2.
  - intros j. destruct (decide (j = active (wal s))) as [->|Hj].
    + rewrite Hwal, <- Ha1. exact Hs2.
    + replace j with (negb (active (wal s))) by (destruct j, (active (wal s)); done). rewrite Hother. apply Hsy.
  - exact Hoff.
  - exact Hco.
  - exact (committed_append_batch _ _ Hcn l _ Hch).
  - rewrite !app_assoc. exact (committed_append_batch _ _ Hca l _ Hch).
  - rewrite app_assoc. apply (images_ok_app 0 (l - 1)); [exact Him|intros c Hc; specialize (Hwl c Hc); fold l in Hwl; lia|lia|exact HW].
  - intros c. rewrite app_assoc. intros [Hc|Hc]%elem_of_app.
    + specialize (Hwl c Hc). fold l in Hwl. lia.
    + apply batch_images_lsn in Hc. lia.
  - rewrite app_assoc, Hdata. eapply data_inv_batch; [exact Hd|exact HW|fold l; lia| |exact Hdirty].
    intros c Hc%batch_images_lsn. lia.
  - intros j p Hp. rewrite Hflushed, Hqueue, Hopen. rewrite Hdirty in Hp.
    destruct (last_image W j) as [q|] eqn:Hl.
    + apply last_image_In in Hl as (c & Hc%batch_images_ids & _ & <-). right; left. apply elem_of_app. by right.
    + destruct (Hq j p Hp) as [?|[?|?]]; [by left|right; left; apply elem_of_app; by left|by right; right].
  - intros j k. rewrite Hflushed, Hdata. intros Hj. destruct (Hfl j k Hj) as [Hk Hreg]. fold l in Hk. split; [lia|].
    intros p Hp Hlp. rewrite Hdirty in Hp. destruct (last_image W j) as [q|] eqn:Hl; [|exact (Hreg p Hp Hlp)].
    injection Hp as ->. apply last_image_batch_lsn in Hl. lia.
  - congruence.
  - eapply phase_ok_batch; [exact Hph|reflexivity|rewrite Hnext; fold l; lia|exact Hflight| |exact Hdata|exact Hdirty].
    rewrite Hwal. exact Hr1.
Qed.
End Write.
