(* ===== verification/StoreFlush.v ===== *)
(** * Paced flushing and foreground checkpoints

    [flush_some_dirty] keeps the invariant and the view; a checkpoint
    terminates with an empty dirty table, an empty log, and every page
    durable in the data file. *)
From S2P Require Import Prelude Page Files DataFile Wal WalLemmas WalLog Store Replay Recovery StoreInv StoreWrite.
Local Open Scope Z_scope.

Section Flush.
Context `{Crc32}.

(** ** The queue *)

Lemma pop_pending_spec budget m fl q ps rest :
  pop_pending budget m fl q = (ps, rest) ->
  (forall p, p ∈ ps -> exists i, m !! i = Some p) /\
  (forall i p, i ∈ q -> m !! i = Some p -> i ∈ rest \/ fl !! i = Some (lsn p) \/ p ∈ ps) /\
  (0 < budget -> ps = [] -> rest = []) /\
  (ps <> [] -> (length rest < length q)%nat) /\ (length rest <= length q)%nat.
Proof.
  revert budget ps rest. induction q as [|i q IH]; intros budget ps rest; cbn [pop_pending].
  - destruct (budget <=? 0); intros [= <- <-]; split_and!; try done; by intros ? ?%elem_of_nil || intros ? ? ?%elem_of_nil.
  - destruct (budget <=? 0) eqn:Hb; bool_to_prop.
    { intros [= <- <-]. split_and!; try done; try lia; [by intros ? ?%elem_of_nil|auto]. }
    destruct (m !! i) as [p|] eqn:Hp.
    2: { intros (H1 & H2 & H3 & H4 & H5)%IH. cbn [length]. split_and!; try assumption; try lia.
         intros j q' [-> | Hj]%elem_of_cons Hq'; [congruence|auto]. }
    case_bool_decide as Hfl.
    { intros (H1 & H2 & H3 & H4 & H5)%IH. cbn [length]. split_and!; try assumption; try lia.
      intros j q' [-> | Hj]%elem_of_cons Hq'; [|auto]. right; left. congruence. }
    destruct (pop_pending (budget - 1) m fl q) as [ps' rest'] eqn:E. apply IH in E as (H1 & H2 & H3 & H4 & H5).
    intros [= <- <-]. cbn [length]. split_and!; try done; try lia.
    + intros p' [-> | Hp']%elem_of_cons; [by exists i|auto].
    + intros j q' [-> | Hj]%elem_of_cons Hq'; [right; right; apply elem_of_cons; left; congruence|].
      destruct (H2 j q' Hj Hq') as [?|[?|?]]; [by left|by right; left|by right; right; right].
Qed.

(** ** Writing dirty pages *)

Definition same_but_flushed (s s' : DurableStore) : Prop :=
  dirty s' = dirty s /\ wal s' = wal s /\ flush_queue s' = flush_queue s /\ open_pages s' = open_pages s /\
  checkpoint_in_flight s' = checkpoint_in_flight s /\ poisoned s' = poisoned s.

Lemma flush_pages w v nx ps s :
  data_inv (data s) w v (dirty s) nx -> dirty_logged w (dirty s) ->
  (forall p, p ∈ ps -> dirty s !! id p = Some p) ->
  exists s', for_each ps flush_page s = (Ok tt, s') /\ same_but_flushed s s' /\
    data_inv (data s') w v (dirty s) nx /\
    (forall i p, dirty s !! i = Some p -> p ∈ ps ->
       flushed s' !! i = Some (lsn p) /\ region (cached (data s')) i = encode p) /\
    (forall i, (forall p, p ∈ ps -> id p <> i) ->
       flushed s' !! i = flushed s !! i /\ region (cached (data s')) i = region (cached (data s)) i).
Proof.
  revert s. induction ps as [|p ps IH]; intros s Hd Hl Hps.
  - exists s. split; [reflexivity|]. unfold same_but_flushed. split_and!; try done; set_solver.
  - pose proof (Hps p ltac:(by left)) as Hp. pose proof (Hl _ _ Hp) as Hlog.
    destruct (di_dirty _ _ _ _ _ Hd _ _ Hp) as (Hv & _ & Hok & _ & _).
    pose proof (data_inv_write _ _ _ _ _ _ Hd Hp Hlog) as Hd1.
    set (s1 := set_flushed (<[id p := lsn p]> (flushed s)) (set_data (write_page_to (data s) p) s)).
    assert (flush_page p s = (Ok tt, s1)) as Hrun.
    { unfold flush_page. st_run. rewrite write_ok by assumption. reflexivity. }
    destruct (IH s1 Hd1 Hl) as (s' & Hf & Hsame & Hd' & Hin & Hout).
    { intros q Hq. apply Hps. by right. }
    exists s'. split; [cbn [for_each]; by rewrite (ST_bind_step _ _ _ _ _ Hrun)|].
    split; [exact Hsame|]. split; [exact Hd'|]. split.
    + intros i q Hq Hqs. destruct (decide (q ∈ ps)) as [Hqp|Hqp]; [by apply Hin|].
      apply elem_of_cons in Hqs as [-> | ?]; [|done].
      destruct (di_dirty _ _ _ _ _ Hd _ _ Hq) as (_ & <- & _).
      destruct (Hout (id p)) as [Ho1 Ho2].
      { intros q' Hq' Hid. apply Hqp. pose proof (Hps q' ltac:(by right)) as Hx. rewrite Hid in Hx. congruence. }
      rewrite Ho1, Ho2. cbn [s1 flushed set_flushed set_data data]. rewrite lookup_insert_eq.
      split; [reflexivity|]. by apply write_region_eq.
    + intros i Hi. destruct (Hout i) as [Ho1 Ho2]; [intros q' Hq'; apply Hi; by right|].
      rewrite Ho1, Ho2. cbn [s1 flushed set_flushed set_data data].
      pose proof (Hi p ltac:(by left)) as Hne. rewrite lookup_insert_ne by done.
      split; [reflexivity|]. apply write_region_ne; [exact Hok|exact Hv|congruence].
Qed.

(** The invariant's parts that speak of the queue and of flushed pages. *)
Lemma inv_flush s v older newer wo wn budget :
  inv s Idle v older newer wo wn ->
  exists n s', flush_some_dirty budget s = (Ok n, s') /\ inv s' Idle v older newer wo wn /\
    dirty s' = dirty s /\ wal s' = wal s /\ open_pages s' = open_pages s /\ 0 <= n /\
    (0 < budget -> n = 0 -> flush_queue s' = []) /\
    (0 < n -> (length (flush_queue s') < length (flush_queue s))%nat).
Proof.
  intros [Hw Hsy Hoff Hco Hcn Hca Him Hwl Hd Hq Hfl Hlive [Hflight Hlog]].
  unfold flush_some_dirty. st_run. rewrite Hflight.
  destruct (pop_pending budget (dirty s) (flushed s) (flush_queue s)) as [ps rest] eqn:Hpop.
  apply pop_pending_spec in Hpop as (Hp1 & Hp2 & Hp3 & Hp4 & _).
  destruct (flush_pages (wo ++ wn) v (next_lsn (wal s)) ps (set_queue rest s)) as (s' & Hf & Hsame & Hd' & Hin & Hout).
  - exact Hd.
  - exact Hlog.
  - intros p Hp. destruct (Hp1 p Hp) as [i Hi]. destruct (di_dirty _ _ _ _ _ Hd _ _ Hi) as (_ & <- & _). exact Hi.
  - rewrite Hf. destruct Hsame as (Hs1 & Hs2 & Hs3 & Hs4 & Hs5 & Hs6).
    cbn [set_queue dirty wal flush_queue open_pages checkpoint_in_flight poisoned flushed data] in *.
    exists (blen ps), s'. split; [reflexivity|]. rewrite Hs1, Hs2, Hs3, Hs4. split; [|split_and!; try done; try lia].
    2: { intros Hb Hps. apply Hp3; [exact Hb|]. by destruct ps. }
    2: { intros Hps. apply Hp4. by destruct ps. }
    assert (forall i p, dirty s !! i = Some p -> p ∈ ps \/ forall q, q ∈ ps -> id q <> i) as Hcase.
    { intros i p Hp. destruct (decide (p ∈ ps)); [by left|right]. intros q Hqs Hid.
      destruct (Hp1 q Hqs) as [j Hj]. destruct (di_dirty _ _ _ _ _ Hd _ _ Hj) as (_ & <- & _). congruence. }
    split; rewrite ?Hs1, ?Hs2, ?Hs3, ?Hs4; try assumption.
    + intros i p Hp. destruct (Hcase i p Hp) as [Hps|Hps]; [left; by apply Hin|].
      destruct (Hout i Hps) as [-> _]. destruct (Hq i p Hp) as [?|[Hi|?]]; [by left| |by right; right].
      destruct (Hp2 i p Hi Hp) as [?|[?|Hx]]; [by right; left|by left|].
      destruct (di_dirty _ _ _ _ _ Hd _ _ Hp) as (_ & Hid & _). by destruct (Hps p Hx).
    + intros i l Hi. destruct (dirty s !! i) as [p|] eqn:Hp.
      * destruct (Hcase i p Hp) as [Hps|Hps].
        -- destruct (Hin i p Hp Hps) as [Hlp Hreg]. rewrite Hlp in Hi. injection Hi as <-.
           split; [by apply (di_dirty _ _ _ _ _ Hd i p Hp)|]. intros q [= <-] _. exact Hreg.
        -- destruct (Hout i Hps) as [Hlp Hreg]. rewrite Hlp in Hi. destruct (Hfl i l Hi) as [? Hr]. split; [done|].
           intros q Hq' Hlq. rewrite Hreg. apply Hr; [by rewrite Hp|done].
      * destruct (Hout i) as [Hlp _].
        { intros q Hqs Hid. destruct (Hp1 q Hqs) as [j Hj]. destruct (di_dirty _ _ _ _ _ Hd _ _ Hj) as (_ & <- & _). congruence. }
        rewrite Hlp in Hi. destruct (Hfl i l Hi) as [? _]. split; [done|]. intros q [=].
    + congruence.
    + cbn [phase_ok]. rewrite Hs1. split; congruence || assumption.
Qed.

(** ** Checkpoints *)

(** The flush loop drains the queue within its fuel. *)
Lemma flush_all_ok fuel s v older newer wo wn :
  inv s Idle v older newer wo wn -> (length (flush_queue s) < fuel)%nat ->
  exists s', flush_all fuel s = (Ok tt, s') /\ inv s' Idle v older newer wo wn /\
    dirty s' = dirty s /\ wal s' = wal s /\ open_pages s' = open_pages s /\ flush_queue s' = [].
Proof.
  revert s. induction fuel as [|fuel IH]; intros s Hinv Hf; [lia|].
  destruct (inv_flush s v older newer wo wn U64_MAX Hinv) as (n & s1 & Hrun & Hinv1 & Hd & Hw & Ho & Hn & Hz & Hpos).
  cbn [flush_all]. rewrite (ST_bind_step _ _ _ _ _ Hrun). destruct (0 <? n) eqn:E; bool_to_prop.
  - destruct (IH s1 Hinv1) as (s' & Hr & Hi & Hd' & Hw' & Ho' & Hq); [specialize (Hpos E); lia|].
    exists s'. split_and!; congruence || assumption.
  - exists s1. split; [reflexivity|]. split_and!; try assumption. apply Hz; [done|lia].
Qed.

(** Once every dirty page is in the data file, its sync makes the file
    durably hold the whole view. *)
Lemma data_inv_synced d w v m nx nx' :
  data_inv d w v m nx -> (forall i p, m !! i = Some p -> region (cached d) i = encode p) -> nx <= nx' ->
  data_inv (DataFile.sync d) [] v ∅ nx'.
Proof.
  intros [Hos Hwh Hlen Hver Hrec Hcl Hdi] Hreg Hnx. pose proof (cached_in_states d Hos) as Hin.
  assert (forall i, valid_id i -> stable (states (DataFile.sync d)) i (v i)) as Hst.
  { intros i Hi. pose proof (whole_pages_present _ i Hwh) as Hp.
    apply synced_stable; [exact Hwh|exact Hi|]. rewrite read_shared_region by assumption.
    destruct (m !! i) as [p|] eqn:Hm.
    - destruct (Hdi i p Hm) as (_ & <- & Hok & _ & ->). rewrite (Hreg _ _ Hm). by apply read_region_encode.
    - destruct (Hcl i Hi Hm) as (R & HR & Hg). destruct (Hg _ Hin) as [-> _]. exact HR. }
  split.
  - reflexivity.
  - exact Hwh.
  - apply Forall_forall. intros g ->%states_sync. by eapply Forall_forall in Hlen.
  - intros g i p ->%states_sync Hi Hp. specialize (Hver _ i p Hin Hi Hp). lia.
  - exact Hst.
  - intros i Hi _. exact (Hst i Hi).
  - intros i p. rewrite lookup_empty. intros [=].
Qed.

Definition hand_over (s : DurableStore) : DurableStore :=
  set_open_pages ∅ (set_queue (flush_queue s ++ elements (open_pages s)) s).

Lemma inv_hand_over s v older newer wo wn :
  inv s Idle v older newer wo wn -> inv (hand_over s) Idle v older newer wo wn.
Proof.
  intros [Hw Hsy Hoff Hco Hcn Hca Him Hwl Hd Hq Hfl Hlive Hph]. split; try assumption.
  intros i p Hp. destruct (Hq i p Hp) as [?|[?|?]]; [by left|right; left..]; apply elem_of_app; [by left|right].
  by apply elem_of_elements.
Qed.

Lemma drop_flushed_empty s :
  (forall i p, dirty s !! i = Some p -> flushed s !! i = Some (lsn p)) -> dirty (drop_flushed s) = ∅.
Proof.
  intros Hall. apply map_eq. intros i. cbn. rewrite lookup_empty. apply map_lookup_filter_None. right.
  intros p Hp Hne. by apply Hne, Hall.
Qed.

Lemma inv_checkpoint s v older newer wo wn :
  inv s Idle v older newer wo wn -> batch_room (wal s) 0 ->
  exists s', checkpoint s = (Ok (next_lsn (wal s)), s') /\ inv s' Idle v [] [] [] [] /\
    dirty s' = ∅ /\ retired (wal s') = None /\ next_lsn (wal s') = next_lsn (wal s) + 1.
Proof.
  intros Hinv Hroom. pose proof (iv_live _ _ _ _ _ _ _ Hinv) as Hlive.
  pose proof (iv_phase _ _ _ _ _ _ _ Hinv) as [Hflight _].
  destruct (flush_all_ok (S (length (flush_queue (hand_over s)))) (hand_over s) v older newer wo wn)
    as (s1 & Hrun & Hi1 & Hd1 & Hw1 & Ho1 & Hq1); [by apply inv_hand_over|lia|].
  cbn [hand_over set_open_pages set_queue dirty wal open_pages] in Hd1, Hw1, Ho1.
  destruct Hi1 as [Hw Hsy Hoff _ _ _ _ _ Hd Hq Hfl Hlive1 [Hflight1 _]]. rewrite Hw1 in Hw, Hsy, Hoff.
  assert (forall i p, dirty s1 !! i = Some p -> flushed s1 !! i = Some (lsn p)) as Hflu.
  { intros i p Hp. destruct (Hq i p Hp) as [?|[Hx|Hx]]; [done|rewrite Hq1 in Hx|rewrite Ho1 in Hx]; set_solver. }
  destruct (append_step (wal s) older newer Checkpoint Hw I (room_append _ Checkpoint 0 I (Z.le_refl 0) Hroom))
    as (w1 & Ha & Hwa & Hna & Haa & Hra & Hoa & _ & _).
  destruct (wal_sync_ok _ _ _ Hwa) as (Hw2 & Hs2 & Ho2).
  assert (wal_synced (wal_sync w1)) as Hsy2.
  { intros j. destruct (decide (j = active w1)) as [->|Hj]; [exact Hs2|].
    replace j with (negb (active w1)) by (destruct j, (active w1); done). rewrite Ho2, Haa, Hoa. apply Hsy. }
  destruct (reset_after_checkpoint_ok (wal_sync w1) _ _ Hw2 Hsy2) as (Hw3 & Hsy3 & Hr3 & Hn3 & Hoff3).
  { change (active (wal_sync w1)) with (active w1). rewrite Ho2, Haa, Hoa. exact Hoff. }
  change (next_lsn (wal_sync w1)) with (next_lsn w1) in Hn3. cbn [length] in Hna.
  set (s2 := set_data (DataFile.sync (data s1)) s1).
  exists (drop_flushed (set_wal (reset_after_checkpoint (wal_sync w1)) s2)).
  split; [|split; [|split; [by apply drop_flushed_empty|split; [exact Hr3|cbn; lia]]]].
  - unfold checkpoint, refuse_poisoned, poisoning, checkpoint_inner.
    st_run. rewrite Hlive, Hflight. fold (hand_over s). rewrite Hrun. unfold on_wal, zoom, append_checkpoint.
    cbn [wal set_data]. rewrite Hw1, Ha. reflexivity.
  - assert (filter (fun '(page_id, page) => flushed s1 !! page_id <> Some (lsn page)) (dirty s1) = ∅) as Hemp
      by exact (drop_flushed_empty s1 Hflu).
    split; cbn [wal drop_flushed set_flushed set_dirty set_wal s2 set_data data dirty flushed flush_queue open_pages
                poisoned checkpoint_in_flight]; try assumption; try reflexivity; rewrite ?Hemp.
    + intros c Hc. by apply elem_of_nil in Hc.
    + apply (data_inv_synced _ _ _ _ _ _ Hd); [|rewrite Hw1; lia].
      intros i p Hp. destruct (Hfl i (lsn p) (Hflu i p Hp)) as [_ Hr]. by apply Hr.
    + intros i p. rewrite lookup_empty. intros [=].
    + intros i l. rewrite lookup_empty. intros [=].
    + split; [exact Hflight1|]. intros i p. cbn. rewrite Hemp, lookup_empty. intros [=].
Qed.
End Flush.
