(* ===== verification/StoreBackground.v ===== *)
(** * Background checkpoints

    Each part of a background checkpoint (begin, a chunk of page writes, the
    data sync, the seal of the retired segment, completion, abort) keeps the
    durability invariant, with commits free to run between any two of them. *)
From S2P Require Import Prelude Page Files DataFile Wal WalLemmas WalLog Store Replay Recovery StoreInv StoreWrite.
Local Open Scope Z_scope.

Section Background.
Context `{Crc32}.

(** ** Chunks *)

Lemma concat_chunks {A} fuel (l : list A) : (length l <= fuel)%nat -> concat (chunks fuel l) = l.
Proof.
  revert l. induction fuel as [|fuel IH]; intros l Hl; [by destruct l; [|simpl in Hl; lia]|].
  destruct l as [|x l]; [done|]. cbn [chunks]. cbn [concat]. rewrite IH; [apply take_drop|].
  rewrite length_drop. unfold CHUNK. cbn [length] in *. lia.
Qed.

Lemma chunk_pages_spec m c p :
  p ∈ chunk_pages m c <-> exists i, (i, lsn p) ∈ c /\ m !! i = Some p.
Proof.
  unfold chunk_pages. rewrite list_elem_of_omap. split.
  - intros ([i l] & Hc & Hp). destruct (m !! i) as [q|] eqn:Hq; [|done].
    destruct (Z.eqb_spec (lsn q) l) as [<-|]; [|done]. injection Hp as <-. by exists i.
  - intros (i & Hc & Hp). exists (i, lsn p). split; [done|]. by rewrite Hp, Z.eqb_refl.
Qed.

(** What the checkpoint's page writes leave unchanged: everything but the
    data file. *)
Definition same_but_data (s s' : DurableStore) : Prop := s' = set_data (data s') s.

Lemma write_shared_pages w v nx ps s :
  data_inv (data s) w v (dirty s) nx -> dirty_logged w (dirty s) ->
  (forall p, p ∈ ps -> dirty s !! id p = Some p) ->
  exists s', for_each ps write_shared s = (Ok tt, s') /\ same_but_data s s' /\
    data_inv (data s') w v (dirty s) nx /\
    (forall i p, dirty s !! i = Some p -> p ∈ ps -> region (cached (data s')) i = encode p) /\
    (forall i, (forall p, p ∈ ps -> id p <> i) -> region (cached (data s')) i = region (cached (data s)) i).
Proof.
  revert s. induction ps as [|p ps IH]; intros s Hd Hl Hps.
  - exists s. split; [reflexivity|]. split; [by destruct s|]. split; [exact Hd|].
    split; [by intros ? ? ? ?%elem_of_nil|done].
  - pose proof (Hps p ltac:(by left)) as Hp. pose proof (Hl _ _ Hp) as Hlog.
    destruct (di_dirty _ _ _ _ _ Hd _ _ Hp) as (Hv & _ & Hok & _ & _).
    pose proof (data_inv_write _ _ _ _ _ _ Hd Hp Hlog) as Hd1.
    set (s1 := set_data (write_page_to (data s) p) s).
    assert (write_shared p s = (Ok tt, s1)) as Hrun.
    { unfold write_shared. st_run. rewrite write_ok by assumption. reflexivity. }
    destruct (IH s1 Hd1 Hl) as (s' & Hf & Hsame & Hd' & Hin & Hout).
    { intros q Hq. apply Hps. by right. }
    exists s'. split; [cbn [for_each]; by rewrite (ST_bind_step _ _ _ _ _ Hrun)|].
    split; [unfold same_but_data in *; by rewrite Hsame at 1|]. split; [exact Hd'|]. split.
    + intros i q Hq Hqs. destruct (decide (q ∈ ps)) as [Hqp|Hqp]; [by apply Hin|].
      apply elem_of_cons in Hqs as [-> | ?]; [|done].
      destruct (di_dirty _ _ _ _ _ Hd _ _ Hq) as (_ & <- & _).
      rewrite (Hout (id p)); [by apply write_region_eq|].
      intros q' Hq' Hid. apply Hqp. pose proof (Hps q' ltac:(by right)) as Hx. rewrite Hid in Hx. congruence.
    + intros i Hi. rewrite (Hout i); [|intros q' Hq'; apply Hi; by right].
      pose proof (Hi p ltac:(by left)) as Hne. apply write_region_ne; [exact Hok|exact Hv|congruence].
Qed.

(** A dirty page keeps the bytes it has in the file, or gets its image. *)
Lemma written_region w v nx (ps : list Page) s s' i p :
  data_inv (data s) w v (dirty s) nx ->
  (forall q, q ∈ ps -> dirty s !! id q = Some q) ->
  (forall j q, dirty s !! j = Some q -> q ∈ ps -> region (cached (data s')) j = encode q) ->
  (forall j, (forall q, q ∈ ps -> id q <> j) -> region (cached (data s')) j = region (cached (data s)) j) ->
  dirty s !! i = Some p -> (p ∈ ps \/ region (cached (data s)) i = encode p) ->
  region (cached (data s')) i = encode p.
Proof.
  intros Hd Hps Hin Hout Hp Hcase. destruct (decide (p ∈ ps)) as [Hx|Hx]; [by apply Hin|].
  destruct Hcase as [?|Hreg]; [done|]. rewrite Hout; [exact Hreg|].
  intros q Hq Hid. apply Hx. pose proof (Hps q Hq) as Hy. rewrite Hid in Hy. congruence.
Qed.

(** ** The steps *)

Lemma inv_begin s v older newer wo wn :
  inv s Idle v older newer wo wn -> can_rotate (wal s) = true ->
  exists job s', begin_background_checkpoint s = (Ok job, s') /\
    inv s' (Running job (chunks (length (manifest job)) (manifest job)) []) v newer [] wn [].
Proof.
  intros [Hw Hsy Hoff Hco Hcn Hca Him Hwl Hd Hq Hfl Hlive [Hflight Hlog]] Hrot.
  destruct (rotate_ok _ _ _ Hw Hrot) as (w' & Hr & Hw' & -> & Hact & Hret & Hnx & Hseg).
  assert (wo = []) as -> by (vm_compute in Hco; congruence). cbn [app] in *.
  set (job := mkJob ((fun '(page_id, page) => (page_id, lsn page)) <$> map_to_list (dirty s))
                    (active (wal s)) (next_lsn (wal s))).
  exists job, (set_in_flight true (set_wal w' s)). split.
  - unfold begin_background_checkpoint, refuse_poisoned. st_run. rewrite Hlive, Hflight.
    unfold on_wal, zoom. rewrite Hr. cbn [wal set_wal]. rewrite Hret. reflexivity.
  - assert (forall i, seg w' i = seg (wal s) i) as Hsegs by (intros i; unfold seg; by rewrite Hseg).
    split; cbn [wal set_wal set_in_flight data dirty flushed flush_queue open_pages poisoned]; rewrite ?app_nil_r, ?Hnx;
      try assumption; try reflexivity.
    + intros i. rewrite Hsegs. apply Hsy.
    + rewrite Hsegs, Hact, negb_involutive. by apply (seg_ok_end _ _ (wo_active _ _ _ Hw)).
    + split; [rewrite app_nil_r; exact Hlog|]. rewrite concat_chunks by lia. split; cbn; try assumption; try reflexivity.
      * intros i p Hp. right; left. apply list_elem_of_fmap. exists (i, p). split; [done|]. by apply elem_of_map_to_list.
      * intros i p Hx. by apply elem_of_nil in Hx.
      * intros i l [Hx|Hx]; [|by apply elem_of_nil in Hx]. rewrite Hnx.
        apply list_elem_of_fmap in Hx as ([j p] & [= -> ->] & Hx). apply elem_of_map_to_list in Hx.
        by apply (di_dirty _ _ _ _ _ Hd) in Hx as (_ & _ & _ & ? & _).
Qed.

Lemma inv_chunk s job c todo written v older newer wo wn :
  inv s (Running job (c :: todo) written) v older newer wo wn ->
  exists w' s', run_chunk c s = (Ok w', s') /\ inv s' (Running job todo (written ++ w')) v older newer wo wn.
Proof.
  intros [Hw Hsy Hoff Hco Hcn Hca Him Hwl Hd Hq Hfl Hlive [Hlog [Hji1 Hji2 Hji3 Hji4 Hji5]]].
  set (ps := chunk_pages (dirty s) c).
  assert (forall p, p ∈ ps -> dirty s !! id p = Some p) as Hps.
  { intros p (i & _ & Hp)%chunk_pages_spec. by destruct (di_dirty _ _ _ _ _ Hd _ _ Hp) as (_ & -> & _). }
  destruct (write_shared_pages _ v _ ps s Hd Hlog Hps) as (s' & Hrun & Hsame & Hd' & Hin & Hout).
  pose proof (fun i p => written_region _ v _ ps s s' i p Hd Hps Hin Hout) as Hreg.
  exists ((fun p => (id p, lsn p)) <$> ps), s'. split.
  - unfold run_chunk. st_run. fold ps. rewrite Hrun. reflexivity.
  - unfold same_but_data in Hsame. rewrite Hsame. cbn [concat] in *.
    split; cbn [wal set_data data dirty flushed flush_queue open_pages poisoned]; try assumption.
    + intros i l Hi. destruct (Hfl i l Hi) as [Hl Hx]. split; [exact Hl|]. intros p Hp Hlp. apply Hreg; [exact Hp|].
      right. by apply Hx.
    + split; [exact Hlog|]. split; cbn [wal set_data data dirty checkpoint_in_flight]; try assumption.
      * intros i p Hp. destruct (Hji3 i p Hp) as [?|[Hx|?]]; [by left| |right; right; apply elem_of_app; by left].
        apply elem_of_app in Hx as [Hx|?]; [|by right; left]. right; right. apply elem_of_app. right.
        apply list_elem_of_fmap. exists p. destruct (di_dirty _ _ _ _ _ Hd _ _ Hp) as (_ & -> & _).
        split; [done|]. apply chunk_pages_spec. by exists i.
      * intros i p Hx Hp. apply Hreg; [exact Hp|]. apply elem_of_app in Hx as [Hx|Hx]; [right; by apply Hji4|left].
        apply list_elem_of_fmap in Hx as (q & Hqe & Hq'). injection Hqe as -> _.
        pose proof (Hps q Hq') as Hy. rewrite Hp in Hy. by injection Hy as ->.
      * intros i l Hx. apply (Hji5 i l). rewrite !elem_of_app in *. destruct Hx as [Hx|[Hx|Hx]]; [by left; right|by right|left; left].
        apply list_elem_of_fmap in Hx as (q & [= -> ->] & (j & Hj & Hq')%chunk_pages_spec).
        by destruct (di_dirty _ _ _ _ _ Hd _ _ Hq') as (_ & -> & _).
Qed.

Lemma stable_sync d i o : os_ok d -> stable (states d) i o -> stable (states (DataFile.sync d)) i o.
Proof.
  intros Hos (R & HR & Hg). exists R. split; [exact HR|]. intros g ->%states_sync.
  by apply Hg, cached_in_states.
Qed.

(** A sync only takes states away. *)
Lemma data_inv_sync d w v m nx : data_inv d w v m nx -> data_inv (DataFile.sync d) w v m nx.
Proof.
  intros [Hos Hwh Hlen Hver Hrec Hcl Hdi]. pose proof (cached_in_states d Hos) as Hin. split; try assumption.
  - reflexivity.
  - apply Forall_forall. intros g ->%states_sync. by eapply Forall_forall in Hlen.
  - intros g i p ->%states_sync Hi Hp. by eapply Hver.
  - intros i Hi. specialize (Hrec i Hi). unfold recoverable in *. destruct (last_image w i) as [pw|].
    + destruct Hrec as [? Hnn]. split; [assumption|]. intros g p ->%states_sync Hp. by eapply Hnn.
    + by apply stable_sync.
  - intros i Hi Hn. apply stable_sync; auto.
Qed.

Lemma inv_data_sync s job written v older newer wo wn :
  inv s (Running job [] written) v older newer wo wn ->
  exists s', run_sync s = (Ok tt, s') /\ inv s' (DataSynced job written) v older newer wo wn.
Proof.
  intros [Hw Hsy Hoff Hco Hcn Hca Him Hwl Hd Hq Hfl Hlive [Hlog [Hj1 Hj2 Hj3 Hj4 Hj5]]].
  eexists. split; [reflexivity|].
  split; cbn [wal set_data data dirty flushed flush_queue open_pages poisoned]; try assumption; [by apply data_inv_sync|].
  split; [exact Hlog|]. split; [|reflexivity]. by split.
Qed.

(** Once the written pages are synced, the log no longer needs the retired
    segment: a page whose last image it held is durable. *)
Lemma data_inv_forget_older d wo wn v m nx (written : list (PageId * Lsn)) :
  data_inv d (wo ++ wn) v m nx -> history d = [] ->
  (forall i p, m !! i = Some p -> last_image wn i = Some p \/ (i, lsn p) ∈ written) ->
  (forall i p, (i, lsn p) ∈ written -> m !! i = Some p -> region (cached d) i = encode p) ->
  data_inv d wn v m nx.
Proof.
  intros [Hos Hwh Hlen Hver Hrec Hcl Hdi] Hh Hcov Hwr. split; try assumption.
  intros i Hi. specialize (Hrec i Hi). unfold recoverable in *. rewrite last_image_app in Hrec.
  destruct (last_image wn i) as [pw|] eqn:Hn; [exact Hrec|].
  destruct (m !! i) as [p|] eqn:Hm; [|exact (Hcl i Hi Hm)].
  destruct (Hcov i p Hm) as [?|Hx]; [congruence|]. destruct (Hdi i p Hm) as (_ & Hid & Hok & _ & ->).
  exists (encode p). split; [rewrite <- Hid; by apply read_region_encode|].
  intros g Hg. unfold os_ok, states in *. rewrite Hh in *.
  assert (g = cached d) as -> by (rewrite Hos; by apply list_elem_of_singleton in Hg).
  split; [exact (Hwr i p Hx Hm)|]. by apply whole_pages_present.
Qed.

Lemma inv_seal s job written v older newer wo wn :
  inv s (DataSynced job written) v older newer wo wn ->
  exists s', run_seal (retired_file job) s = (Ok tt, s') /\ inv s' (LogSealed job written) v [] newer [] wn.
Proof.
  intros [Hw Hsy Hoff Hco Hcn Hca Him Hwl Hd Hq Hfl Hlive (Hlog & [Hj1 Hj2 Hj3 Hj4 Hj5] & Hh)].
  pose proof (wo_retired _ _ _ Hw _ Hj2) as Hret. rewrite Hret.
  destruct (seal_retired_ok _ _ _ Hw Hsy) as [Hw' Hsy'].
  eexists. split; [reflexivity|].
  assert (forall i p, dirty s !! i = Some p -> last_image wn i = Some p \/ (i, lsn p) ∈ written) as Hcov.
  { intros i p Hp. destruct (Hj3 i p Hp) as [?|[Hx|?]]; [by left|by apply elem_of_nil in Hx|by right]. }
  split; cbn [wal set_wal data dirty flushed flush_queue open_pages poisoned app]; try assumption; try reflexivity.
  - unfold seal_segment_file. by destruct (wal s) as [[? ?] []].
  - by apply (images_ok_suffix 0 wo).
  - intros c Hc. apply Hwl, elem_of_app. by right.
  - by apply (data_inv_forget_older _ wo wn _ _ _ written).
  - split; [reflexivity|]. split; [|exact Hh]. split; try assumption.
Qed.

(** What forgetting the written pages leaves in the two tables. *)
Definition keep (written : list (PageId * Lsn)) (i : PageId) (l : Lsn) : bool := bool_decide ((i, l) ∉ written).

Definition forgot (written : list (PageId * Lsn)) (s s' : DurableStore) : Prop :=
  (forall i, dirty s' !! i = p ← dirty s !! i; if keep written i (lsn p) then Some p else None) /\
  (forall i, flushed s' !! i = l ← flushed s !! i; if keep written i l then Some l else None) /\
  data s' = data s /\ wal s' = wal s /\ flush_queue s' = flush_queue s /\ open_pages s' = open_pages s /\
  poisoned s' = poisoned s.

Lemma keep_single i l j k : keep [(j, k)] i l = negb ((i =? j) && (l =? k)).
Proof.
  unfold keep. destruct (Z.eqb_spec i j), (Z.eqb_spec l k); subst; cbn;
    [rewrite bool_decide_false by (intros Hx; apply Hx; by left); done|..];
    rewrite bool_decide_true; try done; intros Hx%list_elem_of_singleton; congruence.
Qed.

Lemma keep_cons w written i l : keep (w :: written) i l = keep [w] i l && keep written i l.
Proof.
  unfold keep. rewrite <- bool_decide_and. apply bool_decide_ext. rewrite not_elem_of_cons.
  rewrite list_elem_of_singleton. tauto.
Qed.

Lemma forgot_one s w : forgot [w] s (forget_written s w).
Proof.
  destruct w as [j l]. unfold forgot. split; [|split].
  - intros i. unfold forget_written. destruct (decide (i = j)) as [->|Hne].
    + destruct (dirty s !! j) as [p|] eqn:Hp; cbn; rewrite ?keep_single, ?Z.eqb_refl; cbn.
      * destruct (lsn p =? l); case_bool_decide; cbn; by rewrite ?lookup_delete_eq, ?Hp.
      * case_bool_decide; cbn; by rewrite Hp.
    + transitivity (dirty s !! i).
      * destruct (dirty s !! j) as [p|]; [destruct (lsn p =? l)|]; case_bool_decide; cbn;
          by rewrite ?lookup_delete_ne by done.
      * destruct (dirty s !! i); [|done]. cbn. rewrite keep_single. by rewrite (proj2 (Z.eqb_neq i j)) by done.
  - intros i. unfold forget_written.
    assert (flushed (match dirty s !! j with
                     | Some page => if lsn page =? l then set_dirty (delete j (dirty s)) s else s
                     | None => s end) = flushed s) as Hsame by (repeat case_match; done).
    rewrite Hsame. case_bool_decide as Hb; cbn; rewrite ?Hsame; destruct (decide (i = j)) as [->|Hne].
    + rewrite lookup_delete_eq, Hb. cbn. by rewrite keep_single, !Z.eqb_refl.
    + rewrite lookup_delete_ne by done. destruct (flushed s !! i); [|done]. cbn.
      rewrite keep_single. by rewrite (proj2 (Z.eqb_neq i j)) by done.
    + destruct (flushed s !! j) as [k|]; [|done]. cbn. rewrite keep_single, Z.eqb_refl.
      destruct (Z.eqb_spec k l); [congruence|done].
    + destruct (flushed s !! i); [|done]. cbn. rewrite keep_single. by rewrite (proj2 (Z.eqb_neq i j)) by done.
  - unfold forget_written. repeat case_match; case_bool_decide; done.
Qed.

Lemma forgot_fold written s : forgot written s (fold_left forget_written written s).
Proof.
  revert s. induction written as [|w written IH]; intros s; cbn [fold_left].
  - unfold forgot, keep. split_and!; try done; intros i; [destruct (dirty s !! i)|destruct (flushed s !! i)];
      try done; cbn [mbind option_bind]; by rewrite bool_decide_true by apply not_elem_of_nil.
  - destruct (forgot_one s w) as (Hd & Hf & H1 & H2 & H3 & H4 & H5).
    destruct (IH (forget_written s w)) as (Hd' & Hf' & ? & ? & ? & ? & ?).
    unfold forgot. split_and!; try congruence; intros i.
    + rewrite Hd', Hd. destruct (dirty s !! i) as [p|]; [|done]. cbn. rewrite (keep_cons w written). by destruct (keep [w] i (lsn p)).
    + rewrite Hf', Hf. destruct (flushed s !! i) as [l|]; [|done]. cbn. rewrite (keep_cons w written). by destruct (keep [w] i l).
Qed.

Lemma inv_complete s job written v older newer wo wn :
  inv s (LogSealed job written) v older newer wo wn ->
  exists s', complete_background_checkpoint job written s = (Ok tt, s') /\ inv s' Idle v older newer wo wn /\
    retired (wal s') = None /\ next_lsn (wal s') = next_lsn (wal s).
Proof.
  intros [Hw Hsy Hoff Hco Hcn Hca Him Hwl Hd Hq Hfl Hlive (-> & [Hj1 Hj2 Hj3 Hj4 Hj5] & Hh)].
  assert (wo = []) as -> by (vm_compute in Hco; congruence). cbn [app] in *.
  destruct (finish_recycle_ok _ _ (boundary_lsn job) _ Hw Hsy Hj2) as (w' & Hrun & Hw' & Hsy' & Hret & Hnx & Hact & Hoff').
  destruct (forgot_fold written (set_wal w' s)) as (Hd' & Hf' & H1 & H2 & H3 & H4 & H5).
  set (s' := fold_left forget_written written (set_wal w' s)) in *.
  cbn [set_wal data wal dirty flushed flush_queue open_pages poisoned] in *.
  assert (forall i p, dirty s' !! i = Some p -> dirty s !! i = Some p /\ (i, lsn p) ∉ written) as Hdk.
  { intros i p Hp. rewrite Hd' in Hp. apply bind_Some in Hp as (q & Hq' & Hk). destruct (keep written i (lsn q)) eqn:E; [|done].
    injection Hk as ->. split; [exact Hq'|]. by apply bool_decide_eq_true in E. }
  exists (set_in_flight false s'). split; [|split; [|split; [cbn; by rewrite H2|cbn; by rewrite H2]]].
  - unfold complete_background_checkpoint, complete_background_checkpoint_inner, on_wal. st_run. rewrite Hrun. reflexivity.
  - split; cbn [wal set_in_flight data dirty flushed flush_queue open_pages poisoned]; rewrite ?H1, ?H2, ?H3, ?H4, ?H5, ?Hnx;
      try assumption; try reflexivity.
    + destruct Hd as [Hos Hwh Hlen Hver Hrec Hcl Hdi]. split; try assumption.
      * intros i Hi Hn. destruct (dirty s !! i) as [p|] eqn:Hp; [|by apply Hcl].
        rewrite Hd', Hp in Hn. cbn in Hn. destruct (keep written i (lsn p)) eqn:E; [done|].
        apply bool_decide_eq_false, dec_stable in E. destruct (Hdi i p Hp) as (_ & Hid & Hok & _ & ->).
        exists (encode p). split; [rewrite <- Hid; by apply read_region_encode|].
        intros g Hg. unfold os_ok, states in *. rewrite Hh in *.
        assert (g = cached (data s)) as -> by (rewrite Hos; by apply list_elem_of_singleton in Hg).
        split; [exact (Hj4 i p E Hp)|]. by apply whole_pages_present.
      * intros i p [Hp _]%Hdk. exact (Hdi i p Hp).
    + intros i p Hp. destruct (Hdk i p Hp) as [Hp' Hni]. destruct (Hq i p Hp') as [Hx|?]; [left|by right].
      rewrite Hf', Hx. cbn. unfold keep. by rewrite bool_decide_true.
    + intros i l Hi. rewrite Hf' in Hi. apply bind_Some in Hi as (k & Hk & Hi). destruct (keep written i k); [|done].
      injection Hi as ->. destruct (Hfl i l Hk) as [? Hr]. split; [assumption|]. intros p [Hp _]%Hdk. by apply Hr.
    + split; [reflexivity|]. intros i p Hp. destruct (Hdk i p Hp) as [Hp' Hni].
      destruct (Hj3 i p Hp') as [?|[Hx|Hx]]; [done|by apply elem_of_nil in Hx|done].
Qed.

Lemma inv_abort s ph v older newer wo wn :
  inv s ph v older newer wo wn ->
  (match ph with Running _ _ _ | DataSynced _ _ => True | _ => False end) ->
  exists s', abort_background_checkpoint s = (Ok tt, s') /\ inv s' Idle v older newer wo wn.
Proof.
  intros [Hw Hsy Hoff Hco Hcn Hca Him Hwl Hd Hq Hfl Hlive Hph] Hcase. eexists. split; [reflexivity|].
  split; try assumption. split; [reflexivity|]. destruct ph; try done; apply Hph.
Qed.
End Background.
