(* ===== verification/StoreOpen.v ===== *)
(** * Opening the store after a crash

    [open_store] on crash images of the three files succeeds and restores
    the view the invariant speaks of. *)
From S2P Require Import Prelude Page Files DataFile Wal WalLemmas WalLog Store Replay Recovery StoreInv StoreWrite StoreFlush.
Local Open Scope Z_scope.

Section Open.
Context `{Crc32}.

(** ** The highest LSN of the data file *)

Lemma max_lsn_fold d (v : PageId -> option Page) B l m :
  (forall i, i ∈ l -> DataFile.read d i = Ok (v i) /\ forall p, v i = Some p -> lsn p < B) -> m < B ->
  exists n, try_fold (fun maximum raw_page_id =>
      o ← DataFile.read d raw_page_id;
      Ok (match o with Some page => Z.max maximum (lsn page) | None => maximum end)) m l = Ok n /\
    m <= n < B /\ forall i p, i ∈ l -> v i = Some p -> lsn p <= n.
Proof.
  revert m. induction l as [|i l IH]; intros m Hl Hm; cbn [try_fold].
  - exists m. split; [reflexivity|]. split; [lia|]. by intros ? ? ?%elem_of_nil.
  - destruct (Hl i ltac:(by left)) as [Hr Hb]. rewrite Hr. cbn [mbind result_bind].
    destruct (IH (match v i with Some page => Z.max m (lsn page) | None => m end)) as (n & Hn & Hmn & Hall).
    + intros j Hj. apply Hl. by right.
    + destruct (v i) as [p|]; [specialize (Hb p eq_refl)|]; lia.
    + exists n. split; [exact Hn|]. split; [destruct (v i); lia|].
      intros j p [-> | Hj]%elem_of_cons Hp; [|by eapply Hall]. rewrite Hp in Hmn. lia.
Qed.

Lemma page_count_valid d i : whole_pages (cached d) -> f_len (cached d) <= U64_MAX -> 0 <= i < page_count d -> valid_id i.
Proof.
  intros [Hf Hm] Hl [Hi Hc]. split; [exact Hi|]. unfold page_count in Hc. unfold PAGE_SIZE in *.
  pose proof (Z.div_mod (f_len (cached d)) (8 * 1024) ltac:(lia)). lia.
Qed.

Lemma beyond_page_count d i :
  whole_pages (cached d) -> valid_id i -> page_count d <= i -> read_shared (cached d) i = Ok None.
Proof.
  intros [Hf Hm] Hv Hc. unfold read_shared. rewrite page_offset_valid by exact Hv. cbn [mbind result_bind].
  rewrite saturating_page_end by exact Hv. unfold page_count in Hc.
  assert (f_len (cached d) < (i + 1) * PAGE_SIZE) as Hlt.
  { unfold PAGE_SIZE in *. pose proof (Z.div_mod (f_len (cached d)) (8 * 1024) ltac:(lia)). lia. }
  by rewrite (proj2 (Z.ltb_lt _ _) Hlt).
Qed.

(** The highest LSN is found, and no page of any state is above it. *)
Lemma max_lsn_ok d (v : PageId -> option Page) B :
  whole_pages (cached d) -> f_len (cached d) <= U64_MAX -> 0 < B ->
  (forall i, valid_id i -> read_shared (cached d) i = Ok (v i)) ->
  (forall i p, valid_id i -> v i = Some p -> lsn p < B) ->
  exists n, max_lsn d = Ok n /\ 0 <= n < B /\ forall i p, valid_id i -> v i = Some p -> lsn p <= n.
Proof.
  intros Hwh Hl HB Hr Hb.
  destruct (max_lsn_fold d v B (seqZ 0 (page_count d)) 0) as (n & Hn & Hmn & Hall).
  - intros i Hi%elem_of_seqZ. assert (valid_id i) as Hv by (apply (page_count_valid d); [done|done|lia]).
    split; [by apply Hr|]. intros p. by apply Hb.
  - lia.
  - exists n. split; [exact Hn|]. split; [lia|]. intros i p Hv Hp.
    destruct (decide (i < page_count d)) as [Hlt|Hge].
    + eapply Hall; [|exact Hp]. apply elem_of_seqZ. destruct Hv. lia.
    + specialize (Hr i Hv). rewrite beyond_page_count in Hr by (done || lia). congruence.
Qed.

(** ** Crash images of the log *)

(** A crash image of a segment: the scan finds all that was synced, and
    after it a prefix of what was appended since.  Bytes torn or left over
    from an earlier lap are not taken for a record. *)
Definition crash_segment (sg : Segment) (f : file) : Prop :=
  file_ok f /\ exists rs e, scan f = (rs, e) /\
    (scan (synced (s_file sg))).1 `prefix_of` rs /\ rs `prefix_of` (scan (cached (s_file sg))).1.

Lemma crash_segment_synced sg rs f :
  seg_holds sg rs -> seg_synced sg -> crash_segment sg f -> exists e, scan f = (rs, e).
Proof.
  intros Hs [Hc _] (_ & rs' & e & Hf & Hp1 & Hp2). destruct (seg_holds_scan _ _ Hs) as [e' Hsc].
  rewrite <- Hc, Hsc in Hp1. rewrite Hsc in Hp2. cbn [fst] in *.
  exists e. by rewrite Hf, (anti_symm prefix rs' rs Hp2 Hp1).
Qed.

(** What a crash leaves for recovery: the data file's states and the log
    that the two segment files scan to. *)
Record crash_input (o : osfile) (f fa fb : file) (v : PageId -> option Page)
    (older newer : list WalRecord) (wo wn : list CommittedWrite) (nx : Z) : Prop := {
  ci_data : crash_data o f;
  ci_len : Forall (fun g => 0 <= f_len g <= U64_MAX) (states o);
  ci_view : forall i p, valid_id i -> v i = Some p -> lsn p < nx;
  ci_rec : forall i, valid_id i -> recoverable (states o) (wo ++ wn) i (v i);
  ci_images : images_ok 0 (wo ++ wn);
  ci_older : committed_page_images older = Ok wo;
  ci_newer : committed_page_images newer = Ok wn;
  ci_all : committed_page_images (older ++ newer) = Ok (wo ++ wn);
  ci_files : file_ok fa /\ file_ok fb /\ f_len fa + PAGE_SIZE <= MAX_LOG_OFFSET /\ f_len fb + PAGE_SIZE <= MAX_LOG_OFFSET;
  ci_scans : exists ea eb, (scan fa = (older, ea) /\ scan fb = (newer, eb)) \/ (scan fa = (newer, ea) /\ scan fb = (older, eb));
  ci_order : Forall (fun r => last_lsn 0 older < r_lsn r) newer;
  ci_lsn : last_lsn 0 older < nx /\ last_lsn 0 newer < nx /\ 0 < nx /\ nx + 2 <= U64_MAX;
}.

Lemma scan_end f rs e : file_ok f -> scan f = (rs, e) -> 0 <= e <= f_len f.
Proof.
  intros [Hf Hu] Hs. pose proof (proj1 (scan_log f rs e (conj Hf Hu)) Hs) as [Hlog _].
  by apply (log_at_end_le f 0 0 rs e Hu).
Qed.

Lemma crashed_length o f :
  Forall (fun g => 0 <= f_len g <= U64_MAX) (states o) -> crashed o f -> 0 <= f_len f <= U64_MAX.
Proof.
  intros HF [_ (g & h & Hg & Hh & Hle & Hle')].
  pose proof (proj1 (Forall_forall _ _) HF _ Hg) as Hg'. pose proof (proj1 (Forall_forall _ _) HF _ Hh) as Hh'.
  cbn in Hg', Hh'. lia.
Qed.

Lemma recover_run s w d b f :
  committed_page_images (records (wal s)) = Ok w -> data s = open_data (os_reopen f) ->
  for_each w replay_write (open_data (os_reopen f), false) = (Ok tt, (d, b)) ->
  recover s = (Ok tt, set_data (synced_if b d) s).
Proof.
  intros Hc Hd Hr. unfold recover. st_run. rewrite Hc, Hd, Hr. by destruct b.
Qed.

(** The store as recovery leaves it satisfies the invariant. *)
Lemma inv_opened d w v older newer wo wn a :
  wal_ok w older newer -> wal_synced w -> 0 <= end_offset (seg w (negb (active w))) ->
  committed_page_images older = Ok wo -> committed_page_images newer = Ok wn ->
  committed_page_images (older ++ newer) = Ok (wo ++ wn) -> images_ok 0 (wo ++ wn) ->
  os_ok d -> whole_pages (cached d) -> Forall (fun g => 0 <= f_len g <= U64_MAX) (states d) ->
  (forall i, valid_id i -> stable (states d) i (v i)) ->
  (forall i p, valid_id i -> v i = Some p -> lsn p < next_lsn w) ->
  (forall i pw, valid_id i -> last_image (wo ++ wn) i = Some pw -> v i = Some pw) ->
  inv (mkStore d w ∅ ∅ [] a ∅ false false) Idle v older newer wo wn.
Proof.
  intros Hw Hsy Hoff Hco Hcn Hca Him Hos Hwh Hlens Hst Hlsn Hlast.
  assert (forall g i p, g ∈ states d -> valid_id i -> read_region (region g i) i = Ok (Some p) -> v i = Some p) as Hver.
  { intros g i p Hg Hi Hp. destruct (Hst i Hi) as (R & HR & Hgs). destruct (Hgs g Hg) as [Hrg _]. congruence. }
  split; try assumption; try reflexivity.
  - intros c Hc. destruct (committed_In _ _ _ Hca Hc) as (r & Hr & Hch). cbn.
    pose proof (wal_ok_lsn _ _ _ _ Hw Hr). unfold change_of in Hch. by destruct (r_kind r); simplify_eq.
  - split; try assumption; cbn.
    + intros g i p Hg Hi Hp. eapply Hlsn; [exact Hi|]. by eapply Hver.
    + intros i Hi. unfold recoverable. destruct (last_image (wo ++ wn) i) as [pw|] eqn:Hl; [|exact (Hst i Hi)].
      pose proof (Hlast i pw Hi Hl) as Hv. split; [exact Hv|]. intros g p Hg Hp. right.
      pose proof (Hver g i p Hg Hi Hp). congruence.
    + intros i Hi _. exact (Hst i Hi).
    + intros i p. rewrite lookup_empty. intros [=].
  - cbn. intros i p. rewrite lookup_empty. intros [=].
  - cbn. intros i l. rewrite lookup_empty. intros [=].
  - split; [reflexivity|]. intros i p. cbn. rewrite lookup_empty. intros [=].
Qed.

(** The state [open_body] has built when it decides whether to consolidate. *)
Lemma open_before_checkpoint o f fa fb v older newer wo wn nx :
  crash_input o f fa fb v older newer wo wn nx ->
  exists s older' newer' wo' wn',
    open_body (fresh_store (open_data (os_reopen f)) (wal_open (os_reopen fa) (os_reopen fb))) =
      (if both_segments_live (wal s) then (_ ← checkpoint; mret tt) s else (Ok tt, s)) /\
    inv s Idle v older' newer' wo' wn' /\ batch_room (wal s) 0.
Proof.
  intros [Hcd Hlen Hview Hrec Him Hco Hcn Hca (Hfa & Hfb & Hla & Hlb) (ea & eb & Hscan) Hord (Hl1 & Hl2 & Hnx0 & Hnx)].
  set (w0 := wal_open (os_reopen fa) (os_reopen fb)).
  assert (exists ra rb ea eb, scan fa = (ra, ea) /\ scan fb = (rb, eb) /\
    (ra = older /\ rb = newer \/ ra = newer /\ rb = older) /\ last_lsn 0 ra < U64_MAX /\ last_lsn 0 rb < U64_MAX)
    as (ra & rb & ea' & eb' & Hsa & Hsb & Hcase & Hma & Hmb).
  { destruct Hscan as [[? ?]|[? ?]]; eexists _, _, _, _; split_and!; try eassumption; try lia; auto. }
  pose proof (scan_end _ _ _ Hfa Hsa) as Hea. pose proof (scan_end _ _ _ Hfb Hsb) as Heb.
  clear ea eb Hscan. destruct (wal_open_ok (os_reopen fa) (os_reopen fb) ra ea' rb eb' Hfa Hfb eq_refl eq_refl eq_refl eq_refl
    Hsa Hsb Hma Hmb older newer Hcase Hord) as (older' & newer' & Hsplit & Hw0 & Hrec0 & Hsy0 & Hret0 & Hnext0 & Hend0).
  fold w0 in Hw0, Hrec0, Hsy0, Hret0, Hnext0, Hend0.
  destruct (recover_data o f (wo ++ wn) 0 v (crashed_length _ _ Hlen (proj1 Hcd)) Hcd Him Hrec)
    as (d & b & Hrun & Hwh & Hread & Hstable & Hos & Hlens).
  set (d1 := synced_if b d) in *. assert (cached d1 = cached d) as Hcd1 by (by destruct b).
  assert (f_len (cached d) <= U64_MAX) as Hld.
  { rewrite <- Hcd1. by apply (proj1 (Forall_forall _ _) Hlens), cached_in_states. }
  destruct (max_lsn_ok d1 v nx) as (n & Hmax & Hn & Hall); rewrite ?Hcd1; try assumption.
  destruct (ensure_next_lsn_after_ok w0 _ _ n Hw0)
    as (w1 & Hens & Hw1 & Hn1 & Hn1' & Hn1'' & Hseg1 & Hact1 & Hret1 & Hrec1); [lia|].
  assert (forall i, seg w1 i = seg w0 i) as Hsegs by (intros i; unfold seg; by rewrite Hseg1).
  assert (exists wo' wn', committed_page_images older' = Ok wo' /\ committed_page_images newer' = Ok wn' /\
    committed_page_images (older' ++ newer') = Ok (wo' ++ wn') /\ wo' ++ wn' = wo ++ wn)
    as (wo' & wn' & Hco' & Hcn' & Hca' & Hww).
  { destruct Hsplit as [[-> ->]|[-> ->]]; [exists [], (wo ++ wn)|exists wo, wn]; split_and!; try assumption; reflexivity. }
  set (next := Z.max (page_count d1) (foldr (fun c m => Z.max (saturating_add U64_MAX (c_page_id c) 1) m) 0 (wo ++ wn))).
  exists (mkStore d1 (trim_records_to_last_checkpoint w1) ∅ ∅ [] (mkAllocator next []) ∅ false false), older', newer', wo', wn'.
  split; [|split].
  - set (s0 := fresh_store (open_data (os_reopen f)) w0).
    assert (recover s0 = (Ok tt, set_data d1 s0)) as Hrecov.
    { apply (recover_run _ (wo ++ wn) d b f); [cbn; by rewrite Hrec0|reflexivity|exact Hrun]. }
    unfold open_body. st_run. rewrite Hrecov. cbn [data set_data]. rewrite Hmax. unfold on_wal. st_run.
    cbn [wal set_data s0 fresh_store]. rewrite Hens.
    unfold calculate_next_page_id. cbn [wal set_wal set_data data fresh_store]. rewrite Hrec1, Hrec0, Hca.
    cbn [mbind result_bind wal set_wal set_allocator]. fold next. by destruct (both_segments_live _).
  - apply inv_opened; rewrite ?Hww, ?Hcd1; try assumption.
    + destruct Hw1. by split.
    + intros i. change (seg (trim_records_to_last_checkpoint w1) i) with (seg w1 i). rewrite Hsegs. apply Hsy0.
    + change (0 <= end_offset (seg w1 (negb (active w1)))). rewrite Hsegs. apply Hend0.
    + by rewrite <- Hww.
    + intros i p Hi Hp. specialize (Hall i p Hi Hp). cbn. lia.
    + intros i pw Hi Hp. specialize (Hrec i Hi). unfold recoverable in Hrec. rewrite Hp in Hrec. apply Hrec.
  - assert (last_lsn 0 (older ++ newer) < nx) as Hll.
    { rewrite last_lsn_app. destruct newer; [exact Hl1|exact Hl2]. }
    unfold batch_room. cbn [wal]. change (active_offset (trim_records_to_last_checkpoint w1)) with (end_offset (seg w1 (active w1))).
    rewrite Hsegs. specialize (Hend0 (active w1)). cbn [next_lsn trim_records_to_last_checkpoint set_records].
    unfold U32_MAX. lia.
Qed.

(** Opening succeeds and restores the view. *)
Lemma open_store_ok o f fa fb v older newer wo wn nx :
  crash_input o f fa fb v older newer wo wn nx ->
  exists s older' newer' wo' wn',
    open_store (os_reopen f) (os_reopen fa) (os_reopen fb) = Ok s /\ inv s Idle v older' newer' wo' wn'.
Proof.
  intros Hci. destruct (open_before_checkpoint _ _ _ _ _ _ _ _ _ _ Hci) as (s & o' & n' & wo' & wn' & Hrun & Hinv & Hroom).
  unfold open_store. rewrite Hrun. destruct (both_segments_live (wal s)).
  - destruct (inv_checkpoint _ _ _ _ _ _ Hinv Hroom) as (s' & Hc & Hinv' & _).
    rewrite (ST_bind_step _ _ _ _ _ Hc). exists s', [], [], [], []. by split.
  - exists s, o', n', wo', wn'. by split.
Qed.
End Open.
