(* ===== verification/Durability.v ===== *)
(** * Durability of the store

    The store's histories as a relation: synced batches of page images,
    paced flushes, checkpoints, the parts of background checkpoints in any
    interleaving with them, and crashes followed by an open.  In every
    history the store reads exactly what the batches wrote. *)
From S2P Require Import Prelude Page Files DataFile Wal WalLemmas WalLog Store Replay Recovery StoreInv StoreWrite.
From S2P Require Import StoreFlush StoreBackground StoreOpen.
Local Open Scope Z_scope.

(** ** The specification: a map from pages to payloads *)

Definition contents := PageId -> option (list byte).

Fixpoint apply_writes (ws : list PageWrite) (c : contents) : contents :=
  match ws with
  | [] => c
  | w :: ws => apply_writes ws (fun i => if i =? w_page_id w then Some (w_payload w) else c i)
  end.

Section Durability.
Context `{Crc32}.

(** The store reads as the specification says. *)
Definition reads_as (s : DurableStore) (c : contents) : Prop :=
  forall i, valid_id i -> exists o, read_page s i = Ok o /\ payload <$> o = c i.

(** The files a crash of [s] may leave, below the size the log lemmas cover. *)
Definition crash_files (s : DurableStore) (fd fa fb : file) : Prop :=
  crash_data (data s) fd /\
  crash_segment (seg (wal s) false) fa /\ crash_segment (seg (wal s) true) fb /\
  f_len fa + PAGE_SIZE <= MAX_LOG_OFFSET /\ f_len fb + PAGE_SIZE <= MAX_LOG_OFFSET /\
  next_lsn (wal s) + 2 <= U64_MAX.

Definition open_files (fd fa fb : file) : Result DurableStore :=
  open_store (os_reopen fd) (os_reopen fa) (os_reopen fb).

Inductive reach : DurableStore -> phase -> contents -> Prop :=
| reach_create s :
    open_files empty_file empty_file empty_file = Ok s -> reach s Idle (fun _ => None)
| reach_write s ph c ws lsns s' :
    reach s ph c -> Forall write_ok_input ws -> batch_room (wal s) (blen ws) ->
    write_pages ws s = (Ok lsns, s') -> reach s' ph (apply_writes ws c)
| reach_flush s ph c budget n s' :
    reach s ph c -> flush_some_dirty budget s = (Ok n, s') -> reach s' ph c
| reach_checkpoint s ph c l s' :
    reach s ph c -> batch_room (wal s) 0 -> checkpoint s = (Ok l, s') -> reach s' ph c
| reach_begin s ph c job s' :
    reach s ph c -> begin_background_checkpoint s = (Ok job, s') ->
    reach s' (Running job (chunks (length (manifest job)) (manifest job)) []) c
| reach_chunk s job ch todo written c w' s' :
    reach s (Running job (ch :: todo) written) c -> run_chunk ch s = (Ok w', s') ->
    reach s' (Running job todo (written ++ w')) c
| reach_data_sync s job written c s' :
    reach s (Running job [] written) c -> run_sync s = (Ok tt, s') -> reach s' (DataSynced job written) c
| reach_seal s job written c s' :
    reach s (DataSynced job written) c -> run_seal (retired_file job) s = (Ok tt, s') ->
    reach s' (LogSealed job written) c
| reach_complete s job written c s' :
    reach s (LogSealed job written) c -> complete_background_checkpoint job written s = (Ok tt, s') ->
    reach s' Idle c
| reach_abort s ph c s' :
    reach s ph c -> (match ph with Running _ _ _ | DataSynced _ _ => True | _ => False end) ->
    abort_background_checkpoint s = (Ok tt, s') -> reach s' Idle c
| reach_crash s ph c fd fa fb s' :
    reach s ph c -> crash_files s fd fa fb -> open_files fd fa fb = Ok s' -> reach s' Idle c.

(** ** The invariant along histories *)

Definition good (s : DurableStore) (ph : phase) (c : contents) : Prop :=
  exists v older newer wo wn, inv s ph v older newer wo wn /\ forall i, payload <$> v i = c i.

Lemma good_reads s ph c : good s ph c -> reads_as s c.
Proof.
  intros (v & o & n & wo & wn & Hinv & Hv) i Hi. exists (v i). split; [|apply Hv].
  by apply (read_view s (wo ++ wn) v (next_lsn (wal s))); [apply Hinv|].
Qed.

Lemma override_writes ws l v c i :
  (forall j, payload <$> v j = c j) -> payload <$> override (batch_images l ws) v i = apply_writes ws c i.
Proof.
  revert l v c. induction ws as [|w ws IH]; intros l v c Hv; [apply Hv|]. cbn [apply_writes].
  rewrite <- (IH (l + 1) (fun j => if j =? w_page_id w then Some (mkPage j l (w_payload w)) else v j)).
  - unfold override. rewrite batch_images_cons. cbn [last_image c_page_id c_lsn c_payload].
    destruct (last_image (batch_images (l + 1) ws) i); [done|]. rewrite Z.eqb_sym. by destruct (i =? w_page_id w).
  - intros j. destruct (j =? w_page_id w); [done|]. apply Hv.
Qed.

Lemma view_lsn s ph v older newer wo wn i p :
  inv s ph v older newer wo wn -> valid_id i -> v i = Some p -> lsn p < next_lsn (wal s).
Proof.
  intros Hinv Hi Hp. destruct (iv_data _ _ _ _ _ _ _ Hinv) as [Hos Hwh Hlen Hver Hrec Hcl Hdi].
  destruct (dirty s !! i) as [q|] eqn:Hq.
  - destruct (Hdi i q Hq) as (_ & _ & _ & ? & ?). congruence.
  - destruct (Hcl i Hi Hq) as (R & HR & Hg). pose proof (cached_in_states _ Hos) as Hin.
    destruct (Hg _ Hin) as [Hreg _]. apply (Hver _ i p Hin Hi). congruence.
Qed.

Lemma last_lsn_lt rs p n : p < n -> (forall r, r ∈ rs -> r_lsn r < n) -> last_lsn p rs < n.
Proof.
  revert p. induction rs as [|r rs IH]; intros p Hp Hr; [exact Hp|]. cbn. apply IH.
  - apply Hr. by left.
  - intros r' Hr'. apply Hr. by right.
Qed.

Lemma inv_last_lsn s ph v older newer wo wn :
  inv s ph v older newer wo wn -> last_lsn 0 older < next_lsn (wal s) /\ 0 < next_lsn (wal s).
Proof.
  intros Hinv. pose proof (iv_wal _ _ _ _ _ _ _ Hinv) as Hw. destruct (newer_positive _ _ _ Hw) as [_ Hl].
  pose proof (seg_ok_last _ _ (wo_active _ _ _ Hw)). split; [|lia]. apply last_lsn_lt; [lia|].
  intros r Hr. apply (wal_ok_lsn _ _ _ _ Hw), elem_of_app. by left.
Qed.

(** The crash of a store between operations. *)
Lemma inv_crash_input s ph v older newer wo wn fd fa fb :
  inv s ph v older newer wo wn -> crash_files s fd fa fb ->
  crash_input (data s) fd fa fb v older newer wo wn (next_lsn (wal s)).
Proof.
  intros Hinv (Hcd & Hca & Hcb & Hla & Hlb & Hnx). pose proof (inv_last_lsn _ _ _ _ _ _ _ Hinv) as [Ho Hpos].
  pose proof (view_lsn s ph v older newer wo wn) as Hview.
  pose proof Hinv as [Hw Hsy Hoff Hco Hcn Hcall Him Hwl Hd Hq Hfl Hlive Hph].
  destruct (newer_positive _ _ _ Hw) as [_ Hn].
  pose proof (seg_ok_holds _ _ (wo_active _ _ _ Hw)) as Hact. pose proof (wo_other _ _ _ Hw) as Hoth.
  split; try assumption.
  - apply Hd.
  - intros i p. by apply Hview.
  - apply Hd.
  - split_and!; try assumption; [apply Hca|apply Hcb].
  - destruct (active (wal s)); cbn [negb] in *.
    + destruct (crash_segment_synced _ _ _ Hoth (Hsy _) Hca) as [ea Ha].
      destruct (crash_segment_synced _ _ _ Hact (Hsy _) Hcb) as [eb Hb]. exists ea, eb. by left.
    + destruct (crash_segment_synced _ _ _ Hact (Hsy _) Hca) as [ea Ha].
      destruct (crash_segment_synced _ _ _ Hoth (Hsy _) Hcb) as [eb Hb]. exists ea, eb. by right.
  - apply Hw.
  - lia.
Qed.

Lemma writes_validate ws :
  Forall write_ok_input ws ->
  exists ps, try_map (fun w => new_page (w_page_id w) (w_payload w)) ws = Ok ps.
Proof.
  induction 1 as [|w ws [_ Hp] _ [ps IH]]; [by exists []|]. cbn [try_map].
  assert (new_page (w_page_id w) (w_payload w) = Ok (mkPage (w_page_id w) 0 (w_payload w))) as ->.
  { unfold new_page, with_lsn. by rewrite (proj2 (Z.ltb_ge _ _) Hp). }
  cbn [mbind result_bind]. rewrite IH. by eexists.
Qed.

Lemma good_write s ph c ws :
  good s ph c -> Forall write_ok_input ws -> batch_room (wal s) (blen ws) ->
  exists s', write_pages ws s = (Ok (seqZ (next_lsn (wal s)) (blen ws)), s') /\ good s' ph (apply_writes ws c).
Proof.
  intros (v & o & n & wo & wn & Hinv & Hv) Hws Hroom.
  destruct (writes_validate ws Hws) as [ps Hps].
  unfold write_pages, write_pages_with, refuse_poisoned. st_run. rewrite (iv_live _ _ _ _ _ _ _ Hinv), Hps.
  destruct ws as [|w ws]; [exists s; split; [reflexivity|by exists v, o, n, wo, wn]|].
  destruct (inv_write s ph v o n wo wn (w :: ws) Hinv Hws ltac:(done) Hroom) as (s' & Hrun & Hinv').
  exists s'. unfold poisoning. rewrite Hrun. split; [reflexivity|].
  eexists _, _, _, _, _. split; [exact Hinv'|]. intros i. by apply override_writes.
Qed.

Lemma good_flush s ph c budget :
  good s ph c -> exists n s', flush_some_dirty budget s = (Ok n, s') /\ good s' ph c.
Proof.
  intros (v & o & n & wo & wn & Hinv & Hv).
  destruct (checkpoint_in_flight s) eqn:Hf.
  - exists 0, s. unfold flush_some_dirty. st_run. rewrite Hf. split; [reflexivity|]. by exists v, o, n, wo, wn.
  - destruct ph; try (by pose proof (iv_phase _ _ _ _ _ _ _ Hinv) as Hph; cbn in Hph; destruct_and!;
      match goal with Hj : job_inv _ _ _ _ _ |- _ => destruct Hj; congruence end).
    destruct (inv_flush s v o n wo wn budget Hinv) as (k & s' & Hrun & Hinv' & _).
    exists k, s'. split; [exact Hrun|]. by exists v, o, n, wo, wn.
Qed.

Lemma good_checkpoint s c :
  good s Idle c -> batch_room (wal s) 0 ->
  exists l s', checkpoint s = (Ok l, s') /\ good s' Idle c /\ dirty s' = ∅ /\
    exists e e', scan (cached (s_file (seg (wal s') false))) = ([], e) /\
                 scan (cached (s_file (seg (wal s') true))) = ([], e').
Proof.
  intros (v & o & n & wo & wn & Hinv & Hv) Hroom.
  destruct (inv_checkpoint s v o n wo wn Hinv Hroom) as (s' & Hrun & Hinv' & Hd & _).
  exists (next_lsn (wal s)), s'. split; [exact Hrun|]. split; [by exists v, [], [], [], []|]. split; [exact Hd|].
  pose proof (iv_wal _ _ _ _ _ _ _ Hinv') as Hw.
  destruct (seg_holds_scan _ _ (seg_ok_holds _ _ (wo_active _ _ _ Hw))) as [e He].
  destruct (seg_holds_scan _ _ (wo_other _ _ _ Hw)) as [e' He'].
  destruct (active (wal s')); cbn [negb] in *; eauto.
Qed.

(** A checkpoint that is not refused ran with no background checkpoint in
    flight; a background checkpoint that began found the store idle. *)
Lemma good_idle s ph c : good s ph c -> checkpoint_in_flight s = false -> ph = Idle.
Proof.
  intros (v & o & n & wo & wn & Hinv & Hv) Hf. pose proof (iv_phase _ _ _ _ _ _ _ Hinv) as Hph.
  destruct ph; [done|..]; cbn in Hph; destruct_and!;
    match goal with Hj : job_inv _ _ _ _ _ |- _ => destruct Hj; congruence end.
Qed.

Lemma good_crash s ph c fd fa fb :
  good s ph c -> crash_files s fd fa fb -> exists s', open_files fd fa fb = Ok s' /\ good s' Idle c.
Proof.
  intros (v & o & n & wo & wn & Hinv & Hv) Hc.
  destruct (open_store_ok _ _ _ _ _ _ _ _ _ _ (inv_crash_input _ _ _ _ _ _ _ _ _ _ Hinv Hc))
    as (s' & o' & n' & wo' & wn' & Hopen & Hinv').
  exists s'. split; [exact Hopen|]. by exists v, o', n', wo', wn'.
Qed.

Lemma scan_empty : scan empty_file = ([], 0).
Proof. reflexivity. Qed.

Lemma good_create : exists s, open_files empty_file empty_file empty_file = Ok s /\ good s Idle (fun _ => None).
Proof.
  assert (crash_input (os_reopen empty_file) empty_file empty_file empty_file (fun _ => None) [] [] [] [] 1) as Hci.
  { assert (forall g, g ∈ states (os_reopen empty_file) -> g = empty_file) as Hst.
    { intros g Hg. by apply list_elem_of_singleton in Hg. }
    assert (file_ok empty_file) by done.
    split; try done.
    - split; [split|].
      + intros i. exists empty_file. split; [by left|done].
      + exists empty_file, empty_file. split_and!; try (by left); done.
      + intros i p Hi Hp. exists empty_file. split; [by left|done].
    - constructor; [done|constructor].
    - intros i Hi. exists (zeros PAGE_SIZE). split; [apply read_region_zeros|]. intros g ->%Hst.
      split; [|apply whole_pages_present; done]. apply file_read_past. destruct Hi. cbn. unfold PAGE_SIZE. lia.
    - exists 0, 0. left. split; apply scan_empty. }
  destruct (open_store_ok _ _ _ _ _ _ _ _ _ _ Hci) as (s & o & n & wo & wn & Hopen & Hinv).
  exists s. split; [exact Hopen|]. by exists (fun _ => None), o, n, wo, wn.
Qed.

Lemma reach_good s ph c : reach s ph c -> good s ph c.
Proof.
  induction 1 as [s Ho|s ph c ws lsns s' _ IH Hws Hr Hrun|s ph c b n s' _ IH Hrun|s ph c l s' _ IH Hr Hrun
    |s ph c job s' _ IH Hrun|s job ch todo wr c w' s' _ IH Hrun|s job wr c s' _ IH Hrun|s job wr c s' _ IH Hrun
    |s job wr c s' _ IH Hrun|s ph c s' _ IH Hph Hrun|s ph c fd fa fb s' _ IH Hc Hrun].
  - destruct good_create as (s1 & Ho' & Hg). congruence.
  - destruct (good_write _ _ _ _ IH Hws Hr) as (s1 & Hrun' & Hg). congruence.
  - destruct (good_flush _ _ _ b IH) as (n1 & s1 & Hrun' & Hg). congruence.
  - assert (checkpoint_in_flight s = false) as Hf.
    { revert Hrun. unfold checkpoint, refuse_poisoned. st_run. destruct (poisoned s); [by intros [=]|].
      destruct (checkpoint_in_flight s); [by intros [=]|done]. }
    pose proof (good_idle _ _ _ IH Hf) as ->. destruct (good_checkpoint _ _ IH Hr) as (l1 & s1 & Hrun' & Hg & _). congruence.
  - assert (checkpoint_in_flight s = false /\ can_rotate (wal s) = true) as [Hf Hrot].
    { revert Hrun. unfold begin_background_checkpoint, refuse_poisoned, on_wal, rotate. st_run.
      destruct (poisoned s); [by intros [=]|]. destruct (checkpoint_in_flight s); [by intros [=]|].
      destruct (can_rotate (wal s)); [done|by intros [=]]. }
    pose proof (good_idle _ _ _ IH Hf) as ->. destruct IH as (v & o & n & wo & wn & Hinv & Hv).
    destruct (inv_begin _ _ _ _ _ _ Hinv Hrot) as (job1 & s1 & Hrun' & Hinv').
    rewrite Hrun in Hrun'. injection Hrun' as <- <-. by exists v, n, [], wn, [].
  - destruct IH as (v & o & n & wo & wn & Hinv & Hv). destruct (inv_chunk _ _ _ _ _ _ _ _ _ _ Hinv) as (w1 & s1 & Hrun' & Hinv').
    rewrite Hrun in Hrun'. injection Hrun' as <- <-. by exists v, o, n, wo, wn.
  - destruct IH as (v & o & n & wo & wn & Hinv & Hv). destruct (inv_data_sync _ _ _ _ _ _ _ _ Hinv) as (s1 & Hrun' & Hinv').
    rewrite Hrun in Hrun'. injection Hrun' as <-. by exists v, o, n, wo, wn.
  - destruct IH as (v & o & n & wo & wn & Hinv & Hv). destruct (inv_seal _ _ _ _ _ _ _ _ Hinv) as (s1 & Hrun' & Hinv').
    rewrite Hrun in Hrun'. injection Hrun' as <-. by exists v, [], n, [], wn.
  - destruct IH as (v & o & n & wo & wn & Hinv & Hv). destruct (inv_complete _ _ _ _ _ _ _ _ Hinv) as (s1 & Hrun' & Hinv' & _).
    rewrite Hrun in Hrun'. injection Hrun' as <-. by exists v, o, n, wo, wn.
  - destruct IH as (v & o & n & wo & wn & Hinv & Hv). destruct (inv_abort _ _ _ _ _ _ _ Hinv Hph) as (s1 & Hrun' & Hinv').
    rewrite Hrun in Hrun'. injection Hrun' as <-. by exists v, o, n, wo, wn.
  - destruct (good_crash _ _ _ _ _ _ IH Hc) as (s1 & Hrun' & Hg). congruence.
Qed.

(** ** A crash in the middle of a batch *)

Lemma prefix_between {A} (l m rs : list A) :
  l `prefix_of` rs -> rs `prefix_of` l ++ m -> exists pre, rs = l ++ pre /\ pre `prefix_of` m.
Proof.
  intros [pre ->] [k Hk]. exists pre. split; [done|]. exists k. rewrite <- app_assoc in Hk. by apply app_inv_head in Hk.
Qed.

(** The log files of a torn batch scan to what was there before it and a
    prefix of its records. *)
Lemma torn_scans w w1 older newer rs fa fb :
  wal_ok w older newer -> wal_synced w -> appended w w1 older newer rs ->
  crash_segment (seg w1 false) fa -> crash_segment (seg w1 true) fb ->
  exists pre, pre `prefix_of` rs /\ exists ea eb,
    (scan fa = (older, ea) /\ scan fb = (newer ++ pre, eb)) \/ (scan fa = (newer ++ pre, ea) /\ scan fb = (older, eb)).
Proof.
  intros Hw Hsy (Hw1 & _ & Ha1 & _ & Ho1 & Hs1 & _) Hsa Hsb.
  assert (forall f, crash_segment (seg w1 (active w)) f ->
    exists pre e, pre `prefix_of` rs /\ scan f = (newer ++ pre, e)) as Hact.
  { intros f (_ & rs' & e & Hf & Hp1 & Hp2). destruct (Hsy (active w)) as [Hsync _].
    rewrite Hs1, <- Hsync, (seg_ok_scan _ _ (wo_active _ _ _ Hw)) in Hp1.
    pose proof (wo_active _ _ _ Hw1) as Hwa. rewrite Ha1 in Hwa. rewrite (seg_ok_scan _ _ Hwa) in Hp2. cbn [fst] in *.
    destruct (prefix_between _ _ _ Hp1 Hp2) as (pre & -> & Hpre). by exists pre, e. }
  assert (forall f, crash_segment (seg w1 (negb (active w))) f -> exists e, scan f = (older, e)) as Hoth.
  { intros f. rewrite Ho1. apply crash_segment_synced; [apply Hw|apply Hsy]. }
  destruct (active w); cbn [negb] in *.
  - destruct (Hact _ Hsb) as (pre & eb & Hpre & Hb). destruct (Hoth _ Hsa) as [ea Ha].
    exists pre. split; [exact Hpre|]. exists ea, eb. by left.
  - destruct (Hact _ Hsa) as (pre & ea & Hpre & Ha). destruct (Hoth _ Hsb) as [eb Hb].
    exists pre. split; [exact Hpre|]. exists ea, eb. by right.
Qed.

(** What the torn batch commits: nothing, or all of it, in the active
    segment's records and in the whole log alike. *)
Lemma torn_commits older newer wo wn l ws pre :
  committed_page_images newer = Ok wn -> committed_page_images (older ++ newer) = Ok (wo ++ wn) ->
  pre `prefix_of` batch_records l (image_kinds ws) ->
  exists W, (W = [] \/ W = batch_images l ws) /\ committed_page_images (newer ++ pre) = Ok (wn ++ W) /\
    committed_page_images (older ++ newer ++ pre) = Ok (wo ++ wn ++ W).
Proof.
  intros Hcn Hca [Hfull|Hpre]%prefix_snoc; pose proof (image_kinds_changes ws) as Hch.
  - exists (batch_images l ws). split; [by right|]. rewrite !app_assoc, Hfull. fold (batch_records l (image_kinds ws)).
    split; [exact (committed_append_batch _ _ Hcn l _ Hch)|exact (committed_append_batch _ _ Hca l _ Hch)].
  - exists []. split; [by left|]. rewrite !app_nil_r, !app_assoc, (change_records_prefix _ _ _ Hpre).
    split; [exact (committed_append_changes _ _ Hcn l _ Hch _)|exact (committed_append_changes _ _ Hca l _ Hch _)].
Qed.

Lemma override_nil v i : override [] v i = v i.
Proof. done. Qed.

Lemma inv_torn_batch s ph v older newer wo wn ws lsns s1 fd fa fb :
  inv s ph v older newer wo wn -> Forall write_ok_input ws -> ws <> [] -> batch_room (wal s) (blen ws) ->
  write_pages_inner ws false s = (Ok lsns, s1) -> crash_files s1 fd fa fb ->
  exists pre W, (W = [] \/ W = batch_images (next_lsn (wal s)) ws) /\
    crash_input (data s1) fd fa fb (override W v) older (newer ++ pre) wo (wn ++ W) (next_lsn (wal s1)).
Proof.
  intros Hinv Hws Hne Hroom Hrun (Hcd & Hsa & Hsb & Hla & Hlb & Hnx).
  pose proof (fun i p => view_lsn s ph v older newer wo wn i p Hinv) as Hview.
  pose proof (inv_last_lsn _ _ _ _ _ _ _ Hinv) as [Hol Hpos].
  destruct Hinv as [Hw Hsy Hoff Hco Hcn Hca Him Hwl Hd Hq Hfl Hlive Hph].
  destruct (write_pages_inner_run ws false s older newer Hw Hws Hne Hroom)
    as (w1 & s' & Hrun' & Happ & (Hdata & Hwal & _) & _ & _).
  rewrite Hrun in Hrun'. injection Hrun' as _ <-. cbn [set_wal data wal] in Hdata, Hwal.
  rewrite Hdata, Hwal in *. set (l := next_lsn (wal s)) in *.
  destruct (torn_scans _ _ _ _ _ _ _ Hw Hsy Happ Hsa Hsb) as (pre & Hpre & Hscans).
  destruct (torn_commits older newer wo wn l ws pre Hcn Hca Hpre) as (W & HW & Hc1 & Hc2).
  destruct Happ as (Hw1 & Hn1 & _). pose proof (wo_next _ _ _ Hw) as Hnxt. fold l in Hnxt.
  assert (next_lsn w1 = l + blen ws + 1) as Hn.
  { rewrite Hn1. unfold batch_records. rewrite length_app, length_change_records. unfold image_kinds.
    rewrite length_fmap. cbn [length]. lia. }
  destruct Hroom as (_ & Hr2 & _). fold l in Hr2.
  assert (images_ok (l - 1) W) as HWok by (destruct HW as [-> | ->]; [done|apply batch_images_ok; [exact Hws|lia|lia]]).
  assert (forall c, c ∈ W -> c_lsn c < next_lsn w1) as HWlsn.
  { intros c Hc. destruct HW as [-> | ->]; [by apply elem_of_nil in Hc|]. apply batch_images_lsn in Hc. lia. }
  exists pre, W. split; [exact HW|]. split; try assumption.
  - apply Hd.
  - intros i p Hi Hp. unfold override in Hp. destruct (last_image W i) as [q|] eqn:Hq'.
    + injection Hp as ->. destruct (last_image_In _ _ _ Hq') as (c & Hc & -> & _). exact (HWlsn c Hc).
    + specialize (Hview i p Hi Hp). fold l in Hview. lia.
  - intros i Hi. rewrite app_assoc. apply (recoverable_batch _ _ _ l); [|exact HWok|by apply Hd].
    intros g p Hg Hp. by apply (di_versions _ _ _ _ _ Hd g i p).
  - rewrite app_assoc. apply (images_ok_app 0 (l - 1)); [exact Him| |lia|exact HWok].
    intros c Hc. specialize (Hwl c Hc). fold l in Hwl. lia.
  - split_and!; try assumption; [apply Hsa|apply Hsb].
  - pose proof (wo_order _ _ _ Hw1) as HF. destruct Hpre as [k Hk]. rewrite Hk, app_assoc in HF.
    by apply Forall_app in HF as [? _].
  - split; [lia|]. split; [|lia]. apply last_lsn_lt; [lia|]. intros r Hr. apply (wal_ok_lsn _ _ _ _ Hw1).
    destruct Hpre as [k Hk]. rewrite Hk. apply elem_of_app. right. rewrite app_assoc. apply elem_of_app. by left.
Qed.

(** A crash may lose an unsynced batch whole: the files as they were before
    it are a crash image of the store that logged it. *)
Lemma crash_self o : os_ok o -> crash_data o (cached o).
Proof.
  intros Hin%cached_in_states. split; [split|].
  - intros i. exists (cached o). split; [exact Hin|reflexivity].
  - exists (cached o), (cached o). split; [exact Hin|]. split; [exact Hin|lia].
  - intros i p _ Hp. exists (cached o). split; [exact Hin|exact Hp].
Qed.

Lemma crash_before_batch s ph c ws lsns s1 :
  reach s ph c -> Forall write_ok_input ws -> ws <> [] -> batch_room (wal s) (blen ws) ->
  next_lsn (wal s) + blen ws + 3 <= U64_MAX ->
  (forall i, f_len (cached (s_file (seg (wal s) i))) + PAGE_SIZE <= MAX_LOG_OFFSET) ->
  write_pages_inner ws false s = (Ok lsns, s1) ->
  crash_files s1 (cached (data s)) (cached (s_file (seg (wal s) false))) (cached (s_file (seg (wal s) true))).
Proof.
  intros Hr Hws Hne Hroom Hlsn Hlen Hrun. destruct (reach_good _ _ _ Hr) as (v & o & n & wo & wn & Hinv & _).
  destruct Hinv as [Hw Hsy _ _ _ _ _ _ Hd _ _ _ _].
  destruct (write_pages_inner_run ws false s o n Hw Hws Hne Hroom)
    as (w1 & s' & Hrun' & (Hw1 & Hn1 & Ha1 & _ & Ho1 & Hs1 & _) & (Hdata & Hwal & _) & _ & _).
  rewrite Hrun in Hrun'. injection Hrun' as _ <-. cbn [set_wal data wal] in Hdata, Hwal.
  assert (forall i, crash_segment (seg w1 i) (cached (s_file (seg (wal s) i)))) as Hseg.
  { intros i. destruct (decide (i = active (wal s))) as [->|Hi].
    - pose proof (wo_active _ _ _ Hw) as Ha. pose proof (wo_active _ _ _ Hw1) as Ha'. rewrite Ha1 in Ha'.
      split; [apply Ha|]. exists n, (end_offset (seg (wal s) (active (wal s)))). split; [by apply seg_ok_scan|].
      destruct (Hsy (active (wal s))) as [Hsync _]. rewrite Hs1, <- Hsync, (seg_ok_scan _ _ Ha), (seg_ok_scan _ _ Ha').
      split; [done|]. cbn [fst]. by eexists.
    - replace i with (negb (active (wal s))) by (destruct i, (active (wal s)); done). rewrite Ho1.
      destruct (wo_other _ _ _ Hw) as [e He]. split; [apply He|].
      destruct (Hsy (negb (active (wal s)))) as [Hsync _].
      eexists _, _. split; [apply surjective_pairing|]. rewrite <- Hsync. done. }
  unfold crash_files. rewrite Hdata, Hwal. split; [apply crash_self, Hd|]. split; [apply Hseg|]. split; [apply Hseg|].
  split; [apply Hlen|]. split; [apply Hlen|]. rewrite Hn1. unfold batch_records.
  rewrite length_app, length_change_records. unfold image_kinds. rewrite length_fmap. cbn [length]. lia.
Qed.

(** ** The theorems *)



(** C2: A crash in the middle of a batch, with any part of its records
    on disk, leaves either none of the batch or all of it. *)
Theorem batch_is_atomic s ph c ws lsns s1 fd fa fb :
  reach s ph c -> Forall write_ok_input ws -> ws <> [] -> batch_room (wal s) (blen ws) ->
  write_pages_inner ws false s = (Ok lsns, s1) -> crash_files s1 fd fa fb ->
  exists s', open_files fd fa fb = Ok s' /\ (reads_as s' c \/ reads_as s' (apply_writes ws c)).
Proof.
  intros Hr Hws Hne Hroom Hrun Hc. destruct (reach_good _ _ _ Hr) as (v & o & n & wo & wn & Hinv & Hv).
  destruct (inv_torn_batch _ _ _ _ _ _ _ _ _ _ _ _ _ Hinv Hws Hne Hroom Hrun Hc) as (pre & W & HW & Hci).
  destruct (open_store_ok _ _ _ _ _ _ _ _ _ _ Hci) as (s' & o' & n' & wo' & wn' & Ho & Hinv').
  exists s'. split; [exact Ho|]. destruct HW as [-> | ->]; [left|right]; apply (good_reads s' Idle);
    eexists _, _, _, _, _; (split; [exact Hinv'|]); intros i; [apply Hv|by apply override_writes].
Qed.

(** C4: A batch of well-formed images that fits the log is accepted, gets
    consecutive LSNs, and is visible to the next read. *)
Theorem write_pages_succeeds s ph c ws :
  reach s ph c -> Forall write_ok_input ws -> batch_room (wal s) (blen ws) ->
  exists s', write_pages ws s = (Ok (seqZ (next_lsn (wal s)) (blen ws)), s') /\ reads_as s' (apply_writes ws c).
Proof.
  intros Hr Hws Hroom. destruct (good_write _ _ _ _ (reach_good _ _ _ Hr) Hws Hroom) as (s' & Hrun & Hg).
  exists s'. split; [exact Hrun|exact (good_reads _ _ _ Hg)].
Qed.

(** C5: A checkpoint of an idle store terminates and succeeds: the dirty
    table and both log segments end up empty and no page changes. *)
Theorem checkpoint_completes s c :
  reach s Idle c -> batch_room (wal s) 0 ->
  exists l s', checkpoint s = (Ok l, s') /\ reads_as s' c /\ dirty s' = ∅ /\
    exists e e', scan (cached (s_file (seg (wal s') false))) = ([], e) /\
                 scan (cached (s_file (seg (wal s') true))) = ([], e').
Proof.
  intros Hr Hroom. destruct (good_checkpoint _ _ (reach_good _ _ _ Hr) Hroom) as (l & s' & Hrun & Hg & Hd & Hscan).
  exists l, s'. split; [exact Hrun|]. split; [exact (good_reads _ _ _ Hg)|by split].
Qed.
End Durability.

(** ** Witnesses: a store just created, with a concrete checksum *)

#[local] Existing Instance sum_crc.

Definition created : DurableStore :=
  match open_files empty_file empty_file empty_file with
  | Ok s => s
  | Err _ => fresh_store os_empty (wal_open os_empty os_empty)
  end.

Lemma reach_created : reach created Idle (fun _ => None).
Proof. apply reach_create. destruct (good_create) as (s & Ho & _). unfold created. by rewrite Ho. Qed.

Definition created_segment (i : bool) : file := cached (s_file (seg (wal created) i)).

Lemma created_facts :
  (active_offset (wal created) =? 0) && (next_lsn (wal created) =? 1) &&
  (f_len (created_segment false) =? WAL_PREALLOCATE_BYTES) && (f_len (created_segment true) =? WAL_PREALLOCATE_BYTES) = true.
Proof. vm_compute. reflexivity. Qed.

Lemma created_room n : 0 <= n <= U32_MAX -> batch_room (wal created) n.
Proof.
  intros Hn. pose proof created_facts as Hf. bool_to_prop. unfold batch_room.
  replace (active_offset (wal created)) with 0. replace (next_lsn (wal created)) with 1. unfold PAGE_SIZE, MAX_LOG_OFFSET, U32_MAX, U64_MAX in *. lia.
Qed.

Definition one_write : list PageWrite := [mkPageWrite 0 [Byte.x01]].

Lemma one_write_ok : Forall write_ok_input one_write.
Proof. constructor; [|constructor]. unfold write_ok_input, valid_id, PAGE_SIZE, U64_MAX, MAX_PAGE_PAYLOAD. cbn [w_page_id w_payload length]. unfold PAGE_SIZE, PAGE_HEADER_SIZE. lia. Qed.

(** The files of an untouched store are a crash image of it. *)
Lemma created_crash_files : crash_files created (cached (data created)) (created_segment false) (created_segment true).
Proof.
  assert (os_ok (data created)) as Hos by reflexivity.
  pose proof WAL_PREALLOCATE_BYTES_eq as HP.
  pose proof created_facts as Hf. bool_to_prop.
  assert (forall i, crash_segment (seg (wal created) i) (created_segment i)) as Hseg.
  { intros i. split; [unfold file_ok, U64_MAX; destruct i; lia|]. eexists _, _. split; [apply surjective_pairing|].
    split; [|reflexivity]. destruct i; exists []; reflexivity. }
  unfold crash_files. split; [|split; [|split; [|unfold PAGE_SIZE, MAX_LOG_OFFSET, U64_MAX; lia]]].
  - by apply crash_self.
  - apply Hseg.
  - apply Hseg.
Qed.



Lemma write_pages_succeeds_witness :
  exists s', write_pages one_write created = (Ok (seqZ (next_lsn (wal created)) 1), s') /\
    reads_as s' (apply_writes one_write (fun _ => None)).
Proof. exact (write_pages_succeeds created Idle _ one_write reach_created one_write_ok (created_room 1 ltac:(done))). Defined.

(** The unsynced batch, and the files of a crash that lost all of it. *)
Lemma batch_is_atomic_witness :
  exists lsns s1 fd fa fb s', write_pages_inner one_write false created = (Ok lsns, s1) /\ crash_files s1 fd fa fb /\
    open_files fd fa fb = Ok s' /\ (reads_as s' (fun _ => None) \/ reads_as s' (apply_writes one_write (fun _ => None))).
Proof.
  destruct (write_pages_inner one_write false created) as [[lsns|e] s1] eqn:Hrun.
  2: { exfalso. assert (is_ok (write_pages_inner one_write false created).1 = true) as Hok by (vm_compute; reflexivity).
       rewrite Hrun in Hok. discriminate Hok. }
  assert (crash_files s1 (cached (data created)) (created_segment false) (created_segment true)) as Hc.
  { apply (crash_before_batch created Idle (fun _ => None) one_write lsns s1 reach_created one_write_ok ltac:(discriminate)
      (created_room 1 ltac:(done))); [| |exact Hrun].
    - pose proof created_facts as Hf. bool_to_prop. change (blen one_write) with 1. unfold U64_MAX. lia.
    - pose proof created_facts as Hf. bool_to_prop. pose proof WAL_PREALLOCATE_BYTES_eq.
      unfold created_segment, PAGE_SIZE, MAX_LOG_OFFSET in *. intros []; lia. }
  destruct (batch_is_atomic created Idle _ one_write lsns s1 _ _ _ reach_created one_write_ok ltac:(discriminate)
              (created_room 1 ltac:(done)) Hrun Hc) as (s' & Ho & Hr).
  exists lsns, s1, (cached (data created)), (created_segment false), (created_segment true), s'. auto.
Defined.

Lemma checkpoint_completes_witness : exists l s', checkpoint created = (Ok l, s') /\ dirty s' = ∅.
Proof.
  destruct (checkpoint_completes created (fun _ => None) reach_created (created_room 0 ltac:(done)))
    as (l & s' & Hrun & _ & Hd & _). exists l, s'. split; [exact Hrun|exact Hd].
Defined.
