(* ===== verification/GroupCommit.v ===== *)
(** * Group commit

    Models [src/storage/src/group_commit.rs]: clients send commands through a
    queue, one worker collects commits into groups and applies each group to
    the store under one sync, and a second thread runs background
    checkpoints.  What each thread does while it holds the store's mutex, or
    to a file without it, is one step; the steps interleave in any order.

    The reply channels are the clients' numbers: [replies] lists what was
    sent back, in order.  A channel whose request is dropped unanswered when
    the worker stops reads as [CommitCoordinatorStopped]. *)
From S2P Require Import Prelude Page Files DataFile Wal WalLemmas WalLog Store Replay Recovery StoreInv StoreWrite.
From S2P Require Import StoreFlush StoreBackground StoreOpen Durability.
Local Open Scope Z_scope.

(** ** Options, requests and replies *)

(** Times are in nanoseconds. *)
Record GroupCommitOptions := mkGroupOptions {
  queue_depth : Z;
  max_batch_pages : Z;
  max_delay : Z;
  checkpoint_after_wal_bytes : Z;
  flush_pages_per_batch : Z;
}.

Definition default_group_options : GroupCommitOptions := mkGroupOptions 1024 256 200000 (Z.shiftl 64 20) 32.

Definition validate_options (o : GroupCommitOptions) : Result GroupCommitOptions :=
  if queue_depth o =? 0 then Err (Configuration ZeroQueueDepth)
  else if max_batch_pages o =? 0 then Err (Configuration ZeroBatchPages)
  else if max_delay o =? 0 then Err (Configuration ZeroDelay)
  else Ok o.

(** The counters are [AtomicU64]s, which wrap. *)
Record GroupCommitStats := mkGroupStats {
  groups : Z;
  requests : Z;
  pages : Z;
  automatic_checkpoints : Z;
}.

Definition fetch_add (counter n : Z) : Z := (counter + n) mod (U64_MAX + 1).

Record CommitRequest := mkRequest {
  q_writes : list PageWrite;
  q_appends : list PageAppend;
  q_durable : bool;
  q_response : Z;
}.

Definition request_len (r : CommitRequest) : Z := blen (q_writes r) + blen (q_appends r).

Inductive Command :=
| CCommit (request : CommitRequest)
| CCheckpoint (response : Z)
| CShutdown (response : Z).

Inductive Reply :=
| RLsns (r : Result (list Lsn))
| RCheckpoint (r : Result Lsn)
| RShutdown (r : Result unit).

Definition client (c : Command) : Z :=
  match c with CCommit r => q_response r | CCheckpoint i => i | CShutdown i => i end.

(** ** The handle: what a call sends, or answers at once *)

Definition submit (writes : list PageWrite) (appends : list PageAppend) (durable : bool) (response : Z) : Command :=
  CCommit (mkRequest writes appends durable response).

(** [commit_with]; [commit] and [commit_relaxed] choose [durable]. *)
Definition commit_with (writes : list PageWrite) (durable : bool) (response : Z) : Result (list Lsn) + Command :=
  match writes with
  | [] => inl (Ok [])
  | _ =>
      match find (fun w => MAX_PAGE_PAYLOAD <? blen (w_payload w)) writes with
      | Some w => inl (Err (PageTooLarge (blen (w_payload w)) MAX_PAGE_PAYLOAD))
      | None => inr (submit writes [] durable response)
      end
  end.

Definition group_append (appends : list PageAppend) (response : Z) : Result (list Lsn) + Command :=
  match appends with [] => inl (Ok []) | _ => inr (submit [] appends true response) end.

(** ** The threads *)

(** Where the worker is: waiting for a command, or after a group. *)
Inductive Turn := Receiving | Pacing | Deciding | Stopped.

Record System := mkSystem {
  g_store : DurableStore;
  checkpointer : phase;
  turn : Turn;
  pending : option Command;
  queue : list Command;
  g_stats : GroupCommitStats;
  replies : list (Z * Reply);
}.

Section GroupCommit.
Context `{Crc32} (options : GroupCommitOptions).

Definition launched (s : DurableStore) : System := mkSystem s Idle Receiving None [] (mkGroupStats 0 0 0 0) [].

(** [GroupCommitter::start]: both threads run on the store, with nothing sent
    yet. *)
Definition start (s : DurableStore) : Result System := _ ← validate_options options; Ok (launched s).

(** The pending command before the next one of the queue. *)
Definition next_command (s : System) : option (Command * list Command) :=
  match pending s, queue s with
  | Some c, q => Some (c, q)
  | None, c :: q => Some (c, q)
  | None, [] => None
  end.

(** The loop that lets a batch form: [arrivals] counts the commands that come
    before the queue is quiet or the deadline passes. *)
Fixpoint collect_requests (arrivals : nat) (page_count : Z) (rs : list CommitRequest) (q : list Command)
  : list CommitRequest * option Command * list Command :=
  if page_count <? max_batch_pages options then
    match arrivals, q with
    | S arrivals, CCommit r :: q =>
        collect_requests arrivals (saturating_add U64_MAX page_count (request_len r)) (rs ++ [r]) q
    | S _, other :: q => (rs, Some other, q)
    | _, _ => (rs, None, q)
    end
  else (rs, None, q).

(** The part of its list that each request draws its LSNs from. *)
Fixpoint spans (at_ : Z) (lengths : list Z) : list (Z * Z) :=
  match lengths with [] => [] | n :: lengths => (at_, at_ + n) :: spans (at_ + n) lengths end.

(** [lsns[span.0..span.1]]. *)
Definition slice_span {A} (l : list A) (span : Z * Z) : list A := slice l span.1 (span.2 - span.1).

Definition answer (write_lsns append_lsns : list Lsn) (x : CommitRequest * (Z * Z) * (Z * Z)) : Z * Reply :=
  let '(request, writes, appends) := x in
  let lsns := match q_appends request with [] => slice_span write_lsns writes | _ => slice_span append_lsns appends end in
  (q_response request, RLsns (Ok lsns)).

Definition execute_group (rs : list CommitRequest) (s : DurableStore) : list (Z * Reply) * DurableStore :=
  let write_spans := spans 0 ((fun r => blen (q_writes r)) <$> rs) in
  let append_spans := spans 0 ((fun r => blen (q_appends r)) <$> rs) in
  let writes := mjoin (q_writes <$> rs) in
  let appends := mjoin (q_appends <$> rs) in
  let durable := existsb q_durable rs in
  match apply_batch writes appends durable s with
  | (Ok (write_lsns, append_lsns), s) => (answer write_lsns append_lsns <$> zip (zip rs write_spans) append_spans, s)
  | (Err e, s) => ((fun r => (q_response r, RLsns (Err (GroupCommitFailed e)))) <$> rs, s)
  end.

Definition count_group (rs : list CommitRequest) (t : GroupCommitStats) : GroupCommitStats :=
  mkGroupStats (fetch_add (groups t) 1) (fetch_add (requests t) (blen rs))
    (fetch_add (pages t) (foldr Z.add 0 (request_len <$> rs))) (automatic_checkpoints t).

Definition count_checkpoint (t : GroupCommitStats) : GroupCommitStats :=
  mkGroupStats (groups t) (requests t) (pages t) (fetch_add (automatic_checkpoints t) 1).

Definition pace_flush (s : DurableStore) : DurableStore :=
  if flush_pages_per_batch options =? 0 then s else (flush_some_dirty (flush_pages_per_batch options) s).2.

(** The store, the job of the checkpointer and the counters after
    [maybe_checkpoint].  One job at most is in flight, so the channel of
    capacity one never refuses it while the checkpointer runs. *)
Definition maybe_checkpoint (s : DurableStore) (ph : phase) (t : GroupCommitStats) : DurableStore * phase * GroupCommitStats :=
  if checkpoint_after_wal_bytes options =? 0 then (s, ph, t)
  else if negb (checkpoint_after_wal_bytes options <=? wal_size_bytes s) || checkpoint_in_flight s then (s, ph, t)
  else if can_begin_background_checkpoint s then
    match begin_background_checkpoint s with
    | (Ok job, s) => (s, Running job (chunks (length (manifest job)) (manifest job)) [], t)
    | (Err _, s) => (s, ph, t)
    end
  else match checkpoint s with
       | (Ok _, s) => (s, ph, count_checkpoint t)
       | (Err _, s) => (s, ph, t)
       end.

(** [checkpoint_worker], by the parts of [BackgroundCheckpoint::run]: an
    error gives the run up. *)
Definition checkpointer_step (s : System) : System :=
  let next st ph t := mkSystem st ph (turn s) (pending s) (queue s) t (replies s) in
  match checkpointer s with
  | Idle => s
  | Running job (ch :: todo) written =>
      match run_chunk ch (g_store s) with
      | (Ok w, st) => next st (Running job todo (written ++ w)) (g_stats s)
      | (Err _, st) => next (abort_background_checkpoint st).2 Idle (g_stats s)
      end
  | Running job [] written => next (run_sync (g_store s)).2 (DataSynced job written) (g_stats s)
  | DataSynced job written => next (run_seal (retired_file job) (g_store s)).2 (LogSealed job written) (g_stats s)
  | LogSealed job written =>
      match complete_background_checkpoint job written (g_store s) with
      | (Ok _, st) => next st Idle (count_checkpoint (g_stats s))
      | (Err _, st) => next st Idle (g_stats s)
      end
  end.

(** An I/O error of the run before it seals the retired segment. *)
Definition checkpointer_fails (s : System) : System :=
  mkSystem (abort_background_checkpoint (g_store s)).2 Idle (turn s) (pending s) (queue s) (g_stats s) (replies s).

(** One pass of [commit_worker]'s loop up to the end of [execute_group], the
    two calls after it, and the other commands.  [explicit_checkpoint] waits
    while a background checkpoint is in flight. *)
Definition receive (arrivals : nat) (s : System) : System :=
  match next_command s with
  | Some (CCommit first, q) =>
      let '(rs, other, q) := collect_requests arrivals (request_len first) [first] q in
      let '(rep, st) := execute_group rs (g_store s) in
      mkSystem st (checkpointer s) Pacing other q (count_group rs (g_stats s)) (replies s ++ rep)
  | Some (CCheckpoint i, q) =>
      if checkpoint_in_flight (g_store s) then s
      else let '(r, st) := checkpoint (g_store s) in
           mkSystem st (checkpointer s) Receiving None q (g_stats s) (replies s ++ [(i, RCheckpoint r)])
  | Some (CShutdown i, q) =>
      let stopped (c : Command) :=
        (client c, match c with
                   | CCommit _ => RLsns (Err CommitCoordinatorStopped)
                   | CCheckpoint _ => RCheckpoint (Err CommitCoordinatorStopped)
                   | CShutdown _ => RShutdown (Err CommitCoordinatorStopped)
                   end) in
      mkSystem (g_store s) (checkpointer s) Stopped None [] (g_stats s)
        (replies s ++ (i, RShutdown (Ok tt)) :: (stopped <$> q))
  | None => s
  end.

Definition worker_step (arrivals : nat) (s : System) : System :=
  match turn s with
  | Receiving => receive arrivals s
  | Pacing => mkSystem (pace_flush (g_store s)) (checkpointer s) Deciding (pending s) (queue s) (g_stats s) (replies s)
  | Deciding =>
      let '(st, ph, t) := maybe_checkpoint (g_store s) (checkpointer s) (g_stats s) in
      mkSystem st ph Receiving (pending s) (queue s) t (replies s)
  | Stopped => s
  end.

Definition send_command (c : Command) (s : System) : System :=
  mkSystem (g_store s) (checkpointer s) (turn s) (pending s) (queue s ++ [c]) (g_stats s) (replies s).

(** One step of a thread: of the worker, of the checkpointer, or its failure. *)
Inductive step (s : System) : System -> Prop :=
| step_worker arrivals : step s (worker_step arrivals s)
| step_checkpointer : step s (checkpointer_step s)
| step_fails :
    match checkpointer s with Running _ _ _ | DataSynced _ _ => True | _ => False end -> step s (checkpointer_fails s).

(** The runs of the coordinator by steps from states that satisfy [P], with
    the commands sent so far. *)
Inductive run_of (P : System -> Prop) (s0 : DurableStore) : list Command -> System -> Prop :=
| run_start s : start s0 = Ok s -> run_of P s0 [] s
| run_send sent s c :
    run_of P s0 sent s -> turn s <> Stopped -> blen (queue s) < queue_depth options ->
    run_of P s0 (sent ++ [c]) (send_command c s)
| run_step sent s s' : run_of P s0 sent s -> P s -> step s s' -> run_of P s0 sent s'.
End GroupCommit.

(** ** Who is answered *)

Definition waiting (s : System) : list Command := option_list (pending s) ++ queue s.

Lemma collect_requests_takes options arrivals n rs q rs' other q' :
  collect_requests options arrivals n rs q = (rs', other, q') ->
  exists taken, rs' = rs ++ taken /\ q = (CCommit <$> taken) ++ option_list other ++ q'.
Proof.
  revert n rs q. induction arrivals as [|arrivals IH]; intros n rs q; cbn [collect_requests];
    (destruct (n <? max_batch_pages options); [|intros [= <- <- <-]; exists []; by rewrite app_nil_r]).
  - intros [= <- <- <-]. exists []. by rewrite app_nil_r.
  - destruct q as [|[r|i|i] q]; [intros [= <- <- <-]; exists []; by rewrite app_nil_r| |intros [= <- <- <-]; exists []; by rewrite app_nil_r..].
    intros (taken & -> & ->)%IH. exists (r :: taken). by rewrite <- app_assoc.
Qed.

Lemma length_spans at_ ns : length (spans at_ ns) = length ns.
Proof. revert at_. induction ns as [|n ns IH]; intros; cbn; [done|by rewrite IH]. Qed.

(** The reply a command expects: as many LSNs as the request has pages,
    when they are of one kind, as the handle sends them. *)
Definition suits (c : Command) (x : Z * Reply) : Prop :=
  x.1 = client c /\
  match c, x.2 with
  | CCommit r, RLsns (Ok lsns) => q_writes r = [] \/ q_appends r = [] -> blen lsns = request_len r
  | CCommit _, RLsns (Err _) => True
  | CCheckpoint _, RCheckpoint _ => True
  | CShutdown _, RShutdown _ => True
  | _, _ => False
  end.

Section Facts.
Context `{Crc32} (options : GroupCommitOptions).

Lemma started s0 s : start options s0 = Ok s -> s = launched s0.
Proof. unfold start. destruct (validate_options options); [by intros [= <-]|done]. Qed.

Lemma length_collect {S E A B} (l : list A) (f : A -> ST S E B) s ys s' :
  collect l f s = (Ok ys, s') -> length ys = length l.
Proof.
  revert s ys. induction l as [|x l IH]; intros s ys; cbn [collect]; [by intros [= <- <-]|].
  intros (y & s1 & _ & (zs & s2 & Hz & [= <- <-])%ST_bind_Ok)%ST_bind_Ok. cbn. f_equal. by eapply IH.
Qed.

Lemma write_pages_inner_length ws durable s lsns s' :
  write_pages_inner ws durable s = (Ok lsns, s') -> length lsns = length ws.
Proof.
  unfold write_pages_inner. intros (ls & s1 & Hl%length_collect & Hk)%ST_bind_Ok.
  repeat (apply ST_bind_Ok in Hk as (? & ? & _ & Hk)). injection Hk as <- _. done.
Qed.

Lemma append_pages_inner_length appends durable s lsns s' :
  append_pages_inner appends durable s = (Ok lsns, s') -> length lsns = length appends.
Proof.
  unfold append_pages_inner. intros (? & s1 & _ & (? & s2 & _ & (ls & s3 & Hl%length_collect & Hk)%ST_bind_Ok)%ST_bind_Ok)%ST_bind_Ok.
  repeat (apply ST_bind_Ok in Hk as (? & ? & _ & Hk)). injection Hk as <- _. done.
Qed.

Lemma apply_batch_lengths ws appends durable s wl al s' :
  apply_batch ws appends durable s = (Ok (wl, al), s') -> length wl = length ws /\ length al = length appends.
Proof.
  unfold apply_batch, refuse_poisoned. intros (s1 & s2 & _ & Hk)%ST_bind_Ok. destruct (poisoned s1); [by unfold throw in Hk|].
  unfold poisoning in Hk. destruct (apply_batch_inner ws appends durable s2) as [[x|e] s3] eqn:Hi; [|done].
  injection Hk as -> ->. unfold apply_batch_inner in Hi.
  apply ST_bind_Ok in Hi as (wl' & s4 & Hw & (al' & s5 & Ha & (? & s6 & _ & [= <- <- <-])%ST_bind_Ok)%ST_bind_Ok). split.
  - destruct ws; [by injection Hw as <- _|by eapply write_pages_inner_length].
  - destruct appends; [by injection Ha as <- _|by eapply append_pages_inner_length].
Qed.

Lemma blen_mjoin {A B} (f : A -> list B) (l : list A) : blen (mjoin (f <$> l)) = foldr Z.add 0 ((fun x => blen (f x)) <$> l).
Proof. induction l as [|x l IH]; cbn; [done|]. rewrite length_app, Nat2Z.inj_add. by f_equal. Qed.

Lemma blen_slice_span {A} (l : list A) a n : 0 <= a -> 0 <= n -> a + n <= blen l -> blen (slice_span l (a, a + n)) = n.
Proof. intros. unfold slice_span. cbn [fst snd]. rewrite Z.add_simpl_l. by apply length_slice. Qed.

Lemma answers_suit wl al (rs : list CommitRequest) a b :
  0 <= a -> 0 <= b ->
  a + foldr Z.add 0 ((fun r => blen (q_writes r)) <$> rs) <= blen wl ->
  b + foldr Z.add 0 ((fun r => blen (q_appends r)) <$> rs) <= blen al ->
  Forall2 suits (CCommit <$> rs)
    (answer wl al <$> zip (zip rs (spans a ((fun r => blen (q_writes r)) <$> rs))) (spans b ((fun r => blen (q_appends r)) <$> rs))).
Proof.
  assert (forall (f : CommitRequest -> Z) l, (forall r, 0 <= f r) -> 0 <= foldr Z.add 0 (f <$> l)) as Hsum.
  { intros f l Hf. induction l as [|r l IH]; cbn; [lia|]. specialize (Hf r). cbn in IH. lia. }
  revert a b. induction rs as [|r rs IH]; intros a b Ha Hb; [constructor|].
  rewrite !fmap_cons. cbn [foldr spans zip]. cbn. intros Hw Hp.
  pose proof (Hsum (fun r => blen (q_writes r)) rs (fun r => Zle_0_nat _)). pose proof (Hsum (fun r => blen (q_appends r)) rs (fun r => Zle_0_nat _)).
  constructor; [|apply IH; lia].
  split; [done|]. cbn. intros Hkind. unfold request_len.
  destruct (q_appends r) eqn:Hq; cbn [length] in *.
  - rewrite blen_slice_span; lia.
  - destruct Hkind as [-> |?]; [|done]. rewrite blen_slice_span; cbn [length]; lia.
Qed.

Lemma execute_group_suits rs s : Forall2 suits (CCommit <$> rs) (execute_group rs s).1.
Proof.
  unfold execute_group. destruct (apply_batch _ _ _ s) as [[[wl al]|e] s'] eqn:Hb; cbn [fst].
  - apply apply_batch_lengths in Hb as [Hw Ha]. apply answers_suit; [lia|lia|..].
    + rewrite Hw, blen_mjoin. lia.
    + rewrite Ha, blen_mjoin. lia.
  - rewrite Forall2_fmap. by apply Forall_Forall2_diag, Forall_true.
Qed.

(** A pass of the worker answers the first commands that wait. *)
Lemma receive_answers arrivals s :
  exists answered rep, waiting s = answered ++ waiting (receive options arrivals s) /\
    replies (receive options arrivals s) = replies s ++ rep /\ Forall2 suits answered rep.
Proof.
  assert (forall c q, next_command s = Some (c, q) -> waiting s = c :: q) as Hn.
  { intros c q. unfold next_command, waiting. destruct (pending s), (queue s); by intros [= <- <-]. }
  unfold receive. destruct (next_command s) as [[[r|i|i] q]|]; [specialize (Hn _ _ eq_refl); rewrite Hn..|].
  - destruct (collect_requests _ _ _ _ _) as [[rs other] q'] eqn:Hc. apply collect_requests_takes in Hc as (taken & -> & ->).
    pose proof (execute_group_suits ([r] ++ taken) (g_store s)) as Hs. destruct (execute_group _ _) as [rep st].
    by exists (CCommit <$> [r] ++ taken), rep.
  - destruct (checkpoint_in_flight (g_store s)).
    + exists [], []. rewrite app_nil_r. by split_and!; [rewrite Hn| |constructor].
    + destruct (checkpoint (g_store s)) as [res st]. exists [CCheckpoint i], [(i, RCheckpoint res)]. split_and!; [done..|by repeat constructor].
  - eexists (CShutdown i :: q), _. split_and!; [by rewrite app_nil_r|reflexivity|]. constructor; [done|].
    rewrite Forall2_fmap_r. apply Forall_Forall2_diag, Forall_true. by intros [].
  - exists [], []. rewrite app_nil_r. by split_and!; [| |constructor].
Qed.

(** ** A job in flight belongs to the checkpointer *)

Definition keeps_flight {A} (m : StoreM A) : Prop := forall s, checkpoint_in_flight (m s).2 = checkpoint_in_flight s.

Lemma keeps_bind {A B} (m : StoreM A) (k : A -> StoreM B) :
  keeps_flight m -> (forall a, keeps_flight (k a)) -> keeps_flight (m ≫= k).
Proof.
  intros Hm Hk s. specialize (Hm s). unfold mbind, ST_bind. destruct (m s) as [[a|e] s1]; cbn [snd] in *; [by rewrite Hk|done].
Qed.

Lemma keeps_get : keeps_flight get.
Proof. done. Qed.

Lemma keeps_lift {A} (r : Result A) : keeps_flight (lift r).
Proof. done. Qed.

Lemma keeps_ret {A} (a : A) : keeps_flight (mret a).
Proof. done. Qed.

Lemma keeps_throw {A} e : keeps_flight (throw e : StoreM A).
Proof. done. Qed.

Lemma keeps_modify f : (forall s, checkpoint_in_flight (f s) = checkpoint_in_flight s) -> keeps_flight (modify f).
Proof. intros Hf s. apply Hf. Qed.

Lemma keeps_on_wal {A} (m : ST Wal StorageError A) : keeps_flight (on_wal m).
Proof. intros s. unfold on_wal, zoom. by destruct (m (wal s)). Qed.

Lemma keeps_for_each {A} (l : list A) f : (forall x, keeps_flight (f x)) -> keeps_flight (for_each l f).
Proof. intros Hf. induction l as [|x l IH]; [apply keeps_ret|]. by apply keeps_bind. Qed.

Lemma keeps_collect {A B} (l : list A) (f : A -> StoreM B) : (forall x, keeps_flight (f x)) -> keeps_flight (collect l f).
Proof.
  intros Hf. induction l as [|x l IH]; [apply keeps_ret|]. apply keeps_bind; [done|]. intros y. by apply keeps_bind.
Qed.

Lemma keeps_poisoning {A} (m : StoreM A) : keeps_flight m -> keeps_flight (poisoning m).
Proof. intros Hm s. specialize (Hm s). unfold poisoning. by destruct (m s) as [[?|?] ?]. Qed.

Lemma keeps_refuse {A} (m : StoreM A) : keeps_flight m -> keeps_flight (refuse_poisoned m).
Proof. intros Hm. apply keeps_bind; [done|]. intros s. by destruct (poisoned s). Qed.

Ltac flight :=
  repeat match goal with
  | |- forall _, _ => intros ?
  | |- keeps_flight _ => assumption
  | |- keeps_flight (_ ≫= _) => apply keeps_bind
  | |- keeps_flight (for_each _ _) => apply keeps_for_each
  | |- keeps_flight (collect _ _) => apply keeps_collect
  | |- keeps_flight (poisoning _) => apply keeps_poisoning
  | |- keeps_flight (refuse_poisoned _) => apply keeps_refuse
  | |- keeps_flight (on_wal _) => apply keeps_on_wal
  | |- keeps_flight (match ?x with _ => _ end) => destruct x
  | H : forall _, keeps_flight _ |- keeps_flight _ => apply H
  | H : forall _ _, keeps_flight _ |- keeps_flight _ => apply H
  end; try done.

Lemma keeps_write_pages_inner ws durable : keeps_flight (write_pages_inner ws durable).
Proof. unfold write_pages_inner, note_dirty, sync_wal. flight. Qed.

Lemma keeps_append_pages_inner appends durable : keeps_flight (append_pages_inner appends durable).
Proof. unfold append_pages_inner, note_grown, sync_wal. flight. Qed.

Lemma keeps_apply_batch ws appends durable : keeps_flight (apply_batch ws appends durable).
Proof.
  unfold apply_batch, apply_batch_inner, sync_wal. apply keeps_refuse, keeps_poisoning.
  pose proof keeps_write_pages_inner. pose proof keeps_append_pages_inner. flight.
Qed.

Lemma keeps_flush budget : keeps_flight (flush_some_dirty budget).
Proof. unfold flush_some_dirty, flush_page. flight. Qed.

Lemma keeps_flush_all fuel : keeps_flight (flush_all fuel).
Proof. pose proof keeps_flush. induction fuel; cbn [flush_all]; flight. Qed.

Lemma keeps_checkpoint : keeps_flight checkpoint.
Proof. unfold checkpoint, checkpoint_inner, sync_wal. pose proof keeps_flush_all. flight. Qed.

Lemma keeps_run_chunk ch : keeps_flight (run_chunk ch).
Proof. unfold run_chunk, write_shared. flight. Qed.
Lemma keeps_execute_group rs s : checkpoint_in_flight (execute_group rs s).2 = checkpoint_in_flight s.
Proof.
  unfold execute_group. pose proof (keeps_apply_batch (mjoin (q_writes <$> rs)) (mjoin (q_appends <$> rs)) (existsb q_durable rs) s).
  by destruct (apply_batch _ _ _ s) as [[[wl al]|e] s'].
Qed.

Lemma keeps_begin_err s e s' :
  begin_background_checkpoint s = (Err e, s') -> checkpoint_in_flight s' = checkpoint_in_flight s.
Proof.
  unfold begin_background_checkpoint, refuse_poisoned, on_wal, rotate. st_run.
  destruct (poisoned s); [by intros [= <- <-]|]. destruct (checkpoint_in_flight s) eqn:Hf; [intros [= <- <-]; done|].
  destruct (can_rotate (wal s)); cbn; [done|]. by intros [= <- <-].
Qed.

(** What the steps of the threads keep: without a job no checkpoint is in
    flight, and a stopped worker leaves nobody waiting. *)
Record tidy (s : System) : Prop := {
  td_flight : checkpointer s = Idle -> checkpoint_in_flight (g_store s) = false;
  td_stopped : turn s = Stopped -> waiting s = [];
}.

Lemma receive_tidy arrivals s : tidy s -> turn s = Receiving -> tidy (receive options arrivals s).
Proof.
  intros [Hf Hs] Ht. unfold receive. destruct (next_command s) as [[[r|i|i] q]|]; [| | |done].
  - destruct (collect_requests _ _ _ _ _) as [[rs other] q'].
    pose proof (keeps_execute_group rs (g_store s)) as Hk. destruct (execute_group _ _) as [rep st].
    split; [|done]. cbn in *. by rewrite Hk.
  - destruct (checkpoint_in_flight (g_store s)) eqn:Hif; [by split; rewrite ?Hif|].
    pose proof (keeps_checkpoint (g_store s)) as Hk. destruct (checkpoint (g_store s)) as [res st].
    split; [|done]. cbn in *. by rewrite Hk, Hif.
  - by split.
Qed.

Lemma maybe_checkpoint_tidy s ph t st ph' t' :
  maybe_checkpoint options s ph t = (st, ph', t') -> (ph = Idle -> checkpoint_in_flight s = false) ->
  ph' = Idle -> checkpoint_in_flight st = false.
Proof.
  unfold maybe_checkpoint. intros Hm Hf Hi. destruct (_ =? _) in Hm; [injection Hm as <- <- <-; auto|].
  destruct (_ || _) in Hm; [injection Hm as <- <- <-; auto|]. destruct (can_begin_background_checkpoint s).
  - destruct (begin_background_checkpoint s) as [[job|e] s1] eqn:Hb; [by injection Hm as <- <- <-|].
    apply keeps_begin_err in Hb. injection Hm as <- <- <-. rewrite Hb. auto.
  - pose proof (keeps_checkpoint s) as Hk. destruct (checkpoint s) as [[l|e] s1]; injection Hm as <- <- <-; cbn in Hk; rewrite Hk; auto.
Qed.

Lemma worker_tidy arrivals s : tidy s -> tidy (worker_step options arrivals s).
Proof.
  intros Hs. unfold worker_step. destruct (turn s) eqn:Ht.
  - by apply receive_tidy.
  - split; [|done]. cbn. unfold pace_flush. destruct (_ =? _); [apply Hs|]. rewrite keeps_flush. apply Hs.
  - destruct (maybe_checkpoint _ _ _ _) as [[st ph] t] eqn:Hm. split; [|done]. cbn.
    exact (maybe_checkpoint_tidy _ _ _ _ _ _ Hm (td_flight s Hs)).
  - done.
Qed.

Lemma checkpointer_tidy s : tidy s -> tidy (checkpointer_step s).
Proof.
  intros [Hf Hs]. unfold checkpointer_step. destruct (checkpointer s) as [|job [|ch todo] w|job w|job w] eqn:Hc.
  - split; auto.
  - by split.
  - destruct (run_chunk ch (g_store s)) as [[w'|e] st]; by split.
  - by split.
  - unfold complete_background_checkpoint. destruct (complete_background_checkpoint_inner _ _ _) as [[u|e] st]; by split.
Qed.

Lemma step_tidy s s' : tidy s -> step options s s' -> tidy s'.
Proof.
  intros Hs [arrivals| |Hph]; [by apply worker_tidy|by apply checkpointer_tidy|]. split; [done|]. apply Hs.
Qed.

(** What a step does to those who wait. *)
Lemma step_answers s s' :
  step options s s' ->
  exists answered rep, waiting s = answered ++ waiting s' /\ replies s' = replies s ++ rep /\ Forall2 suits answered rep.
Proof.
  assert (forall s1, waiting s1 = waiting s -> replies s1 = replies s ->
    exists answered rep, waiting s = answered ++ waiting s1 /\ replies s1 = replies s ++ rep /\ Forall2 suits answered rep) as Hsame.
  { intros s1 Hw Hr. exists [], []. rewrite app_nil_r. by split_and!; [rewrite Hw| |constructor]. }
  intros [arrivals| |Hph].
  - unfold worker_step. destruct (turn s); [apply receive_answers|by apply Hsame| |by apply Hsame].
    destruct (maybe_checkpoint _ _ _ _) as [[st ph] t]. by apply Hsame.
  - unfold checkpointer_step. apply Hsame; repeat case_match; done.
  - by apply Hsame.
Qed.
Lemma run_tidy P s0 sent s :
  checkpoint_in_flight s0 = false -> run_of options P s0 sent s -> tidy s.
Proof.
  intros H0. induction 1 as [s ->%started|sent s c Hr IH Ht Hq|sent s s' Hr IH HP Hs]; [by split| |by eapply step_tidy].
  destruct IH as [Hf _]. by split.
Qed.

Lemma run_answers P s0 sent s :
  run_of options P s0 sent s -> exists answered, sent = answered ++ waiting s /\ Forall2 suits answered (replies s).
Proof.
  induction 1 as [s ->%started|sent s c Hr (done_ & -> & Hd) Ht Hq|sent s s' Hr (done_ & -> & Hd) HP Hs].
  - exists []. by split; [|constructor].
  - exists done_. split; [|exact Hd]. unfold waiting. cbn. by rewrite <- !app_assoc.
  - destruct (step_answers _ _ Hs) as (more & rep & -> & -> & Hm). exists (done_ ++ more). split; [by rewrite app_assoc|by apply Forall2_app].
Qed.

(** ** Everybody is answered in the end *)

Definition phase_size (ph : phase) : nat :=
  match ph with Idle => 0 | Running _ todo _ => 3 + length todo | DataSynced _ _ => 2 | LogSealed _ _ => 1 end.

Lemma checkpointer_shrinks s :
  checkpointer s <> Idle -> (phase_size (checkpointer (checkpointer_step s)) < phase_size (checkpointer s))%nat.
Proof.
  unfold checkpointer_step. destruct (checkpointer s) as [|job [|ch todo] w|job w|job w]; intros Hne; cbn; [done|lia| |lia|].
  - destruct (run_chunk ch (g_store s)) as [[w'|e] st]; cbn; lia.
  - destruct (complete_background_checkpoint _ _ _) as [[u|e] st]; cbn; lia.
Qed.

Lemma checkpointer_finishes s :
  exists s', rtc (step options) s s' /\ checkpointer s' = Idle /\ turn s' = turn s /\ waiting s' = waiting s.
Proof.
  remember (phase_size (checkpointer s)) as n eqn:Hn. revert s Hn. induction n as [n IH] using lt_wf_ind. intros s Hn.
  destruct (decide (phase_size (checkpointer s) = 0%nat)) as [Hz|Hz].
  - exists s. split; [done|]. split; [by destruct (checkpointer s)|done].
  - assert (checkpointer s <> Idle) as Hne by (intros Hi; by rewrite Hi in Hz).
    pose proof (checkpointer_shrinks s Hne) as Hlt. destruct (IH _ ltac:(by rewrite Hn) (checkpointer_step s) eq_refl) as (s' & Hr & Hi & Ht & Hw).
    exists s'. split; [eapply rtc_l; [apply step_checkpointer|exact Hr]|]. split; [done|]. rewrite Ht, Hw.
    unfold checkpointer_step. split; repeat case_match; done.
Qed.

Lemma worker_settles s :
  turn s <> Stopped -> exists s', rtc (step options) s s' /\ turn s' = Receiving /\ waiting s' = waiting s.
Proof.
  assert (forall s, turn s = Deciding -> exists s', rtc (step options) s s' /\ turn s' = Receiving /\ waiting s' = waiting s) as Hdec.
  { intros s1 Ht. exists (worker_step options 0 s1). split; [apply rtc_once, step_worker|]. unfold worker_step. rewrite Ht.
    by destruct (maybe_checkpoint _ _ _ _) as [[st ph] t]. }
  intros Hs. destruct (turn s) eqn:Ht; [by exists s| |by apply Hdec|done].
  destruct (Hdec (worker_step options 0 s)) as (s' & Hr & Ht' & Hw); [by unfold worker_step; rewrite Ht|].
  exists s'. split; [eapply rtc_l; [apply step_worker|exact Hr]|]. split; [done|]. rewrite Hw. unfold worker_step. by rewrite Ht.
Qed.

Lemma receive_shrinks s :
  checkpoint_in_flight (g_store s) = false -> waiting s <> [] ->
  (length (waiting (receive options 0 s)) < length (waiting s))%nat.
Proof.
  intros Hf Hne. assert (exists c q, next_command s = Some (c, q) /\ waiting s = c :: q) as (c & q & Hn & ->).
  { unfold next_command, waiting in *. destruct (pending s), (queue s); by eauto. }
  unfold receive. rewrite Hn. destruct c as [r|i|i].
  - cbn [collect_requests]. destruct (_ <? _); destruct (execute_group _ _); cbn; lia.
  - rewrite Hf. destruct (checkpoint (g_store s)). cbn. lia.
  - cbn. lia.
Qed.

Lemma rtc_tidy s s' : tidy s -> rtc (step options) s s' -> tidy s'.
Proof. intros Hs. induction 1 as [|s s1 s2 H1 _ IH]; [done|]. apply IH. by eapply step_tidy. Qed.

Lemma drains s : tidy s -> exists s', rtc (step options) s s' /\ waiting s' = [].
Proof.
  remember (length (waiting s)) as n eqn:Hn. revert s Hn. induction n as [n IH] using lt_wf_ind. intros s Hn Hs.
  destruct (decide (waiting s = [])) as [He|Hne]; [by exists s|].
  destruct (worker_settles s) as (s1 & Hr1 & Ht1 & Hw1); [by intros Ht; apply Hne, Hs|].
  destruct (checkpointer_finishes s1) as (s2 & Hr2 & Hi2 & Ht2 & Hw2). rewrite Ht1 in Ht2. rewrite Hw1 in Hw2.
  pose proof (rtc_tidy _ _ (rtc_tidy _ _ Hs Hr1) Hr2) as Hs2.
  pose proof (receive_shrinks s2 (td_flight _ Hs2 Hi2) ltac:(by rewrite Hw2)) as Hlt. rewrite Hw2, <- Hn in Hlt.
  assert (step options s2 (receive options 0 s2)) as Hst.
  { pose proof (step_worker options s2 0) as Hst. unfold worker_step in Hst. by rewrite Ht2 in Hst. }
  destruct (IH _ Hlt (receive options 0 s2) eq_refl) as (s3 & Hr3 & He); [by eapply step_tidy|].
  exists s3. split; [|done]. etrans; [exact Hr1|]. etrans; [exact Hr2|]. by eapply rtc_l.
Qed.
(** ** Commits of page images reach the disk *)

(** A command of this development's durability theorems: a commit of
    well-formed images that asks for a sync, as [commit] sends it. *)
Definition image_commit (c : Command) : Prop :=
  match c with
  | CCommit r => q_writes r <> [] /\ Forall write_ok_input (q_writes r) /\ q_appends r = [] /\ q_durable r = true
  | _ => True
  end.

Definition command_writes (c : Command) : list PageWrite := match c with CCommit r => q_writes r | _ => [] end.

(** The log has room for all that waits. *)
Definition roomy (s : System) : Prop := batch_room (wal (g_store s)) (blen (mjoin (command_writes <$> waiting s))).

(** The writes of the commits that were answered with their LSNs. *)
Fixpoint acknowledged (cs : list Command) (xs : list (Z * Reply)) : list PageWrite :=
  match cs, xs with
  | c :: cs, (_, RLsns (Ok _)) :: xs => command_writes c ++ acknowledged cs xs
  | _ :: cs, _ :: xs => acknowledged cs xs
  | _, _ => []
  end.

Lemma acknowledged_app cs cs' xs xs' :
  length cs = length xs -> acknowledged (cs ++ cs') (xs ++ xs') = acknowledged cs xs ++ acknowledged cs' xs'.
Proof.
  revert xs. induction cs as [|c cs IH]; intros [|[i x] xs] Hl; try done. injection Hl as Hl. cbn.
  rewrite IH by done. destruct x as [[?|?]| |]; [by rewrite app_assoc|done..].
Qed.

Lemma acknowledged_nil cs : acknowledged cs [] = [].
Proof. by destruct cs. Qed.

Lemma apply_writes_app ws ws' c : apply_writes (ws ++ ws') c = apply_writes ws' (apply_writes ws c).
Proof. revert c. induction ws as [|w ws IH]; intros c; [done|]. cbn. apply IH. Qed.

(** Syncing the log after the dirty table is filled, or before, is the same. *)
Definition synced (s : DurableStore) : DurableStore := set_wal (wal_sync (wal s)) s.

Lemma note_one_synced w n s r s' : note_dirty w n s = (r, s') -> note_dirty w n (synced s) = (r, synced s').
Proof. unfold note_dirty. st_run. by destruct (with_lsn (w_page_id w) n (w_payload w)); intros [= <- <-]. Qed.

Lemma note_dirty_synced l s r s' :
  for_each l (fun '(w, lsn) => note_dirty w lsn) s = (r, s') ->
  for_each l (fun '(w, lsn) => note_dirty w lsn) (synced s) = (r, synced s').
Proof.
  revert s. induction l as [|[w n] l IH]; intros s; cbn [for_each]; [by intros [= <- <-]|].
  destruct (note_dirty w n s) as [[[]|e] s1] eqn:Hw; unfold mbind, ST_bind; rewrite Hw, (note_one_synced _ _ _ _ _ Hw); [apply IH|].
  by intros [= <- <-].
Qed.

Lemma write_pages_inner_synced ws s lsns s' :
  write_pages_inner ws false s = (Ok lsns, s') -> write_pages_inner ws true s = (Ok lsns, synced s').
Proof.
  unfold write_pages_inner. intros (ls & s1 & Hc & (u & s2 & Hb & Hk)%ST_bind_Ok)%ST_bind_Ok.
  rewrite (ST_bind_step _ _ _ _ _ Hc), (ST_bind_step _ _ _ _ _ Hb). apply ST_bind_Ok in Hk as (u' & s3 & [= <- <-] & Hk).
  apply ST_bind_Ok in Hk as ([] & s4 & Hf & [= <- <-]). rewrite (ST_bind_step sync_wal _ s2 tt (synced s2) eq_refl).
  rewrite (ST_bind_step _ _ _ _ _ (note_dirty_synced _ _ _ _ Hf)). done.
Qed.

(** A durable batch of images through [apply_batch] is [write_pages]. *)
Lemma apply_images s ph c ws :
  reach s ph c -> Forall write_ok_input ws -> ws <> [] -> batch_room (wal s) (blen ws) ->
  exists s', apply_batch ws [] true s = (Ok (seqZ (next_lsn (wal s)) (blen ws), []), s') /\ reach s' ph (apply_writes ws c).
Proof.
  intros Hr Hws Hne Hroom. destruct (reach_good _ _ _ Hr) as (v & o & n & wo & wn & Hinv & _).
  destruct (write_pages_inner_run ws false s o n (iv_wal _ _ _ _ _ _ _ Hinv) Hws Hne Hroom) as (w1 & s' & Hrun & _).
  destruct (writes_validate ws Hws) as [ps Hps]. destruct ws as [|w ws]; [done|].
  pose proof (iv_live _ _ _ _ _ _ _ Hinv) as Hlive. pose proof (write_pages_inner_synced _ _ _ _ Hrun) as Hrun'.
  exists (synced s'). split.
  - unfold apply_batch, refuse_poisoned. rewrite (ST_bind_step get _ s s s eq_refl), Hlive. unfold poisoning, apply_batch_inner.
    by rewrite (ST_bind_step _ _ _ _ _ Hrun).
  - eapply reach_write; [exact Hr|exact Hws|exact Hroom|]. unfold write_pages, write_pages_with, refuse_poisoned.
    rewrite (ST_bind_step get _ s s s eq_refl), Hlive. rewrite Hps, (ST_bind_step (lift (Ok ps)) _ s ps s eq_refl).
    unfold poisoning. by rewrite Hrun'.
Qed.

Lemma mjoin_command_writes (rs : list CommitRequest) : mjoin (command_writes <$> (CCommit <$> rs)) = mjoin (q_writes <$> rs).
Proof. by rewrite <- list_fmap_compose. Qed.

Lemma image_requests (rs : list CommitRequest) :
  Forall (image_commit ∘ CCommit) rs -> Forall write_ok_input (mjoin (q_writes <$> rs)) /\ mjoin (q_appends <$> rs) = [].
Proof.
  induction 1 as [|x l (_ & Hw & Ha & _) _ [IHw IHa]]; [by split; [constructor|]|]. split; [by apply Forall_app|]. change (q_appends x ++ mjoin (q_appends <$> l) = []). by rewrite Ha, IHa.
Qed.

Lemma execute_images s ph c (r : CommitRequest) taken :
  let rs := r :: taken in
  reach s ph c -> Forall image_commit (CCommit <$> rs) -> batch_room (wal s) (blen (mjoin (q_writes <$> rs))) ->
  exists rep s', execute_group rs s = (rep, s') /\ reach s' ph (apply_writes (mjoin (q_writes <$> rs)) c) /\
    length rep = length rs /\ acknowledged (CCommit <$> rs) rep = mjoin (q_writes <$> rs).
Proof.
  intros rs Hr Him Hroom. rewrite Forall_fmap in Him.
  destruct (image_requests rs Him) as [Hws Happ].
  assert (existsb q_durable rs = true) as Hdur by (inversion Him as [|? ? (_ & _ & _ & Hd)]; cbn; by rewrite Hd).
  assert (mjoin (q_writes <$> rs) <> []) as Hne.
  { inversion Him as [|? ? (Hx & _)]. cbn. by destruct (q_writes r). }
  destruct (apply_images _ _ _ _ Hr Hws Hne Hroom) as (s' & Hrun & Hr').
  unfold execute_group. rewrite Happ, Hdur, Hrun. eexists _, s'. split; [reflexivity|]. split; [exact Hr'|].
  split; [rewrite length_fmap, !length_zip_with, !length_spans, !length_fmap; lia|].
  generalize (seqZ (next_lsn (wal s)) (blen (mjoin (q_writes <$> rs)))) as wl. clear. generalize 0 at 1 as a. generalize 0 as b.
  induction rs as [|x rs IH]; intros b a wl; [done|]. cbn. f_equal. apply IH.
Qed.
Lemma batch_room_le w n m : batch_room w n -> m <= n -> batch_room w m.
Proof. unfold batch_room, PAGE_SIZE. lia. Qed.

Lemma reach_idle s ph c : reach s ph c -> checkpoint_in_flight s = false -> ph = Idle.
Proof. intros Hr. apply (good_idle s ph c), reach_good, Hr. Qed.

Lemma reach_flushed s ph c : reach s ph c -> reach (pace_flush options s) ph c.
Proof.
  intros Hr. unfold pace_flush. destruct (_ =? _); [done|].
  destruct (good_flush _ _ _ (flush_pages_per_batch options) (reach_good _ _ _ Hr)) as (n & s' & Hf & _). rewrite Hf. by eapply reach_flush.
Qed.

Lemma reach_checkpointed s ph c :
  reach s ph c -> checkpoint_in_flight s = false -> batch_room (wal s) 0 ->
  exists l s', checkpoint s = (Ok l, s') /\ reach s' ph c.
Proof.
  intros Hr Hf Hroom. pose proof (reach_idle _ _ _ Hr Hf) as ->.
  destruct (good_checkpoint _ _ (reach_good _ _ _ Hr) Hroom) as (l & s' & Hc & _). exists l, s'. split; [done|]. by eapply reach_checkpoint.
Qed.

Lemma reach_maybe_checkpoint s ph c t st ph' t' :
  reach s ph c -> batch_room (wal s) 0 -> maybe_checkpoint options s ph t = (st, ph', t') -> reach st ph' c.
Proof.
  intros Hr Hroom. unfold maybe_checkpoint. destruct (_ =? _); [by intros [= <- <- <-]|].
  destruct (checkpoint_in_flight s) eqn:Hf; [rewrite orb_true_r; by intros [= <- <- <-]|].
  destruct (_ || _); [by intros [= <- <- <-]|]. destruct (can_begin_background_checkpoint s) eqn:Hcan.
  - unfold can_begin_background_checkpoint in Hcan. bool_to_prop.
    pose proof (reach_idle _ _ _ Hr Hf) as ->. destruct (reach_good _ _ _ Hr) as (v & o & n & wo & wn & Hinv & _).
    destruct (inv_begin _ _ _ _ _ _ Hinv ltac:(done)) as (job & s1 & Hb & _). rewrite Hb. intros [= <- <- <-]. by eapply reach_begin.
  - destruct (reach_checkpointed _ _ _ Hr Hf Hroom) as (l & s1 & Hc & Hr1). rewrite Hc. by intros [= <- <- <-].
Qed.

Lemma reach_checkpointer s c :
  reach (g_store s) (checkpointer s) c -> reach (g_store (checkpointer_step s)) (checkpointer (checkpointer_step s)) c.
Proof.
  intros Hr. destruct (reach_good _ _ _ Hr) as (v & o & n & wo & wn & Hinv & _). unfold checkpointer_step.
  destruct (checkpointer s) as [|job [|ch todo] w|job w|job w] eqn:Hc.
  - by rewrite Hc.
  - by eapply reach_data_sync.
  - destruct (inv_chunk _ _ _ _ _ _ _ _ _ _ Hinv) as (w1 & s1 & Hrun & _). rewrite Hrun. by eapply reach_chunk.
  - by eapply reach_seal.
  - destruct (inv_complete _ _ _ _ _ _ _ _ Hinv) as (s1 & Hrun & _). rewrite Hrun. by eapply reach_complete.
Qed.

(** The store after a run holds what was acknowledged. *)
Definition holds (c0 : contents) (sent : list Command) (s : System) : Prop :=
  exists answered, sent = answered ++ waiting s /\ length answered = length (replies s) /\
    reach (g_store s) (checkpointer s) (apply_writes (acknowledged answered (replies s)) c0).

Lemma holds_receive c0 arrivals sent s :
  Forall image_commit sent -> roomy s -> holds c0 sent s -> holds c0 sent (receive options arrivals s).
Proof.
  intros Him Hroom (dn & -> & Hl & Hr). apply Forall_app in Him as [_ Him].
  assert (forall c q, next_command s = Some (c, q) -> waiting s = c :: q) as Hn.
  { intros c q. unfold next_command, waiting. destruct (pending s), (queue s); by intros [= <- <-]. }
  assert (exists ws, blen (mjoin (command_writes <$> waiting s)) = Z.of_nat ws) as [room Hw] by eauto.
  unfold receive. destruct (next_command s) as [[[r|i|i] q]|] eqn:Hnx; [specialize (Hn _ _ eq_refl)..|by exists dn].
  - destruct (collect_requests _ _ _ _ _) as [[rs other] q'] eqn:Hc. apply collect_requests_takes in Hc as (taken & -> & ->).
    cbn [app] in *. change (CCommit r :: (CCommit <$> taken) ++ option_list other ++ q') with ((CCommit <$> r :: taken) ++ option_list other ++ q') in Hn.
    unfold roomy in Hroom. rewrite Hn in Him, Hroom |- *. apply Forall_app in Him as [Him _].
    destruct (execute_images _ _ _ r taken Hr Him) as (rep & st & Hx & Hr' & Hlen & Hack).
    { eapply batch_room_le; [exact Hroom|]. rewrite fmap_app, join_app, mjoin_command_writes, length_app. lia. }
    rewrite Hx. exists (dn ++ (CCommit <$> r :: taken)). cbn [replies g_store checkpointer].
    split; [by rewrite <- app_assoc|]. split; [rewrite !length_app, length_fmap; lia|].
    by rewrite acknowledged_app, Hack, apply_writes_app.
  - destruct (checkpoint_in_flight (g_store s)) eqn:Hf; [by exists dn|].
    destruct (reach_checkpointed _ _ _ Hr Hf) as (l & st & Hc & Hr'); [eapply batch_room_le; [exact Hroom|lia]|].
    rewrite Hc, Hn. exists (dn ++ [CCheckpoint i]). cbn [replies g_store checkpointer]. split; [by rewrite <- app_assoc|].
    split; [rewrite !length_app; cbn; lia|]. rewrite acknowledged_app by done. cbn. by rewrite app_nil_r.
  - rewrite Hn. exists (dn ++ CShutdown i :: q). cbn [replies g_store checkpointer]. split; [by rewrite app_nil_r|].
    split; [rewrite !length_app; cbn; rewrite length_fmap; lia|]. rewrite acknowledged_app by done. cbn.
    replace (acknowledged q _) with (@nil PageWrite); [by rewrite app_nil_r|]. clear. induction q as [|[] q IH]; cbn; done.
Qed.

Lemma holds_step c0 sent s s' :
  Forall image_commit sent -> roomy s -> holds c0 sent s -> step options s s' -> holds c0 sent s'.
Proof.
  intros Him Hroom Hh [arrivals| |Hph].
  - unfold worker_step. destruct (turn s); [by apply holds_receive| | |done].
    + destruct Hh as (dn & -> & Hl & Hr). exists dn. split_and!; [done..|]. by apply reach_flushed.
    + destruct Hh as (dn & -> & Hl & Hr). destruct (maybe_checkpoint _ _ _ _) as [[st ph] t] eqn:Hm.
      exists dn. split_and!; [done..|]. eapply reach_maybe_checkpoint; [exact Hr| |exact Hm]. eapply batch_room_le; [exact Hroom|lia].
  - destruct Hh as (dn & -> & Hl & Hr). exists dn. apply reach_checkpointer in Hr. revert Hr. unfold checkpointer_step.
    repeat case_match; done.
  - destruct Hh as (dn & -> & Hl & Hr). exists dn. split_and!; [done..|]. by eapply reach_abort.
Qed.

Lemma run_holds s0 c0 sent s :
  reach s0 Idle c0 -> Forall image_commit sent -> run_of options roomy s0 sent s -> holds c0 sent s.
Proof.
  intros H0 Him Hr. induction Hr as [s ->%started|sent s c Hr IH Ht Hq|sent s s' Hr IH HP Hs]; [by exists []| |by eapply holds_step; auto].
  apply Forall_app in Him as [Him _]. destruct (IH Him) as (dn & -> & Hl & Hh). exists dn. split_and!; [|done..].
  unfold waiting. cbn. by rewrite <- !app_assoc.
Qed.

(** ** The theorems *)

(** C7: Every command is answered exactly once and in the order of
    sending: at any time the replies belong to the commands sent first, each
    of the right kind and with one LSN per page of its request, and the
    threads can always go on until nobody waits. *)
Theorem every_command_answered P s0 sent s :
  checkpoint_in_flight s0 = false -> run_of options P s0 sent s ->
  exists answered, sent = answered ++ waiting s /\ Forall2 suits answered (replies s) /\
    exists s', rtc (step options) s s' /\ Forall2 suits sent (replies s').
Proof.
  intros H0 Hr. destruct (run_answers _ _ _ _ Hr) as (dn & -> & Hd). exists dn. split; [done|]. split; [done|].
  destruct (drains s (run_tidy _ _ _ _ H0 Hr)) as (s' & Hs & He). exists s'. split; [done|].
  assert (exists more rep, waiting s = more ++ waiting s' /\ replies s' = replies s ++ rep /\ Forall2 suits more rep) as (more & rep & Hw & -> & Hm).
  { clear -Hs. induction Hs as [s|s s1 s2 H1 _ (m2 & r2 & Hw2 & Hr2 & Hm2)]; [exists [], []; rewrite app_nil_r; by split_and!; [| |constructor]|].
    destruct (step_answers _ _ H1) as (m1 & r1 & Hw1 & Hr1 & Hm1). exists (m1 ++ m2), (r1 ++ r2).
    rewrite Hw1, Hw2, Hr2, Hr1, !app_assoc. split_and!; [done..|by apply Forall2_app]. }
  rewrite Hw, He, app_nil_r. by apply Forall2_app.
Qed.

(** C6: An acknowledged commit survives a crash: after any run of the
    coordinator over commits of page images, with its paced flushes and its
    foreground and background checkpoints, the files a crash leaves open to
    a store that reads exactly what the acknowledged commits wrote, in the
    order they were acknowledged. *)
Theorem acknowledged_commits_survive s0 c0 sent s fd fa fb :
  reach s0 Idle c0 -> Forall image_commit sent -> run_of options roomy s0 sent s -> crash_files (g_store s) fd fa fb ->
  exists s', open_files fd fa fb = Ok s' /\ reads_as s' (apply_writes (acknowledged sent (replies s)) c0).
Proof.
  intros H0 Him Hr Hc. destruct (run_holds _ _ _ _ H0 Him Hr) as (dn & -> & Hl & Hh).
  rewrite <- (app_nil_r (replies s)), acknowledged_app, acknowledged_nil, app_nil_r by done.
  destruct (good_crash _ _ _ _ _ _ (reach_good _ _ _ Hh) Hc) as (s' & Ho & Hg). exists s'. split; [done|]. by eapply good_reads.
Qed.
End Facts.

(** ** Witnesses: one commit on a store just created *)

(** The files as the process sees them are one way a crash may leave them. *)
Lemma crash_now `{Crc32} s ph c :
  reach s ph c -> next_lsn (wal s) + 2 <= U64_MAX ->
  (forall i, f_len (cached (s_file (seg (wal s) i))) + PAGE_SIZE <= MAX_LOG_OFFSET) ->
  crash_files s (cached (data s)) (cached (s_file (seg (wal s) false))) (cached (s_file (seg (wal s) true))).
Proof.
  intros Hr Hlsn Hlen. destruct (reach_good _ _ _ Hr) as (v & o & n & wo & wn & Hinv & _).
  destruct Hinv as [Hw Hsy _ _ _ _ _ _ Hd _ _ _ _].
  assert (forall i, crash_segment (seg (wal s) i) (cached (s_file (seg (wal s) i)))) as Hseg.
  { intros i. destruct (Hsy i) as [Hsync _]. assert (file_ok (cached (s_file (seg (wal s) i)))) as Hok.
    { destruct (decide (i = active (wal s))) as [->|Hi]; [apply (wo_active _ _ _ Hw)|].
      replace i with (negb (active (wal s))) by (destruct i, (active (wal s)); done). destruct (wo_other _ _ _ Hw) as [e He]. apply He. }
    split; [exact Hok|]. eexists _, _. split; [apply surjective_pairing|]. rewrite <- Hsync. done. }
  split; [apply crash_self, Hd|]. split; [apply Hseg|]. split; [apply Hseg|]. by repeat split.
Qed.

#[local] Existing Instance sum_crc.

Definition one_commit : Command := CCommit (mkRequest one_write [] true 7).

Definition committed_system : System := worker_step default_group_options 0 (send_command one_commit (launched created)).

Lemma committed_run : run_of default_group_options roomy created [one_commit] committed_system.
Proof.
  eapply run_step; [eapply (run_send _ _ _ [] (launched created) one_commit); [by constructor|discriminate|]|exact (created_room 1 ltac:(done))|apply step_worker].
  cbn [queue launched length default_group_options queue_depth]. lia.
Qed.

Lemma created_not_in_flight : checkpoint_in_flight created = false.
Proof. vm_compute. reflexivity. Qed.

Lemma every_command_answered_witness :
  exists answered, [one_commit] = answered ++ waiting committed_system /\ Forall2 suits answered (replies committed_system) /\
    exists s', rtc (step default_group_options) committed_system s' /\ Forall2 suits [one_commit] (replies s').
Proof. exact (every_command_answered default_group_options roomy created [one_commit] committed_system created_not_in_flight committed_run). Defined.

Lemma committed_facts :
  let w := wal (g_store committed_system) in
  (next_lsn w =? 3) && (f_len (cached (s_file (seg w false))) =? WAL_PREALLOCATE_BYTES) &&
  (f_len (cached (s_file (seg w true))) =? WAL_PREALLOCATE_BYTES) = true.
Proof. vm_compute. reflexivity. Qed.

Lemma committed_acknowledged : acknowledged [one_commit] (replies committed_system) = one_write.
Proof. vm_compute. reflexivity. Qed.

Lemma committed_images : Forall image_commit [one_commit].
Proof. constructor; [|constructor]. split; [done|]. split; [exact one_write_ok|done]. Qed.

Lemma acknowledged_commits_survive_witness :
  exists fd fa fb s', crash_files (g_store committed_system) fd fa fb /\ open_files fd fa fb = Ok s' /\
    reads_as s' (apply_writes one_write (fun _ => None)).
Proof.
  pose proof committed_facts as Hf. cbn zeta in Hf. bool_to_prop. pose proof WAL_PREALLOCATE_BYTES_eq as HP.
  destruct (run_holds default_group_options created (fun _ => None) _ _ reach_created committed_images committed_run) as (dn & _ & _ & Hr).
  assert (next_lsn (wal (g_store committed_system)) + 2 <= U64_MAX) as Hl by (unfold U64_MAX; lia).
  assert (forall i, f_len (cached (s_file (seg (wal (g_store committed_system)) i))) + PAGE_SIZE <= MAX_LOG_OFFSET) as Hi
    by (intros []; unfold PAGE_SIZE, MAX_LOG_OFFSET, U64_MAX in *; lia).
  pose proof (crash_now _ _ _ Hr Hl Hi) as Hc.
  destruct (acknowledged_commits_survive default_group_options created (fun _ => None) [one_commit] committed_system _ _ _
    reach_created committed_images committed_run Hc) as (s' & Ho & Hs).
  rewrite committed_acknowledged in Hs. eexists _, _, _, s'. split; [exact Hc|]. split; [exact Ho|exact Hs].
Defined.
