(* ===== verification/ByteLru.v ===== *)
(** * The byte-bounded LRU cache

    Models [src/storage/src/byte_lru.rs]: a map of entries, the recency
    index that orders them by the tick of their last use, and eviction by
    byte budget.  The specification is the textbook one, a list in order of
    use; every operation refines it.  The lock makes each operation atomic,
    so an operation is a function on the state behind it.  Ticks and
    counters are [u64]s that would need 2^64 calls to overflow; they are
    unbounded here. *)
From S2P Require Import Prelude Page Order.
Local Open Scope Z_scope.

Section ByteLru.
Context {V : Type}.

Record LruEntry := mkEntry {
  e_value : V;
  e_bytes : Z;
  e_tick : Z;
}.

Record LruInner := mkLru {
  lru_map : gmap PageId LruEntry;
  recency : gmap Z PageId;
  next_tick : Z;
  lru_bytes : Z;
  capacity : Z;
  hits : Z;
  misses : Z;
}.

Record ByteCacheStats := mkStats {
  st_hits : Z;
  st_misses : Z;
  st_entries : Z;
  st_bytes : Z;
}.

Definition lru_new (capacity_bytes : Z) : LruInner := mkLru ∅ ∅ 0 0 capacity_bytes 0 0.

Definition stats (s : LruInner) : ByteCacheStats :=
  mkStats (hits s) (misses s) (Z.of_nat (size (lru_map s))) (lru_bytes s).

Definition take_tick (s : LruInner) : Z * LruInner :=
  (next_tick s, mkLru (lru_map s) (recency s) (next_tick s + 1) (lru_bytes s) (capacity s) (hits s) (misses s)).

Definition lru_get (page_id : PageId) (s : LruInner) : option V * LruInner :=
  let '(tick, s) := take_tick s in
  match lru_map s !! page_id with
  | Some entry =>
      (Some (e_value entry),
       mkLru (<[page_id := mkEntry (e_value entry) (e_bytes entry) tick]> (lru_map s))
             (<[tick := page_id]> (delete (e_tick entry) (recency s)))
             (next_tick s) (lru_bytes s) (capacity s) (hits s + 1) (misses s))
  | None =>
      (None, mkLru (lru_map s) (recency s) (next_tick s) (lru_bytes s) (capacity s) (hits s) (misses s + 1))
  end.

Definition lru_remove (page_id : PageId) (s : LruInner) : LruInner :=
  match lru_map s !! page_id with
  | Some entry =>
      mkLru (delete page_id (lru_map s)) (delete (e_tick entry) (recency s)) (next_tick s)
            (lru_bytes s - e_bytes entry) (capacity s) (hits s) (misses s)
  | None => s
  end.

(** The eviction loop; each turn pops the recency index. *)
Fixpoint evict (fuel : nat) (s : LruInner) : LruInner :=
  match fuel with
  | O => s
  | S fuel =>
      if capacity s <? lru_bytes s then
        match bt_first (recency s) with
        | None => s
        | Some (tick, oldest) =>
            let recency' := delete tick (recency s) in
            match lru_map s !! oldest with
            | Some evicted =>
                evict fuel (mkLru (delete oldest (lru_map s)) recency' (next_tick s)
                                  (lru_bytes s - e_bytes evicted) (capacity s) (hits s) (misses s))
            | None =>
                evict fuel (mkLru (lru_map s) recency' (next_tick s) (lru_bytes s) (capacity s) (hits s) (misses s))
            end
        end
      else s
  end.

Definition lru_insert (page_id : PageId) (value : V) (bytes : Z) (s : LruInner) : LruInner :=
  if capacity s <? bytes then s
  else
    let '(tick, s) := take_tick s in
    let previous := lru_map s !! page_id in
    let map' := <[page_id := mkEntry value bytes tick]> (lru_map s) in
    let '(recency', bytes') :=
      match previous with
      | Some previous => (delete (e_tick previous) (recency s), lru_bytes s - e_bytes previous)
      | None => (recency s, lru_bytes s)
      end in
    let s := mkLru map' (<[tick := page_id]> recency') (next_tick s) (bytes' + bytes) (capacity s) (hits s) (misses s) in
    evict (S (size (recency s))) s.

(** ** The specification: entries in order of use, oldest first *)

Abbreviation used := (list (PageId * (V * Z))).

Definition spec_bytes (l : used) : Z := foldr (fun x n => x.2.2 + n) 0 l.

Definition spec_lookup (page_id : PageId) (l : used) : option (V * Z) :=
  snd <$> find (fun x => x.1 =? page_id) l.

Definition spec_remove (page_id : PageId) (l : used) : used := filter (fun x => x.1 <> page_id) l.

Definition spec_get (page_id : PageId) (l : used) : option V * used :=
  match spec_lookup page_id l with
  | Some (v, b) => (Some v, spec_remove page_id l ++ [(page_id, (v, b))])
  | None => (None, l)
  end.

(** Drop the least recently used until the budget holds. *)
Fixpoint spec_trim (budget : Z) (l : used) : used :=
  match l with
  | [] => []
  | x :: l' => if budget <? spec_bytes l then spec_trim budget l' else l
  end.

Definition spec_insert (budget : Z) (page_id : PageId) (v : V) (b : Z) (l : used) : used :=
  if budget <? b then l else spec_trim budget (spec_remove page_id l ++ [(page_id, (v, b))]).

(** ** Abstraction and invariant *)

Definition view (m : gmap PageId LruEntry) (x : Z * PageId) : option (PageId * (V * Z)) :=
  (fun e => (x.2, (e_value e, e_bytes e))) <$> m !! x.2.

Definition contents_of (m : gmap PageId LruEntry) (r : gmap Z PageId) : used := omap (view m) (bt_list r).

Definition abs (s : LruInner) : used := contents_of (lru_map s) (recency s).

(** The recency index lists each cached page once, at its entry's tick. *)
Definition indexed (m : gmap PageId LruEntry) (r : gmap Z PageId) : Prop :=
  forall t p, r !! t = Some p <-> exists e, m !! p = Some e /\ e_tick e = t.

Record lru_wf (s : LruInner) : Prop := {
  lw_index : indexed (lru_map s) (recency s);
  lw_ticks : forall t p, recency s !! t = Some p -> t < next_tick s;
  lw_sizes : forall p e, lru_map s !! p = Some e -> 0 <= e_bytes e;
  lw_bytes : lru_bytes s = spec_bytes (abs s);
}.

(** ** Two moves make up every operation: removing a page, and pushing one
    on a fresh tick *)

Lemma omap_view_cons m t q (l : list (Z * PageId)) :
  omap (view m) ((t, q) :: l) =
  match m !! q with Some e => (q, (e_value e, e_bytes e)) :: omap (view m) l | None => omap (view m) l end.
Proof. cbn. unfold view at 1. cbn. by destruct (m !! q). Qed.

Lemma omap_view_remove m p t0 (l : list (Z * PageId)) :
  (forall t q, (t, q) ∈ l -> t = t0 <-> q = p) ->
  omap (view (delete p m)) (filter (fun x => x.1 <> t0) l) = spec_remove p (omap (view m) l).
Proof.
  induction l as [|[t q] l IH]; intros Hl; [done|].
  assert (forall t q, (t, q) ∈ l -> t = t0 <-> q = p) as Hl' by (intros; apply Hl; by right).
  pose proof (Hl t q ltac:(left)) as Hq. rewrite filter_cons, omap_view_cons. unfold spec_remove in *.
  destruct (decide _) as [Ht|Ht]; simpl in Ht.
  - rewrite omap_view_cons, lookup_delete_ne by naive_solver. destruct (m !! q) as [e|]; [|auto].
    rewrite filter_cons_True by (simpl; naive_solver). f_equal. auto.
  - assert (q = p) as -> by (apply Hq; by destruct (decide (t = t0))).
    destruct (m !! p) as [e|]; [|auto]. rewrite filter_cons_False by (simpl; naive_solver). auto.
Qed.

Lemma move_remove m r p e :
  indexed m r -> m !! p = Some e ->
  indexed (delete p m) (delete (e_tick e) r) /\
  contents_of (delete p m) (delete (e_tick e) r) = spec_remove p (contents_of m r).
Proof.
  intros Hi Hp. assert (r !! e_tick e = Some p) as Hr by (apply Hi; eauto).
  assert (forall t q, r !! t = Some q -> t = e_tick e <-> q = p) as Hiff.
  { intros t q Ht. split; [intros ->; congruence|]. intros ->. apply Hi in Ht as (e' & He' & <-). congruence. }
  split.
  - intros t q. rewrite lookup_delete_Some. split.
    + intros [Ht Hq]. pose proof (Hiff t q Hq). apply Hi in Hq as (e' & He' & <-). exists e'.
      rewrite lookup_delete_ne by naive_solver. done.
    + intros (e' & [Hne He']%lookup_delete_Some & <-). assert (r !! e_tick e' = Some q) as Hq by (apply Hi; eauto).
      split; [|done]. intros Heq. apply Hne. symmetry. apply (Hiff _ _ Hq). done.
  - unfold contents_of. rewrite bt_list_delete. apply omap_view_remove.
    intros t q Ht%elem_of_bt_list. by apply Hiff.
Qed.

Lemma move_push m r p v b t :
  indexed m r -> m !! p = None -> (forall t' p', r !! t' = Some p' -> t' < t) ->
  indexed (<[p := mkEntry v b t]> m) (<[t := p]> r) /\
  contents_of (<[p := mkEntry v b t]> m) (<[t := p]> r) = contents_of m r ++ [(p, (v, b))].
Proof.
  intros Hi Hp Ht. split.
  - intros t' q. rewrite lookup_insert_Some. split.
    + intros [[<- <-]|[Hne Hq]].
      * exists (mkEntry v b t). by rewrite lookup_insert_eq.
      * pose proof Hq as (e & He & <-)%Hi. exists e. rewrite lookup_insert_ne by congruence. done.
    + intros (e & [[<- <-]|[Hne He]]%lookup_insert_Some & <-); [by left|]. right.
      assert (r !! e_tick e = Some q) as Hq by (apply Hi; eauto). specialize (Ht _ _ Hq). split; [lia|done].
  - unfold contents_of. rewrite bt_list_insert_last.
    2: { intros t' p' Hq. unfold key_lt. simpl. apply Z.ltb_lt. eauto. }
    rewrite omap_app. f_equal.
    + assert (forall x, x ∈ bt_list r -> r !! x.1 = Some x.2) as Hin by (intros [] ?; by apply elem_of_bt_list).
      induction (bt_list r) as [|[t' q] l IH]; [done|]. rewrite !omap_view_cons.
      specialize (Hin (t', q) ltac:(left)) as Hq. apply Hi in Hq as (e & He & _). simpl in He.
      rewrite lookup_insert_ne by congruence. rewrite IH by (intros; apply Hin; by right). done.
    + rewrite omap_view_cons, lookup_insert_eq. done.
Qed.

Lemma contents_pages m r : indexed m r -> (contents_of m r).*1 = (bt_list r).*2.
Proof.
  intros Hi. unfold contents_of.
  assert (forall x, x ∈ bt_list r -> r !! x.1 = Some x.2) as Hin by (intros [] ?; by apply elem_of_bt_list).
  induction (bt_list r) as [|[t q] l IH]; [done|]. rewrite omap_view_cons.
  pose proof (Hin (t, q) ltac:(left)) as (e & He & _)%Hi. simpl in He. rewrite He. cbn. f_equal. apply IH. intros; apply Hin. by right.
Qed.

Lemma contents_NoDup m r : indexed m r -> NoDup (contents_of m r).*1.
Proof.
  intros Hi. rewrite contents_pages by done.
  apply (NoDup_fmap_2_strong snd (bt_list r)).
  - intros [t p] [t' p'] Hx%elem_of_bt_list Hy%elem_of_bt_list. simpl. intros ->.
    apply Hi in Hx as (e & He & <-). apply Hi in Hy as (e' & He' & <-). congruence.
  - apply NoDup_fmap_1 with fst. apply keys_sorted_NoDup, bt_list_sorted.
Qed.

Lemma spec_lookup_Some l p v b :
  NoDup l.*1 -> spec_lookup p l = Some (v, b) <-> (p, (v, b)) ∈ l.
Proof.
  unfold spec_lookup. induction l as [|[q [w c]] l IH]; simpl.
  - intros _. split; [done|]. by intros ?%elem_of_nil.
  - intros [Hq Hnd]%NoDup_cons. rewrite elem_of_cons. destruct (Z.eqb_spec q p) as [->|Hne].
    + split; [intros [= -> ->]; by left|]. intros [[= -> ->]|Hin]; [done|]. destruct Hq.
      by apply (list_elem_of_fmap_2 fst _ (p, (v, b))).
    + rewrite IH by done. naive_solver.
Qed.

Lemma spec_lookup_contents m r p :
  indexed m r -> spec_lookup p (contents_of m r) = (fun e => (e_value e, e_bytes e)) <$> m !! p.
Proof.
  intros Hi. pose proof (contents_NoDup _ _ Hi) as Hnd. destruct (m !! p) as [e|] eqn:Hp; simpl.
  - apply spec_lookup_Some; [done|]. apply list_elem_of_omap. exists (e_tick e, p).
    split; [apply elem_of_bt_list, Hi; eauto|]. unfold view. simpl. by rewrite Hp.
  - destruct (spec_lookup p (contents_of m r)) as [[v b]|] eqn:Hl; [|done].
    apply spec_lookup_Some in Hl; [|done]. apply list_elem_of_omap in Hl as ([t q] & _ & Hv).
    unfold view in Hv. simpl in Hv. destruct (m !! q) as [e|] eqn:Hq; simpl in Hv; congruence.
Qed.

Lemma spec_remove_absent l p : spec_lookup p l = None -> spec_remove p l = l.
Proof.
  unfold spec_lookup, spec_remove. induction l as [|[q x] l IH]; [done|]. simpl.
  destruct (Z.eqb_spec q p); [done|]. intros Hl. rewrite filter_cons_True by done. f_equal. auto.
Qed.

Lemma spec_bytes_app l1 l2 : spec_bytes (l1 ++ l2) = spec_bytes l1 + spec_bytes l2.
Proof. induction l1; simpl; lia. Qed.

Lemma spec_bytes_remove l p v b :
  NoDup l.*1 -> spec_lookup p l = Some (v, b) -> spec_bytes (spec_remove p l) = spec_bytes l - b.
Proof.
  unfold spec_lookup. induction l as [|[q [w c]] l IH]; simpl; [done|]. intros [Hq Hnd]%NoDup_cons.
  unfold spec_remove in *. destruct (Z.eqb_spec q p) as [->|Hne]; simpl.
  - intros [= -> ->]. rewrite filter_cons_False by naive_solver. fold (spec_remove p l).
    rewrite spec_remove_absent; [lia|]. destruct (spec_lookup p l) as [[v' b']|] eqn:Hl; [|done].
    apply spec_lookup_Some in Hl; [|done]. destruct Hq. by apply (list_elem_of_fmap_2 fst _ (p, (v', b'))).
  - intros Hl. rewrite filter_cons_True by done. simpl. rewrite IH by done. lia.
Qed.

(** ** The operations *)

Lemma wf_new c : lru_wf (lru_new c).
Proof.
  split; cbn [lru_map recency next_tick lru_bytes lru_new].
  - intros t p. rewrite lookup_empty. split; [done|]. intros (e & He & _). by rewrite lookup_empty in He.
  - intros t p. by rewrite lookup_empty.
  - intros p e. by rewrite lookup_empty.
  - unfold abs, contents_of. cbn [lru_map recency lru_new]. by rewrite bt_list_empty.
Qed.

Lemma lookup_abs s p : lru_wf s -> spec_lookup p (abs s) = (fun e => (e_value e, e_bytes e)) <$> lru_map s !! p.
Proof. intros Hw. apply spec_lookup_contents, Hw. Qed.

Lemma get_refines s p :
  lru_wf s -> let '(o, s') := lru_get p s in
  lru_wf s' /\ capacity s' = capacity s /\ lru_bytes s' = lru_bytes s /\ spec_get p (abs s) = (o, abs s').
Proof.
  intros Hw. unfold lru_get, take_tick, spec_get. cbn beta iota. rewrite lookup_abs by done.
  destruct Hw as [Hi Ht Hs Hb]. cbn [lru_map recency next_tick lru_bytes capacity hits misses].
  destruct (lru_map s !! p) as [e|] eqn:Hp; simpl.
  - destruct (move_remove _ _ _ _ Hi Hp) as [Hi1 Hc1].
    destruct (move_push _ _ p (e_value e) (e_bytes e) (next_tick s) Hi1 (lookup_delete_eq _ _)) as [Hi2 Hc2].
    { intros t' p' [_ Hq]%lookup_delete_Some. eauto. }
    rewrite insert_delete_eq in Hi2, Hc2.
    pose proof (spec_lookup_contents _ _ p Hi) as Hl. rewrite Hp in Hl. simpl in Hl.
    assert (spec_bytes (spec_remove p (abs s) ++ [(p, (e_value e, e_bytes e))]) = lru_bytes s) as Hbytes.
    { rewrite spec_bytes_app. unfold abs. rewrite (spec_bytes_remove _ _ _ _ (contents_NoDup _ _ Hi) Hl). fold (abs s). simpl. lia. }
    split; [|split; [done|split; [done|]]].
    + split; simpl; [done| | |].
      * intros t q [[<- _]|[_ [_ Hq]%lookup_delete_Some]]%lookup_insert_Some; [lia|]. specialize (Ht _ _ Hq). lia.
      * intros q e' [[_ <-]|[_ Hq]]%lookup_insert_Some; simpl; eauto.
      * unfold abs. simpl. rewrite Hc2, Hc1. symmetry. exact Hbytes.
    + unfold abs. simpl. by rewrite Hc2, Hc1.
  - split; [|by split]. split; simpl; try done. intros t q Hq. specialize (Ht _ _ Hq). lia.
Qed.

Lemma remove_refines s p :
  lru_wf s -> let s' := lru_remove p s in
  lru_wf s' /\ capacity s' = capacity s /\ abs s' = spec_remove p (abs s).
Proof.
  intros Hw. unfold lru_remove. pose proof (lookup_abs s p Hw) as Hl.
  destruct (lru_map s !! p) as [e|] eqn:Hp; simpl in Hl.
  - destruct Hw as [Hi Ht Hs Hb]. destruct (move_remove _ _ _ _ Hi Hp) as [Hi1 Hc1].
    split; [|split; [done|exact Hc1]]. split; simpl; [done| | |].
    + intros t q [_ Hq]%lookup_delete_Some. eauto.
    + intros q e' [_ Hq]%lookup_delete_Some. eauto.
    + unfold abs. simpl. rewrite Hc1, Hb. symmetry. exact (spec_bytes_remove _ _ _ _ (contents_NoDup _ _ Hi) Hl).
  - split; [done|]. split; [done|]. by rewrite spec_remove_absent.
Qed.

(** One eviction removes the oldest page. *)
Lemma abs_oldest s t p l :
  lru_wf s -> bt_list (recency s) = (t, p) :: l ->
  exists e, lru_map s !! p = Some e /\ e_tick e = t /\
    abs s = (p, (e_value e, e_bytes e)) :: spec_remove p (abs s).
Proof.
  intros [Hi Ht Hs Hb] Hl. assert (recency s !! t = Some p) as (e & He & Het)%Hi.
  { apply elem_of_bt_list. rewrite Hl. left. }
  exists e. split; [done|]. split; [done|]. pose proof (contents_NoDup _ _ Hi) as Hnd.
  unfold abs, contents_of in *. rewrite Hl, omap_view_cons, He in *. cbn in Hnd. apply NoDup_cons in Hnd as [Hp _].
  f_equal. unfold spec_remove. rewrite filter_cons_False by (simpl; tauto). fold (spec_remove p (omap (view (lru_map s)) l)).
  symmetry. apply spec_remove_absent. unfold spec_lookup.
  destruct (find _ _) as [x|] eqn:Hf; [|done]. apply find_some in Hf as [Hin Heq%Z.eqb_eq]. destruct Hp. rewrite <- Heq.
  apply list_elem_of_fmap_2. by apply list_elem_of_In.
Qed.

Lemma evict_refines fuel s :
  lru_wf s -> (length (bt_list (recency s)) < fuel)%nat ->
  let s' := evict fuel s in
  lru_wf s' /\ capacity s' = capacity s /\ abs s' = spec_trim (capacity s) (abs s).
Proof.
  revert s. induction fuel as [|fuel IH]; intros s Hw Hf; [lia|]. cbn [evict]. cbn zeta.
  pose proof (lw_bytes _ Hw) as Hb. unfold bt_first. destruct (bt_list (recency s)) as [|[t p] l] eqn:Hl; cbn [head].
  - assert (abs s = []) as Ha by (unfold abs, contents_of; by rewrite Hl). rewrite Ha. by destruct (_ <? _).
  - destruct (abs_oldest s t p l Hw Hl) as (e & He & <- & Ha). rewrite Ha. cbn [spec_trim]. rewrite <- Ha, <- Hb.
    destruct (Z.ltb_spec (capacity s) (lru_bytes s)) as [Hlt|Hge]; [|done]. rewrite He.
    pose proof (remove_refines s p Hw) as Hr. unfold lru_remove in Hr. rewrite He in Hr. destruct Hr as (Hw' & Hc' & Ha').
    destruct (IH _ Hw') as (Hw2 & Hc2 & Ha2).
    { cbn [recency]. rewrite (bt_list_pop _ _ _ _ Hl). simpl in Hf. lia. }
    rewrite Ha' in Ha2. by split.
Qed.

Lemma insert_refines s p v b :
  lru_wf s -> 0 <= b -> let s' := lru_insert p v b s in
  lru_wf s' /\ capacity s' = capacity s /\ abs s' = spec_insert (capacity s) p v b (abs s).
Proof.
  intros Hw Hb0. unfold lru_insert, spec_insert. cbn zeta. destruct (_ <? _); [done|]. unfold take_tick. cbn beta iota.
  cbn [lru_map recency next_tick lru_bytes capacity hits misses].
  set (s1 := lru_remove p s). destruct (remove_refines s p Hw) as (Hw1 & Hc1 & Ha1). fold s1 in Hw1, Hc1, Ha1.
  assert (lru_map s1 = delete p (lru_map s) /\ next_tick s1 = next_tick s /\ match lru_map s !! p with
     | Some previous => (delete (e_tick previous) (recency s), lru_bytes s - e_bytes previous)
     | None => (recency s, lru_bytes s) end = (recency s1, lru_bytes s1)) as (Hm & Hn & ->).
  { unfold s1, lru_remove. destruct (lru_map s !! p) eqn:Hp; [done|]. by rewrite delete_id. }
  destruct Hw1 as [Hi Ht Hs Hb].
  destruct (move_push _ _ p v b (next_tick s) Hi) as [Hi2 Hc2].
  { by rewrite Hm, lookup_delete_eq. } { rewrite <- Hn. exact Ht. }
  rewrite Hm, insert_delete_eq in Hi2. rewrite Hm, insert_delete_eq, <- Hm in Hc2. fold (abs s1) in Hc2. rewrite Ha1 in Hc2.
  set (s2 := mkLru _ _ _ _ _ _ _). destruct (evict_refines (S (size (recency s2))) s2) as (Hw3 & Hc3 & Ha3).
  - split; cbn [s2 lru_map recency next_tick lru_bytes]; [done| | |].
    + intros t q [[<- _]|[_ Hq]]%lookup_insert_Some; [lia|]. specialize (Ht _ _ Hq). lia.
    + intros q e [[_ <-]|[Hne Hq]]%lookup_insert_Some; [done|]. apply (Hs q). rewrite Hm.
      apply lookup_delete_Some. by split.
    + unfold abs. cbn [s2 lru_map recency]. rewrite Hc2, spec_bytes_app, <- Ha1, Hb. simpl. lia.
  - rewrite bt_list_perm, length_map_to_list. lia.
  - split; [exact Hw3|]. split; [exact Hc3|]. etransitivity; [exact Ha3|].
    unfold abs at 1. cbn [s2 lru_map recency capacity]. by rewrite Hc2.
Qed.

(** ** What a cache holds, for its clients *)

Definition lru_holds (c : LruInner) (p : PageId) (v : V) : Prop := exists e, lru_map c !! p = Some e /\ e_value e = v.

Lemma lru_get_value p c v c' : lru_get p c = (Some v, c') -> lru_holds c p v.
Proof.
  unfold lru_get, take_tick. cbn beta iota. cbn [lru_map]. destruct (lru_map c !! p) as [e|] eqn:Hp; [|by intros [=]].
  intros [= <- _]. by exists e.
Qed.

Lemma lru_get_keeps p c o c' q v : lru_get p c = (o, c') -> lru_holds c' q v -> lru_holds c q v.
Proof.
  unfold lru_get, take_tick. cbn beta iota. cbn [lru_map]. destruct (lru_map c !! p) as [e|] eqn:Hp; intros [= _ <-]; [|done].
  intros (e' & Hq & <-). cbn [lru_map] in Hq. apply lookup_insert_Some in Hq as [[<- <-]|[_ Hq]]; [by exists e|by exists e'].
Qed.

Lemma evict_keeps fuel c q v : lru_holds (evict fuel c) q v -> lru_holds c q v.
Proof.
  revert c. induction fuel as [|fuel IH]; intros c; [done|]. cbn [evict]. destruct (_ <? _); [|done].
  destruct (bt_first (recency c)) as [[t p]|]; [|done]. destruct (lru_map c !! p) as [e|]; intros Hh%IH; [|done].
  destruct Hh as (e' & He' & <-). cbn [lru_map] in He'. apply lookup_delete_Some in He' as [_ He']. by exists e'.
Qed.

Lemma lru_insert_keeps p x b c q v :
  lru_holds (lru_insert p x b c) q v -> q = p /\ v = x \/ lru_holds c q v.
Proof.
  unfold lru_insert. destruct (_ <? _); [by right|]. unfold take_tick. cbn beta iota.
  destruct (match lru_map _ !! p with Some _ => _ | None => _ end) as [r b'].
  intros Hh%evict_keeps. destruct Hh as (e & He & <-). cbn [lru_map] in He.
  apply lookup_insert_Some in He as [[<- <-]|[_ He]]; [by left|right; by exists e].
Qed.

Lemma lru_remove_keeps p c q v : lru_holds (lru_remove p c) q v -> q <> p /\ lru_holds c q v.
Proof.
  unfold lru_remove. destruct (lru_map c !! p) as [e|] eqn:Hp.
  - intros (e' & He' & <-). cbn [lru_map] in He'. apply lookup_delete_Some in He' as [Hne He'].
    split; [done|by exists e'].
  - intros (e' & He' & <-). split; [congruence|by exists e'].
Qed.

(** ** Runs of the cache *)

Inductive lru_op :=
| OpGet (page_id : PageId)
| OpInsert (page_id : PageId) (value : V) (bytes : Z)
| OpRemove (page_id : PageId).

Definition op_ok (o : lru_op) : Prop := match o with OpInsert _ _ b => 0 <= b | _ => True end.

Fixpoint lru_run (ops : list lru_op) (s : LruInner) : list (option V) * LruInner :=
  match ops with
  | [] => ([], s)
  | OpGet p :: ops => let '(o, s) := lru_get p s in let '(os, s) := lru_run ops s in (o :: os, s)
  | OpInsert p v b :: ops => lru_run ops (lru_insert p v b s)
  | OpRemove p :: ops => lru_run ops (lru_remove p s)
  end.

Fixpoint spec_run (budget : Z) (ops : list lru_op) (l : used) : list (option V) * used :=
  match ops with
  | [] => ([], l)
  | OpGet p :: ops => let '(o, l) := spec_get p l in let '(os, l) := spec_run budget ops l in (o :: os, l)
  | OpInsert p v b :: ops => spec_run budget ops (spec_insert budget p v b l)
  | OpRemove p :: ops => spec_run budget ops (spec_remove p l)
  end.

Lemma run_refines ops s :
  lru_wf s -> Forall op_ok ops ->
  let '(os, s') := lru_run ops s in
  lru_wf s' /\ capacity s' = capacity s /\ spec_run (capacity s) ops (abs s) = (os, abs s').
Proof.
  revert s. induction ops as [|o ops IH]; intros s Hw Hok; [by simpl|]. apply Forall_cons in Hok as [Ho Hok].
  destruct o as [p|p v b|p]; cbn [lru_run spec_run].
  - pose proof (get_refines s p Hw) as Hg. destruct (lru_get p s) as [o s1]. destruct Hg as (Hw1 & Hc1 & _ & ->).
    specialize (IH s1 Hw1 Hok). destruct (lru_run ops s1) as [os s2]. destruct IH as (Hw2 & Hc2 & Hr2).
    rewrite Hc1 in Hr2, Hc2. rewrite Hr2. by split.
  - destruct (insert_refines s p v b Hw Ho) as (Hw1 & Hc1 & Ha1). specialize (IH _ Hw1 Hok).
    rewrite Hc1, Ha1 in IH. exact IH.
  - destruct (remove_refines s p Hw) as (Hw1 & Hc1 & Ha1). specialize (IH _ Hw1 Hok).
    rewrite Hc1, Ha1 in IH. exact IH.
Qed.

Lemma spec_trim_bound c l : 0 <= c -> spec_bytes (spec_trim c l) <= c.
Proof.
  intros Hc. induction l as [|x l IH]; [done|]. cbn [spec_trim]. destruct (Z.ltb_spec c (spec_bytes (x :: l))); [done|lia].
Qed.

Lemma spec_bytes_nonneg l : Forall (fun x => 0 <= x.2.2) l -> 0 <= spec_bytes l.
Proof. induction 1; simpl; lia. Qed.

Lemma spec_bytes_filter (P : PageId * (V * Z) -> Prop) `{!forall x, Decision (P x)} l :
  Forall (fun x => 0 <= x.2.2) l -> spec_bytes (filter P l) <= spec_bytes l.
Proof. induction 1; simpl; [done|]. rewrite filter_cons. destruct (decide _); simpl; lia. Qed.

Lemma abs_sizes s : lru_wf s -> Forall (fun x => 0 <= x.2.2) (abs s).
Proof.
  intros [Hi Ht Hs Hb]. apply Forall_forall. intros x ([t q] & _ & Hv)%list_elem_of_omap. unfold view in Hv. simpl in Hv.
  destruct (lru_map s !! q) as [e|] eqn:Hq; simpl in Hv; [|done]. injection Hv as <-. simpl. eauto.
Qed.

Lemma run_bytes ops s :
  lru_wf s -> Forall op_ok ops -> 0 <= capacity s -> lru_bytes s <= capacity s ->
  lru_bytes (lru_run ops s).2 <= capacity s.
Proof.
  revert s. induction ops as [|o ops IH]; intros s Hw Hok Hc Hb; [done|]. apply Forall_cons in Hok as [Ho Hok].
  destruct o as [p|p v b|p]; cbn [lru_run].
  - pose proof (get_refines s p Hw) as Hg. destruct (lru_get p s) as [o s1]. destruct Hg as (Hw1 & Hc1 & Hb1 & _).
    specialize (IH s1 Hw1 Hok). destruct (lru_run ops s1). simpl in *. rewrite Hc1, Hb1 in IH. auto.
  - destruct (insert_refines s p v b Hw Ho) as (Hw1 & Hc1 & Ha1). specialize (IH _ Hw1 Hok). rewrite Hc1 in IH.
    apply IH; [done|]. rewrite (lw_bytes _ Hw1), Ha1. unfold spec_insert. destruct (_ <? _); [by rewrite <- (lw_bytes _ Hw)|].
    by apply spec_trim_bound.
  - destruct (remove_refines s p Hw) as (Hw1 & Hc1 & Ha1). specialize (IH _ Hw1 Hok). rewrite Hc1 in IH.
    apply IH; [done|]. rewrite (lw_bytes _ Hw1), Ha1. unfold spec_remove.
    pose proof (spec_bytes_filter (fun x => x.1 <> p) _ (abs_sizes _ Hw)). rewrite <- (lw_bytes _ Hw) in *. lia.
Qed.

(** C35: The cache is a least-recently-used list: in every run of lookups,
    insertions and removals, the answers are those of a list kept in order
    of use and trimmed from its old end to the byte budget, and the bytes
    held never exceed the budget. *)
Theorem lru_refines_list c ops :
  0 <= c -> Forall op_ok ops ->
  let '(answers, s) := lru_run ops (lru_new c) in
  spec_run c ops [] = (answers, abs s) /\ lru_bytes s = spec_bytes (abs s) /\ 0 <= lru_bytes s <= c.
Proof.
  intros Hc Hok. pose proof (run_refines ops _ (wf_new c) Hok) as Hr.
  pose proof (run_bytes ops _ (wf_new c) Hok Hc Hc) as Hb. destruct (lru_run ops (lru_new c)) as [os s].
  destruct Hr as (Hw & _ & Hr). unfold abs at 1, contents_of in Hr. cbn [lru_map recency lru_new] in Hr. rewrite bt_list_empty in Hr.
  pose proof (lw_bytes _ Hw) as Hbs. pose proof (spec_bytes_nonneg _ (abs_sizes _ Hw)).
  split; [exact Hr|]. split; [exact Hbs|]. simpl in Hb. lia.
Qed.
End ByteLru.
Arguments LruEntry : clear implicits.
Arguments LruInner : clear implicits.
Arguments lru_op : clear implicits.

Lemma lru_refines_list_witness :
  let ops := [OpInsert 1 true 4; OpInsert 2 true 4; OpGet 1; OpInsert 3 true 4; OpGet 2; OpGet 1] in
  fst (lru_run ops (lru_new 10)) = [Some true; None; Some true] /\
  spec_run 10 ops [] = ([Some true; None; Some true], abs (snd (lru_run ops (lru_new 10)))).
Proof.
  intros ops. assert (Forall op_ok ops) as Hok by (repeat constructor; simpl; lia).
  pose proof (lru_refines_list 10 ops ltac:(lia) Hok) as Hr. split; [vm_compute; reflexivity|].
  destruct (lru_run ops (lru_new 10)) as [os s] eqn:Hrun.
  assert (os = [Some true; None; Some true]) as ->.
  { change os with (fst (os, s)). rewrite <- Hrun. vm_compute. reflexivity. }
  exact (proj1 Hr).
Defined.
