(* ===== verification/BufferPool.v ===== *)
(** * The buffer pool

    Models [src/storage/src/buffer_pool.rs]: a bounded write-through cache
    of pages in front of the durable store, with least-recently-used
    eviction.  In every history of the pool a lookup answers what the store
    would, and the number of frames never exceeds the capacity. *)
From S2P Require Import Prelude Page Order Files DataFile Wal WalLog Store Replay StoreInv StoreWrite StoreFlush Durability.
Local Open Scope Z_scope.

Record Frame := mkFrame {
  f_page : Page;
  last_access : Z;
}.

Record BufferPoolStats := mkPoolStats {
  p_hits : Z;
  p_misses : Z;
  p_evictions : Z;
}.

Record BufferPool := mkPool {
  store : DurableStore;
  p_capacity : Z;
  clock : Z;
  frames : gmap PageId Frame;
  p_stats : BufferPoolStats;
}.

Definition pool_new (s : DurableStore) (capacity : Z) : Result BufferPool :=
  if capacity =? 0 then Err (Configuration ZeroBufferPool)
  else Ok (mkPool s capacity 0 ∅ (mkPoolStats 0 0 0)).

Abbreviation PoolM := (ST BufferPool StorageError).

Definition set_store (s : DurableStore) (b : BufferPool) : BufferPool :=
  mkPool s (p_capacity b) (clock b) (frames b) (p_stats b).
Definition set_frames (m : gmap PageId Frame) (b : BufferPool) : BufferPool :=
  mkPool (store b) (p_capacity b) (clock b) m (p_stats b).
Definition bump (z : Z) : Z := saturating_add U64_MAX z 1.

Definition tick (b : BufferPool) : BufferPool :=
  mkPool (store b) (p_capacity b) (bump (clock b)) (frames b) (p_stats b).
Definition count_hit (b : BufferPool) : BufferPool :=
  mkPool (store b) (p_capacity b) (clock b) (frames b)
    (mkPoolStats (bump (p_hits (p_stats b))) (p_misses (p_stats b)) (p_evictions (p_stats b))).
Definition count_miss (b : BufferPool) : BufferPool :=
  mkPool (store b) (p_capacity b) (clock b) (frames b)
    (mkPoolStats (p_hits (p_stats b)) (bump (p_misses (p_stats b))) (p_evictions (p_stats b))).
Definition count_eviction (b : BufferPool) : BufferPool :=
  mkPool (store b) (p_capacity b) (clock b) (frames b)
    (mkPoolStats (p_hits (p_stats b)) (p_misses (p_stats b)) (bump (p_evictions (p_stats b)))).

Definition on_store {A} (m : ST DurableStore StorageError A) : PoolM A := zoom store set_store m.

(** [min_by_key]: the first binding with the least recent access.  A
    [HashMap] iterates in no particular order; key order stands for it. *)
Definition older_frame (x : PageId * Frame) (best : option (PageId * Frame)) : option (PageId * Frame) :=
  match best with
  | Some y => if last_access y.2 <? last_access x.2 then Some y else Some x
  | None => Some x
  end.

Definition victim (m : gmap PageId Frame) : option PageId := fst <$> foldr older_frame None (bt_list m).

Definition make_room (incoming : PageId) : PoolM unit :=
  b ← get;
  if bool_decide (is_Some (frames b !! incoming)) || (Z.of_nat (size (frames b)) <? p_capacity b) then mret tt
  else
    p ← lift (ok_or (victim (frames b)) (BufferPoolExhausted (p_capacity b)));
    _ ← modify (fun b => set_frames (delete p (frames b)) b);
    modify count_eviction.

Definition put_frame (page_id : PageId) (page : Page) (b : BufferPool) : BufferPool :=
  set_frames (<[page_id := mkFrame page (clock b)]> (frames b)) b.

Definition insert_frame (page : Page) : PoolM unit :=
  _ ← modify tick;
  b ← get;
  _ ← (if bool_decide (is_Some (frames b !! id page)) then mret tt else make_room (id page));
  modify (put_frame (id page) page).

Section Pool.
Context `{Crc32}.

Definition pool_get (page_id : PageId) : PoolM (option Page) :=
  _ ← modify tick;
  b ← get;
  match frames b !! page_id with
  | Some frame =>
      _ ← modify count_hit;
      _ ← modify (put_frame page_id (f_page frame));
      mret (Some (f_page frame))
  | None =>
      _ ← modify count_miss;
      found ← lift (read_page (store b) page_id);
      match found with
      | None => mret None
      | Some page =>
          _ ← make_room page_id;
          _ ← modify (put_frame page_id page);
          mret (Some page)
      end
  end.

Definition pool_allocate (payload : list byte) : PoolM PageId :=
  page_id ← on_store (allocate_page payload);
  b ← get;
  found ← lift (read_page (store b) page_id);
  page ← lift (ok_or found (PageNotFound page_id));
  _ ← insert_frame page;
  mret page_id.

Definition pool_write (page_id : PageId) (payload : list byte) : PoolM Lsn :=
  l ← on_store (write_page page_id payload);
  page ← lift (with_lsn page_id l payload);
  _ ← insert_frame page;
  mret l.

Definition pool_checkpoint : PoolM Lsn := on_store checkpoint.

Definition pool_len (b : BufferPool) : Z := Z.of_nat (size (frames b)).
End Pool.

(** ** Histories and their invariant *)

Section PoolLemmas.
Context `{Crc32}.

Inductive pool_reach : BufferPool -> contents -> Prop :=
| pr_new s c capacity b :
    reach s Idle c -> 0 <= capacity -> pool_new s capacity = Ok b -> pool_reach b c
| pr_get b c p o b' :
    pool_reach b c -> valid_id p -> pool_get p b = (Ok o, b') -> pool_reach b' c
| pr_write b c p pl l b' :
    pool_reach b c -> write_ok_input (mkPageWrite p pl) -> batch_room (wal (store b)) 1 ->
    pool_write p pl b = (Ok l, b') -> pool_reach b' (apply_writes [mkPageWrite p pl] c)
| pr_allocate b c p pl b' :
    pool_reach b c -> write_ok_input (mkPageWrite p pl) -> batch_room (wal (store b)) 1 ->
    pool_allocate pl b = (Ok p, b') -> pool_reach b' (apply_writes [mkPageWrite p pl] c)
| pr_checkpoint b c l b' :
    pool_reach b c -> batch_room (wal (store b)) 0 -> pool_checkpoint b = (Ok l, b') -> pool_reach b' c.

(** The frames hold the store's own pages, and fit. *)
Definition frames_ok (m : gmap PageId Frame) (v : PageId -> option Page) : Prop :=
  forall p f, m !! p = Some f -> v p = Some (f_page f).

Record pool_good (b : BufferPool) (v : PageId -> option Page) : Prop := {
  pg_store : exists o n wo wn, inv (store b) Idle v o n wo wn;
  pg_frames : frames_ok (frames b) v;
  pg_room : 0 < p_capacity b;
  pg_size : Z.of_nat (size (frames b)) <= p_capacity b;
}.

Lemma victim_None m : victim m = None -> m = ∅.
Proof.
  unfold victim. intros Hv. apply bt_first_None. unfold bt_first. destruct (bt_list m) as [|x l]; [done|].
  simpl in Hv. unfold older_frame in Hv. destruct (foldr _ _ l); [|done]. by destruct (_ <? _).
Qed.

Lemma victim_Some m p : victim m = Some p -> is_Some (m !! p).
Proof.
  unfold victim. assert (forall x, foldr older_frame None (bt_list m) = Some x -> x ∈ bt_list m) as Hin.
  { induction (bt_list m) as [|y l IH]; intros x; [done|]. simpl. unfold older_frame at 1.
    destruct (foldr older_frame None l) as [z|] eqn:Hz; [|intros [= ->]; left].
    destruct (_ <? _); intros [= ->]; [right; auto|left]. }
  destruct (foldr older_frame None (bt_list m)) as [[q f]|] eqn:Hf; [|done]. simpl. intros [= <-].
  exists f. apply elem_of_bt_list. auto.
Qed.

(** Making room keeps everything but at most one frame. *)
Lemma make_room_ok p b :
  0 < p_capacity b -> Z.of_nat (size (frames b)) <= p_capacity b -> frames b !! p = None ->
  exists b', make_room p b = (Ok tt, b') /\ store b' = store b /\ p_capacity b' = p_capacity b /\
    frames b' ⊆ frames b /\ Z.of_nat (size (frames b')) < p_capacity b /\ clock b' = clock b.
Proof.
  intros Hc Hs Hp. unfold make_room. st_run. rewrite Hp. rewrite bool_decide_false by (by intros [? ?]). cbn [orb].
  destruct (Z.ltb_spec (Z.of_nat (size (frames b))) (p_capacity b)); [by exists b|].
  destruct (victim (frames b)) as [q|] eqn:Hv; cbn [ok_or].
  - eexists. split; [reflexivity|]. cbn [count_eviction set_frames store p_capacity frames clock].
    split; [done|]. split; [done|]. split; [apply delete_subseteq|]. split; [|done].
    apply victim_Some in Hv as [f Hf]. pose proof (map_size_delete_Some q (frames b) ltac:(eauto)). lia.
  - apply victim_None in Hv. rewrite Hv, map_size_empty in *. lia.
Qed.

Lemma frames_ok_put m v p page t :
  frames_ok m v -> v p = Some page -> frames_ok (<[p := mkFrame page t]> m) v.
Proof. intros Hm Hv q f [[<- <-]|[_ Hq]]%lookup_insert_Some; [done|]. eauto. Qed.

(** Storing a page that the store holds makes the pool good, whatever the
    pool held for it before. *)
Lemma pool_good_put b v p page o n wo wn :
  inv (store b) Idle v o n wo wn -> frames_ok (delete p (frames b)) v -> v p = Some page -> 0 < p_capacity b ->
  (is_Some (frames b !! p) /\ Z.of_nat (size (frames b)) <= p_capacity b \/ Z.of_nat (size (frames b)) < p_capacity b) ->
  pool_good (put_frame p page b) v.
Proof.
  intros Hst Hf Hv Hr Hsize. split; cbn [put_frame set_frames store p_capacity frames].
  - by exists o, n, wo, wn.
  - rewrite <- insert_delete_eq. by apply frames_ok_put.
  - done.
  - rewrite map_size_insert. destruct Hsize as [[[f ->] Hs]|Hs]; cbn; [lia|]. destruct (_ !! _); cbn; lia.
Qed.

Lemma frames_ok_sub m m' v : frames_ok m v -> m' ⊆ m -> frames_ok m' v.
Proof. intros Hm Hsub p f Hp. apply Hm. by eapply lookup_weaken. Qed.

Lemma pool_read b v p : pool_good b v -> valid_id p -> read_page (store b) p = Ok (v p).
Proof. intros [(o & n & wo & wn & Hinv) _ _ _] Hp. eapply read_view; [apply Hinv|done]. Qed.

(** [insert_frame], with a stale frame for its page allowed before it. *)
Lemma insert_frame_ok b v page o n wo wn :
  inv (store b) Idle v o n wo wn -> frames_ok (delete (id page) (frames b)) v -> v (id page) = Some page ->
  0 < p_capacity b -> Z.of_nat (size (frames b)) <= p_capacity b ->
  exists b', insert_frame page b = (Ok tt, b') /\ pool_good b' v.
Proof.
  intros Hst Hf Hv Hc Hs. unfold insert_frame. st_run. cbn [tick frames].
  case_bool_decide as Hin.
  - eexists. split; [reflexivity|]. eapply pool_good_put; cbn [tick frames store p_capacity]; eauto.
  - apply eq_None_not_Some in Hin. rewrite delete_id in Hf by done.
    destruct (make_room_ok (id page) (tick b)) as (b1 & -> & Hs1 & Hc1 & Hf1 & Hsz1 & _); [done..|].
    eexists. split; [reflexivity|]. cbn [tick frames store p_capacity] in *.
    apply (pool_good_put _ v _ _ o n wo wn); rewrite ?Hs1, ?Hc1; auto.
    eapply frames_ok_sub; [exact Hf|]. etransitivity; [apply delete_subseteq|done].
Qed.

Lemma pool_get_ok b v p :
  pool_good b v -> valid_id p -> exists b', pool_get p b = (Ok (v p), b') /\ pool_good b' v.
Proof.
  intros Hg Hp. pose proof (pool_read b v p Hg Hp) as Hread. destruct Hg as [(o & n & wo & wn & Hst) Hf Hc Hs].
  unfold pool_get. st_run. cbn [tick frames store]. destruct (frames b !! p) as [f|] eqn:Hfp.
  - assert (v p = Some (f_page f)) as Hv by (by apply Hf). rewrite Hv. eexists. split; [reflexivity|].
    apply (pool_good_put _ v p (f_page f) o n wo wn); cbn [count_hit tick store p_capacity frames]; eauto.
    eapply frames_ok_sub; [exact Hf|apply delete_subseteq].
  - rewrite Hread. destruct (v p) as [page|] eqn:Hv.
    + destruct (make_room_ok p (count_miss (tick b))) as (b1 & -> & Hs1 & Hc1 & Hf1 & Hsz1 & _); [done..|].
      eexists. split; [reflexivity|]. cbn [count_miss tick frames store p_capacity] in *.
      apply (pool_good_put _ v p page o n wo wn); rewrite ?Hs1, ?Hc1; auto.
      eapply frames_ok_sub; [exact Hf|]. etransitivity; [apply delete_subseteq|done].
    + eexists. split; [reflexivity|]. split; eauto.
Qed.

(** One page through the store, at the level of whole pages. *)
Lemma write_page_view s v o n wo wn p pl :
  inv s Idle v o n wo wn -> write_ok_input (mkPageWrite p pl) -> batch_room (wal s) 1 ->
  let l := next_lsn (wal s) in
  exists s' v' n' wn', write_page p pl s = (Ok l, s') /\ inv s' Idle v' o n' wo wn' /\
    forall i, v' i = if i =? p then Some (mkPage p l pl) else v i.
Proof.
  intros Hinv Hw Hroom l. assert (Forall write_ok_input [mkPageWrite p pl]) as Hws by (by constructor).
  destruct (writes_validate _ Hws) as [ps Hps].
  destruct (inv_write s Idle v o n wo wn [mkPageWrite p pl] Hinv Hws ltac:(done) Hroom) as (s' & Hrun & Hinv').
  exists s', (override (batch_images l [mkPageWrite p pl]) v). eexists _, _. split; [|split; [exact Hinv'|]].
  - unfold write_page, write_pages, write_pages_with, refuse_poisoned. st_run.
    rewrite (iv_live _ _ _ _ _ _ _ Hinv), Hps. unfold poisoning. rewrite Hrun. reflexivity.
  - intros i. unfold override. rewrite batch_images_cons. cbn [last_image c_page_id c_lsn c_payload batch_images image_kinds batch_changes fmap list_fmap w_page_id w_payload].
    rewrite Z.eqb_sym. destruct (Z.eqb_spec i p) as [->|]; [done|]. done.
Qed.

(** Writing through, then caching what was written. *)
Lemma write_through_ok b v s1 v' o n wo wn p page :
  pool_good b v -> inv s1 Idle v' o n wo wn -> id page = p ->
  (forall i, v' i = if i =? p then Some page else v i) ->
  exists b', insert_frame page (set_store s1 b) = (Ok tt, b') /\ pool_good b' v'.
Proof.
  intros [_ Hf Hc Hs] Hinv Hid Hv. apply (insert_frame_ok _ v' page o n wo wn); cbn [set_store store frames p_capacity]; auto.
  - intros q f [Hne Hq]%lookup_delete_Some. rewrite Hv, Hid in *. destruct (Z.eqb_spec q p); [congruence|]. by apply Hf.
  - by rewrite Hv, Hid, Z.eqb_refl.
Qed.

Lemma pool_write_ok b v p pl :
  pool_good b v -> write_ok_input (mkPageWrite p pl) -> batch_room (wal (store b)) 1 ->
  let l := next_lsn (wal (store b)) in
  exists b' v', pool_write p pl b = (Ok l, b') /\ pool_good b' v' /\
    forall i, v' i = if i =? p then Some (mkPage p l pl) else v i.
Proof.
  intros Hg Hw Hroom l. pose proof Hg as [(o & n & wo & wn & Hinv) _ _ _].
  destruct (write_page_view _ _ _ _ _ _ p pl Hinv Hw Hroom) as (s1 & v' & n' & wn' & Hrun & Hinv' & Hv).
  destruct (write_through_ok b v s1 v' o n' wo wn' p (mkPage p l pl) Hg Hinv' eq_refl Hv) as (b' & Hins & Hg').
  exists b', v'. split; [|by split]. unfold pool_write, on_store. st_run. rewrite Hrun.
  unfold with_lsn. destruct Hw as [_ Hw]. cbn [w_payload] in Hw. destruct (Z.ltb_spec MAX_PAGE_PAYLOAD (blen pl)); [lia|].
  fold l. by rewrite Hins.
Qed.

Lemma inv_set_allocator s v o n wo wn a :
  inv s Idle v o n wo wn -> inv (set_allocator a s) Idle v o n wo wn.
Proof. by intros []; split. Qed.

Lemma pool_allocate_ok b v p pl b' :
  pool_good b v -> write_ok_input (mkPageWrite p pl) -> batch_room (wal (store b)) 1 ->
  pool_allocate pl b = (Ok p, b') ->
  exists v' l, pool_good b' v' /\ forall i, v' i = if i =? p then Some (mkPage p l pl) else v i.
Proof.
  intros Hg Hw Hroom. pose proof Hg as [(o & n & wo & wn & Hinv) _ _ _].
  unfold pool_allocate, on_store, allocate_page, on_allocator. st_run.
  destruct (Allocator.reserve 1 (allocator (store b))) as [[ids|e] a]; [|by intros [=]].
  destruct (ok_or (head ids) (Configuration PageIdSpaceExhausted)) as [q|e]; [|by intros [=]].
  pose proof (inv_set_allocator _ _ _ _ _ _ a Hinv) as Hinv0.
  destruct (decide (q = p)) as [->|Hne].
  - destruct (write_page_view _ _ _ _ _ _ p pl Hinv0 Hw Hroom) as (s1 & v' & n' & wn' & Hrun & Hinv' & Hv).
    rewrite Hrun. cbn [store set_store]. rewrite (read_view _ _ _ _ p (iv_data _ _ _ _ _ _ _ Hinv') (proj1 Hw)).
    pose proof (Hv p) as Hvp. rewrite Z.eqb_refl in Hvp. rewrite Hvp. cbn [ok_or set_allocator wal].
    destruct (write_through_ok b v s1 v' o n' wo wn' p (mkPage p (next_lsn (wal (store b))) pl) Hg Hinv' eq_refl Hv) as (b2 & Hins & Hg').
    change (next_lsn (wal (set_allocator a (store b)))) with (next_lsn (wal (store b))).
    rewrite Hins. intros [= <-]. exists v', (next_lsn (wal (store b))). by split.
  - destruct (write_page q pl _) as [[l|e] s1]; [|by intros [=]]. cbn [store set_store].
    destruct (read_page s1 q) as [[page|]|]; cbn [ok_or]; try by intros [=].
    destruct (insert_frame page _) as [[[]|e] b2]; by intros [=].
Qed.

Lemma pool_reach_good b c :
  pool_reach b c -> exists v, pool_good b v /\ forall i, payload <$> v i = c i.
Proof.
  induction 1 as [s c capacity b Hr Hcap Hnew|b c p o b' _ (v & Hg & Hv) Hp Hrun|b c p pl l b' _ (v & Hg & Hv) Hw Hroom Hrun
    |b c p pl b' _ (v & Hg & Hv) Hw Hroom Hrun|b c l b' _ (v & Hg & Hv) Hroom Hrun].
  - unfold pool_new in Hnew. destruct (Z.eqb_spec capacity 0) as [|Hne]; [discriminate Hnew|]. injection Hnew as <-.
    destruct (reach_good _ _ _ Hr) as (v & o & n & wo & wn & Hinv & Hv). exists v. split; [|done].
    split; cbn [store frames p_capacity]; [eauto|by intros p f ?%lookup_empty_Some|lia|]. rewrite map_size_empty. lia.
  - destruct (pool_get_ok b v p Hg Hp) as (b1 & Hrun' & Hg'). exists v. rewrite Hrun in Hrun'. injection Hrun' as _ <-. by split.
  - destruct (pool_write_ok b v p pl Hg Hw Hroom) as (b1 & v' & Hrun' & Hg' & Hv'). rewrite Hrun in Hrun'.
    injection Hrun' as _ <-. exists v'. split; [done|]. intros i. rewrite Hv'. cbn [apply_writes w_page_id w_payload].
    destruct (i =? p); [done|apply Hv].
  - destruct (pool_allocate_ok b v p pl b' Hg Hw Hroom Hrun) as (v' & l & Hg' & Hv'). exists v'. split; [done|].
    intros i. rewrite Hv'. cbn [apply_writes w_page_id w_payload]. destruct (i =? p); [done|apply Hv].
  - destruct Hg as [(o & n & wo & wn & Hinv) Hf Hc Hs].
    destruct (inv_checkpoint _ _ _ _ _ _ Hinv Hroom) as (s1 & Hrun' & Hinv' & _).
    revert Hrun. unfold pool_checkpoint, on_store, zoom. rewrite Hrun'. intros [= _ <-]. exists v. split; [|done].
    split; cbn [set_store store frames p_capacity]; eauto 6.
Qed.

(** C36: In every history of the pool (lookups, writes, allocations and
    checkpoints over a store), a lookup of any page succeeds and answers
    what was last written to it, and the frames never outnumber the
    capacity. *)
Theorem pool_reads_through b c :
  pool_reach b c ->
  pool_len b <= p_capacity b /\
  forall p, valid_id p -> exists o b', pool_get p b = (Ok o, b') /\ payload <$> o = c p.
Proof.
  intros Hr. destruct (pool_reach_good b c Hr) as (v & Hg & Hv). split; [apply Hg|]. intros p Hp.
  destruct (pool_get_ok b v p Hg Hp) as (b' & Hrun & _). exists (v p), b'. by split.
Qed.
End PoolLemmas.

(** ** A pool over a new store *)

#[local] Existing Instance sum_crc.

Lemma pool_reads_through_witness :
  exists b, pool_new created 4 = Ok b /\ pool_len b <= p_capacity b /\
    exists o b', pool_get 0 b = (Ok o, b') /\ payload <$> o = None.
Proof.
  assert (exists b, pool_new created 4 = Ok b) as [b Hb] by (eexists; reflexivity).
  exists b. split; [exact Hb|].
  assert (pool_reach b (fun _ => None)) as Hr by (exact (pr_new created _ 4 b reach_created ltac:(done) Hb)).
  destruct (pool_reads_through b _ Hr) as [Hlen Hget]. split; [exact Hlen|].
  apply (Hget 0). unfold valid_id, PAGE_SIZE, U64_MAX. lia.
Defined.
