(* ===== verification/Node.v ===== *)
(** * Index nodes

    Models [src/index/src/node.rs] and [src/index/src/error.rs]: the nodes
    of the B+ tree and their page format.  The encoder fills a zeroed buffer
    through a cursor, the decoder reads one back; a cursor is the state of
    an [ST] computation. *)
From S2P Require Import Prelude Page Order.
Local Open Scope Z_scope.

Definition NODE_MAGIC : list byte := bytes_of_string "QNIX".
Definition NODE_FORMAT_VERSION : Z := 1.
Definition NODE_HEADER_SIZE : Z := 32.
Definition LEAF_KIND : Z := 1.
Definition INTERNAL_KIND : Z := 2.
Definition NO_PAGE : Z := U64_MAX.
Definition LEAF_ENTRY_OVERHEAD : Z := 12.
Definition INTERNAL_ENTRY_OVERHEAD : Z := 12.

Inductive node_fault :=
| NodeShorterThanHeader
| InvalidNodeMagic
| UnsupportedNodeVersion (version : Z)
| ReservedBytesNotZero
| LeafLevelMustBeZero
| InternalLevelMustBePositive
| NoFirstChild
| SeparatorHasNoChild
| UnknownNodeKind (kind : Z)
| KeyLengthOverflow
| KeyPastBoundary
| FieldOffsetOverflow
| EndsInside32
| EndsInside64
| TrailingBytes (n : Z)
| KeysNotIncreasing
| RootHeightZero
| NodeLevelMismatch (level expected : Z)
| InternalBelowLeaf
| CursorReachedInternal
| LeafChainNotOrdered
| TreeHeightUnderflow
| EntryCountUnderflow
| PageCycle
| ReachableLeafEmpty
| PlanCycle
| PageDoesNotExist.

Inductive IndexError :=
| IndexStorage (e : StorageError)
| KeysNotStrictlyIncreasing
| KeyTooLarge (actual maximum : Z)
| EntryCountOverflow
| CorruptNode (page_id : PageId) (reason : node_fault).

Abbreviation IResult := (result IndexError).

Record IndexEntry := mkIndexEntry {
  key : list byte;
  value : PageId;
}.

#[export] Instance IndexEntry_eq_dec : EqDecision IndexEntry.
Proof. solve_decision. Defined.

Inductive Node :=
| Leaf (entries : list IndexEntry) (next : option PageId)
| Internal (level : Z) (first_child : PageId) (separators : list (list byte * PageId)).

#[export] Instance Node_eq_dec : EqDecision Node.
Proof. solve_decision. Defined.

Definition node_level (n : Node) : Z :=
  match n with Leaf _ _ => 0 | Internal level _ _ => level end.

(** ** Encoding *)

Definition checked_entry_length (length key_length overhead : Z) : IResult Z :=
  ok_or (l ← checked_add U64_MAX length key_length; checked_add U64_MAX l overhead)
        (KeyTooLarge U64_MAX MAX_PAGE_PAYLOAD).

Definition leaf_entry_size (key_length : Z) : option Z := checked_add U64_MAX key_length LEAF_ENTRY_OVERHEAD.
Definition internal_entry_size (key_length : Z) : option Z := checked_add U64_MAX key_length INTERNAL_ENTRY_OVERHEAD.

Definition count_u32 (count : Z) : IResult Z := if U32_MAX <? count then Err EntryCountOverflow else Ok count.

(** A cursor writes into the buffer and moves on. *)
Abbreviation writer := (list byte * Z)%type.

Definition write_key (w : writer) (k : list byte) : writer :=
  let '(bytes, cursor) := w in
  let bytes := write_u32 bytes cursor (blen k) in
  let cursor := cursor + 4 in
  (put bytes cursor k, cursor + blen k).

(** A key and its page ID, as both kinds of node store them. *)
Definition write_entry (w : writer) (e : list byte * Z) : writer :=
  let '(bytes, cursor) := write_key w e.1 in
  (write_u64 bytes cursor e.2, cursor + 8).

Definition entry_pair (e : IndexEntry) : list byte * Z := (key e, value e).

Definition encoded_length (n : Node) : IResult Z :=
  match n with
  | Leaf entries _ =>
      try_fold (fun length e => checked_entry_length length (blen (key e)) LEAF_ENTRY_OVERHEAD)
               NODE_HEADER_SIZE entries
  | Internal _ _ separators =>
      try_fold (fun length s => checked_entry_length length (blen s.1) INTERNAL_ENTRY_OVERHEAD)
               NODE_HEADER_SIZE separators
  end.

Definition encode_node (n : Node) : IResult (list byte) :=
  len ← encoded_length n;
  if MAX_PAGE_PAYLOAD <? len then Err (KeyTooLarge len MAX_PAGE_PAYLOAD)
  else
    let bytes := zeros len in
    let bytes := put bytes 0 NODE_MAGIC in
    let bytes := write_u16 bytes 4 NODE_FORMAT_VERSION in
    let bytes := write_u16 bytes 12 (node_level n) in
    match n with
    | Leaf entries next =>
        let bytes := put bytes 6 [byte_of_Z LEAF_KIND] in
        count ← count_u32 (blen entries);
        let bytes := write_u32 bytes 8 count in
        let bytes := write_u64 bytes 16 (default NO_PAGE next) in
        Ok (fold_left write_entry (entry_pair <$> entries) (bytes, NODE_HEADER_SIZE)).1
    | Internal _ first_child separators =>
        let bytes := put bytes 6 [byte_of_Z INTERNAL_KIND] in
        count ← count_u32 (blen separators);
        let bytes := write_u32 bytes 8 count in
        let bytes := write_u64 bytes 16 first_child in
        Ok (fold_left write_entry separators (bytes, NODE_HEADER_SIZE)).1
    end.

(** ** Decoding *)

Section Readers.
Context (page_id : PageId) (bytes : list byte).

Abbreviation Cursor := (ST Z IndexError).

Definition corrupt {A} (reason : node_fault) : Cursor A := throw (CorruptNode page_id reason).

Definition advance (n : Z) (overflow : node_fault) (past : node_fault) : Cursor Z :=
  cursor ← get;
  match checked_add U64_MAX cursor n with
  | None => corrupt overflow
  | Some end_ => if blen bytes <? end_ then corrupt past else _ ← modify (fun _ => end_); mret cursor
  end.

Definition read_required_u32 : Cursor Z :=
  cursor ← advance 4 FieldOffsetOverflow EndsInside32; mret (read_u32 bytes cursor).

Definition read_required_u64 : Cursor Z :=
  cursor ← advance 8 FieldOffsetOverflow EndsInside64; mret (read_u64 bytes cursor).

Definition read_key : Cursor (list byte) :=
  key_length ← read_required_u32;
  cursor ← advance key_length KeyLengthOverflow KeyPastBoundary;
  mret (slice bytes cursor key_length).

(** [for _ in 0..count], with the check the loop makes on each ID. *)
Fixpoint read_entries (count : nat) (check : Z -> option node_fault) : Cursor (list (list byte * Z)) :=
  match count with
  | O => mret []
  | S count =>
      k ← read_key;
      v ← read_required_u64;
      match check v with
      | Some reason => corrupt reason
      | None => rest ← read_entries count check; mret ((k, v) :: rest)
      end
  end.

Definition ensure_finished : Cursor unit :=
  cursor ← get;
  if negb (cursor =? blen bytes) then corrupt (TrailingBytes (saturating_sub (blen bytes) cursor)) else mret tt.

Fixpoint strict_keys (previous : list byte) (keys : list (list byte)) : bool :=
  match keys with
  | [] => true
  | k :: keys => if bytes_leb k previous then false else strict_keys k keys
  end.

Definition ensure_strict_keys (keys : list (list byte)) : Cursor unit :=
  match keys with
  | [] => mret tt
  | k :: keys => if strict_keys k keys then mret tt else corrupt KeysNotIncreasing
  end.

Definition decode_node : IResult Node :=
  if blen bytes <? NODE_HEADER_SIZE then Err (CorruptNode page_id NodeShorterThanHeader)
  else if negb (bool_decide (slice bytes 0 4 = NODE_MAGIC)) then Err (CorruptNode page_id InvalidNodeMagic)
  else
    let version := read_u16 bytes 4 in
    if negb (version =? NODE_FORMAT_VERSION) then Err (CorruptNode page_id (UnsupportedNodeVersion version))
    else if negb (bool_decide (byte_at bytes 7 = x00)) || negb (all_zero (slice bytes 14 2)) || negb (all_zero (slice bytes 24 8))
    then Err (CorruptNode page_id ReservedBytesNotZero)
    else
      let kind := byte_to_Z (byte_at bytes 6) in
      let count := Z.to_nat (read_u32 bytes 8) in
      let level := read_u16 bytes 12 in
      let auxiliary := read_u64 bytes 16 in
      if kind =? LEAF_KIND then
        if negb (level =? 0) then Err (CorruptNode page_id LeafLevelMustBeZero)
        else
          fst ((entries ← read_entries count (fun _ => None);
                _ ← ensure_finished;
                _ ← ensure_strict_keys entries.*1;
                mret (Leaf ((fun e => mkIndexEntry e.1 e.2) <$> entries)
                           (if auxiliary =? NO_PAGE then None else Some auxiliary))) NODE_HEADER_SIZE)
      else if kind =? INTERNAL_KIND then
        if level =? 0 then Err (CorruptNode page_id InternalLevelMustBePositive)
        else if auxiliary =? NO_PAGE then Err (CorruptNode page_id NoFirstChild)
        else
          fst ((separators ← read_entries count (fun child => if child =? NO_PAGE then Some SeparatorHasNoChild else None);
                _ ← ensure_finished;
                _ ← ensure_strict_keys separators.*1;
                mret (Internal level auxiliary separators)) NODE_HEADER_SIZE)
      else Err (CorruptNode page_id (UnknownNodeKind kind)).
End Readers.

(** ** The format *)

Definition entry_bytes (e : list byte * Z) : list byte := to_le 4 (blen e.1) ++ e.1 ++ to_le 8 e.2.

Definition node_header (kind level count auxiliary : Z) : list byte :=
  let bytes := put (zeros NODE_HEADER_SIZE) 0 NODE_MAGIC in
  let bytes := write_u16 bytes 4 NODE_FORMAT_VERSION in
  let bytes := write_u16 bytes 12 level in
  let bytes := put bytes 6 [byte_of_Z kind] in
  let bytes := write_u32 bytes 8 count in
  write_u64 bytes 16 auxiliary.

Definition entries_bytes (es : list (list byte * Z)) : list byte := concat (entry_bytes <$> es).

(** The parts of a node that the format treats alike. *)
Definition node_kind (n : Node) : Z := match n with Leaf _ _ => LEAF_KIND | Internal _ _ _ => INTERNAL_KIND end.
Definition node_aux (n : Node) : Z :=
  match n with Leaf _ next => default NO_PAGE next | Internal _ first_child _ => first_child end.
Definition node_pairs (n : Node) : list (list byte * Z) :=
  match n with Leaf entries _ => entry_pair <$> entries | Internal _ _ separators => separators end.

Definition node_bytes (n : Node) : list byte :=
  node_header (node_kind n) (node_level n) (blen (node_pairs n)) (node_aux n) ++ entries_bytes (node_pairs n).

Definition node_size (n : Node) : Z := NODE_HEADER_SIZE + blen (entries_bytes (node_pairs n)).

(** The nodes that the tree builds: fields in range, IDs that are not the
    absent page, keys strictly increasing. *)
Definition node_ok (n : Node) : Prop :=
  keys_sorted (node_pairs n) /\
  match n with
  | Leaf entries next =>
      Forall (fun e => is_u64 (value e)) entries /\ match next with Some p => 0 <= p < NO_PAGE | None => True end
  | Internal level first_child separators =>
      1 <= level <= U16_MAX /\ 0 <= first_child < NO_PAGE /\ Forall (fun s => 0 <= s.2 < NO_PAGE) separators
  end.

Lemma length_NODE_MAGIC : blen NODE_MAGIC = 4.
Proof. done. Qed.

Ltac node_consts := unfold NODE_HEADER_SIZE, NODE_FORMAT_VERSION, LEAF_ENTRY_OVERHEAD, INTERNAL_ENTRY_OVERHEAD in *.

Lemma length_node_header k l c a : blen (node_header k l c a) = 32.
Proof. pose proof length_NODE_MAGIC. unfold node_header, write_u16, write_u32, write_u64. node_consts. buf_len. Qed.

Lemma length_entry_bytes e : blen (entry_bytes e) = 12 + blen e.1.
Proof. unfold entry_bytes. rewrite !length_app, !length_to_le. lia. Qed.

Lemma entries_bytes_cons e es : entries_bytes (e :: es) = entry_bytes e ++ entries_bytes es.
Proof. done. Qed.

Lemma write_entry_app pre n e :
  blen (entry_bytes e) <= n ->
  write_entry (pre ++ zeros n, blen pre) e =
  ((pre ++ entry_bytes e) ++ zeros (n - blen (entry_bytes e)), blen (pre ++ entry_bytes e)).
Proof.
  intros Hn. rewrite length_entry_bytes in *. unfold write_entry, write_key, write_u32, write_u64.
  assert (blen (to_le 4 (blen e.1)) = 4) as H4 by (by rewrite length_to_le).
  assert (blen (to_le 8 e.2) = 8) as H8 by (by rewrite length_to_le).
  rewrite put_app_zeros, H4 by lia.
  replace (blen pre + 4) with (blen (pre ++ to_le 4 (blen e.1))) by (rewrite length_app; lia).
  rewrite put_app_zeros by lia. rewrite <- Nat2Z.inj_add, <- length_app.
  rewrite put_app_zeros, H8 by lia. unfold entry_bytes. f_equal.
  - rewrite <- !app_assoc. do 3 f_equal. f_equal. f_equal. lia.
  - rewrite !length_app. lia.
Qed.

Lemma write_entries_app es pre n :
  blen (entries_bytes es) <= n ->
  fold_left write_entry es (pre ++ zeros n, blen pre) =
  ((pre ++ entries_bytes es) ++ zeros (n - blen (entries_bytes es)), blen (pre ++ entries_bytes es)).
Proof.
  revert pre n. induction es as [|e es IH]; intros pre n Hn; cbn [fold_left].
  - unfold entries_bytes. cbn. rewrite !app_nil_r. by rewrite Z.sub_0_r.
  - rewrite entries_bytes_cons in *. rewrite length_app in Hn. rewrite write_entry_app, IH by lia.
    assert (n - blen (entry_bytes e) - blen (entries_bytes es) = n - blen (entry_bytes e ++ entries_bytes es)) as ->
      by (rewrite length_app; lia).
    by rewrite !app_assoc.
Qed.

Lemma header_app_zeros kind level count aux n :
  0 <= n ->
  (let bytes := put (zeros (NODE_HEADER_SIZE + n)) 0 NODE_MAGIC in
   let bytes := write_u16 bytes 4 NODE_FORMAT_VERSION in
   let bytes := write_u16 bytes 12 level in
   let bytes := put bytes 6 [byte_of_Z kind] in
   let bytes := write_u32 bytes 8 count in
   write_u64 bytes 16 aux) = node_header kind level count aux ++ zeros n.
Proof.
  intros Hn. pose proof length_NODE_MAGIC. unfold node_header, write_u16, write_u32, write_u64.
  rewrite zeros_app by (node_consts; lia). node_consts.
  rewrite !put_app_l by buf_len. done.
Qed.

(** The encoder's length computation. *)
Lemma entry_lengths {A} (f : A -> list byte * Z) (es : list A) n :
  0 <= n -> n + blen (entries_bytes (f <$> es)) <= U64_MAX ->
  try_fold (fun l e => checked_entry_length l (blen (f e).1) 12) n es = Ok (n + blen (entries_bytes (f <$> es))).
Proof.
  revert n. induction es as [|e es IH]; intros n Hn Hmax.
  - cbn. f_equal. lia.
  - rewrite fmap_cons, entries_bytes_cons, length_app, Nat2Z.inj_add, length_entry_bytes in *. cbn [try_fold].
    unfold checked_entry_length. cbn [mbind option_bind].
    rewrite (proj2 (checked_add_Some U64_MAX n (blen (f e).1) _)) by (split; [reflexivity|lia]). cbn [option_bind mbind].
    rewrite (proj2 (checked_add_Some U64_MAX _ 12 _)) by (split; [reflexivity|lia]).
    cbn [ok_or result_bind mbind]. rewrite IH by lia. f_equal. lia.
Qed.

Lemma encoded_length_size n : node_size n <= U64_MAX -> encoded_length n = Ok (node_size n).
Proof.
  unfold node_size, encoded_length. intros Hs. destruct n as [es next|level child seps]; cbn [node_pairs] in *.
  - apply (entry_lengths entry_pair); [done|lia].
  - pose proof (entry_lengths (fun s => s) seps NODE_HEADER_SIZE ltac:(done)) as Hl. rewrite list_fmap_id in Hl. auto.
Qed.

Lemma count_pairs n : node_size n <= MAX_PAGE_PAYLOAD -> blen (node_pairs n) <= U32_MAX.
Proof.
  unfold node_size. intros Hs.
  assert (12 * blen (node_pairs n) <= blen (entries_bytes (node_pairs n))) as Hc.
  { clear Hs. induction (node_pairs n) as [|e es IH]; [done|]. rewrite entries_bytes_cons, length_app, Nat2Z.inj_add, length_entry_bytes.
    cbn [length]. lia. }
  node_consts. unfold MAX_PAGE_PAYLOAD, PAGE_SIZE, PAGE_HEADER_SIZE, U32_MAX in *. lia.
Qed.

Lemma fill_entries hdr es :
  blen hdr = 32 ->
  (fold_left write_entry es (hdr ++ zeros (blen (entries_bytes es)), NODE_HEADER_SIZE)).1 = hdr ++ entries_bytes es.
Proof.
  intros Hh. change NODE_HEADER_SIZE with 32. rewrite <- Hh, write_entries_app by lia. cbn [fst].
  by rewrite Z.sub_diag, app_nil_r.
Qed.

Lemma encode_node_bytes n : node_size n <= MAX_PAGE_PAYLOAD -> encode_node n = Ok (node_bytes n).
Proof.
  intros Hs. pose proof (count_pairs n Hs) as Hc. unfold encode_node.
  rewrite encoded_length_size by (unfold MAX_PAGE_PAYLOAD, PAGE_SIZE, PAGE_HEADER_SIZE, U64_MAX in *; lia).
  cbn [mbind result_bind]. destruct (Z.ltb_spec MAX_PAGE_PAYLOAD (node_size n)); [lia|].
  unfold node_size, node_bytes in *.
  destruct n as [es next|level child seps]; cbn [node_pairs node_kind node_level node_aux] in *;
    unfold count_u32; rewrite ?length_fmap in *; (replace (U32_MAX <? _) with false by lia); cbn [mbind result_bind];
    rewrite header_app_zeros by lia; rewrite fill_entries by apply length_node_header; done.
Qed.

(** ** Reading it back *)

Lemma header_fields k l c a body :
  0 <= k < 256 -> is_u16 l -> is_u32 c -> is_u64 a ->
  let B := node_header k l c a ++ body in
  slice B 0 4 = NODE_MAGIC /\ read_u16 B 4 = NODE_FORMAT_VERSION /\ byte_at B 7 = x00 /\
  slice B 14 2 = zeros 2 /\ slice B 24 8 = zeros 8 /\ byte_to_Z (byte_at B 6) = k /\
  read_u32 B 8 = c /\ read_u16 B 12 = l /\ read_u64 B 16 = a.
Proof.
  intros Hk Hl Hc Ha B. unfold is_u16, is_u32, is_u64, U16_MAX, U32_MAX, U64_MAX in *.
  pose proof length_NODE_MAGIC as HM. pose proof (length_node_header k l c a) as HL.
  assert (forall o n, 0 <= o -> o + n <= 32 -> slice B o n = slice (node_header k l c a) o n) as HB
    by (intros; apply slice_app_l; lia).
  rewrite !byte_at_slice by lia. unfold read_u16, read_u32, read_u64. rewrite !HB by lia. clear HB.
  unfold node_header, NODE_FORMAT_VERSION. node_consts.
  split_and!; buf_read; rewrite ?slice_zeros by lia; try done.
  cbn [nth]. rewrite byte_to_of_Z. by apply Z.mod_small.
Qed.

Lemma read_app_mid (f : list byte) pre mid post :
  f = pre ++ mid ++ post -> slice f (blen pre) (blen mid) = mid.
Proof. intros ->. rewrite slice_app_r, Z.sub_diag, slice_app_l by lia. by apply slice_all. Qed.

Section Decode.
Context (page_id : PageId).

Lemma advance_ok bytes cursor n o p :
  cursor + n <= blen bytes -> blen bytes <= U64_MAX -> advance page_id bytes n o p cursor = (Ok cursor, cursor + n).
Proof.
  intros Hn Hb. unfold advance. st_run. rewrite (proj2 (checked_add_Some _ _ _ _) (conj eq_refl (Z.le_trans _ _ _ Hn Hb))).
  destruct (Z.ltb_spec (blen bytes) (cursor + n)); [lia|done].
Qed.

Lemma read_entry_ok bytes pre e post :
  bytes = pre ++ entry_bytes e ++ post -> blen bytes <= U32_MAX -> is_u64 e.2 ->
  read_key page_id bytes (blen pre) = (Ok e.1, blen pre + 4 + blen e.1) /\
  read_required_u64 page_id bytes (blen pre + 4 + blen e.1) = (Ok e.2, blen (pre ++ entry_bytes e)).
Proof.
  intros Hb Hmax Hv. pose proof (length_entry_bytes e) as Hlen.
  assert (blen bytes = blen pre + (12 + blen e.1) + blen post) as HL by (rewrite Hb, !length_app; lia).
  unfold is_u64, U64_MAX, U32_MAX in *.
  assert (blen (to_le 4 (blen e.1)) = 4) as H4 by (by rewrite length_to_le).
  assert (blen (to_le 8 e.2) = 8) as H8 by (by rewrite length_to_le).
  assert (read_u32 bytes (blen pre) = blen e.1) as Hkl.
  { unfold read_u32. rewrite <- H4. rewrite (read_app_mid bytes pre _ (e.1 ++ to_le 8 e.2 ++ post))
      by (rewrite Hb; unfold entry_bytes; by rewrite <- !app_assoc). apply from_to_le_small. lia. }
  assert (slice bytes (blen pre + 4) (blen e.1) = e.1) as Hk.
  { rewrite <- H4, <- Nat2Z.inj_add, <- length_app.
    apply (read_app_mid bytes _ _ (to_le 8 e.2 ++ post)). rewrite Hb. unfold entry_bytes. by rewrite <- !app_assoc. }
  assert (read_u64 bytes (blen pre + 4 + blen e.1) = e.2) as Hval.
  { unfold read_u64. rewrite <- H8. rewrite <- H4 at 1. rewrite <- !Nat2Z.inj_add, <- !length_app.
    rewrite (read_app_mid bytes _ _ post) by (rewrite Hb; unfold entry_bytes; by rewrite <- !app_assoc).
    apply from_to_le_small. lia. }
  split.
  - unfold read_key, read_required_u32. rewrite (ST_bind_step _ _ _ (blen e.1) (blen pre + 4)).
    + rewrite (ST_bind_step _ _ _ (blen pre + 4) (blen pre + 4 + blen e.1)); [by rewrite Hk|].
      apply advance_ok; unfold U64_MAX; lia.
    + rewrite (ST_bind_step _ _ _ (blen pre) (blen pre + 4)); [by rewrite Hkl|]. apply advance_ok; unfold U64_MAX; lia.
  - unfold read_required_u64. rewrite (ST_bind_step _ _ _ (blen pre + 4 + blen e.1) (blen pre + 4 + blen e.1 + 8)).
    + rewrite Hval, length_app, Nat2Z.inj_add, Hlen. unfold mret, ST_ret. f_equal. lia.
    + apply advance_ok; unfold U64_MAX; lia.
Qed.

Lemma read_entries_ok bytes check es pre post :
  bytes = pre ++ entries_bytes es ++ post -> blen bytes <= U32_MAX ->
  Forall (fun e => is_u64 e.2 /\ check e.2 = None) es ->
  read_entries page_id bytes (length es) check (blen pre) = (Ok es, blen (pre ++ entries_bytes es)).
Proof.
  intros Hb Hmax Hes. revert pre Hb. induction Hes as [|e es [Hv Hc] Hes IH]; intros pre Hb.
  - unfold entries_bytes. cbn. by rewrite app_nil_r.
  - rewrite entries_bytes_cons, <- app_assoc in Hb.
    destruct (read_entry_ok bytes pre e _ Hb Hmax Hv) as [Hk Hval]. cbn [length read_entries].
    rewrite (ST_bind_step _ _ _ _ _ Hk), (ST_bind_step _ _ _ _ _ Hval), Hc.
    rewrite (ST_bind_step _ _ _ es (blen ((pre ++ entry_bytes e) ++ entries_bytes es)))
      by (apply IH; by rewrite <- app_assoc).
    rewrite entries_bytes_cons, <- app_assoc. destruct e. done.
Qed.

Lemma strict_keys_sorted (es : list (list byte * Z)) :
  keys_sorted es -> match es.*1 with [] => true | k :: ks => strict_keys k ks end = true.
Proof.
  destruct es as [|e es]; [done|]. cbn. revert e. induction es as [|e' es IH]; intros e Hs; [done|].
  apply keys_sorted_cons in Hs as [Hs He]. cbn. apply Forall_cons in He as [He _].
  rewrite bytes_leb_key. destruct (key_leb e'.1 e.1) eqn:Hle; [|by apply IH].
  apply key_le_not_lt in Hle. done.
Qed.

Lemma length_node_bytes n : blen (node_bytes n) = node_size n.
Proof. unfold node_bytes, node_size. by rewrite length_app, Nat2Z.inj_add, length_node_header. Qed.

(** The header that a node of the tree is encoded with. *)
Lemma node_bytes_fields n :
  node_ok n -> node_size n <= MAX_PAGE_PAYLOAD ->
  let B := node_bytes n in
  slice B 0 4 = NODE_MAGIC /\ read_u16 B 4 = NODE_FORMAT_VERSION /\ byte_at B 7 = x00 /\
  slice B 14 2 = zeros 2 /\ slice B 24 8 = zeros 8 /\ byte_to_Z (byte_at B 6) = node_kind n /\
  read_u32 B 8 = blen (node_pairs n) /\ read_u16 B 12 = node_level n /\ read_u64 B 16 = node_aux n.
Proof.
  intros [_ Hn] Hsz. pose proof (count_pairs n Hsz) as Hcount.
  assert (0 <= node_aux n <= U64_MAX /\ 0 <= node_level n <= U16_MAX /\ 0 <= node_kind n < 256) as (Haux & Hlev & Hkind).
  { destruct n as [es [p|]|level c seps]; cbn in Hn |- *; unfold NO_PAGE, U64_MAX, U16_MAX, LEAF_KIND, INTERNAL_KIND in *; lia. }
  exact (header_fields (node_kind n) (node_level n) (blen (node_pairs n)) (node_aux n) (entries_bytes (node_pairs n))
           Hkind Hlev (conj (Nat2Z.is_nonneg _) Hcount) Haux).
Qed.

(** The decoder's passes over the entries. *)
Lemma read_pairs n check :
  node_size n <= MAX_PAGE_PAYLOAD -> Forall (fun e => is_u64 e.2 /\ check e.2 = None) (node_pairs n) ->
  read_entries page_id (node_bytes n) (length (node_pairs n)) check NODE_HEADER_SIZE = (Ok (node_pairs n), node_size n).
Proof.
  intros Hsz Hc. pose proof (length_node_bytes n) as HL. change NODE_HEADER_SIZE with 32.
  rewrite <- (length_node_header (node_kind n) (node_level n) (blen (node_pairs n)) (node_aux n)).
  rewrite (read_entries_ok (node_bytes n) check (node_pairs n) _ []); [|by rewrite app_nil_r| |done].
  - by rewrite <- HL.
  - rewrite HL. unfold MAX_PAGE_PAYLOAD, PAGE_SIZE, PAGE_HEADER_SIZE, U32_MAX in *. lia.
Qed.

Lemma node_end_checks n :
  keys_sorted (node_pairs n) ->
  ensure_finished page_id (node_bytes n) (node_size n) = (Ok tt, node_size n) /\
  ensure_strict_keys page_id (node_pairs n).*1 (node_size n) = (Ok tt, node_size n).
Proof.
  intros Hs. split.
  - unfold ensure_finished. st_run. by rewrite length_node_bytes, Z.eqb_refl.
  - unfold ensure_strict_keys. pose proof (strict_keys_sorted _ Hs) as Hk. destruct ((node_pairs n).*1); [done|]. by rewrite Hk.
Qed.

Lemma decode_node_bytes n :
  node_ok n -> node_size n <= MAX_PAGE_PAYLOAD -> decode_node page_id (node_bytes n) = Ok n.
Proof.
  intros Hok Hsz. pose proof (length_node_bytes n) as HL.
  destruct (node_bytes_fields n Hok Hsz) as (H1 & H2 & H3 & H4 & H5 & H6 & H7 & H8 & H9).
  pose proof (fun check => read_pairs n check Hsz) as Hread. destruct Hok as [Hs Hn].
  destruct (node_end_checks n Hs) as [Hfin Hstrict].
  unfold decode_node. rewrite H1, H2, H3, H4, H5, H6, H7, H8, H9, HL, Nat2Z.id.
  rewrite !bool_decide_true, !all_zero_zeros by done.
  destruct (Z.ltb_spec (node_size n) NODE_HEADER_SIZE); [unfold node_size in *; lia|]. cbn [negb orb].
  rewrite Z.eqb_refl. cbn [negb].
  destruct n as [es next|level c seps]; cbn [node_kind node_pairs node_level node_aux] in *.
  - cbn [Z.eqb negb]. rewrite Z.eqb_refl.
    rewrite (ST_bind_step _ _ _ _ _ (Hread (fun _ => None) ltac:(
      apply Forall_fmap; apply (Forall_impl _ _ _ (proj1 Hn)); intros e He; split; [exact He|reflexivity]))).
    rewrite (ST_bind_step _ _ _ _ _ Hfin), (ST_bind_step _ _ _ _ _ Hstrict). cbn. do 2 f_equal.
    + rewrite <- list_fmap_compose. rewrite <- (list_fmap_id es) at 2. apply list_fmap_ext. by intros ? [] ?.
    + destruct next as [p|]; cbn in *; [|done]. destruct (Z.eqb_spec p NO_PAGE); [lia|done].
  - destruct Hn as (Hlevel & Hchild & Hseps). unfold LEAF_KIND, INTERNAL_KIND. cbn [Z.eqb].
    destruct (Z.eqb_spec level 0); [lia|]. destruct (Z.eqb_spec c NO_PAGE); [lia|].
    rewrite (ST_bind_step _ _ _ _ _ (Hread (fun child => if child =? NO_PAGE then Some SeparatorHasNoChild else None) ltac:(
      apply (Forall_impl _ _ _ Hseps); intros x Hx; unfold is_u64, NO_PAGE in *; destruct (Z.eqb_spec x.2 U64_MAX); split; lia || done))).
    rewrite (ST_bind_step _ _ _ _ _ Hfin), (ST_bind_step _ _ _ _ _ Hstrict). done.
Qed.

(** C31: Encoding a node of the tree and decoding the page gives the node
    back, and the encoding fills exactly the bytes the size check counts. *)
Theorem node_round_trip n :
  node_ok n -> node_size n <= MAX_PAGE_PAYLOAD ->
  exists bytes, encode_node n = Ok bytes /\ blen bytes = node_size n /\ decode_node page_id bytes = Ok n.
Proof.
  intros Hok Hsz. exists (node_bytes n). split; [by apply encode_node_bytes|].
  split; [apply length_node_bytes|by apply decode_node_bytes].
Qed.
End Decode.

Lemma node_round_trip_witness :
  let n := Leaf [mkIndexEntry (bytes_of_string "a") 7; mkIndexEntry (bytes_of_string "b") 8] (Some 3) in
  exists bytes, encode_node n = Ok bytes /\ blen bytes = node_size n /\ decode_node 5 bytes = Ok n.
Proof.
  intros n. apply (node_round_trip 5 n); [|vm_compute; discriminate]. split.
  - repeat constructor.
  - split; [repeat constructor; vm_compute; discriminate|vm_compute; split; [discriminate|reflexivity]].
Defined.
