(* ===== verification/Record.v ===== *)
(** * Version records and index manifests

    Models [src/mvcc/src/record.rs], [src/mvcc/src/index_manifest.rs] and
    [src/mvcc/src/error.rs]: the two page formats of the transaction layer.
    Version records are packed back to back in a page; a manifest page names
    one published index generation. *)
From S2P Require Import Prelude Page Order Node.
Local Open Scope Z_scope.

Abbreviation Timestamp := Z.

Inductive record_fault :=
| RecordShorterThanHeader
| UnsupportedRecordVersion (version : Z)
| UnknownFlags (flags : Z)
| ReservedRecordBytes
| TimestampZero
| RecordLengthOverflowed
| RecordLengthMismatch (declared contained : Z)
| TombstoneWithValue
| ManifestLength
| UnsupportedManifestVersion (version : Z)
| UnknownManifestFlags (flags : Z)
| ReservedManifestBytes
| RootMetadataIncomplete
| EmptyGenerationHasRoot
| DuplicateTimestamp (timestamp : Z)
| AbsentVersionPage
| NonMvccPage
| NoVisibleVersion
| DuplicateCommitTimestamp (timestamp position : Z).

Inductive TransactionError :=
| TxStorage (e : StorageError)
| TxIndex (e : IndexError)
| WriteConflict (key : list byte)
| RangeConflict (prefix : list byte)
| Inactive
| RecordTooLarge (actual maximum : Z)
| CorruptRecord (page_id : PageId) (reason : record_fault)
| TransactionIdExhausted
| TimestampExhausted
| StatePoisoned.

Abbreviation TResult := (result TransactionError).

(** ** Version records *)

Definition RECORD_MAGIC : list byte := bytes_of_string "QNMV".
Definition RECORD_FORMAT_VERSION : Z := 1.
Definition RECORD_HEADER_SIZE : Z := 32.
Definition FLAG_TOMBSTONE : Z := 1.
Definition RESERVED_OFFSET : Z := 24.

Record VersionRecord := mkVersionRecord {
  vr_timestamp : Timestamp;
  vr_key : list byte;
  vr_value : option (list byte);
}.

#[export] Instance VersionRecord_eq_dec : EqDecision VersionRecord.
Proof. solve_decision. Defined.

(** [value.map_or(0, len)]. *)
Definition value_length (v : option (list byte)) : Z := match v with Some v => blen v | None => 0 end.

Definition validate_size (k : list byte) (v : option (list byte)) : TResult unit :=
  actual ← ok_or (l ← checked_add U64_MAX RECORD_HEADER_SIZE (blen k); checked_add U64_MAX l (value_length v))
                 (RecordTooLarge U64_MAX MAX_PAGE_PAYLOAD);
  if MAX_PAGE_PAYLOAD <? actual then Err (RecordTooLarge actual MAX_PAGE_PAYLOAD) else Ok tt.

Definition encode_record (r : VersionRecord) : TResult (list byte) :=
  _ ← validate_size (vr_key r) (vr_value r);
  let bytes := zeros (RECORD_HEADER_SIZE + blen (vr_key r) + value_length (vr_value r)) in
  let bytes := put bytes 0 RECORD_MAGIC in
  let bytes := write_u16 bytes 4 RECORD_FORMAT_VERSION in
  let bytes := match vr_value r with None => write_u16 bytes 6 FLAG_TOMBSTONE | Some _ => bytes end in
  let bytes := write_u64 bytes 8 (vr_timestamp r) in
  let bytes := write_u32 bytes 16 (blen (vr_key r)) in
  let bytes := write_u32 bytes 20 (value_length (vr_value r)) in
  let bytes := put bytes RECORD_HEADER_SIZE (vr_key r) in
  Ok (match vr_value r with
      | Some v => put bytes (RECORD_HEADER_SIZE + blen (vr_key r)) v
      | None => bytes
      end).

(** [!FLAG_TOMBSTONE] on a [u16]. *)
Definition not_u16 (flag : Z) : Z := U16_MAX - flag.

Definition decode_at (page_id : PageId) (page : list byte) (offset : Z) : TResult (option (VersionRecord * Z)) :=
  if blen page <? offset then Ok None
  else
    let bytes := drop (Z.to_nat offset) page in
    if (blen bytes <? 4) || negb (bool_decide (slice bytes 0 4 = RECORD_MAGIC)) then Ok None
    else if blen bytes <? RECORD_HEADER_SIZE then Err (CorruptRecord page_id RecordShorterThanHeader)
    else
      let version := read_u16 bytes 4 in
      if negb (version =? RECORD_FORMAT_VERSION) then Err (CorruptRecord page_id (UnsupportedRecordVersion version))
      else
        let flags := read_u16 bytes 6 in
        if negb (Z.land flags (not_u16 FLAG_TOMBSTONE) =? 0) then Err (CorruptRecord page_id (UnknownFlags flags))
        else if negb (all_zero (slice bytes RESERVED_OFFSET (RECORD_HEADER_SIZE - RESERVED_OFFSET)))
        then Err (CorruptRecord page_id ReservedRecordBytes)
        else
          let timestamp := read_u64 bytes 8 in
          if timestamp =? 0 then Err (CorruptRecord page_id TimestampZero)
          else
            let key_length := read_u32 bytes 16 in
            let value_length := read_u32 bytes 20 in
            expected_length ← ok_or (l ← checked_add U64_MAX RECORD_HEADER_SIZE key_length;
                                     checked_add U64_MAX l value_length)
                                    (CorruptRecord page_id RecordLengthOverflowed);
            if blen bytes <? expected_length
            then Err (CorruptRecord page_id (RecordLengthMismatch expected_length (blen bytes)))
            else
              let tombstone := negb (Z.land flags FLAG_TOMBSTONE =? 0) in
              if tombstone && negb (value_length =? 0) then Err (CorruptRecord page_id TombstoneWithValue)
              else
                let k := slice bytes RECORD_HEADER_SIZE key_length in
                let v := if negb tombstone
                         then Some (slice bytes (RECORD_HEADER_SIZE + key_length) value_length) else None in
                Ok (Some (mkVersionRecord timestamp k v, expected_length)).

(** The loop of [decode_page]: every turn consumes a header's bytes, which
    bounds the number of turns. *)
Fixpoint decode_page_loop (fuel : nat) (page_id : PageId) (page : list byte) (cursor : Z) : TResult (list VersionRecord) :=
  match fuel with
  | O => Ok []
  | S fuel =>
      o ← decode_at page_id page cursor;
      match o with
      | None => Ok []
      | Some (r, length) => rs ← decode_page_loop fuel page_id page (cursor + length); Ok (r :: rs)
      end
  end.

Definition decode_page (page_id : PageId) (page : list byte) : TResult (list VersionRecord) :=
  decode_page_loop (S (length page)) page_id page 0.

(** ** Index manifests *)

Definition MANIFEST_MAGIC : list byte := bytes_of_string "QNIR".
Definition MANIFEST_FORMAT_VERSION : Z := 1.
Definition ENCODED_SIZE : Z := 48.
Definition FLAG_HAS_ROOT : Z := 1.

Record IndexRoot := mkRoot {
  root_page : PageId;
  height : Z;
  root_entries : Z;
}.

#[export] Instance IndexRoot_eq_dec : EqDecision IndexRoot.
Proof. solve_decision. Defined.

Record IndexGeneration := mkGeneration {
  g_timestamp : Timestamp;
  g_root : option IndexRoot;
  manifest_page_id : PageId;
}.

#[export] Instance IndexGeneration_eq_dec : EqDecision IndexGeneration.
Proof. solve_decision. Defined.

Definition encode_manifest (g : IndexGeneration) : list byte :=
  let bytes := zeros ENCODED_SIZE in
  let bytes := put bytes 0 MANIFEST_MAGIC in
  let bytes := write_u16 bytes 4 MANIFEST_FORMAT_VERSION in
  let bytes := match g_root g with Some _ => write_u16 bytes 6 FLAG_HAS_ROOT | None => bytes end in
  let bytes := write_u64 bytes 8 (g_timestamp g) in
  let bytes := write_u64 bytes 16 (match g_root g with Some r => root_page r | None => NO_PAGE end) in
  let bytes := write_u16 bytes 24 (match g_root g with Some r => height r | None => 0 end) in
  write_u64 bytes 32 (match g_root g with Some r => root_entries r | None => 0 end).

Definition decode_manifest (page_id : PageId) (bytes : list byte) : TResult (option IndexGeneration) :=
  if (blen bytes <? 4) || negb (bool_decide (slice bytes 0 4 = MANIFEST_MAGIC)) then Ok None
  else if negb (blen bytes =? ENCODED_SIZE) then Err (CorruptRecord page_id ManifestLength)
  else
    let version := read_u16 bytes 4 in
    if negb (version =? MANIFEST_FORMAT_VERSION) then Err (CorruptRecord page_id (UnsupportedManifestVersion version))
    else
      let flags := read_u16 bytes 6 in
      if negb (Z.land flags (not_u16 FLAG_HAS_ROOT) =? 0) then Err (CorruptRecord page_id (UnknownManifestFlags flags))
      else if negb (all_zero (slice bytes 26 6)) || negb (all_zero (slice bytes 40 8))
      then Err (CorruptRecord page_id ReservedManifestBytes)
      else
        let timestamp := read_u64 bytes 8 in
        let root_page_id := read_u64 bytes 16 in
        let height := read_u16 bytes 24 in
        let entries := read_u64 bytes 32 in
        root ← (if negb (Z.land flags FLAG_HAS_ROOT =? 0) then
                  if (root_page_id =? NO_PAGE) || (height =? 0) || (entries =? 0)
                  then Err (CorruptRecord page_id RootMetadataIncomplete)
                  else Ok (Some (mkRoot root_page_id height entries))
                else if negb (root_page_id =? NO_PAGE) || negb (height =? 0) || negb (entries =? 0)
                then Err (CorruptRecord page_id EmptyGenerationHasRoot)
                else Ok None);
        Ok (Some (mkGeneration timestamp root page_id)).

(** ** Round trips *)

Definition record_ok (r : VersionRecord) : Prop :=
  1 <= vr_timestamp r <= U64_MAX /\
  RECORD_HEADER_SIZE + blen (vr_key r) + value_length (vr_value r) <= MAX_PAGE_PAYLOAD.

Definition record_size (r : VersionRecord) : Z := RECORD_HEADER_SIZE + blen (vr_key r) + value_length (vr_value r).

Ltac record_consts :=
  unfold RECORD_HEADER_SIZE, RECORD_FORMAT_VERSION, RESERVED_OFFSET, FLAG_TOMBSTONE, ENCODED_SIZE, FLAG_HAS_ROOT,
    MANIFEST_FORMAT_VERSION, MAX_PAGE_PAYLOAD, PAGE_SIZE, PAGE_HEADER_SIZE, U64_MAX, U32_MAX, U16_MAX in *.

Lemma validate_size_ok k v :
  RECORD_HEADER_SIZE + blen k + value_length v <= MAX_PAGE_PAYLOAD -> validate_size k v = Ok tt.
Proof.
  intros Hs. unfold validate_size. cbn [mbind option_bind]. unfold checked_add. record_consts.
  replace (32 + blen k <=? 2 ^ 64 - 1) with true by (destruct v; cbn in *; lia). cbn [mbind option_bind].
  replace (_ <=? _) with true by (destruct v; cbn in *; lia). cbn [ok_or mbind result_bind].
  replace (_ <? _) with false by lia. done.
Qed.

Definition record_header (r : VersionRecord) : list byte :=
  let bytes := put (zeros RECORD_HEADER_SIZE) 0 RECORD_MAGIC in
  let bytes := write_u16 bytes 4 RECORD_FORMAT_VERSION in
  let bytes := match vr_value r with None => write_u16 bytes 6 FLAG_TOMBSTONE | Some _ => bytes end in
  let bytes := write_u64 bytes 8 (vr_timestamp r) in
  let bytes := write_u32 bytes 16 (blen (vr_key r)) in
  write_u32 bytes 20 (value_length (vr_value r)).

Definition record_bytes (r : VersionRecord) : list byte := record_header r ++ vr_key r ++ default [] (vr_value r).

Lemma length_RECORD_MAGIC : blen RECORD_MAGIC = 4.
Proof. done. Qed.

Lemma length_version_header r : blen (record_header r) = 32.
Proof.
  pose proof length_RECORD_MAGIC. unfold record_header, write_u16, write_u32, write_u64. record_consts.
  destruct (vr_value r); buf_len.
Qed.

Lemma length_version_bytes r : blen (record_bytes r) = record_size r.
Proof.
  unfold record_bytes, record_size. rewrite !length_app, !Nat2Z.inj_add, length_version_header.
  record_consts. destruct (vr_value r); cbn; lia.
Qed.

Lemma encode_record_bytes r : record_ok r -> encode_record r = Ok (record_bytes r).
Proof.
  intros [_ Hs]. unfold encode_record. rewrite validate_size_ok by done. cbn [mbind result_bind]. f_equal.
  pose proof length_RECORD_MAGIC. pose proof (length_version_header r) as HL.
  assert (0 <= value_length (vr_value r)) by (destruct (vr_value r); cbn; lia).
  rewrite <- Z.add_assoc, zeros_app by (record_consts; lia). unfold record_bytes, write_u16, write_u32, write_u64 in *.
  set (n := blen (vr_key r) + value_length (vr_value r)).
  assert (put (put (put (match vr_value r with
      | Some _ => put (put (zeros RECORD_HEADER_SIZE ++ zeros n) 0 RECORD_MAGIC) 4 (to_le 2 RECORD_FORMAT_VERSION)
      | None => put (put (put (zeros RECORD_HEADER_SIZE ++ zeros n) 0 RECORD_MAGIC) 4 (to_le 2 RECORD_FORMAT_VERSION)) 6 (to_le 2 FLAG_TOMBSTONE)
      end) 8 (to_le 8 (vr_timestamp r))) 16 (to_le 4 (blen (vr_key r)))) 20 (to_le 4 (value_length (vr_value r)))
    = record_header r ++ zeros n) as ->.
  { unfold record_header, write_u16, write_u32, write_u64. record_consts.
    destruct (vr_value r); rewrite !put_app_l by buf_len; done. }
  replace RECORD_HEADER_SIZE with (blen (record_header r)) by done.
  rewrite put_app_zeros by (unfold n; lia). rewrite <- Nat2Z.inj_add, <- length_app.
  destruct (vr_value r) as [v|]; cbn [value_length default from_option] in *.
  - rewrite put_app_zeros by (unfold n; lia). replace (n - _ - _) with 0 by (unfold n; lia).
    by rewrite app_nil_r, <- app_assoc.
  - replace (n - _) with 0 by (unfold n; lia). by rewrite !app_nil_r.
Qed.

Lemma version_header_fields r :
  record_ok r -> let H := record_header r in
  slice H 0 4 = RECORD_MAGIC /\ read_u16 H 4 = RECORD_FORMAT_VERSION /\
  read_u16 H 6 = (match vr_value r with None => FLAG_TOMBSTONE | Some _ => 0 end) /\
  slice H 24 8 = zeros 8 /\ read_u64 H 8 = vr_timestamp r /\
  read_u32 H 16 = blen (vr_key r) /\ read_u32 H 20 = value_length (vr_value r).
Proof.
  intros [Ht Hs] H. pose proof length_RECORD_MAGIC as HM. unfold H, record_header.
  assert (0 <= value_length (vr_value r)) by (destruct (vr_value r); cbn; lia).
  assert (from_le (zeros 2) = 0) as Hz by (vm_compute; reflexivity).
  record_consts. destruct (vr_value r) as [v|]; cbn [value_length] in *;
    split_and!; buf_read; rewrite ?slice_zeros by lia; done.
Qed.

Lemma record_bytes_parts r post :
  record_ok r -> let B := record_bytes r ++ post in
  (forall o n, 0 <= o -> o + n <= 32 -> slice B o n = slice (record_header r) o n) /\
  slice B 32 (blen (vr_key r)) = vr_key r /\
  slice B (32 + blen (vr_key r)) (value_length (vr_value r)) = default [] (vr_value r).
Proof.
  intros Hr B. pose proof (length_version_header r) as HL. unfold B, record_bytes. rewrite <- !app_assoc. split_and!.
  - intros. apply slice_app_l; lia.
  - rewrite slice_app_r, slice_app_l, HL by lia. by apply slice_all.
  - rewrite slice_app_r, slice_app_r by lia.
    assert (value_length (vr_value r) = blen (default [] (vr_value r))) as -> by (by destruct (vr_value r)).
    rewrite slice_app_l by lia. replace (_ - _ - _) with 0 by lia. by apply slice_all.
Qed.

Lemma decode_at_record page_id pre r post :
  record_ok r ->
  decode_at page_id (pre ++ record_bytes r ++ post) (blen pre) = Ok (Some (r, record_size r)).
Proof.
  intros Hr. destruct (record_bytes_parts r post Hr) as (Hh & Hk & Hv).
  destruct (version_header_fields r Hr) as (F1 & F2 & F3 & F4 & F5 & F6 & F7).
  pose proof (length_version_bytes r) as HL. destruct Hr as [Ht Hs].
  assert (0 <= value_length (vr_value r)) as Hv0 by (destruct (vr_value r); cbn; lia).
  unfold decode_at. rewrite Nat2Z.id, drop_app_length.
  replace (blen (pre ++ record_bytes r ++ post) <? blen pre) with false by (symmetry; apply Z.ltb_ge; rewrite length_app; lia).
  set (B := record_bytes r ++ post) in *.
  assert (record_size r <= blen B) as HB by (unfold B; rewrite length_app; lia).
  unfold read_u16, read_u32, read_u64 in *. unfold record_size in *. record_consts. change (32 - 24) with 8.
  rewrite (Hh 0 4), (Hh 4 2), (Hh 6 2), (Hh 24 8), (Hh 8 8), (Hh 16 4), (Hh 20 4) by lia.
  rewrite F1, F2, F3, F4, F5, F6, F7. rewrite bool_decide_true, all_zero_zeros by done.
  replace (blen B <? 4) with false by lia. replace (blen B <? 32) with false by lia. cbn [orb negb].
  assert (Z.land (match vr_value r with Some _ => 0 | None => 1 end) (not_u16 1) = 0) as -> by (by destruct (vr_value r)).
  cbn [Z.eqb Pos.eqb negb]. replace (vr_timestamp r =? 0) with false by lia.
  cbn [mbind option_bind]. unfold checked_add. record_consts.
  replace (32 + blen (vr_key r) <=? 2 ^ 64 - 1) with true by lia. cbn [mbind option_bind].
  replace (_ <=? _) with true by lia. cbn [ok_or mbind result_bind].
  replace (blen B <? _) with false by lia. rewrite Hk, Hv.
  destruct r as [t k [v|]]; cbn; done.
Qed.

(** Decoding stops where the bytes do not start with the magic. *)
Lemma decode_at_stop page_id pre tail :
  slice tail 0 4 <> RECORD_MAGIC -> decode_at page_id (pre ++ tail) (blen pre) = Ok None.
Proof.
  intros Hm. unfold decode_at. rewrite Nat2Z.id, drop_app_length.
  replace (blen (pre ++ tail) <? blen pre) with false by (symmetry; apply Z.ltb_ge; rewrite length_app; lia).
  rewrite bool_decide_false by done. by rewrite orb_true_r.
Qed.

Definition records_bytes (rs : list VersionRecord) : list byte := concat (record_bytes <$> rs).

Lemma decode_page_loop_records page_id rs tail :
  Forall record_ok rs -> slice tail 0 4 <> RECORD_MAGIC ->
  forall pre fuel, (length rs < fuel)%nat ->
  decode_page_loop fuel page_id (pre ++ records_bytes rs ++ tail) (blen pre) = Ok rs.
Proof.
  intros Hrs Htail. induction Hrs as [|r rs Hr Hrs IH]; intros pre fuel Hf; (destruct fuel as [|fuel]; [cbn in Hf; lia|]);
    cbn [decode_page_loop].
  - unfold records_bytes. cbn [fmap list_fmap concat app]. by rewrite decode_at_stop.
  - unfold records_bytes. cbn [fmap list_fmap concat]. rewrite <- app_assoc.
    rewrite decode_at_record by done. cbn [mbind result_bind].
    rewrite <- length_version_bytes, <- Nat2Z.inj_add, <- length_app.
    rewrite app_assoc. fold (records_bytes rs). rewrite IH by (cbn in Hf; lia). done.
Qed.

Lemma records_fit rs : Forall record_ok rs -> (length rs <= length (records_bytes rs))%nat.
Proof.
  induction 1 as [|r rs Hr Hrs IH]; [done|]. unfold records_bytes in *. cbn. rewrite length_app.
  pose proof (length_version_bytes r) as HL. unfold record_size in HL. record_consts.
  assert (0 <= value_length (vr_value r)) by (destruct (vr_value r); cbn; lia). lia.
Qed.

Lemma decode_page_records page_id rs tail :
  Forall record_ok rs -> slice tail 0 4 <> RECORD_MAGIC -> decode_page page_id (records_bytes rs ++ tail) = Ok rs.
Proof.
  intros Hrs Htail. unfold decode_page. apply (decode_page_loop_records page_id rs tail Hrs Htail []).
  pose proof (records_fit rs Hrs). rewrite length_app. lia.
Qed.

(** C32: A page packed with version records, with any unused zeroed tail,
    decodes to exactly those records in order. *)
Theorem packed_page_round_trip page_id rs n :
  Forall record_ok rs -> 0 <= n ->
  exists chunks, try_map encode_record rs = Ok chunks /\
    decode_page page_id (concat chunks ++ zeros n) = Ok rs.
Proof.
  intros Hrs Hn. exists (record_bytes <$> rs). split.
  - apply try_map_Forall2, Forall2_fmap_r, Forall_Forall2_diag.
    apply (Forall_impl _ _ _ Hrs). intros r Hr. by apply encode_record_bytes.
  - apply decode_page_records; [done|]. intros Hz. apply (f_equal (fun l => l !! 0%nat)) in Hz.
    rewrite lookup_slice, bool_decide_true, lookup_zeros in Hz by lia. by case_bool_decide.
Qed.

Lemma packed_page_round_trip_witness :
  let rs := [mkVersionRecord 1 (bytes_of_string "k") (Some (bytes_of_string "v")); mkVersionRecord 2 (bytes_of_string "k") None] in
  exists chunks, try_map encode_record rs = Ok chunks /\ decode_page 9 (concat chunks ++ zeros 100) = Ok rs.
Proof.
  intros rs. apply (packed_page_round_trip 9 rs 100); [|lia].
  repeat constructor; vm_compute; discriminate.
Defined.



Definition generation_ok (g : IndexGeneration) : Prop :=
  is_u64 (g_timestamp g) /\
  match g_root g with
  | Some r => 0 <= root_page r < NO_PAGE /\ 1 <= height r <= U16_MAX /\ 1 <= root_entries r <= U64_MAX
  | None => True
  end.

Lemma encode_manifest_fields g :
  generation_ok g -> let B := encode_manifest g in
  blen B = ENCODED_SIZE /\ slice B 0 4 = MANIFEST_MAGIC /\ read_u16 B 4 = MANIFEST_FORMAT_VERSION /\
  read_u16 B 6 = (match g_root g with Some _ => FLAG_HAS_ROOT | None => 0 end) /\
  slice B 26 6 = zeros 6 /\ slice B 40 8 = zeros 8 /\ read_u64 B 8 = g_timestamp g /\
  read_u64 B 16 = (match g_root g with Some r => root_page r | None => NO_PAGE end) /\
  read_u16 B 24 = (match g_root g with Some r => height r | None => 0 end) /\
  read_u64 B 32 = (match g_root g with Some r => root_entries r | None => 0 end).
Proof.
  intros [Ht Hr] B. assert (blen MANIFEST_MAGIC = 4) as HM by done. unfold B, encode_manifest, is_u64, NO_PAGE in *.
  assert (from_le (zeros 2) = 0) as Hz by (vm_compute; reflexivity).
  record_consts. destruct (g_root g) as [r|]; split_and!;
    lazymatch goal with |- blen _ = _ => unfold write_u16, write_u64; buf_len | _ => idtac end;
    buf_read; rewrite ?slice_zeros by lia; done.
Qed.

(** C34: A manifest page decodes to the generation it was written for. *)
Theorem manifest_round_trip g :
  generation_ok g -> decode_manifest (manifest_page_id g) (encode_manifest g) = Ok (Some g).
Proof.
  intros Hg. destruct (encode_manifest_fields g Hg) as (F0 & F1 & F2 & F3 & F4 & F5 & F6 & F7 & F8 & F9).
  unfold decode_manifest. rewrite F0, F1, F2, F3, F4, F5, F6, F7, F8, F9, !all_zero_zeros, bool_decide_true by done.
  destruct Hg as [_ Hr]. destruct g as [t [[p h e]|] m]; cbn in *; [|done].
  unfold NO_PAGE in *. replace (p =? U64_MAX) with false by lia. replace (h =? 0) with false by lia.
  replace (e =? 0) with false by lia. done.
Qed.

Lemma manifest_round_trip_witness :
  let g := mkGeneration 12 (Some (mkRoot 4 2 900)) 77 in
  decode_manifest 77 (encode_manifest g) = Ok (Some g).
Proof. intros g. apply (manifest_round_trip g). split; [|split_and!]; vm_compute; done || discriminate. Defined.
