(* ===== verification/Handle.v ===== *)
(** * What the index and the transaction layer need of the storage handle

    The clients of the page store reach it through a [GroupCommitHandle]:
    they read pages, reserve page IDs and commit batches of pages.
    [PageStore] is that interface; [PageStoreLaws] is what the clients'
    theorems rely on: a reservation hands out distinct IDs that nobody
    else holds, and a commit changes exactly the pages it writes. *)
From S2P Require Import Prelude Page Store.
Local Open Scope Z_scope.

Class PageStore (S : Type) := {
  ps_read : S -> PageId -> Result (option Page);
  ps_reserve : Z -> ST S StorageError (list PageId);
  ps_commit : list PageWrite -> ST S StorageError (list Lsn);
}.

(** The payload that a batch leaves on a page: the last write wins. *)
Fixpoint batch_payload (ws : list PageWrite) (p : PageId) : option (list byte) :=
  match ws with
  | [] => None
  | w :: ws =>
      match batch_payload ws p with
      | Some b => Some b
      | None => if w_page_id w =? p then Some (w_payload w) else None
      end
  end.

(** [holds s p b]: the page [p] reads back with the payload [b]. *)
Definition holds {S} `{PageStore S} (s : S) (p : PageId) (b : list byte) : Prop :=
  exists page, ps_read s p = Ok (Some page) /\ payload page = b.

Class PageStoreLaws (S : Type) `{PageStore S} := {
  ps_ok : S -> Prop;
  (** IDs that a reservation may still hand out, and how many there are. *)
  ps_unused : S -> PageId -> Prop;
  ps_room : S -> Z;
  (** Batches that the log has room for. *)
  ps_fits : S -> list PageWrite -> Prop;

  ps_unused_range : forall s p, ps_ok s -> ps_unused s p -> 0 <= p;

  ps_reserve_ok : forall s n, ps_ok s -> 0 <= n <= ps_room s ->
    exists ids s', ps_reserve n s = (Ok ids, s') /\ ps_ok s' /\
      blen ids = n /\ NoDup ids /\ ps_room s - n <= ps_room s' /\
      (forall p, p ∈ ids -> ps_unused s p /\ p < U64_MAX) /\
      (forall p, ps_unused s' p <-> ps_unused s p /\ p ∉ ids) /\
      (forall p, ps_read s' p = ps_read s p);

  ps_commit_ok : forall s ws, ps_ok s -> ps_fits s ws ->
    exists lsns s', ps_commit ws s = (Ok lsns, s') /\ ps_ok s' /\
      (forall p, ps_unused s' p <-> ps_unused s p /\ batch_payload ws p = None) /\
      (forall p b, batch_payload ws p = Some b -> holds s' p b) /\
      (forall p b, batch_payload ws p = None -> holds s p b -> holds s' p b);
}.
