(* ===== verification/Tree.v ===== *)
(** * The B+ tree

    Models [src/index/src/tree.rs] and [src/index/src/cache.rs]: reading a
    node through the shared cache, point lookups, range scans, building a
    generation from sorted entries, and copy-on-write edits.  Nodes live in
    the pages of a [PageStore]; an edit collects new nodes in an overlay and
    its plan lists the pages to commit. *)
From S2P Require Import Prelude Page Order ByteLru Node Record Store Handle.
Local Open Scope Z_scope.

(** ** The slice operations of the standard library that the tree uses *)

(** [partition_point]: the length of the prefix that satisfies a predicate. *)
Fixpoint partition_point {A} (p : A -> bool) (l : list A) : nat :=
  match l with
  | [] => 0
  | x :: l => if p x then S (partition_point p l) else 0
  end.

(** [binary_search_by] on strictly increasing keys: the position of the key,
    or where it would be inserted. *)
Definition binary_search (l : list IndexEntry) (k : list byte) : nat + nat :=
  let position := partition_point (fun e => bytes_ltb (key e) k) l in
  match l !! position with
  | Some e => if bool_decide (key e = k) then inl position else inr position
  | None => inr position
  end.

(** [Vec::insert] and [Vec::remove]. *)
Definition vec_insert {A} (l : list A) (i : nat) (x : A) : list A := take i l ++ x :: drop i l.
Definition vec_remove {A} (l : list A) (i : nat) : list A := take i l ++ drop (S i) l.

Record Child := mkChild {
  first_key : list byte;
  child_page : PageId;
}.

Record IndexBuildPlan := mkPlan {
  plan_root : option IndexRoot;
  plan_writes : list PageWrite;
}.

Inductive IndexMutation :=
| Upsert (e : IndexEntry)
| Delete (k : list byte).

(** ** Partitioning entries into nodes *)

(** The inner loop of both partitions: how many of the entries fit after
    [used] bytes. *)
Fixpoint fill_node (used : Z) (sizes : list (option Z)) : IResult nat :=
  match sizes with
  | [] => Ok 0%nat
  | None :: _ => Err (KeyTooLarge U64_MAX (MAX_PAGE_PAYLOAD - NODE_HEADER_SIZE))
  | Some size :: sizes =>
      if MAX_PAGE_PAYLOAD <? used + size then Ok 0%nat
      else n ← fill_node (used + size) sizes; Ok (S n)
  end.

Definition entry_sizes (entries : list IndexEntry) : list (option Z) :=
  (fun e => leaf_entry_size (blen (key e))) <$> entries.

(** The ranges of [partition_leaves], as the entries they delimit. *)
Fixpoint partition_leaves (fuel : nat) (entries : list IndexEntry) : IResult (list (list IndexEntry)) :=
  match fuel, entries with
  | S fuel, e :: _ =>
      n ← fill_node NODE_HEADER_SIZE (entry_sizes entries);
      match n with
      | O => Err (KeyTooLarge (default U64_MAX (leaf_entry_size (blen (key e)))) (MAX_PAGE_PAYLOAD - NODE_HEADER_SIZE))
      | S _ => rest ← partition_leaves fuel (drop n entries); Ok (take n entries :: rest)
      end
  | _, _ => Ok []
  end.

Definition child_sizes (children : list Child) : list (option Z) :=
  (fun c => internal_entry_size (blen (first_key c))) <$> children.

(** The check that [partition_internal] makes on a group of one child. *)
Definition lone_child_fits (rest : list Child) : IResult unit :=
  match rest with
  | [] => Ok tt
  | c :: _ =>
      let key_length := blen (first_key c) in
      let size := default U64_MAX (internal_entry_size key_length) in
      if MAX_PAGE_PAYLOAD <? saturating_add U64_MAX NODE_HEADER_SIZE size
      then Err (KeyTooLarge key_length (MAX_PAGE_PAYLOAD - NODE_HEADER_SIZE - 12))
      else Ok tt
  end.

Fixpoint partition_internal (fuel : nat) (children : list Child) : IResult (list (list Child)) :=
  match fuel, children with
  | S fuel, c :: rest =>
      n ← fill_node NODE_HEADER_SIZE (child_sizes rest);
      _ ← match n with O => lone_child_fits rest | S _ => Ok tt end;
      groups ← partition_internal fuel (drop n rest);
      Ok ((c :: take n rest) :: groups)
  | _, _ => Ok []
  end.

Fixpoint strictly_increasing (entries : list IndexEntry) : bool :=
  match entries with
  | e1 :: ((e2 :: _) as rest) => if bytes_leb (key e2) (key e1) then false else strictly_increasing rest
  | _ => true
  end.

Definition validate_entry (e : IndexEntry) : IResult unit :=
  match leaf_entry_size (blen (key e)) with
  | None => Err (KeyTooLarge U64_MAX (MAX_PAGE_PAYLOAD - NODE_HEADER_SIZE))
  | Some entry_size =>
      if MAX_PAGE_PAYLOAD <? NODE_HEADER_SIZE + entry_size
      then Err (KeyTooLarge (blen (key e)) (MAX_PAGE_PAYLOAD - NODE_HEADER_SIZE - 12))
      else Ok tt
  end.

Definition validate_entries (entries : list IndexEntry) : IResult unit :=
  if negb (strictly_increasing entries) then Err KeysNotStrictlyIncreasing
  else _ ← try_map validate_entry entries; Ok tt.

(** The node above a group of children. *)
Definition internal_node (level : Z) (group : list Child) : Node :=
  match group with
  | [] => Internal level NO_PAGE []
  | c :: rest => Internal level (child_page c) ((fun c => (first_key c, child_page c)) <$> rest)
  end.

Definition group_child (group : list Child) (p : PageId) : Child :=
  mkChild (match group with c :: _ => first_key c | [] => [] end) p.

Section Tree.
Context {St : Type} `{PageStore St}.

(** [std::mem::size_of] of the three types that the cache accounts for. *)
Context (size_of_node size_of_entry size_of_separator : Z).

Definition approximate_bytes (n : Node) : Z :=
  match n with
  | Leaf entries _ => fold_left (fun bytes e => bytes + blen (key e) + size_of_entry) entries size_of_node
  | Internal _ _ separators => fold_left (fun bytes s => bytes + blen s.1 + size_of_separator) separators size_of_node
  end.

(** The storage handle with the shared node cache, when there is one. *)
Record TreeState := mkTree {
  t_store : St;
  t_cache : option (LruInner Node);
}.

Abbreviation TreeM := (ST TreeState IndexError).

Definition set_t_store (s : St) (t : TreeState) : TreeState := mkTree s (t_cache t).
Definition set_t_cache (c : option (LruInner Node)) (t : TreeState) : TreeState := mkTree (t_store t) c.

Definition tree_corrupt {T A} (p : PageId) (reason : node_fault) : ST T IndexError A := throw (CorruptNode p reason).

(** Storage errors become index errors through [From]. *)
Definition storage {T A} (m : ST T StorageError A) : ST T IndexError A :=
  fun s => let '(r, s') := m s in (map_err IndexStorage r, s').

Definition cache_get (p : PageId) : TreeM (option Node) :=
  t ← get;
  match t_cache t with
  | None => mret None
  | Some c => let '(o, c') := lru_get p c in _ ← modify (set_t_cache (Some c')); mret o
  end.

Definition cache_insert (p : PageId) (n : Node) : TreeM unit :=
  modify (fun t => match t_cache t with
                   | None => t
                   | Some c => set_t_cache (Some (lru_insert p n (approximate_bytes n) c)) t
                   end).

Definition read_node (p : PageId) : TreeM Node :=
  cached ← cache_get p;
  match cached with
  | Some n => mret n
  | None =>
      t ← get;
      found ← lift (map_err IndexStorage (ps_read (t_store t) p));
      match found with
      | None => tree_corrupt p PageDoesNotExist
      | Some page =>
          n ← lift (decode_node p (payload page));
          _ ← cache_insert p n;
          mret n
      end
  end.

Definition reserve_page_ids (n : Z) : TreeM (list PageId) := zoom t_store set_t_store (storage (ps_reserve n)).

(** ** Point lookups *)

(** The child that [get] follows for a key. *)
Definition route (first_child : PageId) (separators : list (list byte * PageId)) (k : list byte) : PageId :=
  match partition_point (fun s => bytes_leb s.1 k) separators with
  | O => first_child
  | S i => match separators !! i with Some s => s.2 | None => first_child end
  end.

(** The loop of [get]; the expected level falls with every turn. *)
Fixpoint get_loop (expected_level : nat) (page_id : PageId) (k : list byte) : TreeM (option PageId) :=
  node ← read_node page_id;
  if negb (node_level node =? Z.of_nat expected_level)
  then tree_corrupt page_id (NodeLevelMismatch (node_level node) (Z.of_nat expected_level))
  else
    match node with
    | Leaf entries _ =>
        mret (match binary_search entries k with
              | inl position => value <$> entries !! position
              | inr _ => None
              end)
    | Internal _ first_child separators =>
        let child := route first_child separators k in
        match expected_level with
        | O => tree_corrupt child InternalBelowLeaf
        | S level => get_loop level child k
        end
    end.

Definition root_level {T} (root : IndexRoot) : ST T IndexError nat :=
  if height root =? 0 then tree_corrupt (root_page root) RootHeightZero
  else mret (Z.to_nat (height root - 1)).

Definition tree_get (root : IndexRoot) (k : list byte) : TreeM (option PageId) :=
  level ← root_level root; get_loop level (root_page root) k.

(** ** Range scans *)

Record CursorFrame := mkCursor {
  cf_children : list PageId;
  cf_position : nat;
  cf_level : nat;
}.

(** The cursor: the frames above the leaf, deepest first, and the pages
    visited. *)
Abbreviation cursor := (list CursorFrame * gset PageId)%type.

Fixpoint descend_to_leaf (expected_level : nat) (page_id : PageId) (k : option (list byte)) (c : cursor)
  : TreeM (PageId * cursor) :=
  let '(frames, visited) := c in
  if decide (page_id ∈ visited) then tree_corrupt page_id PageCycle
  else
    let visited := {[page_id]} ∪ visited in
    node ← read_node page_id;
    if negb (node_level node =? Z.of_nat expected_level)
    then tree_corrupt page_id (NodeLevelMismatch (node_level node) (Z.of_nat expected_level))
    else
      match node with
      | Leaf _ _ => mret (page_id, (frames, visited))
      | Internal _ first_child separators =>
          let children := first_child :: separators.*2 in
          let position := match k with
                          | None => 0%nat
                          | Some k => partition_point (fun s => bytes_leb s.1 k) separators
                          end in
          match expected_level with
          | O => tree_corrupt page_id InternalBelowLeaf
          | S level =>
              let child := default first_child (children !! position) in
              descend_to_leaf level child k (mkCursor children position level :: frames, visited)
          end
      end.

Fixpoint advance_to_next_leaf (frames : list CursorFrame) (visited : gset PageId)
  : TreeM (option (PageId * cursor)) :=
  match frames with
  | [] => mret None
  | frame :: rest =>
      match cf_children frame !! S (cf_position frame) with
      | Some page_id =>
          let frame := mkCursor (cf_children frame) (S (cf_position frame)) (cf_level frame) in
          found ← descend_to_leaf (cf_level frame) page_id None (frame :: rest, visited);
          mret (Some found)
      | None => advance_to_next_leaf rest visited
      end
  end.

(** What the scan of one leaf does: stop with the result, or go on to the
    next leaf. *)
Inductive scan_step :=
| ScanDone (result : list IndexEntry)
| ScanMore (result : list IndexEntry) (previous : option (list byte)).

Fixpoint scan_leaf (page_id : PageId) (start end_ : option (list byte)) (limit : Z)
    (entries result : list IndexEntry) (previous : option (list byte)) : IResult scan_step :=
  match entries with
  | [] => Ok (ScanMore result previous)
  | e :: entries =>
      if match start with Some s => bytes_ltb (key e) s | None => false end
      then scan_leaf page_id start end_ limit entries result previous
      else if match end_ with Some s => bytes_leb s (key e) | None => false end then Ok (ScanDone result)
      else if match previous with Some p => bytes_leb (key e) p | None => false end
      then Err (CorruptNode page_id LeafChainNotOrdered)
      else
        let result := result ++ [e] in
        if blen result =? limit then Ok (ScanDone result)
        else scan_leaf page_id start end_ limit entries result (Some (key e))
  end.

(** The loop over leaves.  The fuel bounds the leaves it visits. *)
Fixpoint range_loop (fuel : nat) (start end_ : option (list byte)) (limit : Z) (page_id : PageId) (c : cursor)
    (result : list IndexEntry) (previous : option (list byte)) : TreeM (list IndexEntry) :=
  match fuel with
  | O => mret result
  | S fuel =>
      if negb (blen result <? limit) then mret result
      else
        node ← read_node page_id;
        match node with
        | Internal _ _ _ => tree_corrupt page_id CursorReachedInternal
        | Leaf entries _ =>
            step ← lift (scan_leaf page_id start end_ limit entries result previous);
            match step with
            | ScanDone result => mret result
            | ScanMore result previous =>
                next ← advance_to_next_leaf c.1 c.2;
                match next with
                | None => mret result
                | Some (page_id, c) => range_loop fuel start end_ limit page_id c result previous
                end
            end
        end
  end.

Definition tree_range (fuel : nat) (root : IndexRoot) (start end_ : option (list byte)) (limit : Z)
  : TreeM (list IndexEntry) :=
  if (limit =? 0) || match start, end_ with Some s, Some e => bytes_leb e s | _, _ => false end then mret []
  else
    level ← root_level root;
    found ← descend_to_leaf level (root_page root) (Some (default [] start)) ([], ∅);
    range_loop fuel start end_ limit found.1 found.2 [] None.

(** ** Building a generation *)

(** One leaf of the plan: [next] is the following leaf's page. *)
Fixpoint plan_leaves (groups : list (list IndexEntry)) (ids : list PageId) : IResult (list PageWrite * list Child) :=
  match groups, ids with
  | group :: groups, p :: ids =>
      bytes ← encode_node (Leaf group (head ids));
      rest ← plan_leaves groups ids;
      Ok (mkPageWrite p bytes :: rest.1,
          mkChild (match group with e :: _ => key e | [] => [] end) p :: rest.2)
  | _, _ => Ok ([], [])
  end.

Fixpoint plan_level (level : Z) (groups : list (list Child)) (ids : list PageId) : IResult (list PageWrite * list Child) :=
  match groups, ids with
  | group :: groups, p :: ids =>
      bytes ← encode_node (internal_node level group);
      rest ← plan_level level groups ids;
      Ok (mkPageWrite p bytes :: rest.1, group_child group p :: rest.2)
  | _, _ => Ok ([], [])
  end.

(** The loop over levels; each level has fewer nodes than the one below. *)
Fixpoint plan_levels (fuel : nat) (level : Z) (children : list Child) (writes : list PageWrite)
  : TreeM (Z * list Child * list PageWrite) :=
  match fuel with
  | O => mret (level, children, writes)
  | S fuel =>
      if 1 <? blen children then
        level ← lift (ok_or (checked_add U16_MAX level 1) EntryCountOverflow);
        groups ← lift (partition_internal (length children) children);
        ids ← reserve_page_ids (blen groups);
        built ← lift (plan_level level groups ids);
        plan_levels fuel level built.2 (writes ++ built.1)
      else mret (level, children, writes)
  end.

Definition plan (entries : list IndexEntry) : TreeM IndexBuildPlan :=
  _ ← lift (validate_entries entries);
  match entries with
  | [] => mret (mkPlan None [])
  | _ =>
      groups ← lift (partition_leaves (length entries) entries);
      ids ← reserve_page_ids (blen groups);
      built ← lift (plan_leaves groups ids);
      levels ← plan_levels (length built.2) 0 built.2 built.1;
      let '(level, children, writes) := levels in
      h ← lift (ok_or (checked_add U16_MAX level 1) EntryCountOverflow);
      match children with
      | c :: _ => mret (mkPlan (Some (mkRoot (child_page c) h (blen entries))) writes)
      | [] => mret (mkPlan None writes)
      end
  end.

Definition build (entries : list IndexEntry) : TreeM (option IndexRoot) :=
  p ← plan entries;
  _ ← zoom t_store set_t_store (storage (ps_commit (plan_writes p)));
  mret (plan_root p).

(** ** Copy-on-write edits *)

Record Editor := mkEditor {
  ed_tree : TreeState;
  ed_root : option IndexRoot;
  overlay : gmap PageId Node;
}.

Abbreviation EditM := (ST Editor IndexError).

Definition set_ed_tree (t : TreeState) (e : Editor) : Editor := mkEditor t (ed_root e) (overlay e).
Definition set_ed_root (r : option IndexRoot) (e : Editor) : Editor := mkEditor (ed_tree e) r (overlay e).
Definition on_tree {A} (m : TreeM A) : EditM A := zoom ed_tree set_ed_tree m.

Definition allocate (n : Node) : EditM PageId :=
  ids ← on_tree (reserve_page_ids 1);
  p ← lift (ok_or (head ids) EntryCountOverflow);
  _ ← modify (fun e => mkEditor (ed_tree e) (ed_root e) (<[p := n]> (overlay e)));
  mret p.

Definition ed_read (p : PageId) : EditM Node :=
  e ← get;
  match overlay e !! p with
  | Some n => mret n
  | None => on_tree (read_node p)
  end.

(** The walk to the leftmost leaf.  The fuel is the tree's height: only a
    tree whose levels do not decrease could need more. *)
Fixpoint ed_first_key (fuel : nat) (p : PageId) (visited : gset PageId) : EditM (list byte) :=
  if decide (p ∈ visited) then tree_corrupt p PageCycle
  else
    node ← ed_read p;
    match node with
    | Leaf entries _ => lift (ok_or (key <$> head entries) (CorruptNode p ReachableLeafEmpty))
    | Internal _ first_child _ =>
        match fuel with
        | O => tree_corrupt p PageCycle
        | S fuel => ed_first_key fuel first_child ({[p]} ∪ visited)
        end
    end.

Record EditFrame := mkFrameE {
  ef_level : Z;
  ef_children : list Child;
  ef_position : nat;
}.

(** The descent of [apply]: the leaf's entries and the frames above it,
    deepest first. *)
Fixpoint ed_descend (expected_level : nat) (p : PageId) (fk k : list byte) (frames : list EditFrame)
  : EditM (list IndexEntry * list EditFrame) :=
  node ← ed_read p;
  if negb (node_level node =? Z.of_nat expected_level)
  then tree_corrupt p (NodeLevelMismatch (node_level node) (Z.of_nat expected_level))
  else
    match node with
    | Leaf entries _ => mret (entries, frames)
    | Internal level first_child separators =>
        let children := mkChild fk first_child :: ((fun s => mkChild s.1 s.2) <$> separators) in
        let position := Nat.pred (partition_point (fun c => bytes_leb (first_key c) k) children) in
        let child := default (mkChild fk first_child) (children !! position) in
        match expected_level with
        | O => tree_corrupt (child_page child) InternalBelowLeaf
        | S below => ed_descend below (child_page child) (first_key child) k (mkFrameE level children position :: frames)
        end
    end.

(** The change to the leaf, with the change to the entry count; [None] when
    a deleted key is absent. *)
Definition change_leaf (entries : list IndexEntry) (k : list byte) (v : option PageId)
  : option (list IndexEntry * Z) :=
  match binary_search entries k, v with
  | inl position, Some v => Some (<[position := mkIndexEntry k v]> entries, 0)
  | inr position, Some v => Some (vec_insert entries position (mkIndexEntry k v), 1)
  | inl position, None => Some (vec_remove entries position, -1)
  | inr _, None => None
  end.

Definition make_leaves (entries : list IndexEntry) : EditM (list Child) :=
  match entries with
  | [] => mret []
  | _ =>
      groups ← lift (partition_leaves (length entries) entries);
      collect groups (fun group =>
        p ← allocate (Leaf group None);
        mret (mkChild (match group with e :: _ => key e | [] => [] end) p))
  end.

Definition make_internal_level (level : Z) (children : list Child) : EditM (list Child) :=
  groups ← lift (partition_internal (length children) children);
  collect groups (fun group => p ← allocate (internal_node level group); mret (group_child group p)).

(** The way back up through the frames. *)
Fixpoint rebuild_path (root_id : PageId) (frames : list EditFrame) (replacement : list Child) (h : Z)
  : EditM (list Child * Z) :=
  match frames with
  | [] => mret (replacement, h)
  | frame :: rest =>
      let children := take (ef_position frame) (ef_children frame) ++ replacement
                      ++ drop (S (ef_position frame)) (ef_children frame) in
      match children, rest with
      | [], _ => rebuild_path root_id rest [] h
      | [_], [] =>
          h ← lift (ok_or (checked_sub h 1) (CorruptNode root_id TreeHeightUnderflow));
          rebuild_path root_id rest children h
      | _, _ =>
          level ← make_internal_level (ef_level frame) children;
          rebuild_path root_id rest level h
      end
  end.

Definition new_entry_count (root : IndexRoot) (delta : Z) : IResult Z :=
  if delta =? -1 then ok_or (checked_sub (root_entries root) 1) (CorruptNode (root_page root) EntryCountUnderflow)
  else if delta =? 0 then Ok (root_entries root)
  else ok_or (checked_add U64_MAX (root_entries root) 1) EntryCountOverflow.

Definition new_root (replacement : list Child) (h entries : Z) : EditM (option IndexRoot) :=
  match replacement with
  | [] => mret None
  | [c] => mret (Some (mkRoot (child_page c) h entries))
  | _ =>
      p ← allocate (internal_node h replacement);
      h' ← lift (ok_or (checked_add U16_MAX h 1) EntryCountOverflow);
      mret (Some (mkRoot p h' entries))
  end.

Definition ed_apply (mutation : IndexMutation) : EditM unit :=
  kv ← match mutation with
       | Upsert e => _ ← lift (validate_entries [e]); mret (key e, Some (value e))
       | Delete k => mret (k, None)
       end;
  let '(k, v) := kv in
  e ← get;
  match ed_root e with
  | None =>
      match v with
      | Some v =>
          p ← allocate (Leaf [mkIndexEntry k v] None);
          modify (set_ed_root (Some (mkRoot p 1 1)))
      | None => mret tt
      end
  | Some root =>
      level ← root_level root;
      fk ← ed_first_key (Z.to_nat (height root)) (root_page root) ∅;
      leaf ← ed_descend level (root_page root) fk k [];
      match change_leaf leaf.1 k v with
      | None => mret tt
      | Some (entries, delta) =>
          replacement ← make_leaves entries;
          rebuilt ← rebuild_path (root_page root) leaf.2 replacement (height root);
          count ← lift (new_entry_count root delta);
          root' ← new_root rebuilt.1 rebuilt.2 count;
          modify (set_ed_root root')
      end
  end.

(** The walk of [finish] over the overlay; every turn adds a page, so the
    pages that the overlay names bound the number of turns. *)
Definition node_children (n : Node) : list PageId :=
  match n with Leaf _ _ => [] | Internal _ c seps => c :: seps.*2 end.

Fixpoint reach_loop (fuel : nat) (o : gmap PageId Node) (pending : list PageId) (reachable : gset PageId)
  : IResult (gset PageId) :=
  match fuel, pending with
  | S fuel, p :: pending =>
      if decide (p ∈ reachable) then Err (CorruptNode p PlanCycle)
      else
        let reachable := {[p]} ∪ reachable in
        match o !! p with
        | None => reach_loop fuel o pending reachable
        | Some n => reach_loop fuel o (reverse (node_children n) ++ pending) reachable
        end
  | _, _ => Ok reachable
  end.

Definition reach_fuel (o : gmap PageId Node) : nat :=
  S (S (sum_list_with (fun x => length (node_children x.2)) (map_to_list o))).

Definition finish : EditM IndexBuildPlan :=
  e ← get;
  let pending := match ed_root e with Some r => [root_page r] | None => [] end in
  reachable ← lift (reach_loop (reach_fuel (overlay e)) (overlay e) pending ∅);
  let nodes := bt_list (filter (fun x => x.1 ∈ reachable) (overlay e)) in
  writes ← lift (try_map (fun x => bytes ← encode_node x.2; Ok (mkPageWrite x.1 bytes)) nodes);
  mret (mkPlan (ed_root e) writes).

Definition edit_plan (root : option IndexRoot) (mutations : list IndexMutation) : TreeM IndexBuildPlan :=
  fun t =>
    let '(r, e) := (_ ← for_each mutations ed_apply; finish) (mkEditor t root ∅) in
    (r, ed_tree e).
End Tree.
