(* ===== verification/TreeBase.v ===== *)
(** * The contents of a tree, and point lookups

    [tree look l p es] says that the page [p] is the root of a well-formed
    subtree of height [l] whose entries, left to right, are [es].  Lookups
    answer what the entries say. *)
From S2P Require Import Prelude Page Order ByteLru Node Record Store Handle Tree.
Local Open Scope Z_scope.

Abbreviation entries := (list (list byte * PageId)).

(** A node that can be written to a page and read back. *)
Definition node_fits (n : Node) : Prop := node_ok n /\ node_size n <= MAX_PAGE_PAYLOAD.

(** The key a list of entries starts with. *)
Definition starts_with (es : entries) (k : list byte) : Prop := exists v es', es = (k, v) :: es'.

(** What a node says about its level and entries, given what its children
    hold. *)
Definition node_holds (sub : PageId -> entries -> Prop) (n : Node) (l : nat) (es : entries) : Prop :=
  match n with
  | Leaf leaf _ => l = 0%nat /\ es = entry_pair <$> leaf /\ es <> []
  | Internal level c seps =>
      level = Z.of_nat l /\ exists cs css, sub c cs /\ cs <> [] /\
        Forall2 (fun s cs => sub s.2 cs /\ starts_with cs s.1) seps css /\ es = cs ++ concat css
  end.

Fixpoint tree (look : PageId -> Node -> Prop) (l : nat) (p : PageId) (es : entries) : Prop :=
  exists n, look p n /\ node_fits n /\
    node_holds (match l with O => fun _ _ => False | S l => tree look l end) n l es.

Lemma node_holds_mono (P Q : PageId -> entries -> Prop) n l es :
  (forall p es, P p es -> Q p es) -> node_holds P n l es -> node_holds Q n l es.
Proof.
  intros HPQ. destruct n as [leaf next|level c seps]; [done|]. intros (Hl & cs & css & Hc & Hne & Hcs & ->).
  split; [done|]. exists cs, css. split; [auto|]. split; [done|]. split; [|done].
  apply (Forall2_impl _ _ _ _ Hcs). intros s x [? ?]. auto.
Qed.

Lemma tree_mono (look look' : PageId -> Node -> Prop) l p es :
  (forall p n, look p n -> look' p n) -> tree look l p es -> tree look' l p es.
Proof.
  intros Hm. revert p es. induction l as [|l IH]; intros p es (n & Hn & Hf & Hh); exists n; (split; [auto|split; [done|]]).
  - done.
  - eapply node_holds_mono; [|exact Hh]. auto.
Qed.

Lemma starts_with_ne es k : starts_with es k -> es <> [].
Proof. by intros (v & es' & ->). Qed.

Lemma tree_ne look l p es : tree look l p es -> es <> [].
Proof.
  destruct l; intros (n & _ & _ & Hn); (destruct n as [leaf next|level c seps]; [by destruct Hn as (_ & _ & ?)|]).
  - by destruct Hn as (_ & cs & css & [] & _).
  - destruct Hn as (_ & cs & css & _ & Hne & _ & ->). by destruct cs.
Qed.

(** ** Routing *)

Lemma partition_point_le {A} (p : A -> bool) l : (partition_point p l <= length l)%nat.
Proof. induction l as [|x l IH]; simpl; [lia|]. destruct (p x); lia. Qed.

Lemma route_lookup c seps k :
  (c :: seps.*2) !! partition_point (fun s => bytes_leb s.1 k) seps = Some (route c seps k).
Proof.
  unfold route. pose proof (partition_point_le (fun s => bytes_leb s.1 k) seps) as Hle.
  destruct (partition_point _ seps) as [|i]; [done|].
  destruct (lookup_lt_is_Some_2 seps i) as [s Hs]; [lia|]. change ((c :: seps.*2) !! S i) with (seps.*2 !! i).
  by rewrite list_lookup_fmap, Hs.
Qed.

Definition keys_below (es : entries) (k : list byte) : Prop := forall x, x ∈ es -> key_lt x.1 k.
Definition keys_above (es : entries) (k : list byte) : Prop := forall x, x ∈ es -> key_lt k x.1.

Lemma keys_below_app es1 es2 k : keys_below (es1 ++ es2) k <-> keys_below es1 k /\ keys_below es2 k.
Proof. unfold keys_below. setoid_rewrite elem_of_app. naive_solver. Qed.

Lemma keys_above_app es1 es2 k : keys_above (es1 ++ es2) k <-> keys_above es1 k /\ keys_above es2 k.
Proof. unfold keys_above. setoid_rewrite elem_of_app. naive_solver. Qed.

Lemma starts_above es k k' : starts_with es k -> keys_sorted es -> key_lt k' k -> keys_above es k'.
Proof.
  intros (v & es' & ->) [_ Hs]%keys_sorted_cons Hk x [->|Hx]%elem_of_cons; [done|].
  rewrite Forall_forall in Hs. exact (key_lt_trans _ _ _ Hk (Hs x Hx)).
Qed.

(** The key, if any child holds it, is in the child at the partition point
    of the separators. *)
Lemma child_split seps (cs : entries) (css : list entries) k :
  Forall2 (fun (s : list byte * PageId) (cs : entries) => starts_with cs s.1) seps css ->
  keys_sorted (cs ++ concat css) ->
  let i := partition_point (fun s => bytes_leb s.1 k) seps in
  exists ci, (cs :: css) !! i = Some ci /\ keys_below (concat (take i (cs :: css))) k /\
    keys_above (concat (drop (S i) (cs :: css))) k.
Proof.
  intros Hs. revert cs. induction Hs as [|s cs1 seps css Hs1 Hs IH]; intros cs Hsort; cbn [partition_point].
  - exists cs. split; [done|]. split; by intros x ?%elem_of_nil.
  - cbn [concat] in Hsort. pose proof Hsort as (Hsc & Hsr & Hlt)%keys_sorted_app.
    rewrite bytes_leb_key. destruct (key_leb s.1 k) eqn:Hle; cbn zeta.
    + destruct (IH cs1 Hsr) as (ci & Hci & Hb & Ha). exists ci. split; [exact Hci|]. split; [|exact Ha].
      cbn [take concat]. apply keys_below_app. split; [|exact Hb]. intros x Hx.
      destruct Hs1 as (v & cs1' & ->). eapply key_lt_le_trans; [apply (Hlt x (s.1, v) Hx); by left|exact Hle].
    + exists cs. split; [done|]. split; [by intros x ?%elem_of_nil|]. cbn [drop].
      assert (starts_with (cs1 ++ concat css) s.1) as Hst by (destruct Hs1 as (v & cs1' & ->); by eexists v, _).
      apply (starts_above _ _ _ Hst Hsr). apply not_false_is_true. intros Hn. unfold key_leb in Hle.
      by rewrite Hn in Hle.
Qed.

(** ** Searching a leaf *)

Lemma partition_point_spec {A} (p : A -> bool) l :
  Forall (fun x => p x = true) (take (partition_point p l) l) /\
  (forall x, l !! partition_point p l = Some x -> p x = false).
Proof.
  induction l as [|x l [IH1 IH2]]; simpl; [split; [constructor|done]|].
  destruct (p x) eqn:E; simpl; [split; [by constructor|done]|]. split; [constructor|]. by intros ? [= <-].
Qed.

Lemma leaf_sorted_cons e leaf :
  keys_sorted (entry_pair <$> (e :: leaf)) <->
  keys_sorted (entry_pair <$> leaf) /\ Forall (fun x => key_lt (key e) (key x)) leaf.
Proof. cbn. rewrite keys_sorted_cons, Forall_fmap. done. Qed.

(** The entries around the position where a key is or would be. *)
Lemma leaf_split leaf k :
  keys_sorted (entry_pair <$> leaf) ->
  let i := partition_point (fun e => bytes_ltb (key e) k) leaf in
  keys_below (entry_pair <$> take i leaf) k /\
  match leaf !! i with
  | Some e => if bool_decide (key e = k) then keys_above (entry_pair <$> drop (S i) leaf) k
              else keys_above (entry_pair <$> drop i leaf) k
  | None => drop i leaf = []
  end.
Proof.
  induction leaf as [|e leaf IH]; intros Hs; simpl.
  - split; [by intros x ?%elem_of_nil|done].
  - apply leaf_sorted_cons in Hs as [Hs He]. destruct (bytes_ltb (key e) k) eqn:E; cbn [take drop lookup list_lookup].
    + destruct (IH Hs) as [Hb Ha]. split; [|exact Ha]. cbn. intros x [->|Hx]%elem_of_cons; [exact E|by apply Hb].
    + split; [by intros x ?%elem_of_nil|]. rewrite Forall_forall in He.
      assert (forall x, x ∈ entry_pair <$> leaf -> key_lt (key e) x.1) as Hx
        by (intros x (y & -> & Hy)%list_elem_of_fmap; by apply He).
      case_bool_decide as Hk; [by subst|]. cbn.
      assert (key_lt k (key e)) as Hke.
      { destruct (key_lt_total (key e) k) as [Hlt|[?|?]]; [|done|done]. unfold key_lt in Hlt. simpl in Hlt. congruence. }
      intros x [->|Hin]%elem_of_cons; [done|]. eapply key_lt_trans; [exact Hke|by apply Hx].
Qed.

Lemma keys_below_absent es k v : keys_below es k -> (k, v) ∉ es.
Proof. intros Hb Hin. exact (key_lt_irrefl _ (Hb _ Hin)). Qed.

Lemma keys_above_absent es k v : keys_above es k -> (k, v) ∉ es.
Proof. intros Hb Hin. exact (key_lt_irrefl _ (Hb _ Hin)). Qed.

Lemma binary_search_ok leaf k :
  keys_sorted (entry_pair <$> leaf) ->
  forall v, (match binary_search leaf k with inl i => value <$> leaf !! i | inr _ => None end) = Some v <->
    (k, v) ∈ entry_pair <$> leaf.
Proof.
  intros Hs v. destruct (leaf_split leaf k Hs) as [Hb Ha]. unfold binary_search.
  set (i := partition_point _ leaf) in *. 
  assert (entry_pair <$> leaf = (entry_pair <$> take i leaf) ++ (entry_pair <$> drop i leaf)) as ->
    by (by rewrite <- fmap_app, take_drop).
  rewrite elem_of_app.
  pose proof (keys_below_absent _ k v Hb) as Hnb. destruct (leaf !! i) as [e|] eqn:Hi.
  - rewrite (drop_S _ _ _ Hi). case_bool_decide as Hk.
    + rewrite Hi. cbn. rewrite elem_of_cons. pose proof (keys_above_absent _ k v Ha). unfold entry_pair.
      split; [intros [= <-]; right; left; by rewrite Hk|]. intros [?|[[= _ ->]|?]]; done.
    + rewrite (drop_S _ _ _ Hi) in Ha. pose proof (keys_above_absent _ k v Ha). naive_solver.
  - rewrite Ha. cbn. split; [done|]. intros [?|?%elem_of_nil]; done.
Qed.

(** ** Reading nodes *)

Section Reading.
Context {St : Type} `{PageStoreLaws St}.
Context (size_of_node size_of_entry size_of_separator : Z).

Abbreviation TreeState := (@TreeState St).
Abbreviation read_node := (read_node size_of_node size_of_entry size_of_separator).
Abbreviation get_loop := (get_loop size_of_node size_of_entry size_of_separator).
Abbreviation tree_get := (tree_get size_of_node size_of_entry size_of_separator).

(** The node that a page holds. *)
Definition node_at (s : St) (p : PageId) (n : Node) : Prop := exists b, holds s p b /\ decode_node p b = Ok n.

Lemma node_at_unique s p n n' : node_at s p n -> node_at s p n' -> n = n'.
Proof.
  intros (b & (page & Hr & Hb) & Hd) (b' & (page' & Hr' & Hb') & Hd'). rewrite Hr in Hr'. injection Hr' as <-. congruence.
Qed.

(** The nodes of pages that are not up for reservation. *)
Definition live (s : St) (p : PageId) (n : Node) : Prop := node_at s p n /\ ~ ps_unused s p.

(** The cache holds what [look] says; for a tree at rest, the live nodes. *)
Definition cache_in (look : PageId -> Node -> Prop) (t : TreeState) : Prop :=
  forall c p n, t_cache t = Some c -> lru_holds c p n -> look p n.

Definition cache_ok (t : TreeState) : Prop := cache_in (live (t_store t)) t.

Lemma cache_get_ok look p (t : TreeState) :
  cache_in look t -> exists o t', cache_get p t = (Ok o, t') /\ t_store t' = t_store t /\ cache_in look t' /\
    forall n, o = Some n -> look p n.
Proof.
  intros Hc. unfold cache_get. st_run. destruct (t_cache t) as [c|] eqn:Ht; [|by exists None, t].
  destruct (lru_get p c) as [o c'] eqn:Hg. exists o, (set_t_cache (Some c') t).
  split; [done|]. split; [done|]. split.
  - intros d q n [= <-] Hq. eapply (Hc c); [done|]. by eapply lru_get_keeps.
  - intros n ->. eapply (Hc c); [done|]. by eapply lru_get_value.
Qed.

Lemma read_node_ok look p n (t : TreeState) :
  cache_in look t -> (forall q m, look q m -> node_at (t_store t) q m) -> look p n ->
  exists t', read_node p t = (Ok n, t') /\ t_store t' = t_store t /\ cache_in look t'.
Proof.
  intros Hc Hlook Hn. unfold read_node. destruct (cache_get_ok look p t Hc) as (o & t1 & Hget & Hs1 & Hc1 & Ho).
  rewrite (ST_bind_step _ _ _ _ _ Hget). destruct o as [m|].
  - exists t1. specialize (Ho m eq_refl). by rewrite (node_at_unique _ _ _ _ (Hlook _ _ Ho) (Hlook _ _ Hn)).
  - st_run. rewrite Hs1. pose proof (Hlook _ _ Hn) as (b & (page & Hr & <-) & Hd). rewrite Hr. cbn [map_err]. rewrite Hd.
    unfold cache_insert. eexists. split; [reflexivity|]. destruct (t_cache t1) as [c|] eqn:Hcache; [|by split].
    split; [done|]. intros d q m [= <-] [[-> ->]|Hq]%lru_insert_keeps; [done|]. by eapply Hc1.
Qed.

(** ** Point lookups *)

Lemma node_level_holds sub n l es : node_holds sub n l es -> node_level n = Z.of_nat l.
Proof. destruct n; [by intros (-> & _)|by intros (-> & _)]. Qed.

Lemma get_loop_ok look l p es k (t : TreeState) :
  tree look l p es -> keys_sorted es -> cache_in look t -> (forall q m, look q m -> node_at (t_store t) q m) ->
  exists o t', get_loop l p k t = (Ok o, t') /\ t_store t' = t_store t /\ cache_in look t' /\
    forall v, o = Some v <-> (k, v) ∈ es.
Proof.
  revert p es t. induction l as [|l IH]; intros p es t (n & Hn & Hf & Hh) Hsort Hc Hlook;
    destruct (read_node_ok look p n t Hc Hlook Hn) as (t1 & Hread & Hs1 & Hc1);
    pose proof (node_level_holds _ _ _ _ Hh) as Hlev;
    cbn [Tree.get_loop]; rewrite (ST_bind_step _ _ _ _ _ Hread), Hlev, Z.eqb_refl; cbn [negb].
  - destruct n as [leaf next|level c seps]; [|by destruct Hh as (_ & cs & css & [] & _)].
    destruct Hh as (_ & -> & _). eexists _, t1. split; [reflexivity|]. split; [done|]. split; [done|].
    by apply binary_search_ok.
  - destruct n as [leaf next|level c seps]; [by destruct Hh as [? _]|]. destruct Hh as (_ & cs & css & Hcs & _ & Hcss & ->).
    assert (Forall2 (fun (s : list byte * PageId) cs => starts_with cs s.1) seps css) as Hst
      by (apply (Forall2_impl _ _ _ _ Hcss); tauto).
    destruct (child_split seps cs css k Hst Hsort) as (ci & Hci & Hb & Ha).
    set (i := partition_point _ seps) in *. pose proof (route_lookup c seps k) as Hroute. fold i in Hroute.
    assert (Forall2 (tree look l) (c :: seps.*2) (cs :: css)) as Hall.
    { constructor; [done|]. apply Forall2_fmap_l. apply (Forall2_impl _ _ _ _ Hcss). tauto. }
    pose proof (Forall2_lookup_lr _ _ _ _ _ _ Hall Hroute Hci) as Hti.
    assert (cs ++ concat css = concat (take i (cs :: css)) ++ ci ++ concat (drop (S i) (cs :: css))) as Hsplit.
    { change (cs ++ concat css) with (concat (cs :: css)). rewrite <- (take_drop_middle _ _ _ Hci) at 1.
      by rewrite concat_app. }
    rewrite Hsplit in Hsort. apply keys_sorted_app in Hsort as (_ & Hsort & _). apply keys_sorted_app in Hsort as (Hsort & _ & _).
    rewrite <- Hs1 in Hlook. destruct (IH _ ci t1 Hti Hsort Hc1 Hlook) as (o & t2 & Hget & Hs2 & Hc2 & Ho).
    exists o, t2. split; [exact Hget|]. split; [congruence|]. split; [done|]. intros v. rewrite Ho, Hsplit, !elem_of_app.
    pose proof (keys_below_absent _ k v Hb). pose proof (keys_above_absent _ k v Ha). tauto.
Qed.

(** A root with the map that its tree holds. *)
Definition index_holds (look : PageId -> Node -> Prop) (r : option IndexRoot) (m : gmap (list byte) PageId) : Prop :=
  match r with
  | None => m = ∅
  | Some r => tree look (Z.to_nat (height r - 1)) (root_page r) (bt_list m) /\
              1 <= height r <= U16_MAX /\ root_entries r = Z.of_nat (size m)
  end.

Lemma root_level_ok {T} r (t : T) : 1 <= height r -> root_level r t = (Ok (Z.to_nat (height r - 1)), t).
Proof. intros. unfold root_level. destruct (Z.eqb_spec (height r) 0); [lia|done]. Qed.

Lemma tree_get_ok (t : TreeState) root m k :
  index_holds (live (t_store t)) (Some root) m -> cache_ok t ->
  exists t', tree_get root k t = (Ok (m !! k), t') /\ t_store t' = t_store t /\ cache_ok t'.
Proof.
  intros (Ht & Hh & _) Hc. unfold tree_get. rewrite (ST_bind_step _ _ _ _ _ (root_level_ok root t (proj1 Hh))).
  destruct (get_loop_ok _ _ _ _ k t Ht (bt_list_sorted m) Hc) as (o & t' & Hget & Hs & Hc' & Ho); [by intros q n [? _]|].
  exists t'. split; [|split; [done|unfold cache_ok; by rewrite Hs]]. rewrite Hget. do 2 f_equal. apply option_eq. intros v. by rewrite Ho, elem_of_bt_list.
Qed.

(** C30: A point lookup answers what the index holds, with or without the
    node cache, and leaves the cache coherent. *)
Theorem tree_get_finds (t : TreeState) root m k :
  index_holds (live (t_store t)) (Some root) m -> cache_ok t ->
  exists t', tree_get root k t = (Ok (m !! k), t') /\ t_store t' = t_store t /\ cache_ok t'.
Proof. apply tree_get_ok. Qed.
End Reading.
