(* ===== verification/TreeEdit.v ===== *)
(** * Splitting entries over nodes, and copy-on-write edits

    The two greedy partitions of [src/index/src/tree.rs]: what they return,
    that they succeed when keys take at most half a node, and that they then
    never make more than two nodes out of an edited one; then the state the
    editor carries and the nodes it makes. *)
From S2P Require Import Prelude Order Page Store ByteLru Node Record Handle Tree TreeBase.
Local Open Scope Z_scope.

(** The bytes a key takes in a node, and the bytes a node has for them. *)
Definition key_cost (k : list byte) : Z := 12 + blen k.
Definition NODE_ROOM : Z := MAX_PAGE_PAYLOAD - NODE_HEADER_SIZE.

(** Keys that take at most half of a node's room. *)
Definition KEY_LIMIT : Z := NODE_ROOM / 2 - 12.
Definition key_fits (k : list byte) : Prop := blen k <= KEY_LIMIT.

Fixpoint costs {A} (f : A -> list byte) (l : list A) : Z :=
  match l with [] => 0 | x :: l => key_cost (f x) + costs f l end.

Lemma costs_app {A} (f : A -> list byte) l1 l2 : costs f (l1 ++ l2) = costs f l1 + costs f l2.
Proof. induction l1; simpl; lia. Qed.

Lemma costs_nonneg {A} (f : A -> list byte) l : 0 <= costs f l.
Proof. induction l; simpl; unfold key_cost in *; lia. Qed.

Lemma costs_fmap {A B} (f : B -> list byte) (g : A -> B) l : costs f (g <$> l) = costs (fun x => f (g x)) l.
Proof. induction l; simpl; [done|]. unfold fmap in *. lia. Qed.

Lemma costs_entries (es : list (list byte * Z)) : blen (entries_bytes es) = costs fst es.
Proof. induction es as [|e es IH]; [done|]. rewrite entries_bytes_cons, length_app, Nat2Z.inj_add, length_entry_bytes, IH. done. Qed.

Lemma KEY_LIMIT_eq : KEY_LIMIT = 4036.
Proof. reflexivity. Qed.

Ltac split_consts :=
  pose proof KEY_LIMIT_eq;
  unfold key_fits, NODE_ROOM, MAX_PAGE_PAYLOAD, PAGE_SIZE, PAGE_HEADER_SIZE, NODE_HEADER_SIZE in *.

Lemma key_fits_size k : key_fits k -> checked_add U64_MAX (blen k) 12 = Some (key_cost k).
Proof. intros Hk. apply checked_add_Some. unfold key_cost, U64_MAX. split_consts. lia. Qed.

Lemma key_fits_cost k : key_fits k -> 2 * key_cost k <= NODE_ROOM.
Proof. unfold key_cost. split_consts. lia. Qed.

(** ** The inner loop *)

(** How many entries go in: as many as fit, and the next one does not. *)
Lemma fill_node_ok {A} (f : A -> list byte) (l : list A) used :
  Forall (fun x => key_fits (f x)) l -> used <= MAX_PAGE_PAYLOAD ->
  exists n, fill_node used ((fun x => checked_add U64_MAX (blen (f x)) 12) <$> l) = Ok n /\
    used + costs f (take n l) <= MAX_PAGE_PAYLOAD /\
    (forall x r, drop n l = x :: r -> MAX_PAGE_PAYLOAD < used + costs f (take n l) + key_cost (f x)).
Proof.
  intros Hl. revert used. induction Hl as [|x l Hx Hl IH]; intros used Hu; [exists 0%nat; simpl; split_and!; done || lia|].
  cbn [fmap list_fmap fill_node]. rewrite (key_fits_size _ Hx).
  destruct (Z.ltb_spec MAX_PAGE_PAYLOAD (used + key_cost (f x))) as [Hlt|Hge].
  - exists 0%nat. simpl. split; [done|]. split; [lia|]. intros y r [= -> ->]. lia.
  - destruct (IH (used + key_cost (f x)) Hge) as (n & -> & Hc & Hm). exists (S n). cbn [mbind result_bind].
    split; [done|]. cbn [take drop costs]. split; [lia|]. intros y r Hd. specialize (Hm y r Hd). lia.
Qed.

Lemma costs_split {A} (f : A -> list byte) n l : costs f l = costs f (take n l) + costs f (drop n l).
Proof. by rewrite <- costs_app, take_drop. Qed.

Lemma fits_drop {A} (f : A -> list byte) n l x r :
  Forall (fun x => key_fits (f x)) l -> drop n l = x :: r -> key_fits (f x).
Proof. intros Hl Hd. apply (Forall_drop _ n) in Hl. rewrite Hd in Hl. by apply Forall_inv in Hl. Qed.

(** ** Leaves *)

Lemma partition_leaves_ok fuel (l : list IndexEntry) :
  (length l <= fuel)%nat -> Forall (fun e => key_fits (key e)) l ->
  exists groups, partition_leaves fuel l = Ok groups /\ concat groups = l /\
    Forall (fun g => g <> [] /\ costs key g <= NODE_ROOM) groups /\
    (costs key l <= NODE_ROOM -> (length groups <= 1)%nat) /\
    (2 * costs key l <= 3 * NODE_ROOM -> (length groups <= 2)%nat).
Proof.
  revert l. induction fuel as [|fuel IH]; intros l Hf Hl.
  - destruct l; [|simpl in Hf; lia]. exists []. simpl. split_and!; done || lia || auto.
  - destruct l as [|e l]; [exists []; simpl; split_and!; done || lia || auto|]. cbn [partition_leaves].
    destruct (fill_node_ok key (e :: l) NODE_HEADER_SIZE Hl ltac:(done)) as (n & Hfill & Hc & Hm).
    unfold entry_sizes, leaf_entry_size, LEAF_ENTRY_OVERHEAD. rewrite Hfill. cbn [mbind result_bind].
    pose proof (key_fits_cost _ (Forall_inv Hl)) as Hce.
    destruct n as [|n]; [exfalso; specialize (Hm e l eq_refl); simpl in Hm; split_consts; lia|].
    destruct (IH (drop (S n) (e :: l))) as (groups & Hp & Hcat & Hg & H1 & H2).
    { rewrite length_drop. simpl in Hf |- *. lia. } { by apply Forall_drop. }
    rewrite Hp. cbn [mbind result_bind]. eexists. split; [reflexivity|].
    pose proof (costs_split key (S n) (e :: l)) as Hsum.
    split; [cbn [concat]; rewrite Hcat; apply take_drop|]. split.
    { constructor; [|done]. split; [done|]. split_consts. lia. }
    destruct (drop (S n) (e :: l)) as [|x r] eqn:Hd.
    + destruct groups as [|g groups]; [split; simpl; lia|]. exfalso. destruct g; [|done].
      apply Forall_inv in Hg as [? _]. done.
    + specialize (Hm x r eq_refl). pose proof (costs_nonneg key r) as Hr0.
      pose proof (key_fits_cost _ (fits_drop key _ _ _ _ Hl Hd)). change (costs key (x :: r)) with (key_cost (key x) + costs key r) in *.
      cbn [length]. split_consts. split; [lia|]. intros Htot. specialize (H1 ltac:(lia)). lia.
Qed.

(** ** Internal nodes *)

Lemma partition_internal_ok fuel (l : list Child) :
  (length l <= fuel)%nat -> Forall (fun c => key_fits (first_key c)) l ->
  exists groups, partition_internal fuel l = Ok groups /\ concat groups = l /\
    Forall (fun g => exists c rest, g = c :: rest /\ costs first_key rest <= NODE_ROOM) groups /\
    (l <> [] -> groups <> []) /\
    (2 * length groups <= S (length l))%nat /\
    (costs first_key (tail l) <= NODE_ROOM -> (length groups <= 1)%nat) /\
    (costs first_key (tail l) <= 2 * NODE_ROOM -> (length groups <= 2)%nat).
Proof.
  revert l. induction fuel as [|fuel IH]; intros l Hf Hl.
  - destruct l; [|simpl in Hf; lia]. exists []. simpl. split_and!; done || lia || auto.
  - destruct l as [|c l]; [exists []; simpl; split_and!; done || lia || auto|]. cbn [partition_internal].
    apply Forall_cons in Hl as [Hkc Hl].
    destruct (fill_node_ok first_key l NODE_HEADER_SIZE Hl ltac:(done)) as (n & Hfill & Hc & Hm).
    unfold child_sizes, internal_entry_size, INTERNAL_ENTRY_OVERHEAD. rewrite Hfill. cbn [mbind result_bind].
    assert (n = 0%nat -> l = []) as Hn0.
    { intros ->. destruct l as [|x r]; [done|]. specialize (Hm x r eq_refl). pose proof (key_fits_cost _ (Forall_inv Hl)).
      simpl in Hm. split_consts. lia. }
    assert ((match n with O => lone_child_fits l | S _ => Ok tt end) = Ok tt) as ->
      by (destruct n; [by rewrite Hn0|done]). cbn [mbind result_bind].
    destruct (IH (drop n l)) as (groups & Hp & Hcat & Hg & Hne & Hlen & H1 & H2).
    { rewrite length_drop. simpl in Hf |- *. lia. } { by apply Forall_drop. }
    rewrite Hp. cbn [mbind result_bind]. eexists. split; [reflexivity|]. cbn [concat app tail length].
    pose proof (costs_split first_key n l) as Hsum. rewrite Hcat, take_drop. split; [done|]. split.
    { constructor; [|done]. exists c, (take n l). split; [done|]. split_consts. lia. }
    split; [done|]. destruct (drop n l) as [|x r] eqn:Hd.
    + destruct groups as [|g groups]; [simpl; lia|]. exfalso. destruct g; [|done].
      apply Forall_inv in Hg as (? & ? & ? & _). done.
    + specialize (Hm x r eq_refl). cbn [costs tail] in *.
      assert (length l = (n + S (length r))%nat) as Hll.
      { pose proof (f_equal length Hd) as Hx. rewrite length_drop in Hx. simpl in Hx. lia. }
      assert (1 <= n)%nat as Hn1 by (destruct n; [by rewrite Hn0 in Hd by done|lia]).
      split_consts. pose proof (costs_nonneg first_key r). split; [simpl in Hlen; lia|]. split; [lia|].
      intros Htot. specialize (H1 ltac:(lia)). lia.
Qed.

(** ** Copy-on-write edits

    An edit works on the tree that the pages hold, with the nodes it makes
    kept in an overlay.  [etree] is a tree whose top nodes are in the
    overlay and whose untouched subtrees are on their pages.  One mutation
    turns a tree for a map into a tree for the changed map, and never
    touches an existing node. *)

Section Overlay.
Context (base : PageId -> Node -> Prop).
Context (base_unique : forall p n n', base p n -> base p n' -> n = n').

Abbreviation nodes := (gmap PageId Node).

Fixpoint etree (o : nodes) (l : nat) (p : PageId) (es : entries) : Prop :=
  match o !! p with
  | None => tree base l p es
  | Some n => node_fits n /\ node_holds (match l with O => fun _ _ => False | S l => etree o l end) n l es
  end.

(** New nodes are on pages that held no live node. *)
Definition apart (o : nodes) : Prop := forall p n n', o !! p = Some n -> ~ base p n'.

Definition elook (o : nodes) (p : PageId) (n : Node) : Prop := o !! p = Some n \/ o !! p = None /\ base p n.

Lemma elook_unique o p n n' : elook o p n -> elook o p n' -> n = n'.
Proof. intros [?|[? ?]] [?|[? ?]]; try congruence. eauto. Qed.

Lemma tree_etree o l p es : apart o -> tree base l p es -> etree o l p es.
Proof.
  intros Ho. revert p es. induction l as [|l IH]; intros p es Ht; cbn [etree].
  - destruct (o !! p) as [n|] eqn:Hp; [|done]. destruct Ht as (n' & Hn' & _). destruct (Ho p n n' Hp Hn').
  - destruct (o !! p) as [n|] eqn:Hp; [|done]. destruct Ht as (n' & Hn' & _). destruct (Ho p n n' Hp Hn').
Qed.

Lemma etree_inv o l p es :
  apart o -> etree o l p es ->
  exists n, elook o p n /\ node_fits n /\
    node_holds (match l with O => fun _ _ => False | S l => etree o l end) n l es.
Proof.
  intros Ho Ht. destruct l as [|l]; cbn [etree] in Ht; destruct (o !! p) as [n|] eqn:Hp.
  - exists n. split; [by left|done].
  - destruct Ht as (n & Hn & Hf & Hh). exists n. split; [by right|done].
  - exists n. split; [by left|done].
  - destruct Ht as (n & Hn & Hf & Hh). exists n. split; [by right|]. split; [done|].
    eapply node_holds_mono; [|exact Hh]. intros q cs. by apply tree_etree.
Qed.

Lemma etree_node o l p n es :
  o !! p = Some n -> node_fits n ->
  node_holds (match l with O => fun _ _ => False | S l => etree o l end) n l es -> etree o l p es.
Proof. intros Hp Hf Hh. destruct l; cbn [etree]; by rewrite Hp. Qed.

Lemma etree_insert o p n l q es :
  o !! p = None -> (forall n', ~ base p n') -> etree o l q es -> etree (<[p := n]> o) l q es.
Proof.
  intros Hp Hb. revert q es. induction l as [|l IH]; intros q es; cbn [etree]; destruct (decide (q = p)) as [->|Hne].
  - rewrite Hp, lookup_insert_eq. intros (n' & Hn' & _). destruct (Hb n' Hn').
  - by rewrite lookup_insert_ne.
  - rewrite Hp, lookup_insert_eq. intros (n' & Hn' & _). destruct (Hb n' Hn').
  - rewrite lookup_insert_ne by done. destruct (o !! q) as [m|]; [|done]. intros [Hf Hh]. split; [done|].
    eapply node_holds_mono; [|exact Hh]. auto.
Qed.

Lemma etree_level o l p es l' es' :
  apart o -> etree o l p es -> etree o l' p es' -> l = l'.
Proof.
  intros Ho (n & Hn & _ & Hh)%etree_inv (n' & Hn' & _ & Hh')%etree_inv; try done.
  rewrite (elook_unique _ _ _ _ Hn Hn') in Hh. apply node_level_holds in Hh. apply node_level_holds in Hh'. lia.
Qed.

Lemma etree_ne o l p es : apart o -> etree o l p es -> es <> [].
Proof.
  intros Ho (n & _ & _ & Hh)%etree_inv; [|done]. destruct n as [leaf next|level c seps].
  - by destruct Hh as (_ & _ & ?).
  - destruct Hh as (_ & cs & css & _ & Hne & _ & ->). by destruct cs.
Qed.

(** ** Children, as the edit carries them *)

Definition child_ok (o : nodes) (l : nat) (c : Child) (cs : entries) : Prop :=
  etree o l (child_page c) cs /\ starts_with cs (first_key c) /\ 0 <= child_page c < NO_PAGE.

Lemma child_ok_insert o p n l c cs :
  o !! p = None -> (forall n', ~ base p n') -> child_ok o l c cs -> child_ok (<[p := n]> o) l c cs.
Proof. intros Hp Hb (Ht & ? & ?). split; [by apply etree_insert|done]. Qed.

Lemma starts_sorted (chs : list Child) (css : list entries) :
  Forall2 (fun c cs => starts_with cs (first_key c)) chs css -> keys_sorted (concat css) ->
  keys_sorted ((fun c => (first_key c, child_page c)) <$> chs).
Proof.
  induction 1 as [|c cs chs css Hc Hcs IH]; intros Hs; [constructor|]. cbn [concat] in Hs.
  apply keys_sorted_app in Hs as (_ & Hs & Hlt). cbn. apply keys_sorted_cons. split; [auto|].
  apply Forall_fmap, Forall_forall. intros d Hd. apply list_elem_of_lookup in Hd as [i Hi].
  destruct (Forall2_lookup_l _ _ _ _ _ Hcs Hi) as (ds & Hds & (v & ds' & ->)).
  destruct Hc as (w & cs' & ->). cbn.
  apply (Hlt (first_key c, w) (first_key d, v)); [by left|].
  apply (list_elem_of_lookup_2 _ _ _) in Hds. apply elem_of_concat. exists ((first_key d, v) :: ds'). split; [by left|done].
Qed.

(** The node above a group of children. *)
Lemma internal_group o l group css :
  Forall2 (child_ok o l) group css -> group <> [] -> keys_sorted (concat css) ->
  Z.of_nat (S l) <= U16_MAX -> costs first_key (tail group) <= NODE_ROOM ->
  node_fits (internal_node (Z.of_nat (S l)) group) /\
  node_holds (etree o l) (internal_node (Z.of_nat (S l)) group) (S l) (concat css).
Proof.
  intros Hg Hne Hs Hlev Hcost. destruct Hg as [|c cs group css [Hc [Hst Hr]] Hg]; [done|]. cbn [tail internal_node concat] in *.
  assert (Forall2 (fun c cs => starts_with cs (first_key c)) group css) as Hstarts
    by (apply (Forall2_impl _ _ _ _ Hg); by intros ? ? (_ & ? & _)).
  split; [split; [split|]|].
  - cbn [node_pairs]. apply keys_sorted_app in Hs as (_ & Hs & _). by eapply starts_sorted.
  - split; [lia|]. split; [done|]. apply Forall_fmap. apply (Forall2_Forall_l _ _ _ _ Hg). apply Forall_true.
    by intros cs' c' (_ & _ & ?).
  - unfold node_size. cbn [node_pairs]. rewrite costs_entries, costs_fmap.
    change (costs _ group) with (costs first_key group). split_consts. lia.
  - split; [done|]. exists cs, css. split; [done|]. split; [by eapply starts_with_ne|]. split; [|done].
    apply Forall2_fmap_l. apply (Forall2_impl _ _ _ _ Hg). by intros ? ? (? & ? & _).
Qed.
End Overlay.

(** ** The editor's state *)

Section Editor.
Context {St : Type} `{PageStoreLaws St}.
Context (size_of_node size_of_entry size_of_separator : Z).
Context (base : PageId -> Node -> Prop).
Context (base_unique : forall p n n', base p n -> base p n' -> n = n').

Abbreviation Editor := (@Editor St).
Abbreviation ed_store e := (t_store (ed_tree e)).
Abbreviation etree := (etree base).
Abbreviation child_ok := (child_ok base).
Abbreviation ed_read := (ed_read size_of_node size_of_entry size_of_separator).
Abbreviation ed_first_key := (ed_first_key size_of_node size_of_entry size_of_separator).
Abbreviation ed_descend := (ed_descend size_of_node size_of_entry size_of_separator).

Record ed_ok (e : Editor) : Prop := {
  eo_store : ps_ok (ed_store e);
  eo_cache : cache_in base (ed_tree e);
  eo_base : forall p n, base p n -> node_at (ed_store e) p n;
  eo_fresh : forall p n, ps_unused (ed_store e) p -> ~ base p n;
  eo_apart : apart base (overlay e);
  eo_used : forall p n, overlay e !! p = Some n -> ~ ps_unused (ed_store e) p /\ node_fits n /\ 0 <= p < NO_PAGE;
}.

(** What an operation of the edit keeps: it only adds nodes, and uses up at
    most [k] page IDs. *)
Record grows (k : Z) (e e' : Editor) : Prop := {
  gr_root : ed_root e' = ed_root e;
  gr_tree : forall l p es, etree (overlay e) l p es -> etree (overlay e') l p es;
  gr_over : overlay e ⊆ overlay e';
  gr_room : ps_room (ed_store e) - k <= ps_room (ed_store e');
  gr_read : forall p, ps_read (ed_store e') p = ps_read (ed_store e) p;
  gr_unused : forall p, ps_unused (ed_store e') p -> ps_unused (ed_store e) p;
  gr_new : forall p, overlay e' !! p <> None -> overlay e !! p <> None \/ ps_unused (ed_store e) p;
}.

Lemma grows_refl e : grows 0 e e.
Proof. split; auto; try lia. Qed.

Lemma grows_trans a b e1 e2 e3 : grows a e1 e2 -> grows b e2 e3 -> grows (a + b) e1 e3.
Proof.
  intros [R1 T1 O1 M1 D1 U1 N1] [R2 T2 O2 M2 D2 U2 N2]. split; auto; try congruence; try lia.
  - by transitivity (overlay e2).
  - intros p [Hp|Hp]%N2; [auto|right; auto].
Qed.

Lemma grows_weaken a b e1 e2 : grows a e1 e2 -> a <= b -> grows b e1 e2.
Proof. intros [? ? ? ? ? ? ?] ?. split; auto. lia. Qed.

Lemma node_at_read (s s' : St) p n : ps_read s' p = ps_read s p -> node_at s p n -> node_at s' p n.
Proof. intros Hr (b & (page & Hp & Hb) & Hd). exists b. split; [|done]. exists page. by rewrite Hr. Qed.

Lemma child_ok_grows k e e' l c cs : grows k e e' -> child_ok (overlay e) l c cs -> child_ok (overlay e') l c cs.
Proof. intros Hg (Ht & ? & ?). split; [by apply Hg|done]. Qed.

Lemma children_grow k e e' l chs css :
  grows k e e' -> Forall2 (child_ok (overlay e) l) chs css -> Forall2 (child_ok (overlay e') l) chs css.
Proof. intros Hg Hc. apply (Forall2_impl _ _ _ _ Hc). intros. by eapply child_ok_grows. Qed.

Lemma allocate_ok e n :
  ed_ok e -> node_fits n -> 1 <= ps_room (ed_store e) ->
  exists p e', allocate n e = (Ok p, e') /\ ed_ok e' /\ grows 1 e e' /\
    overlay e' !! p = Some n /\ 0 <= p < NO_PAGE.
Proof.
  intros [Hs Hc Hb Hf Ha Hu] Hn Hroom.
  destruct (ps_reserve_ok (ed_store e) 1 Hs ltac:(lia)) as (ids & s' & Hres & Hs' & Hlen & Hnd & Hroom' & Hin & Hun & Hread).
  destruct ids as [|p [|q ids]]; [done| |cbn in Hlen; lia].
  destruct (Hin p ltac:(left)) as [Hpu Hpmax]. pose proof (ps_unused_range _ _ Hs Hpu) as Hp0.
  assert (overlay e !! p = None) as Hnone.
  { destruct (overlay e !! p) as [m|] eqn:Hm; [|done]. by destruct (Hu p m Hm). }
  eexists p, _. split; [|split; [|split; [|split; [|done]]]].
  - unfold allocate, on_tree, reserve_page_ids, storage. st_run. rewrite Hres. reflexivity.
  - split; cbn [set_ed_tree set_t_store ed_tree t_store overlay].
    + done.
    + exact Hc.
    + intros q n' Hq. apply (node_at_read (ed_store e)); [apply Hread|]. by apply Hb.
    + intros q n' [Hq _]%Hun. by apply Hf.
    + intros q n1 n2 [[<- <-]|[_ Hq]]%lookup_insert_Some; [by apply Hf|by eapply Ha].
    + intros q m [[<- <-]|[_ Hq]]%lookup_insert_Some.
      * split; [|done]. intros [_ []]%Hun. by left.
      * destruct (Hu q m Hq) as (Hnu & ? & ?). split; [|done]. by intros [? _]%Hun.
  - split; cbn [set_ed_tree set_t_store ed_tree t_store overlay ed_root].
    + done.
    + intros l q es. apply etree_insert; [done|]. intros n'. by apply Hf.
    + by apply insert_subseteq.
    + lia.
    + apply Hread.
    + by intros q [? _]%Hun.
    + intros q Hq. destruct (decide (q = p)) as [->|Hne]; [by right|]. left. by rewrite lookup_insert_ne in Hq.
  - cbn [overlay]. by rewrite lookup_insert_eq.
Qed.

(** ** Making nodes *)

Abbreviation leaf_child := (fun (group : list IndexEntry) p => mkChild (match group with e :: _ => key e | [] => [] end) p).

Lemma leaf_group_fits g :
  g <> [] -> keys_sorted (entry_pair <$> g) -> Forall (fun e => is_u64 (value e)) g -> costs key g <= NODE_ROOM ->
  node_fits (Leaf g None).
Proof.
  intros Hne Hs Hv Hc. split; [split; [done|by split]|]. unfold node_size. cbn [node_pairs].
  rewrite costs_entries, costs_fmap. change (costs _ g) with (costs key g). split_consts. lia.
Qed.

Lemma collect_leaves (groups : list (list IndexEntry)) e :
  ed_ok e -> Forall (fun g => g <> [] /\ costs key g <= NODE_ROOM) groups ->
  keys_sorted (entry_pair <$> concat groups) -> Forall (fun e => is_u64 (value e)) (concat groups) ->
  Z.of_nat (length groups) <= ps_room (ed_store e) ->
  exists reps e', collect groups (fun g => p ← allocate (Leaf g None); mret (leaf_child g p)) e = (Ok reps, e') /\
    ed_ok e' /\ grows (Z.of_nat (length groups)) e e' /\
    Forall2 (child_ok (overlay e') 0) reps ((fun g : list IndexEntry => entry_pair <$> g) <$> groups).
Proof.
  revert e. induction groups as [|g groups IH]; intros e He Hg Hs Hv Hroom.
  - exists [], e. split; [done|]. split; [done|]. split; [apply grows_refl|constructor].
  - apply Forall_cons in Hg as [[Hne Hcost] Hg]. cbn [concat] in Hs, Hv. rewrite fmap_app in Hs.
    apply keys_sorted_app in Hs as (Hs & Hsr & _). apply Forall_app in Hv as [Hv Hvr]. cbn [length] in Hroom.
    destruct (allocate_ok e (Leaf g None) He) as (p & e1 & Ha & He1 & Hg1 & Hp & Hrange);
      [by apply leaf_group_fits|lia|].
    pose proof (gr_room _ _ _ Hg1) as Hroom1.
    destruct (IH e1 He1 Hg Hsr Hvr ltac:(lia)) as (reps & e2 & Hrun & He2 & Hg2 & Hreps).
    exists (leaf_child g p :: reps), e2. split; [|split; [done|split]].
    + cbn [collect]. rewrite (ST_bind_step _ _ _ (leaf_child g p) e1); [|by rewrite (ST_bind_step _ _ _ _ _ Ha)].
      by rewrite (ST_bind_step _ _ _ _ _ Hrun).
    + eapply grows_weaken; [eapply grows_trans; [exact Hg1|exact Hg2]|]. cbn [length]. lia.
    + constructor; [|exact Hreps]. split; [|split; [|exact Hrange]].
      * apply (gr_tree _ _ _ Hg2). apply (etree_node base _ _ _ (Leaf g None)); [done|by apply leaf_group_fits|].
        split; [done|]. split; [done|]. by destruct g.
      * destruct g as [|x g]; [done|]. by eexists _, _.
Qed.

Lemma collect_groups l (groups : list (list Child)) (csss : list (list entries)) e :
  ed_ok e -> Forall2 (Forall2 (child_ok (overlay e) l)) groups csss ->
  Forall (fun g => exists c rest, g = c :: rest /\ costs first_key rest <= NODE_ROOM) groups ->
  keys_sorted (concat (@concat (list byte * PageId) <$> csss)) -> Z.of_nat (S l) <= U16_MAX ->
  Z.of_nat (length groups) <= ps_room (ed_store e) ->
  exists reps e', collect groups (fun g => p ← allocate (internal_node (Z.of_nat (S l)) g); mret (group_child g p)) e = (Ok reps, e') /\
    ed_ok e' /\ grows (Z.of_nat (length groups)) e e' /\
    Forall2 (child_ok (overlay e') (S l)) reps (@concat (list byte * PageId) <$> csss).
Proof.
  intros He Hgs. revert e He Hgs. revert csss. induction groups as [|g groups IH]; intros csss e He Hgs Hg Hs Hlev Hroom.
  - inversion Hgs; subst. exists [], e. split; [done|]. split; [done|]. split; [apply grows_refl|constructor].
  - inversion Hgs as [|? css ? csss' Hch Hgs']; subst. apply Forall_cons in Hg as [(c & rest & -> & Hcost) Hg].
    cbn [fmap list_fmap concat] in Hs. apply keys_sorted_app in Hs as (Hs & Hsr & _). cbn [length] in Hroom.
    destruct (internal_group base (overlay e) l (c :: rest) css Hch ltac:(done) Hs Hlev Hcost) as [Hfit Hhold].
    destruct (allocate_ok e _ He Hfit ltac:(lia)) as (p & e1 & Ha & He1 & Hg1 & Hp & Hrange).
    pose proof (gr_room _ _ _ Hg1) as Hroom1.
    assert (Forall2 (Forall2 (child_ok (overlay e1) l)) groups csss') as Hgs1
      by (apply (Forall2_impl _ _ _ _ Hgs'); intros; by eapply children_grow).
    destruct (IH csss' e1 He1 Hgs1 Hg Hsr Hlev ltac:(lia)) as (reps & e2 & Hrun & He2 & Hg2 & Hreps).
    exists (group_child (c :: rest) p :: reps), e2. split; [|split; [done|split]].
    + cbn [collect]. rewrite (ST_bind_step _ _ _ (group_child (c :: rest) p) e1); [|by rewrite (ST_bind_step _ _ _ _ _ Ha)].
      by rewrite (ST_bind_step _ _ _ _ _ Hrun).
    + eapply grows_weaken; [eapply grows_trans; [exact Hg1|exact Hg2]|]. cbn [length]. lia.
    + cbn [fmap list_fmap]. constructor; [|exact Hreps]. split; [|split; [|exact Hrange]].
      * apply (gr_tree _ _ _ Hg2). apply (etree_node base _ _ _ (internal_node (Z.of_nat (S l)) (c :: rest))); [done|done|].
        eapply node_holds_mono; [|exact Hhold]. apply Hg1.
      * inversion Hch as [|? cs ? css' (_ & (v & cs' & ->) & _) _]; subst. cbn. by eexists v, _.
Qed.
End Editor.
