(* ===== verification/TreeApply.v ===== *)
(** * One mutation of the tree

    The descent of [Editor::apply] to the leaf of a key, the change to the
    leaf, and the way back up that makes the new nodes of the path. *)
From S2P Require Import Prelude Page Order ByteLru Node Record Store Handle Tree TreeBase TreeEdit.
Local Open Scope Z_scope.

(** ** The change to the leaf *)

(** The two outcomes of the search, as a split of the leaf. *)
Inductive search_split (leaf : list IndexEntry) (k : list byte) : nat + nat -> Prop :=
| split_found l1 e l2 : leaf = l1 ++ e :: l2 -> key e = k -> search_split leaf k (inl (length l1))
| split_missing l1 l2 : leaf = l1 ++ l2 -> keys_below (entry_pair <$> l1) k -> keys_above (entry_pair <$> l2) k ->
    search_split leaf k (inr (length l1)).

Lemma binary_search_split leaf k :
  keys_sorted (entry_pair <$> leaf) -> search_split leaf k (binary_search leaf k).
Proof.
  intros Hs. destruct (leaf_split leaf k Hs) as [Hb Ha]. unfold binary_search.
  pose proof (partition_point_le (fun e => bytes_ltb (key e) k) leaf) as Hle.
  set (i := partition_point _ leaf) in *. assert (length (take i leaf) = i) as Hi by (rewrite length_take; lia).
  destruct (leaf !! i) as [e|] eqn:He.
  - case_bool_decide as Hk; rewrite <- Hi.
    + apply (split_found _ _ _ e (drop (S i) leaf)); [|done]. by rewrite take_drop_middle.
    + apply (split_missing _ _ _ (drop i leaf)); [by rewrite take_drop|done|done].
  - rewrite <- Hi. apply (split_missing _ _ _ []); [|done|by intros x ?%elem_of_nil].
    by rewrite app_nil_r, take_ge by (by apply lookup_ge_None).
Qed.

(** The map after a mutation. *)
Definition put_map (m : gmap (list byte) PageId) (k : list byte) (v : option PageId) : gmap (list byte) PageId :=
  match v with Some v => <[k := v]> m | None => delete k m end.

Definition apply_map (m : gmap (list byte) PageId) (mutation : IndexMutation) : gmap (list byte) PageId :=
  match mutation with Upsert e => put_map m (key e) (Some (value e)) | Delete k => put_map m k None end.

Lemma put_map_size m k v : Z.of_nat (size (put_map m k v)) <= Z.of_nat (size m) + 1.
Proof.
  destruct v as [v|]; cbn [put_map].
  - destruct (m !! k) as [w|] eqn:E; [rewrite map_size_insert_Some; [lia|eauto]|rewrite map_size_insert_None; [lia|done]].
  - destruct (m !! k) as [w|] eqn:E; [|rewrite delete_id by done; lia].
    rewrite map_size_delete_Some by eauto. lia.
Qed.

Lemma change_leaf_ok m L leaf R k v :
  bt_list m = L ++ (entry_pair <$> leaf) ++ R -> keys_below L k -> keys_above R k ->
  Forall (fun e => is_u64 (value e)) leaf -> (forall w, v = Some w -> is_u64 w) ->
  match change_leaf leaf k v with
  | None => put_map m k v = m
  | Some (leaf', delta) =>
      bt_list (put_map m k v) = L ++ (entry_pair <$> leaf') ++ R /\
      Z.of_nat (size (put_map m k v)) = Z.of_nat (size m) + delta /\ (delta = -1 \/ delta = 0 \/ delta = 1) /\
      costs key leaf' <= costs key leaf + match v with Some _ => key_cost k | None => 0 end /\ Forall (fun e => is_u64 (value e)) leaf'
  end.
Proof.
  intros E HL HR Hu Hv.
  assert (keys_sorted (entry_pair <$> leaf)) as Hs.
  { pose proof (bt_list_sorted m) as Hs. rewrite E in Hs. apply keys_sorted_app in Hs as (_ & Hs & _).
    by apply keys_sorted_app in Hs as (Hs & _ & _). }
  unfold change_leaf, vec_insert, vec_remove.
  destruct (binary_search_split leaf k Hs) as [l1 e l2 -> <-|l1 l2 -> Hb Ha].
  - rewrite fmap_app, fmap_cons, <- (app_assoc _ _ R), (app_assoc L) in E. cbn [app] in E.
    change (entry_pair e) with (key e, value e) in E.
    assert (m !! key e = Some (value e)) as Hm by (apply elem_of_bt_list; rewrite E; apply elem_of_app; right; left).
    rewrite Forall_app, Forall_cons in Hu. destruct Hu as (Hu1 & Hue & Hu2).
    rewrite costs_app. cbn [costs].
    destruct v as [v|]; cbn [put_map].
    + rewrite insert_app_r_alt, Nat.sub_diag by lia. cbn [insert list_insert].
      rewrite (bt_list_update _ _ _ _ v _ E), map_size_insert_Some by eauto.
      rewrite fmap_app, fmap_cons, <- (app_assoc _ _ R), (app_assoc L), costs_app. cbn [costs].
      split; [done|]. split; [lia|]. split; [auto|]. split; [unfold key_cost; simpl; lia|].
      rewrite Forall_app, Forall_cons. auto.
    + rewrite take_app_length, drop_app_ge by lia. replace (S (length l1) - length l1)%nat with 1%nat by lia. cbn [drop]. rewrite ?drop_0.
      rewrite (bt_list_remove _ _ _ _ _ E), map_size_delete_Some by eauto.
      rewrite fmap_app, <- (app_assoc _ _ R), (app_assoc L), costs_app.
      assert (size m <> 0%nat) by (intros ?%map_size_empty_inv; subst; by rewrite lookup_empty in Hm).
      split; [done|]. split; [lia|]. split; [auto|]. split; [unfold key_cost; lia|]. by rewrite Forall_app.
  - rewrite fmap_app, <- (app_assoc _ _ R), (app_assoc L) in E.
    assert (keys_below (L ++ (entry_pair <$> l1)) k) as HLb by (by apply keys_below_app).
    assert (keys_above ((entry_pair <$> l2) ++ R) k) as HRa by (by apply keys_above_app).
    pose proof (bt_absent _ _ _ k E HLb HRa) as Hm. rewrite Forall_app in Hu. destruct Hu as [Hu1 Hu2].
    destruct v as [v|]; cbn [put_map]; [|by rewrite delete_id].
    rewrite take_app_length, drop_app_length.
    rewrite (bt_list_insert _ _ k v _ E HLb HRa), map_size_insert_None by done.
    rewrite fmap_app, fmap_cons, <- (app_assoc _ _ R), (app_assoc L), !costs_app. cbn [costs].
    split; [done|]. split; [lia|]. split; [auto|]. split; [simpl; lia|]. rewrite Forall_app, Forall_cons. auto.
Qed.

(** ** The descent *)

Section Apply.
Context {St : Type} `{PageStoreLaws St}.
Context (size_of_node size_of_entry size_of_separator : Z).
Context (base : PageId -> Node -> Prop).
Context (base_unique : forall p n n', base p n -> base p n' -> n = n').

Abbreviation Editor := (@Editor St).
Abbreviation ed_store e := (t_store (ed_tree e)).
Abbreviation etree := (etree base).
Abbreviation child_ok := (child_ok base).
Abbreviation ed_ok := (ed_ok base).
Abbreviation grows := (grows base).
Abbreviation ed_read := (ed_read size_of_node size_of_entry size_of_separator).
Abbreviation ed_first_key := (ed_first_key size_of_node size_of_entry size_of_separator).
Abbreviation ed_descend := (ed_descend size_of_node size_of_entry size_of_separator).
Abbreviation ed_apply := (ed_apply size_of_node size_of_entry size_of_separator).

Lemma ed_read_ok (e : Editor) p n :
  ed_ok e -> elook base (overlay e) p n ->
  exists e', ed_read p e = (Ok n, e') /\ ed_ok e' /\ grows 0 e e'.
Proof.
  intros He [Hp|[Hp Hb]]; unfold Tree.ed_read; st_run; rewrite Hp.
  - exists e. split; [done|]. split; [done|apply grows_refl].
  - pose proof He as [Hs Hc Hbase Hf Ha Hu]. destruct (read_node_ok size_of_node size_of_entry size_of_separator base p n (ed_tree e) Hc Hbase Hb)
      as (t' & Hread & Hst & Hc'). exists (set_ed_tree t' e). split; [|split].
    + unfold on_tree, zoom. by rewrite Hread.
    + split; cbn [set_ed_tree ed_tree overlay]; rewrite ?Hst; done.
    + split; cbn [set_ed_tree ed_tree overlay ed_root]; rewrite ?Hst; auto; lia.
Qed.

Lemma ed_first_key_ok fuel (e : Editor) l p es visited :
  ed_ok e -> etree (overlay e) l p es -> (l <= fuel)%nat ->
  (forall q, q ∈ visited -> exists l' es', etree (overlay e) l' q es' /\ (l < l')%nat) ->
  exists k e', ed_first_key fuel p visited e = (Ok k, e') /\ ed_ok e' /\ grows 0 e e' /\ starts_with es k.
Proof.
  revert e l p es visited. induction fuel as [|fuel IH]; intros e l p es visited He Ht Hl Hvis;
    pose proof (eo_apart _ _ He) as Ha; pose proof Ht as (n & Hn & Hfit & Hh)%(etree_inv _ _ _ _ _ Ha);
    (assert (p ∉ visited) as Hp by (intros (l' & es' & Ht' & Hlt)%Hvis; pose proof (etree_level base base_unique _ _ _ _ _ _ Ha Ht Ht'); lia));
    destruct (ed_read_ok e p n He Hn) as (e1 & Hread & He1 & Hg1);
    cbn [Tree.ed_first_key]; destruct (decide (p ∈ visited)) as [?|_]; try done; rewrite (ST_bind_step _ _ _ _ _ Hread);
    destruct n as [leaf next|level c seps].
  1,3: destruct Hh as (_ & -> & Hne); destruct leaf as [|x leaf]; [done|];
    exists (key x), e1; split; [reflexivity|]; split; [done|]; split; [done|]; by eexists _, _.
  - destruct l; [|lia]. by destruct Hh as (_ & cs & css & [] & _).
  - destruct l as [|l]; [by destruct Hh as (_ & cs & css & [] & _)|]. destruct Hh as (_ & cs & css & Hc & Hne & _ & ->).
    destruct (IH e1 l c cs ({[p]} ∪ visited) He1) as (k & e2 & Hrun & He2 & Hg2 & (v & cs' & Hk)).
    + by apply (gr_tree _ _ _ _ Hg1).
    + lia.
    + intros q [->%elem_of_singleton|Hq]%elem_of_union.
      * eexists (S l), _. split; [by apply (gr_tree _ _ _ _ Hg1)|lia].
      * destruct (Hvis q Hq) as (l' & es' & Ht' & Hlt). exists l', es'. split; [by apply (gr_tree _ _ _ _ Hg1)|lia].
    + exists k, e2. split; [done|]. split; [done|]. split; [exact (grows_trans base 0 0 _ _ _ Hg1 Hg2)|].
      rewrite Hk. by eexists v, _.
Qed.

(** The frames above a subtree of level [l]: what is to its left and right
    in the tree of level [top]. *)
Inductive path (o : gmap PageId Node) : list EditFrame -> nat -> entries -> entries -> nat -> Prop :=
| path_root l : path o [] l [] [] l
| path_below lch c rch lcs rcs l L R top frames :
    Forall2 (child_ok o l) lch lcs -> Forall2 (child_ok o l) rch rcs ->
    costs first_key (tail (lch ++ c :: rch)) <= NODE_ROOM ->
    Z.of_nat (S l) <= U16_MAX ->
    path o frames (S l) L R top ->
    path o (mkFrameE (Z.of_nat (S l)) (lch ++ c :: rch) (length lch) :: frames) l
         (L ++ concat lcs) (concat rcs ++ R) top.

Lemma path_grows k e e' frames l L R top :
  grows k e e' -> path (overlay e) frames l L R top -> path (overlay e') frames l L R top.
Proof. intros Hg. induction 1; [constructor|]. constructor; auto; by eapply children_grow. Qed.

Lemma partition_point_fmap {A B} (f : A -> B) p l : partition_point p (f <$> l) = partition_point (fun x => p (f x)) l.
Proof. induction l as [|x l IH]; simpl; [done|]. unfold fmap in IH. by rewrite IH. Qed.

(** The position of the child: the first one when the key is before all of
    them. *)
Lemma child_position fk seps k (cs : entries) css :
  starts_with cs fk -> Forall2 (fun (s : list byte * PageId) (cs : entries) => starts_with cs s.1) seps css ->
  keys_sorted (cs ++ concat css) -> forall p,
  Nat.pred (partition_point (fun c => bytes_leb (first_key c) k) (mkChild fk p :: ((fun s => mkChild s.1 s.2) <$> seps)))
  = partition_point (fun s => bytes_leb s.1 k) seps.
Proof.
  intros Hst Hss Hs p. cbn [partition_point first_key]. rewrite partition_point_fmap. cbn [first_key].
  destruct (bytes_leb fk k) eqn:E; [done|]. destruct Hss as [|s cs1 seps css Hs1 Hss]; [done|]. cbn [partition_point Nat.pred].
  destruct Hst as (v & cs' & ->). destruct Hs1 as (v1 & cs1' & ->).
  apply keys_sorted_app in Hs as (_ & _ & Hlt). specialize (Hlt (fk, v) (s.1, v1) ltac:(by left) ltac:(by left)). cbn in Hlt.
  rewrite bytes_leb_key in E |- *. destruct (key_leb s.1 k) eqn:E1; [|done].
  assert (key_le fk k) as Hle by (apply key_lt_le; by eapply key_lt_le_trans). unfold key_le in Hle. congruence.
Qed.

Lemma node_children_ok (o : gmap PageId Node) l level c seps (cs : entries) css fk :
  node_fits (Internal level c seps) -> etree o l c cs -> starts_with cs fk ->
  Forall2 (fun s cs => etree o l s.2 cs /\ starts_with cs s.1) seps css ->
  Forall2 (child_ok o l) (mkChild fk c :: ((fun s => mkChild s.1 s.2) <$> seps)) (cs :: css).
Proof.
  intros [[_ (_ & Hcr & Hr)] _] Hc Hst Hss. constructor; [by split|]. apply Forall2_fmap_l.
  apply Forall2_same_length_lookup_2; [by eapply Forall2_length|]. intros i s x Hs Hx.
  destruct (Forall2_lookup_lr _ _ _ _ _ _ Hss Hs Hx) as [? ?]. split; [done|]. split; [done|]. cbn.
  rewrite Forall_lookup in Hr. exact (Hr i s Hs).
Qed.

Lemma node_fits_costs n : node_fits n -> costs fst (node_pairs n) <= NODE_ROOM.
Proof. intros [_ Hs]. unfold node_size in Hs. rewrite costs_entries in Hs. split_consts. lia. Qed.

Lemma ed_descend_ok (e : Editor) l p es fk k frames L R top :
  ed_ok e -> etree (overlay e) l p es -> starts_with es fk -> keys_sorted es ->
  path (overlay e) frames l L R top -> keys_below L k -> keys_above R k ->
  exists leaf frames' L' R' e', ed_descend l p fk k frames e = (Ok (leaf, frames'), e') /\ ed_ok e' /\ grows 0 e e' /\
    path (overlay e') frames' 0 L' R' top /\ length frames' = (length frames + l)%nat /\
    L ++ es ++ R = L' ++ (entry_pair <$> leaf) ++ R' /\ keys_below L' k /\ keys_above R' k /\
    costs key leaf <= NODE_ROOM /\ Forall (fun e => is_u64 (value e)) leaf.
Proof.
  revert e p es fk frames L R. induction l as [|l IH]; intros e p es fk frames L R He Ht Hst Hsort Hpath HL HR;
    pose proof (eo_apart _ _ He) as Ha; pose proof Ht as (n & Hn & Hfit & Hh)%(etree_inv _ _ _ _ _ Ha);
    destruct (ed_read_ok e p n He Hn) as (e1 & Hread & He1 & Hg1); pose proof (node_level_holds _ _ _ _ Hh) as Hlev;
    cbn [Tree.ed_descend]; rewrite (ST_bind_step _ _ _ _ _ Hread), Hlev, Z.eqb_refl; cbn [negb];
    pose proof (node_fits_costs _ Hfit) as Hcost; destruct n as [leaf next|level c seps].
  - destruct Hh as (_ & -> & _). exists leaf, frames, L, R, e1. cbn [node_pairs] in Hcost. rewrite costs_fmap in Hcost.
    split; [reflexivity|]. split; [done|]. split; [done|]. split; [by eapply path_grows|]. split; [lia|].
    do 3 (split; [done|]). split; [exact Hcost|]. by destruct Hfit as [[_ [? _]] _].
  - by destruct Hh as (_ & cs & css & [] & _).
  - by destruct Hh as [? _].
  - destruct Hh as (-> & cs & css & Hcs & Hne & Hcss & ->).
    assert (starts_with cs fk) as Hst' by (destruct cs; [done|]; destruct Hst as (v & ? & [= -> _]); by eexists _, _).
    assert (Forall2 (fun (s : list byte * PageId) cs => starts_with cs s.1) seps css) as Hss
      by (apply (Forall2_impl _ _ _ _ Hcss); tauto).
    pose proof (node_children_ok _ _ _ _ _ _ _ _ Hfit Hcs Hst' Hcss) as Hch.
    rewrite (child_position fk seps k cs css Hst' Hss Hsort). set (i := partition_point _ seps).
    destruct (child_split seps cs css k Hss Hsort) as (ci & Hci & Hb & Habove). fold i in Hci, Hb, Habove.
    set (children := mkChild fk c :: _) in *.
    destruct (Forall2_lookup_r _ _ _ _ _ Hch Hci) as (ch & Hchi & Hchok). rewrite Hchi. cbn [default].
    assert (cs ++ concat css = concat (take i (cs :: css)) ++ ci ++ concat (drop (S i) (cs :: css))) as Hsplit.
    { change (cs ++ concat css) with (concat (cs :: css)). rewrite <- (take_drop_middle _ _ _ Hci) at 1. by rewrite concat_app. }
    rewrite Hsplit in Hsort. apply keys_sorted_app in Hsort as (_ & [Hsi _]%keys_sorted_app & _).
    assert (length (take i children) = i) as Hlen by (apply length_take_le; apply lookup_lt_Some in Hchi; lia).
    assert (path (overlay e1) (mkFrameE (Z.of_nat (S l)) children i :: frames) l
      (L ++ concat (take i (cs :: css))) (concat (drop (S i) (cs :: css)) ++ R) top) as Hpath'.
    { rewrite <- (take_drop_middle _ _ _ Hchi) at 1. rewrite <- Hlen at 3. 
      constructor; [|..|by eapply path_grows].
      - eapply children_grow; [exact Hg1|]. by apply Forall2_take.
      - eapply children_grow; [exact Hg1|]. by apply Forall2_drop.
      - rewrite take_drop_middle by done. cbn [tail children]. rewrite costs_fmap. exact Hcost.
      - destruct Hfit as [[_ [[_ ?] _]] _]. done. }
    destruct (IH e1 (child_page ch) ci (first_key ch) _ _ _ He1 (gr_tree _ _ _ _ Hg1 _ _ _ (proj1 Hchok)) (proj1 (proj2 Hchok)) Hsi Hpath')
      as (leaf & frames' & L' & R' & e2 & Hrun & He2 & Hg2 & Hp2 & Hlen2 & Heq & Hrest);
      [by apply keys_below_app|by apply keys_above_app|].
    exists leaf, frames', L', R', e2. split; [exact Hrun|]. split; [done|]. split; [exact (grows_trans base 0 0 _ _ _ Hg1 Hg2)|].
    split; [done|]. split; [cbn [length] in Hlen2; lia|]. split; [|exact Hrest]. rewrite <- Heq, Hsplit. by rewrite <- !app_assoc.
Qed.

(** ** The way back up *)

Definition fits (es : entries) : Prop := Forall (fun x => key_fits x.1) es.

(** A run of children in place of some of the tree's nodes. *)
Definition run_ok (o : gmap PageId Node) (l : nat) (chs : list Child) (es : entries) : Prop :=
  exists css, Forall2 (child_ok o l) chs css /\ concat css = es.

Lemma run_ok_app o l c1 c2 e1 e2 : run_ok o l c1 e1 -> run_ok o l c2 e2 -> run_ok o l (c1 ++ c2) (e1 ++ e2).
Proof. intros (css1 & H1 & <-) (css2 & H2 & <-). exists (css1 ++ css2). split; [by apply Forall2_app|apply concat_app]. Qed.

Lemma run_ok_grows k e e' l chs es : grows k e e' -> run_ok (overlay e) l chs es -> run_ok (overlay e') l chs es.
Proof. intros Hg (css & Hc & <-). exists css. split; [by eapply children_grow|done]. Qed.

Lemma run_ok_nil o l es : run_ok o l [] es <-> es = [].
Proof. split; [intros (css & Hc & <-); by inversion Hc|intros ->; by exists []]. Qed.

Lemma run_fits o l chs es : run_ok o l chs es -> fits es -> Forall (fun c => key_fits (first_key c)) chs.
Proof.
  intros (css & Hc & <-) Hf. induction Hc as [|c cs chs css (_ & (v & cs' & ->) & _) Hc IH]; [constructor|].
  apply Forall_app in Hf as [Hf1 Hf2]. constructor; [exact (Forall_inv Hf1)|auto].
Qed.

Lemma make_leaves_ok (e : Editor) leaf :
  ed_ok e -> keys_sorted (entry_pair <$> leaf) -> fits (entry_pair <$> leaf) -> Forall (fun e => is_u64 (value e)) leaf ->
  2 * costs key leaf <= 3 * NODE_ROOM -> 2 <= ps_room (ed_store e) ->
  exists reps e', make_leaves leaf e = (Ok reps, e') /\ ed_ok e' /\ grows 2 e e' /\
    (length reps <= 2)%nat /\ run_ok (overlay e') 0 reps (entry_pair <$> leaf).
Proof.
  intros He Hs Hf Hu Hcost Hroom. unfold make_leaves. destruct leaf as [|x leaf].
  { exists [], e. split; [done|]. split; [done|]. split; [eapply grows_weaken; [apply grows_refl|lia]|].
    split; [simpl; lia|]. by apply run_ok_nil. }
  set (es := x :: leaf) in *. unfold fits in Hf. rewrite Forall_fmap in Hf.
  destruct (partition_leaves_ok (length es) es (le_n _) Hf) as (groups & Hp & Hcat & Hg & _ & Hlen). specialize (Hlen Hcost).
  rewrite Hp. st_run. rewrite <- Hcat in Hs, Hu.
  destruct (collect_leaves base groups e He Hg Hs Hu ltac:(lia)) as (reps & e' & Hrun & He' & Hg' & Hreps).
  exists reps, e'. split; [exact Hrun|]. split; [done|]. split; [eapply grows_weaken; [exact Hg'|lia]|].
  split; [apply Forall2_length in Hreps; rewrite length_fmap in Hreps; lia|].
  eexists. split; [exact Hreps|]. rewrite <- Hcat. clear. induction groups as [|g groups IH]; [done|]. cbn. 
  rewrite fmap_app. unfold fmap in IH |- *. by rewrite <- IH.
Qed.

Lemma Forall2_concat_inv {A B} (P : A -> B -> Prop) (groups : list (list A)) (l : list B) :
  Forall2 P (concat groups) l -> exists ls, Forall2 (Forall2 P) groups ls /\ concat ls = l.
Proof.
  revert l. induction groups as [|g groups IH]; intros l Hl; [inversion Hl; subst; by exists []|].
  cbn [concat] in Hl. apply Forall2_app_inv_l in Hl as (l1 & l2 & H1 & H2 & ->).
  destruct (IH l2 H2) as (ls & Hls & <-). exists (l1 :: ls). split; [by constructor|done].
Qed.

Lemma concat_concat {A} (lss : list (list (list A))) : concat (concat lss) = concat (@concat A <$> lss).
Proof. induction lss as [|ls lss IH]; [done|]. cbn. rewrite concat_app. unfold fmap in IH. by rewrite IH. Qed.

Lemma make_internal_level_ok (e : Editor) l chs es :
  ed_ok e -> run_ok (overlay e) l chs es -> chs <> [] -> keys_sorted es -> fits es -> Z.of_nat (S l) <= U16_MAX ->
  costs first_key (tail chs) <= 2 * NODE_ROOM -> 2 <= ps_room (ed_store e) ->
  exists reps e', make_internal_level (Z.of_nat (S l)) chs e = (Ok reps, e') /\ ed_ok e' /\ grows 2 e e' /\
    (length reps <= 2)%nat /\ run_ok (overlay e') (S l) reps es.
Proof.
  intros He Hrun Hne Hs Hf Hlev Hcost Hroom. pose proof (run_fits _ _ _ _ Hrun Hf) as Hfits. destruct Hrun as (css & Hc & <-).
  destruct (partition_internal_ok (length chs) chs (le_n _) Hfits) as (groups & Hp & Hcat & Hg & _ & _ & _ & Hlen).
  specialize (Hlen Hcost). unfold make_internal_level. rewrite Hp. st_run. rewrite <- Hcat in Hc.
  destruct (Forall2_concat_inv _ _ _ Hc) as (csss & Hgs & <-). rewrite concat_concat in Hs.
  destruct (collect_groups base l groups csss e He Hgs Hg Hs Hlev ltac:(lia)) as (reps & e' & Hrun & He' & Hg' & Hreps).
  exists reps, e'. split; [exact Hrun|]. split; [done|]. split; [eapply grows_weaken; [exact Hg'|lia]|].
  split; [apply Forall2_length in Hgs; apply Forall2_length in Hreps; rewrite length_fmap in Hreps; lia|].
  eexists. split; [exact Hreps|]. by rewrite concat_concat.
Qed.

(** What putting at most two children in the place of one adds. *)
Lemma replace_costs lch c rch reps :
  costs first_key (tail (lch ++ c :: rch)) <= NODE_ROOM -> (length reps <= 2)%nat ->
  Forall (fun c => key_fits (first_key c)) reps ->
  costs first_key (tail (lch ++ reps ++ rch)) <= 2 * NODE_ROOM.
Proof.
  intros Hc Hlen Hf. assert (costs first_key reps <= NODE_ROOM) as Hr.
  { destruct reps as [|a [|b [|? ?]]]; cbn [length] in Hlen; try lia; cbn [costs];
      repeat (apply Forall_cons in Hf as [?%key_fits_cost Hf]); split_consts; lia. }
  pose proof (costs_nonneg first_key rch). pose proof (costs_nonneg first_key reps).
  assert (0 <= key_cost (first_key c)) by (unfold key_cost; lia).
  destruct lch as [|x lch].
  - cbn [app tail] in *. destruct reps as [|a reps]; cbn [app tail costs] in *.
    + destruct rch; cbn [tail costs] in *; [split_consts; lia|].
      assert (0 <= key_cost (first_key c0)) by (unfold key_cost; lia). lia.
    + rewrite costs_app. assert (0 <= key_cost (first_key a)) by (unfold key_cost; lia). lia.
  - cbn [app tail] in *. rewrite !costs_app in *. cbn [costs] in Hc. lia.
Qed.

Lemma path_top o frames l L R top : path o frames l L R top -> (l <= top)%nat.
Proof. induction 1; lia. Qed.

(** The shape of the loop: an empty parent disappears, a lone child of the
    root becomes the root, and any other parent is made again. *)
Lemma rebuild_path_cons rid frame rest reps h :
  rebuild_path rid (frame :: rest) reps h =
  (let chs := take (ef_position frame) (ef_children frame) ++ reps ++ drop (S (ef_position frame)) (ef_children frame) in
   if decide (chs = []) then rebuild_path rid rest [] h
   else if decide (length chs = 1%nat /\ rest = []) then
     h ← lift (ok_or (checked_sub h 1) (CorruptNode rid TreeHeightUnderflow)); rebuild_path rid rest chs h
   else level ← make_internal_level (ef_level frame) chs; rebuild_path rid rest level h) :> ST Editor _ _.
Proof.
  cbn [rebuild_path]. cbv zeta. destruct (_ ++ _ ++ _) as [|a [|b chs]]; [by rewrite decide_True| |].
  - rewrite decide_False by done. destruct rest; [by rewrite decide_True|]. by rewrite decide_False by (by intros [_ ?]).
  - rewrite decide_False by done. by rewrite decide_False by (by intros [? _]).
Qed.

Lemma frame_children {A} (lch : list A) c rch : take (length lch) (lch ++ c :: rch) = lch /\ drop (S (length lch)) (lch ++ c :: rch) = rch.
Proof.
  split; [apply take_app_length|]. rewrite drop_app_ge by lia. by replace (S (length lch) - length lch)%nat with 1%nat by lia.
Qed.

Lemma rebuild_path_ok rid frames : forall (e : Editor) l L R top reps es,
  ed_ok e -> path (overlay e) frames l L R top -> run_ok (overlay e) l reps es -> (length reps <= 2)%nat ->
  keys_sorted (L ++ es ++ R) -> fits (L ++ es ++ R) -> 2 * Z.of_nat (length frames) <= ps_room (ed_store e) ->
  exists reps' h' e', rebuild_path rid frames reps (Z.of_nat (S top)) e = (Ok (reps', h'), e') /\ ed_ok e' /\
    grows (2 * Z.of_nat (length frames)) e e' /\ (length reps' <= 2)%nat /\ 1 <= h' <= Z.of_nat (S top) /\
    run_ok (overlay e') (Z.to_nat (h' - 1)) reps' (L ++ es ++ R).
Proof.
  induction frames as [|frame frames IH]; intros e l L R top reps es He Hpath Hrun Hlen Hs Hf Hroom.
  - inversion Hpath; subst. exists reps, (Z.of_nat (S top)), e. split; [done|]. split; [done|]. split; [apply grows_refl|].
    split; [done|]. split; [lia|]. cbn [app]. rewrite app_nil_r. by replace (Z.to_nat (Z.of_nat (S top) - 1)) with top by lia.
  - inversion Hpath as [|lch c rch lcs rcs ? L0 R0 ? ? Hl Hr Hcost Hlev Hrest]; subst.
    rewrite rebuild_path_cons. cbn [ef_children ef_position ef_level].
    destruct (frame_children lch c rch) as [-> ->].
    assert (run_ok (overlay e) l (lch ++ reps ++ rch) (concat lcs ++ es ++ concat rcs)) as Hchs
      by (apply run_ok_app; [by exists lcs|apply run_ok_app; [done|by exists rcs]]).
    set (es' := concat lcs ++ es ++ concat rcs) in *.
    assert ((L0 ++ concat lcs) ++ es ++ concat rcs ++ R0 = L0 ++ es' ++ R0) as Hcat by (unfold es'; by rewrite <- !app_assoc).
    rewrite Hcat in Hs, Hf |- *. pose proof (path_top _ _ _ _ _ _ Hrest) as Htop. cbn [length] in Hroom |- *. cbv zeta.
    pose proof (proj1 (proj2 (proj1 (keys_sorted_app _ _) Hs))) as [Hs' _]%keys_sorted_app.
    assert (fits es') as Hf' by (unfold fits in Hf; rewrite !Forall_app in Hf; apply Hf).
    assert (fits es) as Hfes by (unfold fits, es' in Hf'; rewrite !Forall_app in Hf'; apply Hf').
    destruct (decide (lch ++ reps ++ rch = [])) as [Hnil|Hne]; [|destruct (decide _) as [[Hone ->]|Hmany]].
    + rewrite Hnil in Hchs. apply run_ok_nil in Hchs. rewrite Hchs in Hs, Hf |- *.
      destruct (IH e (S l) L0 R0 top [] [] He Hrest) as (reps' & h' & e' & Hr' & He' & Hg' & Hrest');
        [by apply run_ok_nil|simpl; lia|done|done|lia|]. exists reps', h', e'. split; [exact Hr'|]. split; [done|].
      split; [eapply grows_weaken; [exact Hg'|lia]|done].
    + inversion Hrest; subst. exists (lch ++ reps ++ rch), (Z.of_nat (S l)), e. split.
      { unfold checked_sub. st_run. destruct (Z.leb_spec 1 (Z.of_nat (S (S l)))); [|lia]. cbn.
        by replace (Z.of_nat (S (S l)) - 1) with (Z.of_nat (S l)) by lia. }
      split; [done|]. split; [eapply grows_weaken; [apply grows_refl|lia]|]. split; [lia|]. split; [lia|].
      cbn [app]. rewrite app_nil_r. by replace (Z.to_nat (Z.of_nat (S l) - 1)) with l by lia.
    + destruct (make_internal_level_ok e l _ es' He Hchs Hne Hs' Hf' Hlev) as (reps1 & e1 & Hmk & He1 & Hg1 & Hlen1 & Hrun1).
      { apply (replace_costs lch c rch reps Hcost Hlen). by eapply run_fits. } { lia. }
      pose proof (gr_room _ _ _ _ Hg1) as Hroom1.
      destruct (IH e1 (S l) L0 R0 top reps1 es' He1 (path_grows _ _ _ _ _ _ _ _ Hg1 Hrest) Hrun1 Hlen1 Hs Hf ltac:(lia))
        as (reps' & h' & e' & Hr' & He' & Hg' & Hrest').
      exists reps', h', e'. split; [by rewrite (ST_bind_step _ _ _ _ _ Hmk)|]. split; [done|].
      split; [eapply grows_weaken; [eapply grows_trans; [exact Hg1|exact Hg']|lia]|done].
Qed.

(** ** The whole mutation *)

Definition root_holds (o : gmap PageId Node) (r : option IndexRoot) (es : entries) (count : Z) : Prop :=
  match r with
  | None => es = []
  | Some r => etree o (Z.to_nat (height r - 1)) (root_page r) es /\ 1 <= height r <= U16_MAX /\ root_entries r = count
  end.

Definition root_height (r : option IndexRoot) : Z := match r with Some r => height r | None => 0 end.

Definition map_fits (m : gmap (list byte) PageId) : Prop := forall k v, m !! k = Some v -> key_fits k.

Definition mutation_ok (mutation : IndexMutation) : Prop :=
  match mutation with Upsert e => key_fits (key e) /\ is_u64 (value e) | Delete _ => True end.

Lemma map_fits_list m : map_fits m -> fits (bt_list m).
Proof. intros Hm. apply Forall_forall. intros [k v] Hx%elem_of_bt_list. by eapply Hm. Qed.

Lemma new_root_ok (e : Editor) reps h count es :
  ed_ok e -> run_ok (overlay e) (Z.to_nat (h - 1)) reps es -> (length reps <= 2)%nat -> 1 <= h < U16_MAX ->
  keys_sorted es -> fits es -> 1 <= ps_room (ed_store e) ->
  exists r e', new_root reps h count e = (Ok r, e') /\ ed_ok e' /\ grows 1 e e' /\
    root_holds (overlay e') r es count /\ root_height r <= h + 1.
Proof.
  intros He Hrun Hlen Hh Hs Hf Hroom. pose proof (run_fits _ _ _ _ Hrun Hf) as Hfits.
  destruct reps as [|a [|b [|? ?]]]; [| | |cbn [length] in Hlen; lia].
  - exists None, e. split; [done|]. split; [done|]. split; [eapply grows_weaken; [apply grows_refl|lia]|].
    apply run_ok_nil in Hrun. split; [done|simpl; lia].
  - exists (Some (mkRoot (child_page a) h count)), e. split; [done|]. split; [done|].
    split; [eapply grows_weaken; [apply grows_refl|lia]|]. destruct Hrun as (css & Hc & <-).
    inversion Hc as [|? cs ? ? (Ht & _) Hnil]; subst. inversion Hnil; subst. cbn [concat]. rewrite app_nil_r.
    split; [|simpl; lia]. cbn [root_holds height root_page root_entries]. split; [done|]. split; [lia|done].
  - destruct Hrun as (css & Hc & <-). cbn [new_root].
    assert (h = Z.of_nat (S (Z.to_nat (h - 1)))) as Hlev by lia.
    destruct (internal_group base (overlay e) (Z.to_nat (h - 1)) [a; b] css Hc ltac:(done) Hs ltac:(lia)) as [Hfit Hhold].
    { cbn [tail costs]. apply Forall_cons in Hfits as [_ [?%key_fits_cost _]%Forall_cons].
      split_consts. lia. }
    rewrite <- Hlev in Hfit, Hhold. destruct (allocate_ok base e _ He Hfit Hroom) as (p & e' & Hal & He' & Hg' & Hp & Hpr).
    exists (Some (mkRoot p (h + 1) count)), e'. split.
    { rewrite (ST_bind_step _ _ _ _ _ Hal). by rewrite (proj2 (checked_add_Some U16_MAX h 1 (h + 1)) ltac:(lia)). }
    split; [done|]. split; [done|]. split; [|simpl; lia]. cbn [root_holds height root_page root_entries].
    split; [|split; [lia|done]]. replace (Z.to_nat (h + 1 - 1)) with (S (Z.to_nat (h - 1))) by lia.
    apply (etree_node base _ _ _ _ _ Hp Hfit).
    eapply node_holds_mono; [|exact Hhold]. apply Hg'.
Qed.

Lemma new_entry_count_ok r delta :
  root_entries r < U64_MAX -> (delta = -1 \/ delta = 0 \/ delta = 1) -> 0 <= root_entries r + delta ->
  new_entry_count r delta = Ok (root_entries r + delta).
Proof.
  intros Hm Hd Hs. unfold new_entry_count. destruct Hd as [->|[->| ->]]; cbn [Z.eqb].
  - unfold checked_sub. destruct (Z.leb_spec 1 (root_entries r)); [done|lia].
  - by rewrite Z.add_0_r.
  - by rewrite (proj2 (checked_add_Some U64_MAX (root_entries r) 1 (root_entries r + 1)) ltac:(lia)).
Qed.

Lemma validate_entry_ok k v : key_fits k -> validate_entries [mkIndexEntry k v] = Ok tt.
Proof.
  intros Hk. unfold validate_entries. cbn [strictly_increasing negb try_map]. unfold validate_entry, leaf_entry_size, LEAF_ENTRY_OVERHEAD.
  cbn [key]. rewrite (key_fits_size _ Hk). pose proof (key_fits_cost _ Hk).
  destruct (Z.ltb_spec MAX_PAGE_PAYLOAD (NODE_HEADER_SIZE + key_cost k)); [split_consts; lia|done].
Qed.

Definition ed_holds (e : Editor) (m : gmap (list byte) PageId) : Prop :=
  root_holds (overlay e) (ed_root e) (bt_list m) (Z.of_nat (size m)).

(** What a mutation uses up at most. *)
Definition apply_room (r : option IndexRoot) : Z := 2 * root_height r + 1.

Definition ed_change (e : Editor) (k : list byte) (v : option PageId) : result IndexError unit * Editor :=
  (match ed_root e with
   | None => match v with
             | Some v => p ← allocate (Leaf [mkIndexEntry k v] None); modify (set_ed_root (Some (mkRoot p 1 1)))
             | None => mret tt
             end
   | Some root =>
       level ← root_level root;
       fk ← ed_first_key (Z.to_nat (height root)) (root_page root) ∅;
       leaf ← ed_descend level (root_page root) fk k [];
       match change_leaf leaf.1 k v with
       | None => mret tt
       | Some (entries, delta) =>
           replacement ← make_leaves entries;
           rebuilt ← rebuild_path (root_page root) leaf.2 replacement (height root);
           count ← lift (new_entry_count root delta);
           root' ← new_root rebuilt.1 rebuilt.2 count;
           modify (set_ed_root root')
       end
   end) e.

Lemma ed_apply_change e mutation :
  mutation_ok mutation ->
  ed_apply mutation e =
  match mutation with Upsert x => ed_change e (key x) (Some (value x)) | Delete k => ed_change e k None end.
Proof.
  intros Hm. unfold Tree.ed_apply, ed_change. destruct mutation as [[k v]|k]; [|done].
  cbn [key value]. destruct Hm as [Hk _]. cbn [key] in Hk. by rewrite (validate_entry_ok k v Hk).
Qed.

Lemma insert_first (e : Editor) k v :
  ed_ok e -> ed_root e = None -> key_fits k -> is_u64 v -> 1 <= ps_room (ed_store e) ->
  exists r e', ed_change e k (Some v) = (Ok tt, set_ed_root r e') /\ ed_ok e' /\ grows 1 e e' /\
    root_holds (overlay e') r [(k, v)] 1 /\ root_height r <= 1.
Proof.
  intros He Hr Hk Hv Hroom. unfold ed_change. rewrite Hr.
  assert (node_fits (Leaf [mkIndexEntry k v] None)) as Hfit.
  { apply leaf_group_fits; [done|apply leaf_sorted_cons; split; constructor|by apply Forall_singleton|]. cbn [costs key]. pose proof (key_fits_cost _ Hk). 
    assert (0 <= key_cost k) by (unfold key_cost; lia). lia. }
  destruct (allocate_ok base e _ He Hfit Hroom) as (p & e' & Hal & He' & Hg' & Hp & Hpr).
  exists (Some (mkRoot p 1 1)), e'. split; [by rewrite (ST_bind_step _ _ _ _ _ Hal)|]. split; [done|]. split; [done|].
  split; [|simpl; lia]. cbn [root_holds height root_page root_entries]. split; [|split; [done|done]].
  by apply (etree_node base _ _ _ _ _ Hp Hfit).
Qed.

Lemma change_root (e : Editor) m root k v :
  ed_ok e -> ed_root e = Some root -> ed_holds e m -> map_fits m -> key_fits k \/ v = None -> (forall w, v = Some w -> is_u64 w) ->
  height root < U16_MAX -> Z.of_nat (size m) < U64_MAX -> 2 * height root + 1 <= ps_room (ed_store e) ->
  exists r e', ed_change e k v = (Ok tt, set_ed_root r e') /\ ed_ok e' /\ grows (2 * height root + 1) e e' /\
    root_holds (overlay e') r (bt_list (put_map m k v)) (Z.of_nat (size (put_map m k v))) /\ root_height r <= height root + 1.
Proof.
  intros He Hr Hm Hfits Hk Hv Hheight Hsize Hroom. unfold ed_holds in Hm. rewrite Hr in Hm. destruct Hm as (Ht & Hh & Hcount).
  set (l := Z.to_nat (height root - 1)) in *. assert (height root = Z.of_nat (S l)) as Hhl by lia.
  unfold ed_change. rewrite Hr, (ST_bind_step _ _ _ _ _ (root_level_ok root e (proj1 Hh))). fold l.
  destruct (ed_first_key_ok (Z.to_nat (height root)) e l (root_page root) _ ∅ He Ht ltac:(lia)) as (fk & e1 & Hfk & He1 & Hg1 & Hst).
  { set_solver. }
  rewrite (ST_bind_step _ _ _ _ _ Hfk).
  destruct (ed_descend_ok e1 l (root_page root) (bt_list m) fk k [] [] [] l He1 (gr_tree _ _ _ _ Hg1 _ _ _ Ht) Hst (bt_list_sorted m)
    (path_root _ l)) as (leaf & frames & L & R & e2 & Hd & He2 & Hg2 & Hpath & Hlen & Heq & HL & HR & Hcost & Hu);
    [by intros x ?%elem_of_nil|by intros x ?%elem_of_nil|].
  rewrite (ST_bind_step _ _ _ _ _ Hd). cbn [fst snd]. cbn [app] in Heq. rewrite app_nil_r in Heq.
  pose proof (grows_trans base _ _ _ _ _ Hg1 Hg2) as Hg12.
  pose proof (change_leaf_ok m L leaf R k v Heq HL HR Hu Hv) as Hch.
  destruct (change_leaf leaf k v) as [[leaf' delta]|] eqn:Ech.
  2: { exists (ed_root e2), e2. split; [by destruct e2|]. split; [done|]. split; [eapply grows_weaken; [exact Hg12|lia]|].
       rewrite Hch, (gr_root _ _ _ _ Hg12), Hr. split; [|simpl; lia]. split; [by apply (gr_tree _ _ _ _ Hg12)|by split]. }
  destruct Hch as (Heq' & Hsz & Hdelta & Hcost' & Hu').
  assert (map_fits (put_map m k v)) as Hfits'.
  { intros k' v'. destruct v as [v|]; cbn [put_map].
    - intros [[<- _]|[_ Hx]]%lookup_insert_Some; [by destruct Hk|by eapply Hfits].
    - intros [_ Hx]%lookup_delete_Some. by eapply Hfits. }
  pose proof (map_fits_list _ Hfits') as Hf'. pose proof (bt_list_sorted (put_map m k v)) as Hs'. rewrite Heq' in Hf', Hs'.
  pose proof (gr_room _ _ _ _ Hg12) as Hroom2.
  assert (2 * costs key leaf' <= 3 * NODE_ROOM) as Hcost3.
  { destruct v as [v|]; [destruct Hk as [?%key_fits_cost|]; [lia|done]|]. pose proof (costs_nonneg key leaf). lia. }
  destruct (make_leaves_ok e2 leaf') as (reps & e3 & Hmk & He3 & Hg3 & Hlen3 & Hrun3); [done| |by unfold fits in *; rewrite !Forall_app in Hf'; apply Hf'|done|done|lia|].
  { apply keys_sorted_app in Hs' as (_ & [Hs' _]%keys_sorted_app & _). done. }
  rewrite (ST_bind_step _ _ _ _ _ Hmk). pose proof (gr_room _ _ _ _ Hg3) as Hroom3. cbn [length] in Hlen. rewrite Hhl.
  destruct (rebuild_path_ok (root_page root) frames e3 0 L R l reps _ He3 (path_grows _ _ _ _ _ _ _ _ Hg3 Hpath) Hrun3 Hlen3 Hs' Hf' ltac:(lia))
    as (reps' & h' & e4 & Hrb & He4 & Hg4 & Hlen4 & Hh4 & Hrun4).
  rewrite (ST_bind_step _ _ _ _ _ Hrb). cbn [fst snd]. pose proof (gr_room _ _ _ _ Hg4) as Hroom4.
  rewrite new_entry_count_ok; [|lia|done|lia]. st_run. rewrite Hcount, <- Hsz.
  destruct (new_root_ok e4 reps' h' (Z.of_nat (size (put_map m k v))) _ He4 Hrun4 Hlen4 ltac:(lia) Hs' Hf' ltac:(lia))
    as (r & e5 & Hnr & He5 & Hg5 & Hroot & Hrh).
  exists r, e5. rewrite Hnr. split; [done|]. split; [done|].
  split; [eapply grows_weaken; [exact (grows_trans base _ _ _ _ _ Hg12 (grows_trans base _ _ _ _ _ Hg3 (grows_trans base _ _ _ _ _ Hg4 Hg5)))|lia]|].
  rewrite Heq'. split; [done|lia].
Qed.

(** One mutation turns an index for a map into an index for the changed
    map. *)
Lemma ed_apply_ok (e : Editor) m mutation :
  ed_ok e -> ed_holds e m -> map_fits m -> mutation_ok mutation -> root_height (ed_root e) < U16_MAX ->
  Z.of_nat (size m) < U64_MAX -> apply_room (ed_root e) <= ps_room (ed_store e) ->
  exists r e', ed_apply mutation e = (Ok tt, set_ed_root r e') /\ ed_ok e' /\ grows (apply_room (ed_root e)) e e' /\
    ed_holds (set_ed_root r e') (apply_map m mutation) /\ root_height r <= root_height (ed_root e) + 1.
Proof.
  intros He Hm Hf Hmut Hh Hs Hroom. rewrite (ed_apply_change e mutation Hmut). unfold apply_room in *.
  destruct (ed_root e) as [root|] eqn:Hr; cbn [root_height] in *.
  - destruct mutation as [[k v]|k]; cbn [key value apply_map].
    + destruct Hmut as [Hk Hv]. apply (change_root e m root); auto. by intros w [= <-].
    + apply (change_root e m root); auto. done.
  - unfold ed_holds in Hm. rewrite Hr in Hm. cbn in Hm. assert (m = ∅) as -> by (apply bt_first_None; unfold bt_first; by rewrite Hm).
    destruct mutation as [[k v]|k]; cbn [key value apply_map put_map].
    + destruct Hmut as [Hk Hv]. destruct (insert_first e k v He Hr Hk Hv Hroom) as (r & e' & Hrun & He' & Hg' & Hroot & Hrh).
      exists r, e'. split; [done|]. split; [done|]. split; [done|]. split; [|done]. unfold ed_holds. cbn [set_ed_root overlay ed_root].
      rewrite map_size_insert_None, map_size_empty by apply lookup_empty.
      by rewrite (bt_list_insert ∅ [] k v []) by (rewrite ?bt_list_empty; try done; by intros x ?%elem_of_nil).
    + exists None, e. split; [unfold ed_change; rewrite Hr; by destruct e; cbn in *; subst|]. split; [done|].
      split; [eapply grows_weaken; [apply grows_refl|lia]|]. split; [|simpl; lia]. unfold ed_holds. cbn.
      by rewrite delete_empty, bt_list_empty.
Qed.
End Apply.
