(* ===== verification/TreeFinish.v ===== *)
(** * The plan of an edit

    [Editor::finish] walks the new nodes from the root and lists the pages
    to write.  The walk never meets a page twice, ends within its fuel, and
    collects every new node of the tree; committing the plan makes the new
    index readable and leaves the old one as it was. *)
From S2P Require Import Prelude Page Order ByteLru Node Record Store Handle Tree TreeBase TreeEdit TreeApply.
Local Open Scope Z_scope.

Section Walk.
Context (base : PageId -> Node -> Prop).
Context (base_unique : forall p n n', base p n -> base p n' -> n = n').
Context (o : gmap PageId Node) (Ho : apart base o).

Abbreviation etree := (etree base o).

(** The pages that the walk visits below a page. *)
Fixpoint walk (l : nat) (p : PageId) : list PageId :=
  p :: match o !! p, l with
       | Some n, S l => concat (walk l <$> node_children n)
       | _, _ => []
       end.

Lemma Forall2_det {A B} (P : A -> B -> Prop) l k1 k2 :
  (forall x y1 y2, P x y1 -> P x y2 -> y1 = y2) -> Forall2 P l k1 -> Forall2 P l k2 -> k1 = k2.
Proof.
  intros Hdet H1. revert k2. induction H1 as [|x y l k1 Hxy H1 IH]; intros k2 H2; inversion H2; subst; [done|].
  f_equal; eauto.
Qed.

(** A page has one list of entries. *)
Lemma etree_det l p es es' : etree l p es -> etree l p es' -> es = es'.
Proof.
  revert p es es'. induction l as [|l IH]; intros p es es' (n & Hn & _ & Hh)%etree_inv (n' & Hn' & _ & Hh')%etree_inv; try done;
    rewrite <- (elook_unique _ base_unique _ _ _ _ Hn Hn') in Hh'; destruct n as [leaf next|level c seps].
  - destruct Hh as (_ & -> & _). by destruct Hh' as (_ & -> & _).
  - by destruct Hh as (_ & cs & css & [] & _).
  - by destruct Hh.
  - destruct Hh as (_ & cs & css & Hc & _ & Hcs & ->), Hh' as (_ & cs' & css' & Hc' & _ & Hcs' & ->). f_equal; [by eapply IH|].
    f_equal. eapply Forall2_det; [|exact Hcs|exact Hcs']. intros s y1 y2 [? _] [? _]. by eapply IH.
Qed.

(** The children of a node, with their entries. *)
Lemma etree_children l p es n :
  etree (S l) p es -> o !! p = Some n ->
  exists css, Forall2 (etree l) (node_children n) css /\ concat css = es.
Proof.
  intros (n' & Hn & _ & Hh)%etree_inv Hp; [|done]. destruct Hn as [Hn|[Hn _]]; [|congruence].
  rewrite Hp in Hn. injection Hn as <-. destruct n as [leaf next|level c seps]; [by destruct Hh|].
  destruct Hh as (_ & cs & css & Hc & _ & Hcs & ->). exists (cs :: css). split; [|done]. cbn [node_children].
  constructor; [done|]. apply Forall2_fmap_l. apply (Forall2_impl _ _ _ _ Hcs). tauto.
Qed.

Lemma elem_of_concat_map {A B} (f : A -> list B) l y : y ∈ concat (f <$> l) <-> exists x, x ∈ l /\ y ∈ f x.
Proof.
  rewrite elem_of_concat. split.
  - intros (ys & Hy & (x & -> & Hx)%list_elem_of_fmap). eauto.
  - intros (x & Hx & Hy). exists (f x). split; [done|]. by apply list_elem_of_fmap_2.
Qed.

(** What the walk meets: subtrees, each with some of the entries. *)
Lemma walk_subtree l p es q :
  etree l p es -> q ∈ walk l p ->
  exists l' es', (l' <= l)%nat /\ etree l' q es' /\ (forall x, x ∈ es' -> x ∈ es).
Proof.
  revert p es. induction l as [|l IH]; intros p es Ht; cbn [walk]; rewrite elem_of_cons.
  - intros [->|Hq]; [by exists 0%nat, es|]. destruct (o !! p); by apply elem_of_nil in Hq.
  - intros [->|Hq]; [by exists (S l), es|]. destruct (o !! p) as [n|] eqn:Hp; [|by apply elem_of_nil in Hq].
    destruct (etree_children _ _ _ _ Ht Hp) as (css & Hcss & <-).
    apply elem_of_concat_map in Hq as (c & Hc & Hq). apply list_elem_of_lookup in Hc as [i Hi].
    destruct (Forall2_lookup_l _ _ _ _ _ Hcss Hi) as (cs & Hcs & Htc).
    destruct (IH c cs Htc Hq) as (l' & es' & Hl & Hte & Hin). exists l', es'. split; [lia|]. split; [done|].
    intros x Hx. apply elem_of_concat. exists cs. split; [auto|]. by eapply list_elem_of_lookup_2.
Qed.

(** Two pages of the walk below different children hold different keys. *)
Lemma walk_disjoint l p1 p2 es1 es2 q :
  etree l p1 es1 -> etree l p2 es2 -> (forall x, x ∈ es1 -> x ∈ es2 -> False) ->
  q ∈ walk l p1 -> q ∈ walk l p2 -> False.
Proof.
  intros H1 H2 Hd Hq1 Hq2. destruct (walk_subtree _ _ _ _ H1 Hq1) as (l1 & f1 & _ & Ht1 & Hs1).
  destruct (walk_subtree _ _ _ _ H2 Hq2) as (l2 & f2 & _ & Ht2 & Hs2).
  pose proof (etree_level base base_unique _ _ _ _ _ _ Ho Ht1 Ht2) as ->. rewrite (etree_det _ _ _ _ Ht1 Ht2) in Hs1.
  pose proof (etree_ne base o _ _ _ Ho Ht2). destruct f2 as [|x f2]; [done|]. apply (Hd x); [apply Hs1; left|apply Hs2; left].
Qed.

Lemma sorted_apart es1 es2 : keys_sorted (es1 ++ es2) -> forall x : list byte * PageId, x ∈ es1 -> x ∈ es2 -> False.
Proof. intros (_ & _ & Hlt)%keys_sorted_app x H1 H2. exact (key_lt_irrefl _ (Hlt x x H1 H2)). Qed.

Lemma walk_all_NoDup l cs css :
  (forall p es, etree l p es -> keys_sorted es -> NoDup (walk l p)) ->
  Forall2 (etree l) cs css -> keys_sorted (concat css) -> NoDup (concat (walk l <$> cs)).
Proof.
  intros IH Hcs. induction Hcs as [|c es cs css Hc Hcs IHl]; intros Hs; [constructor|]. cbn [concat fmap list_fmap] in *.
  pose proof Hs as (Hs1 & Hs2 & _)%keys_sorted_app. apply NoDup_app. split; [by eapply IH|]. split; [|auto].
  intros q Hq (c' & Hc' & Hq')%elem_of_concat_map. apply list_elem_of_lookup in Hc' as [i Hi].
  destruct (Forall2_lookup_l _ _ _ _ _ Hcs Hi) as (es' & Hes' & Ht').
  eapply (walk_disjoint l c c' es es' q); [done|done| |done|done].
  intros x Hx Hx'. eapply (sorted_apart es (concat css)); [done|done|]. apply elem_of_concat. exists es'.
  split; [done|]. by eapply list_elem_of_lookup_2.
Qed.

(** The walk meets every page once. *)
Lemma walk_NoDup l p es : etree l p es -> keys_sorted es -> NoDup (walk l p).
Proof.
  revert p es. induction l as [|l IH]; intros p es Ht Hs; cbn [walk].
  - destruct (o !! p); apply NoDup_singleton.
  - destruct (o !! p) as [n|] eqn:Hp; [|apply NoDup_singleton].
    destruct (etree_children _ _ _ _ Ht Hp) as (css & Hcss & <-). constructor; [|by eapply walk_all_NoDup].
    intros (c & Hc & Hq)%elem_of_concat_map. apply list_elem_of_lookup in Hc as [i Hi].
    destruct (Forall2_lookup_l _ _ _ _ _ Hcss Hi) as (cs & _ & Htc).
    destruct (walk_subtree _ _ _ _ Htc Hq) as (l' & es' & Hl & Ht' & _).
    pose proof (etree_level base base_unique _ _ _ _ _ _ Ho Ht Ht'). lia.
Qed.
End Walk.

(** ** The fuel of the walk *)

Definition fan_out (o : gmap PageId Node) (p : PageId) : nat :=
  match o !! p with Some n => length (node_children n) | None => 0 end.

Lemma fan_out_total ps (o : gmap PageId Node) :
  NoDup ps ->
  (sum_list_with (fan_out o) ps <= sum_list_with (fun x => length (node_children x.2)) (map_to_list o))%nat.
Proof.
  intros Hnd. revert o. induction Hnd as [|p ps Hp Hnd IH]; intros o; cbn [sum_list_with]; [lia|].
  destruct (o !! p) as [n|] eqn:E.
  - rewrite <- (map_to_list_delete o p n E). cbn [sum_list_with snd]. specialize (IH (delete p o)). unfold fan_out at 1. rewrite E.
    assert (sum_list_with (fan_out o) ps = sum_list_with (fan_out (delete p o)) ps) as ->; [|lia].
    clear IH. induction ps as [|q ps IHp]; [done|]. apply not_elem_of_cons in Hp as [Hpq Hp]. apply NoDup_cons in Hnd as [_ Hnd].
    cbn [sum_list_with]. rewrite IHp by done. unfold fan_out. by rewrite lookup_delete_ne.
  - unfold fan_out at 1. rewrite E. apply IH.
Qed.

Section Reach.
Context (base : PageId -> Node -> Prop).
Context (base_unique : forall p n n', base p n -> base p n' -> n = n').
Context (o : gmap PageId Node) (Ho : apart base o).

Abbreviation etree := (etree base o).

Lemma leaf_children p es n : etree 0 p es -> o !! p = Some n -> node_children n = [].
Proof.
  intros (n' & Hn & _ & Hh)%etree_inv Hp; [|done]. destruct Hn as [Hn|[Hn _]]; [|congruence].
  rewrite Hp in Hn. injection Hn as <-. destruct n as [leaf next|level c seps]; [done|].
  by destruct Hh as (_ & cs & css & [] & _).
Qed.

Lemma walk_length l p es : etree l p es -> length (walk o l p) = S (sum_list_with (fan_out o) (walk o l p)).
Proof.
  revert p es. induction l as [|l IH]; intros p es Ht; cbn [walk length sum_list_with]; unfold fan_out at 1.
  - destruct (o !! p) as [n|] eqn:Hp; [|done]. by rewrite (leaf_children _ _ _ Ht Hp).
  - destruct (o !! p) as [n|] eqn:Hp; [|done]. destruct (etree_children base o Ho _ _ _ _ Ht Hp) as (css & Hcss & _).
    f_equal. clear Ht Hp es p. induction Hcss as [|c cs chs css Hc Hcs IHl]; [done|]. cbn [fmap list_fmap concat length].
    rewrite length_app, sum_list_with_app, (IH _ _ Hc), IHl. unfold fmap. lia.
Qed.

Lemma walk_fuel l p es : etree l p es -> keys_sorted es -> (length (walk o l p) < reach_fuel o)%nat.
Proof.
  intros Ht Hs. rewrite (walk_length _ _ _ Ht). unfold reach_fuel.
  pose proof (fan_out_total (walk o l p) o (walk_NoDup base base_unique o Ho _ _ _ Ht Hs)). lia.
Qed.

Lemma walk_all_perm l cs : concat (walk o l <$> reverse cs) ≡ₚ concat (walk o l <$> cs).
Proof.
  induction cs as [|c cs IH]; [done|]. rewrite reverse_cons, fmap_app, concat_app, IH. cbn. rewrite app_nil_r.
  apply Permutation_app_comm.
Qed.

Lemma reach_all l fuel cs pending (seen : gset PageId) :
  (forall fuel p pending (seen : gset PageId), p ∈ cs -> NoDup (walk o l p) -> (forall q, q ∈ walk o l p -> q ∉ seen) ->
    reach_loop (length (walk o l p) + fuel) o (p :: pending) seen = reach_loop fuel o pending (list_to_set (walk o l p) ∪ seen)) ->
  NoDup (concat (walk o l <$> cs)) -> (forall q, q ∈ concat (walk o l <$> cs) -> q ∉ seen) ->
  reach_loop (length (concat (walk o l <$> cs)) + fuel) o (cs ++ pending) seen =
  reach_loop fuel o pending (list_to_set (concat (walk o l <$> cs)) ∪ seen).
Proof.
  revert seen. induction cs as [|c cs IH]; intros seen Hone Hnd Hseen; cbn [fmap list_fmap concat length app] in *.
  - f_equal. set_solver.
  - apply NoDup_app in Hnd as (Hnd1 & Hdis & Hnd2). rewrite length_app, <- Nat.add_assoc, Hone; [|left|done|set_solver].
    unfold fmap in *. rewrite IH; [|set_solver|done|set_solver]. f_equal. set_solver.
Qed.

(** The walk, from one page: it takes one turn for each page. *)
Lemma reach_walk l fuel p pending (seen : gset PageId) :
  (exists es, etree l p es) -> NoDup (walk o l p) -> (forall q, q ∈ walk o l p -> q ∉ seen) ->
  reach_loop (length (walk o l p) + fuel) o (p :: pending) seen = reach_loop fuel o pending (list_to_set (walk o l p) ∪ seen).
Proof.
  revert fuel p pending seen. induction l as [|l IH]; intros fuel p pending seen [es Ht] Hnd Hseen;
    cbn [walk] in *; (assert (p ∉ seen) as Hp by (apply Hseen; left));
    apply NoDup_cons in Hnd as [Hnp Hnd]; cbn [length Nat.add reach_loop]; (destruct (decide (p ∈ seen)) as [?|_]; [done|]).
  - destruct (o !! p) as [n|] eqn:Ep; cbn [length Nat.add]; [rewrite (leaf_children _ _ _ Ht Ep); cbn|]; f_equal; set_solver.
  - destruct (o !! p) as [n|] eqn:Ep; cbn [length Nat.add]; [|f_equal; set_solver].
    destruct (etree_children base o Ho _ _ _ _ Ht Ep) as (css & Hcss & _).
    pose proof (walk_all_perm l (node_children n)) as Hperm. rewrite <- (Permutation_length Hperm).
    set (A := concat (walk o l <$> node_children n)) in *. set (B := concat (walk o l <$> reverse (node_children n))) in *.
    unfold B. rewrite reach_all; fold B.
    + f_equal. rewrite (list_to_set_perm_L _ _ Hperm). cbn [list_to_set]. clear. generalize (list_to_set A : gset PageId). set_solver.
    + intros f q pend seen' Hq. apply IH. apply (proj1 (elem_of_reverse _ _)), list_elem_of_lookup in Hq as [i Hi].
      destruct (Forall2_lookup_l _ _ _ _ _ Hcss Hi) as (cs & _ & Htc). by exists cs.
    + by apply (NoDup_Permutation_proper _ _ Hperm).
    + intros q Hq Hin. apply (elem_of_Permutation_proper q _ _ Hperm) in Hq.
      apply elem_of_union in Hin as [->%elem_of_singleton|Hin]; [done|]. apply (Hseen q); [by right|done].
Qed.

Lemma reach_loop_done fuel pending seen : pending = [] -> reach_loop fuel o pending seen = Ok seen.
Proof. intros ->. by destruct fuel. Qed.

Lemma reach_root l p es :
  etree l p es -> keys_sorted es -> reach_loop (reach_fuel o) o [p] ∅ = Ok (list_to_set (walk o l p)).
Proof.
  intros Ht Hs. pose proof (walk_fuel _ _ _ Ht Hs) as Hfuel.
  replace (reach_fuel o) with (length (walk o l p) + (reach_fuel o - length (walk o l p)))%nat by lia.
  rewrite reach_walk; [|by exists es|by eapply walk_NoDup|set_solver]. rewrite reach_loop_done by done. f_equal. set_solver.
Qed.
End Reach.

(** ** The writes of the plan *)

Definition node_writes (nodes : list (PageId * Node)) : list PageWrite :=
  (fun x => mkPageWrite x.1 (node_bytes x.2)) <$> nodes.

Lemma encode_nodes nodes :
  Forall (fun x : PageId * Node => node_fits x.2) nodes ->
  try_map (fun x => bytes ← encode_node x.2; Ok (mkPageWrite x.1 bytes)) nodes = Ok (node_writes nodes).
Proof.
  induction 1 as [|x nodes Hx Hn IH]; [done|]. cbn [try_map]. rewrite encode_node_bytes by apply Hx. cbn [mbind result_bind].
  by rewrite IH.
Qed.

Lemma node_writes_payload nodes p b :
  NoDup nodes.*1 -> batch_payload (node_writes nodes) p = Some b <-> exists n, (p, n) ∈ nodes /\ b = node_bytes n.
Proof.
  intros Hnd. revert b. induction nodes as [|[q n] nodes IH]; intros b.
  - split; [done|]. by intros (n & Hn%elem_of_nil & _).
  - apply NoDup_cons in Hnd as [Hq Hnd]. specialize (IH Hnd).
    change (node_writes ((q, n) :: nodes)) with (mkPageWrite q (node_bytes n) :: node_writes nodes).
    cbn [batch_payload w_page_id w_payload]. setoid_rewrite elem_of_cons.
    destruct (batch_payload (node_writes nodes) p) as [c|] eqn:E.
    + rewrite IH. split; [intros (m & ? & ?); eauto|]. intros (m & [[= -> ->]|Hm] & ->); [|eauto].
      destruct (proj1 (IH c) eq_refl) as (m' & Hm' & _). destruct Hq. by apply (list_elem_of_fmap_2 fst _ (q, m')).
    + destruct (Z.eqb_spec q p) as [->|Hne].
      * split; [intros [= <-]; eauto|]. intros (m & [[= ->]|Hm] & ->); [done|].
        destruct Hq. by apply (list_elem_of_fmap_2 fst _ (p, m)).
      * split; [done|]. intros (m & [[= -> ->]|Hm] & ->); [done|]. discriminate (proj2 (IH _) (ex_intro _ m (conj Hm eq_refl))).
Qed.

(** A tree of the overlay is a tree of the pages once its new nodes are
    there. *)
Lemma etree_commit base (o : gmap PageId Node) (look : PageId -> Node -> Prop) l p es :
  apart base o -> (forall q n, base q n -> look q n) -> (forall q n, q ∈ walk o l p -> o !! q = Some n -> look q n) ->
  etree base o l p es -> tree look l p es.
Proof.
  intros Ho Hb. revert p es. induction l as [|l IH]; intros p es Hw Ht; destruct (o !! p) as [n|] eqn:Hp.
  - cbn [etree] in Ht. rewrite Hp in Ht. exists n. split; [apply Hw; [left|done]|done].
  - cbn [etree] in Ht. rewrite Hp in Ht. eapply tree_mono; [exact Hb|exact Ht].
  - cbn [etree] in Ht. rewrite Hp in Ht. destruct Ht as [Hf Hh]. exists n. split; [apply Hw; [left|done]|]. split; [done|].
    assert (forall q cs, q ∈ node_children n -> etree base o l q cs -> tree look l q cs) as Hsub.
    { intros q cs Hq. apply IH. intros r m Hr. apply Hw. cbn [walk]. rewrite Hp. right. apply elem_of_concat_map. eauto. }
    destruct n as [leaf next|level c seps]; [done|]. destruct Hh as (Hl & cs & css & Hc & Hne & Hcs & ->).
    split; [done|]. exists cs, css. split; [apply Hsub; [left|done]|]. split; [done|]. split; [|done].
    apply Forall2_same_length_lookup_2; [by eapply Forall2_length|]. intros i s x Hs Hx.
    destruct (Forall2_lookup_lr _ _ _ _ _ _ Hcs Hs Hx) as [? ?]. split; [|done]. apply Hsub; [|done].
    cbn [node_children]. right. apply list_elem_of_fmap. exists s. split; [done|]. by eapply list_elem_of_lookup_2.
  - cbn [etree] in Ht. rewrite Hp in Ht. eapply tree_mono; [exact Hb|exact Ht].
Qed.

Section Plan.
Context {St : Type} `{PageStoreLaws St}.
Context (size_of_node size_of_entry size_of_separator : Z).

Abbreviation Editor := (@Editor St).
Abbreviation ed_store e := (t_store (ed_tree e)).
Abbreviation ed_apply := (ed_apply size_of_node size_of_entry size_of_separator).
Abbreviation edit_plan := (edit_plan size_of_node size_of_entry size_of_separator).

Section Base.
Context (base : PageId -> Node -> Prop).
Context (base_unique : forall p n n', base p n -> base p n' -> n = n').

Lemma finish_ok (e : Editor) m :
  ed_ok base e -> ed_holds base e m ->
  exists writes, finish e = (Ok (mkPlan (ed_root e) writes), e) /\
    (forall p b, batch_payload writes p = Some b -> exists n, overlay e !! p = Some n /\ b = node_bytes n) /\
    (forall r p n, ed_root e = Some r -> p ∈ walk (overlay e) (Z.to_nat (height r - 1)) (root_page r) ->
      overlay e !! p = Some n -> batch_payload writes p = Some (node_bytes n)) /\
    (forall w, w ∈ writes -> exists n, overlay e !! w_page_id w = Some n /\ w_payload w = node_bytes n).
Proof.
  intros He Hm. pose proof (eo_apart _ _ He) as Ho.
  assert (exists reachable : gset PageId,
    reach_loop (reach_fuel (overlay e)) (overlay e) (match ed_root e with Some r => [root_page r] | None => [] end) ∅ = Ok reachable /\
    forall r p, ed_root e = Some r -> p ∈ walk (overlay e) (Z.to_nat (height r - 1)) (root_page r) -> p ∈ reachable) as (reachable & Hr & Hin).
  { unfold ed_holds in Hm. destruct (ed_root e) as [r|]; [|by exists ∅].
    destruct Hm as (Ht & _). eexists. split; [apply (reach_root base base_unique _ Ho _ _ _ Ht (bt_list_sorted m))|].
    intros r' p [= <-] Hp. by apply elem_of_list_to_set. }
  set (nodes := bt_list (filter (fun x => x.1 ∈ reachable) (overlay e))).
  assert (forall p n, (p, n) ∈ nodes <-> overlay e !! p = Some n /\ p ∈ reachable) as Hnodes
    by (intros p n; unfold nodes; by rewrite elem_of_bt_list, map_lookup_filter_Some).
  pose proof (keys_sorted_NoDup _ (bt_list_sorted (filter (fun x => x.1 ∈ reachable) (overlay e)))) as Hnd. fold nodes in Hnd.
  exists (node_writes nodes). split_and!.
  - unfold finish. st_run. rewrite Hr. fold nodes. rewrite encode_nodes; [done|].
    apply Forall_forall. intros [p n] [Hp _]%Hnodes. by destruct (eo_used _ _ He p n Hp) as (_ & ? & _).
  - intros p b (n & [Hn _]%Hnodes & ->)%(node_writes_payload _ _ _ Hnd). eauto.
  - intros r p n Hroot Hw Hp. apply (node_writes_payload _ _ _ Hnd). exists n. split; [|done]. apply Hnodes. eauto.
  - intros w ([p n] & -> & [Hp _]%Hnodes)%list_elem_of_fmap. by exists n.
Qed.

(** What an edit has taken from the store [s] it began on. *)
Record taken (s : St) (k : Z) (e : Editor) : Prop := {
  tk_room : ps_room s - k <= ps_room (ed_store e);
  tk_read : forall p, ps_read (ed_store e) p = ps_read s p;
  tk_unused : forall p, ps_unused (ed_store e) p -> ps_unused s p;
  tk_new : forall p, overlay e !! p <> None -> ps_unused s p;
}.

Lemma taken_grows s k k' (e e' : Editor) : taken s k e -> grows base k' e e' -> taken s (k + k') e'.
Proof.
  intros [Hr Hrd Hu Hn] [_ _ _ Gr Grd Gu Gn]. split; [lia| | |].
  - intros p. by rewrite Grd.
  - auto.
  - intros p Hp. destruct (Gn p Hp); auto.
Qed.

Lemma apply_all_ok top mutations : forall (e : Editor) m,
  ed_ok base e -> ed_holds base e m -> map_fits m -> Forall mutation_ok mutations ->
  root_height (ed_root e) + Z.of_nat (length mutations) <= top -> top <= U16_MAX ->
  Z.of_nat (size m) + Z.of_nat (length mutations) <= U64_MAX ->
  Z.of_nat (length mutations) * (2 * top + 1) <= ps_room (ed_store e) ->
  exists e', for_each mutations ed_apply e = (Ok tt, e') /\ ed_ok base e' /\ ed_holds base e' (foldl apply_map m mutations) /\
    forall s k, taken s k e -> taken s (k + Z.of_nat (length mutations) * (2 * top + 1)) e'.
Proof.
  induction mutations as [|mutation mutations IH]; intros e m He Hm Hf Hmut HH HU Hs Hroom;
    [exists e; split_and!; try done; intros s k Hk; by rewrite Z.mul_0_l, Z.add_0_r|].
  apply Forall_cons in Hmut as [Hmu Hmut]. cbn [length] in *.
  assert (0 <= root_height (ed_root e)) as Hh0.
  { unfold ed_holds in Hm. destruct (ed_root e); cbn in *; [|lia]. destruct Hm as (_ & ? & _). lia. }
  assert (0 <= Z.of_nat (length mutations) * (2 * top + 1)) as Hrest by nia. rewrite Nat2Z.inj_succ, Z.mul_succ_l in Hroom.
  destruct (ed_apply_ok size_of_node size_of_entry size_of_separator base base_unique e m mutation He Hm Hf Hmu)
    as (r & e1 & Hrun & He1 & Hg1 & Hm1 & Hrh); [lia|lia|unfold apply_room; lia|].
  destruct (IH (set_ed_root r e1) (apply_map m mutation)) as (e2 & Hrun2 & He2 & Hm2 & Htk2).
  - destruct He1. by split.
  - done.
  - destruct mutation as [[k v]|k]; cbn [apply_map put_map key value].
    + intros k' v' [[<- _]|[_ Hx]]%lookup_insert_Some; [apply Hmu|by eapply Hf].
    + intros k' v' [_ Hx]%lookup_delete_Some. by eapply Hf.
  - done.
  - cbn [set_ed_root ed_root]. lia.
  - done.
  - assert (Z.of_nat (size (apply_map m mutation)) <= Z.of_nat (size m) + 1); [|lia].
    destruct mutation; apply put_map_size.
  - cbn [set_ed_root ed_tree]. pose proof (gr_room _ _ _ _ Hg1) as Hroom1. unfold apply_room in Hroom1. lia.
  - exists e2. split; [cbn [for_each]; by rewrite (ST_bind_step _ _ _ _ _ Hrun)|]. split_and!; [done|done|]. intros s k Hk.
    assert (taken s (k + (2 * top + 1)) (set_ed_root r e1)) as Hk1.
    { destruct (taken_grows s k _ e e1 Hk Hg1) as [Hr1 ? ? ?]. split; try done. cbn [set_ed_root ed_tree]. unfold apply_room in Hr1. lia. }
    apply Htk2 in Hk1. by rewrite Nat2Z.inj_succ, Z.mul_succ_l, (Z.add_comm (_ * _)), Z.add_assoc.
Qed.

(** A store on which the plan's pages are written and the base is still live
    has the edited index. *)
Lemma plan_index (e : Editor) m (writes : list PageWrite) (s : St) :
  ed_ok base e -> ed_holds base e m ->
  (forall r p n, ed_root e = Some r -> p ∈ walk (overlay e) (Z.to_nat (height r - 1)) (root_page r) ->
    overlay e !! p = Some n -> batch_payload writes p = Some (node_bytes n)) ->
  (forall p b, batch_payload writes p = Some b -> holds s p b) -> (forall p n, base p n -> live s p n) ->
  (forall p, ps_unused s p -> ps_unused (ed_store e) p) -> index_holds (live s) (ed_root e) m.
Proof.
  intros He Hm Hw Hnew Hbase Hun. pose proof (eo_apart _ _ He) as Ho. unfold ed_holds in Hm. destruct (ed_root e) as [r|]; cbn in Hm |- *.
  2: { apply bt_first_None. unfold bt_first. by rewrite Hm. }
  destruct Hm as (Ht & Hh & Hc). split; [|by split]. apply (etree_commit base (overlay e)); [done|done| |done].
  intros q n Hq Hn. destruct (eo_used _ _ He q n Hn) as (Hnu & Hfit & Hr). split; [|by intros ?%Hun].
  exists (node_bytes n). split; [apply Hnew; by eapply Hw|]. apply decode_node_bytes; apply Hfit.
Qed.

(** The state after a commit that writes the plan's pages and leaves every
    page outside the overlay as it was. *)
Lemma plan_committed (e : Editor) m (writes : list PageWrite) (s : St) :
  ed_ok base e -> ed_holds base e m ->
  (forall r p n, ed_root e = Some r -> p ∈ walk (overlay e) (Z.to_nat (height r - 1)) (root_page r) ->
    overlay e !! p = Some n -> batch_payload writes p = Some (node_bytes n)) ->
  (forall p b, batch_payload writes p = Some b -> holds s p b) ->
  (forall p b, overlay e !! p = None -> holds (ed_store e) p b -> holds s p b) ->
  (forall p, ps_unused s p -> ps_unused (ed_store e) p) ->
  (forall p n, base p n -> live s p n) /\ index_holds (live s) (ed_root e) m.
Proof.
  intros He Hm Hw Hnew Hold Hun. pose proof (eo_apart _ _ He) as Ho.
  assert (forall p n, base p n -> live s p n) as Hbase.
  { intros p n Hb. destruct (eo_base _ _ He p n Hb) as (b & Hh & Hd). split.
    - exists b. split; [|done]. apply Hold; [|done]. destruct (overlay e !! p) as [n'|] eqn:Hp; [|done]. destruct (Ho p n' n Hp Hb).
    - intros Hu. exact (eo_fresh _ _ He p n (Hun p Hu) Hb). }
  split; [done|]. by eapply plan_index.
Qed.
End Base.

Lemma live_unique (s : St) p n n' : live s p n -> live s p n' -> n = n'.
Proof. intros [H1 _] [H2 _]. exact (node_at_unique _ _ _ _ H1 H2). Qed.

Lemma edit_starts (t : TreeState (St := St)) root m :
  index_holds (live (t_store t)) root m -> cache_ok t -> ps_ok (t_store t) ->
  ed_ok (live (t_store t)) (mkEditor t root ∅) /\ ed_holds (live (t_store t)) (mkEditor t root ∅) m.
Proof.
  intros Hm Hc Hs. assert (apart (live (t_store t)) ∅) as Ha by (intros p n n' Hp; by rewrite lookup_empty in Hp).
  split; [split; cbn; auto|].
  - by intros p n [? _].
  - by intros p n Hu [_ ?].
  - intros p n Hp. by rewrite lookup_empty in Hp.
  - unfold ed_holds. cbn [ed_root overlay]. destruct root as [r|]; cbn in Hm |- *; [|by rewrite Hm, bt_list_empty].
    destruct Hm as (Ht & ? & ?). split; [by apply tree_etree|done].
Qed.

(** Page IDs that an edit of [n] mutations may use up. *)
Definition edit_room (root : option IndexRoot) (n : Z) : Z := n * (2 * (root_height root + n) + 1).

Lemma edit_plan_ok (t : TreeState (St := St)) root m mutations :
  index_holds (live (t_store t)) root m -> cache_ok t -> ps_ok (t_store t) -> map_fits m -> Forall mutation_ok mutations ->
  root_height root + blen mutations <= U16_MAX -> Z.of_nat (size m) + blen mutations <= U64_MAX ->
  edit_room root (blen mutations) <= ps_room (t_store t) ->
  exists writes e, edit_plan root mutations t = (Ok (mkPlan (ed_root e) writes), ed_tree e) /\
    ed_ok (live (t_store t)) e /\ ed_holds (live (t_store t)) e (foldl apply_map m mutations) /\
    (forall p b, batch_payload writes p = Some b -> exists n, overlay e !! p = Some n /\ b = node_bytes n) /\
    (forall r p n, ed_root e = Some r -> p ∈ walk (overlay e) (Z.to_nat (height r - 1)) (root_page r) ->
      overlay e !! p = Some n -> batch_payload writes p = Some (node_bytes n)) /\
    (forall w, w ∈ writes -> exists n, overlay e !! w_page_id w = Some n /\ w_payload w = node_bytes n) /\
    taken (t_store t) (edit_room root (blen mutations)) e.
Proof.
  intros Hm Hc Hs Hf Hmut Hh Hsz Hroom. destruct (edit_starts t root m Hm Hc Hs) as [He0 Hm0].
  destruct (apply_all_ok (live (t_store t)) (live_unique _) (root_height root + blen mutations) mutations _ m He0 Hm0 Hf Hmut)
    as (e & Hrun & He & Hme & Htk); [cbn; lia|done|done|done|].
  destruct (finish_ok (live (t_store t)) (live_unique _) e _ He Hme) as (writes & Hfin & Hw1 & Hw2 & Hw3).
  assert (taken (t_store t) (0 + blen mutations * (2 * (root_height root + blen mutations) + 1)) e) as Htk'.
  { apply Htk. split; cbn; [lia|done|done|]. intros p Hp. by rewrite lookup_empty in Hp. }
  exists writes, e. split; [|by split_and!]. unfold Tree.edit_plan. by rewrite (ST_bind_step _ _ _ _ _ Hrun), Hfin.
Qed.

End Plan.
