(* ===== verification/TreeRange.v ===== *)
(** * Range scans

    [BPlusTree::range] descends to the leaf of the start key and then walks
    the leaves through a stack of cursor frames.  The scan returns the
    entries of the range in order, up to the limit, and ends. *)
From S2P Require Import Prelude Page Order ByteLru Node Record Store Handle Tree TreeBase TreeEdit TreeFinish.
Local Open Scope Z_scope.

(** ** What a scan selects *)

Definition in_range (start end_ : option (list byte)) (k : list byte) : bool :=
  match start with Some s => negb (bytes_ltb k s) | None => true end
  && match end_ with Some e => negb (bytes_leb e k) | None => true end.

Definition selected (start end_ : option (list byte)) (es : entries) : entries :=
  filter (fun x => in_range start end_ x.1 = true) es.

Lemma selected_app start end_ es1 es2 : selected start end_ (es1 ++ es2) = selected start end_ es1 ++ selected start end_ es2.
Proof. apply filter_app. Qed.

Lemma selected_cons start end_ x es :
  selected start end_ (x :: es) = (if in_range start end_ x.1 then [x] else []) ++ selected start end_ es.
Proof. unfold selected. rewrite filter_cons. destruct (in_range start end_ x.1); by case_decide. Qed.

Lemma selected_none start end_ es : (forall x, x ∈ es -> in_range start end_ x.1 = false) -> selected start end_ es = [].
Proof.
  intros Hx. induction es as [|x es IH]; [done|]. rewrite selected_cons, (Hx x) by left. apply IH. intros y Hy. apply Hx. by right.
Qed.

Definition past_end (end_ : option (list byte)) (k : list byte) : Prop :=
  match end_ with Some e => key_le e k | None => False end.

Lemma past_end_out start end_ k : past_end end_ k -> in_range start end_ k = false.
Proof.
  unfold past_end, in_range. destruct end_ as [e|]; [|done]. rewrite bytes_leb_key. unfold key_le. intros ->. apply andb_false_r.
Qed.

Lemma past_end_mono end_ k k' : past_end end_ k -> key_lt k k' -> past_end end_ k'.
Proof. destruct end_; [|done]. cbn. intros Hk Hlt. eapply key_le_trans; [exact Hk|by apply key_lt_le]. Qed.

(** ** One leaf *)

(** The keys returned so far are below the rest. *)
Definition prev_below (prev : option (list byte)) (leaf : list IndexEntry) : Prop :=
  forall p, prev = Some p -> Forall (fun e => key_lt p (key e)) leaf.

Lemma scan_leaf_ok page_id start end_ limit leaf : forall result prev,
  keys_sorted (entry_pair <$> leaf) -> prev_below prev leaf -> blen result < limit ->
  match scan_leaf page_id start end_ limit leaf result prev with
  | Err _ => False
  | Ok (ScanMore r prev') =>
      entry_pair <$> r = (entry_pair <$> result) ++ selected start end_ (entry_pair <$> leaf) /\ blen r < limit /\
      (prev' = prev \/ exists x, x ∈ leaf /\ prev' = Some (key x))
  | Ok (ScanDone r) =>
      exists l1 l2, leaf = l1 ++ l2 /\
        entry_pair <$> r = (entry_pair <$> result) ++ selected start end_ (entry_pair <$> l1) /\ blen r <= limit /\
        (blen r = limit \/ exists x l3, l2 = x :: l3 /\ past_end end_ (key x))
  end.
Proof.
  induction leaf as [|x leaf IH]; intros result prev Hs Hprev Hlim; cbn [scan_leaf]; cbv zeta.
  { split; [by rewrite app_nil_r|]. split; [done|by left]. }
  apply leaf_sorted_cons in Hs as [Hs Hx].
  assert (forall p, prev = Some p -> key_lt p (key x)) as Hpx by (intros p Hp; specialize (Hprev p Hp); by apply Forall_inv in Hprev).
  assert (prev_below prev leaf) as Hprev' by (intros p Hp; specialize (Hprev p Hp); by apply Forall_inv_tail in Hprev).
  cbn [fmap list_fmap]. set (before := match start with Some s => bytes_ltb (key x) s | None => false end).
  destruct before eqn:Hbefore; [|set (after := match end_ with Some s => bytes_leb s (key x) | None => false end); destruct after eqn:Hafter].
  - assert (in_range start end_ (entry_pair x).1 = false) as Hout.
    { unfold in_range, before in *. cbn. destruct start; [|done]. by rewrite Hbefore. }
    specialize (IH result prev Hs Hprev' Hlim). destruct (scan_leaf _ _ _ _ leaf result prev) as [[r|r prev']|]; [| |done].
    + destruct IH as (l1 & l2 & -> & Hr & Hle & Hend). exists (x :: l1), l2. split; [done|]. cbn [fmap list_fmap].
      rewrite selected_cons, Hout. done.
    + destruct IH as (Hr & Hle & Hp'). rewrite selected_cons, Hout. split; [done|]. split; [done|].
      destruct Hp' as [?|(y & ? & ?)]; [by left|]. right. exists y. split; [by right|done].
  - exists [], (x :: leaf). split; [done|]. split; [by rewrite app_nil_r|]. split; [lia|]. right. exists x, leaf. split; [done|].
    unfold past_end, after in *. destruct end_; [|done]. unfold key_le. by rewrite <- bytes_leb_key.
  - assert (match prev with Some p => bytes_leb (key x) p | None => false end = false) as ->.
    { destruct prev as [p|]; [|done]. rewrite bytes_leb_key. specialize (Hpx p eq_refl). unfold key_leb, key_lt in *. by rewrite Hpx. }
    assert (in_range start end_ (entry_pair x).1 = true) as Hin.
    { unfold in_range, before, after in *. cbn. apply andb_true_intro. split; [destruct start|destruct end_]; try done; by rewrite ?Hbefore, ?Hafter. }
    assert (blen (result ++ [x]) = blen result + 1) as Hl1 by (rewrite length_app, Nat2Z.inj_add; done).
    rewrite Hl1. destruct (Z.eqb_spec (blen result + 1) limit) as [Heq|Hne].
    + exists [x], leaf. split; [done|]. cbn [fmap list_fmap]. rewrite selected_cons, Hin, fmap_app. split; [done|].
      rewrite length_app, Nat2Z.inj_add. cbn [length]. split; [lia|left; lia].
    + assert (blen (result ++ [x]) < limit) as Hlim' by (rewrite length_app, Nat2Z.inj_add; cbn [length]; lia).
      assert (prev_below (Some (key x)) leaf) as Hpb by (by intros p [= <-]).
      specialize (IH (result ++ [x]) (Some (key x)) Hs Hpb Hlim').
      destruct (scan_leaf _ _ _ _ leaf (result ++ [x]) _) as [[r|r prev']|]; [| |done].
      * destruct IH as (l1 & l2 & -> & Hr & Hle & Hend). exists (x :: l1), l2. split; [done|]. cbn [fmap list_fmap].
        rewrite selected_cons, Hin. rewrite fmap_app, <- app_assoc in Hr. done.
      * destruct IH as (Hr & Hle & Hp'). rewrite selected_cons, Hin. rewrite fmap_app, <- app_assoc in Hr.
        split; [done|]. split; [done|]. right. destruct Hp' as [->|(y & Hy & ->)]; [exists x; split; [left|done]|exists y; split; [by right|done]].
Qed.

(** ** The cursor *)

Section Cursor.
Context {St : Type} `{PageStoreLaws St}.
Context (size_of_node size_of_entry size_of_separator : Z).
Context (look : PageId -> Node -> Prop).
Context (look_unique : forall p n n', look p n -> look p n' -> n = n').

Abbreviation TreeState := (@TreeState St).
Abbreviation read_node := (read_node size_of_node size_of_entry size_of_separator).
Abbreviation descend_to_leaf := (descend_to_leaf size_of_node size_of_entry size_of_separator).
Abbreviation advance_to_next_leaf := (advance_to_next_leaf size_of_node size_of_entry size_of_separator).
Abbreviation range_loop := (range_loop size_of_node size_of_entry size_of_separator).

Lemma tree_overlay l p es : tree look l p es -> etree look ∅ l p es.
Proof. apply tree_etree. intros q n n' Hq. by rewrite lookup_empty in Hq. Qed.

Lemma tree_level l p es l' es' : tree look l p es -> tree look l' p es' -> l = l'.
Proof.
  intros H1%tree_overlay H2%tree_overlay. eapply (etree_level look look_unique ∅); [|done|done].
  intros q n n' Hq. by rewrite lookup_empty in Hq.
Qed.

Lemma tree_det l p es es' : tree look l p es -> tree look l p es' -> es = es'.
Proof.
  intros H1%tree_overlay H2%tree_overlay. eapply (etree_det look look_unique ∅); [|done|done].
  intros q n n' Hq. by rewrite lookup_empty in Hq.
Qed.

(** The store and cache that a scan works with. *)
Definition scan_state (t0 t : TreeState) : Prop :=
  t_store t = t_store t0 /\ cache_in look t /\ forall q m, look q m -> node_at (t_store t0) q m.

Lemma scan_read t0 t p n :
  scan_state t0 t -> look p n -> exists t', read_node p t = (Ok n, t') /\ scan_state t0 t'.
Proof.
  intros (Hs & Hc & Hl) Hn. rewrite <- Hs in Hl.
  destruct (read_node_ok size_of_node size_of_entry size_of_separator look p n t Hc Hl Hn) as (t' & Hr & Hs' & Hc').
  exists t'. split; [done|]. split; [congruence|]. split; [done|]. by rewrite <- Hs.
Qed.

(** [cursor_at frames rest]: [rest] are the entries of the leaves after the
    current one. *)
Inductive cursor_at : list CursorFrame -> entries -> Prop :=
| cursor_end : cursor_at [] []
| cursor_frame children i l css frames rest :
    Forall2 (tree look l) (drop (S i) children) css -> cursor_at frames rest ->
    cursor_at (mkCursor children i l :: frames) (concat css ++ rest).

(** The pages visited are not the root of a subtree of level [l] with
    entries [es]. *)
Definition unvisited (visited : gset PageId) (l : nat) (es : entries) : Prop :=
  forall q, q ∈ visited -> exists l' es', tree look l' q es' /\ ((l < l')%nat \/ exists x, x ∈ es' /\ x ∉ es).

(** A descent only visits ancestors of the leaf it reaches. *)
Definition visits (visited visited' : gset PageId) (leaf : entries) : Prop :=
  forall q, q ∈ visited' -> q ∈ visited \/ exists l es, tree look l q es /\ forall x, x ∈ leaf -> x ∈ es.

Lemma unvisited_page visited l p es : unvisited visited l es -> tree look l p es -> p ∉ visited.
Proof.
  intros Hv Ht Hp. destruct (Hv p Hp) as (l' & es' & Ht' & [Hl|(x & Hx & Hn)]).
  - pose proof (tree_level _ _ _ _ _ Ht Ht'). lia.
  - pose proof (tree_level _ _ _ _ _ Ht Ht') as <-. by rewrite (tree_det _ _ _ _ Ht' Ht) in Hx.
Qed.

Lemma unvisited_child visited l p es es' :
  unvisited visited (S l) es -> tree look (S l) p es -> (forall x, x ∈ es' -> x ∈ es) -> unvisited ({[p]} ∪ visited) l es'.
Proof.
  intros Hv Ht Hsub q [->%elem_of_singleton|Hq]%elem_of_union; [exists (S l), es; split; [done|left; lia]|].
  destruct (Hv q Hq) as (l' & f & Hf & [Hl|(x & Hx & Hn)]); exists l', f; (split; [done|]); [left; lia|].
  right. exists x. split; [done|]. intros Hx'. by apply Hn, Hsub.
Qed.

Definition start_ok (k : option (list byte)) (before : entries) : Prop :=
  match k with None => before = [] | Some k => keys_below before k end.

(** Where a descent goes below an internal node. *)
Lemma descend_child l level c seps es (k : option (list byte)) :
  node_holds (tree look l) (Internal level c seps) (S l) es -> keys_sorted es ->
  let children := c :: seps.*2 in
  let i := match k with None => 0%nat | Some k => partition_point (fun s => bytes_leb s.1 k) seps end in
  exists ch cs css lcs, children !! i = Some ch /\ tree look l ch cs /\ Forall2 (tree look l) (drop (S i) children) css /\
    es = concat lcs ++ cs ++ concat css /\ start_ok k (concat lcs).
Proof.
  intros (_ & cs & css & Hc & _ & Hcs & ->) Hs. cbn zeta.
  assert (Forall2 (tree look l) (c :: seps.*2) (cs :: css)) as Hall.
  { constructor; [done|]. apply Forall2_fmap_l. apply (Forall2_impl _ _ _ _ Hcs). tauto. }
  destruct k as [k|].
  - assert (Forall2 (fun (s : list byte * PageId) cs => starts_with cs s.1) seps css) as Hst
      by (apply (Forall2_impl _ _ _ _ Hcs); tauto).
    destruct (child_split seps cs css k Hst Hs) as (ci & Hci & Hb & _). set (i := partition_point _ seps) in *.
    destruct (Forall2_lookup_r _ _ _ _ _ Hall Hci) as (ch & Hch & Ht).
    exists ch, ci, (drop (S i) (cs :: css)), (take i (cs :: css)). split; [done|]. split; [done|]. split; [by apply Forall2_drop|].
    split; [|exact Hb]. change (cs ++ concat css) with (concat (cs :: css)). rewrite <- (take_drop_middle _ _ _ Hci) at 1. by rewrite concat_app.
  - exists c, cs, css, []. cbn [drop]. apply Forall2_cons_1 in Hall as [? ?]. done.
Qed.

Lemma descend_ok t0 l k : forall p es frames rest visited t,
  tree look l p es -> keys_sorted es -> unvisited visited l es -> cursor_at frames rest -> scan_state t0 t ->
  exists q leaf next frames' visited' t' before after,
    descend_to_leaf l p k (frames, visited) t = (Ok (q, (frames', visited')), t') /\ scan_state t0 t' /\
    look q (Leaf leaf next) /\ leaf <> [] /\ es = before ++ (entry_pair <$> leaf) ++ after /\ start_ok k before /\
    cursor_at frames' (after ++ rest) /\ visits visited visited' (entry_pair <$> leaf).
Proof.
  induction l as [|l IH]; intros p es frames rest visited t Ht Hs Hv Hcur Hst; pose proof (unvisited_page _ _ _ _ Hv Ht) as Hp;
    pose proof Ht as (n & Hn & Hfit & Hh); destruct (scan_read t0 t p n Hst Hn) as (t1 & Hread & Hst1);
    pose proof (node_level_holds _ _ _ _ Hh) as Hlev; cbn [Tree.descend_to_leaf];
    (destruct (decide (p ∈ visited)) as [?|_]; [done|]); rewrite (ST_bind_step _ _ _ _ _ Hread), Hlev, Z.eqb_refl; cbn [negb];
    destruct n as [leaf next|level c seps].
  - pose proof Hh as (_ & -> & Hne). exists p, leaf, next, frames, ({[p]} ∪ visited), t1, [], []. rewrite app_nil_r.
    split; [done|]. split; [done|]. split; [done|]. split; [by intros ->|]. split; [done|].
    split; [destruct k; [by intros x ?%elem_of_nil|done]|]. split; [done|].
    intros q [->%elem_of_singleton|Hq]%elem_of_union; [right; by exists 0%nat, (entry_pair <$> leaf)|by left].
  - by destruct Hh as (_ & cs & css & [] & _).
  - by destruct Hh.
  - destruct (descend_child l level c seps es k Hh Hs) as (ch & cs & css & lcs & Hch & Htc & Hcss & -> & Hstart).
    set (i := match k with None => _ | Some _ => _ end) in *. rewrite Hch. cbn [default].
    pose proof Hs as (_ & Hs2 & _)%keys_sorted_app. apply keys_sorted_app in Hs2 as (Hs2 & _ & _).
    destruct (IH ch cs (mkCursor (c :: seps.*2) i l :: frames) (concat css ++ rest) ({[p]} ∪ visited) t1)
      as (q & leaf & next & frames' & visited' & t' & before & after & Hrun & Hst' & Hq & Hne & -> & Hb & Hcur' & Hvis);
      [done|done|eapply unvisited_child; [done|done|set_solver]|by constructor|done|].
    exists q, leaf, next, frames', visited', t', (concat lcs ++ before), (after ++ concat css).
    split; [done|]. split; [done|]. split; [done|]. split; [done|]. split; [by rewrite <- !app_assoc|].
    split; [destruct k; cbn in *; [by apply keys_below_app|by rewrite Hstart, Hb]|]. split; [by rewrite <- app_assoc|].
    intros r Hr. destruct (Hvis r Hr) as [[->%elem_of_singleton|?]%elem_of_union|?]; [right|by left|by right].
    eexists (S l), _. split; [exact Ht|]. intros x Hx. rewrite !elem_of_app. tauto.
Qed.

(** The visited pages each hold an entry of [done]. *)
Definition seen (visited : gset PageId) (done : entries) : Prop :=
  forall q, q ∈ visited -> exists l es x, tree look l q es /\ x ∈ es /\ x ∈ done.

Lemma seen_unvisited visited done_ l es rest :
  seen visited done_ -> keys_sorted (done_ ++ rest) -> (forall x, x ∈ es -> x ∈ rest) -> unvisited visited l es.
Proof.
  intros Hv (_ & _ & Hlt)%keys_sorted_app Hsub q Hq. destruct (Hv q Hq) as (l' & es' & x & Ht & Hx & Hd).
  exists l', es'. split; [done|]. right. exists x. split; [done|]. intros Hx'. exact (key_lt_irrefl _ (Hlt x x Hd (Hsub x Hx'))).
Qed.

Lemma seen_visits visited visited' done_ leaf :
  seen visited done_ -> visits visited visited' leaf -> leaf <> [] -> seen visited' (done_ ++ leaf).
Proof.
  intros Hs Hv Hne q Hq. destruct (Hv q Hq) as [Hold|(l & es & Ht & Hsub)].
  - destruct (Hs q Hold) as (l & es & x & Ht & Hx & Hd). exists l, es, x. split; [done|]. split; [done|]. apply elem_of_app. by left.
  - destruct leaf as [|x leaf]; [done|]. exists l, es, x. split; [done|]. split; [apply Hsub; left|]. apply elem_of_app. right. left.
Qed.

Lemma next_leaf_ok t0 frames : forall rest visited done_ t,
  cursor_at frames rest -> keys_sorted (done_ ++ rest) -> seen visited done_ -> scan_state t0 t ->
  (rest = [] /\ advance_to_next_leaf frames visited t = (Ok None, t)) \/
  exists q leaf next frames' visited' t' after,
    advance_to_next_leaf frames visited t = (Ok (Some (q, (frames', visited'))), t') /\ scan_state t0 t' /\
    look q (Leaf leaf next) /\ leaf <> [] /\ rest = (entry_pair <$> leaf) ++ after /\ cursor_at frames' after /\
    seen visited' (done_ ++ (entry_pair <$> leaf)).
Proof.
  induction frames as [|frame frames IH]; intros rest visited done_ t Hcur Hs Hseen Hst; inversion Hcur as [|children i l css ? rest' Hch Hrest]; subst.
  - left. done.
  - cbn [Tree.advance_to_next_leaf cf_children cf_position cf_level].
    destruct (children !! S i) as [c|] eqn:Hc.
    + right. rewrite (drop_S _ _ _ Hc) in Hch. inversion Hch as [|? cs ? css' Htc Hch']; subst. cbn [concat] in Hs |- *.
      assert (keys_sorted cs) as Hscs by (apply keys_sorted_app in Hs as (_ & [[Hs _]%keys_sorted_app _]%keys_sorted_app & _); done).
      destruct (descend_ok t0 l None c cs (mkCursor children (S i) l :: frames) (concat css' ++ rest') visited t Htc Hscs)
        as (q & leaf & next & frames' & visited' & t' & before & after & Hrun & Hst' & Hq & Hne & -> & Hb & Hcur' & Hvis).
      { eapply seen_unvisited; [exact Hseen|exact Hs|]. set_solver. } { by constructor. } { done. }
      cbn in Hb. subst before. exists q, leaf, next, frames', visited', t', (after ++ concat css' ++ rest').
      split; [by rewrite (ST_bind_step _ _ _ _ _ Hrun)|]. split; [done|]. split; [done|]. split; [done|].
      split; [cbn [app]; by rewrite <- !app_assoc|]. split; [done|]. eapply seen_visits; [done|done|].
      by destruct leaf.
    + rewrite (drop_ge children (S i)) in Hch by (by apply lookup_ge_None). inversion Hch; subst. by apply (IH rest' visited done_ t).
Qed.

Lemma selected_below start end_ (es : entries) k : default [] start = k -> keys_below es k -> selected start end_ es = [].
Proof.
  intros <- Hb. apply selected_none. intros x Hx. specialize (Hb x Hx). unfold in_range. destruct start as [s|]; cbn in Hb.
  - unfold key_lt in Hb. cbn in Hb. by rewrite Hb.
  - unfold key_lt in Hb. cbn in Hb. by destruct x.1.
Qed.

Lemma range_loop_ok t0 start end_ limit fuel : forall q leaf next frames visited before after result prev t,
  look q (Leaf leaf next) -> leaf <> [] -> cursor_at frames after -> scan_state t0 t ->
  keys_sorted (before ++ (entry_pair <$> leaf) ++ after) -> seen visited (before ++ (entry_pair <$> leaf)) ->
  entry_pair <$> result = selected start end_ before -> blen result < limit ->
  (prev = None \/ exists x, x ∈ before /\ prev = Some x.1) ->
  (length leaf + length after <= fuel)%nat ->
  exists r t', range_loop fuel start end_ limit q (frames, visited) result prev t = (Ok r, t') /\ scan_state t0 t' /\
    entry_pair <$> r = take (Z.to_nat limit) (selected start end_ (before ++ (entry_pair <$> leaf) ++ after)).
Proof.
  induction fuel as [|fuel IH]; intros q leaf next frames visited before after result prev t Hq Hne Hcur Hst Hs Hseen Hres Hlim Hprev Hfuel.
  { destruct leaf; [done|]. cbn [length] in Hfuel. lia. }
  cbn [Tree.range_loop]. destruct (Z.ltb_spec (blen result) limit) as [_|]; [|lia]. cbn [negb].
  destruct (scan_read t0 t q _ Hst Hq) as (t1 & Hread & Hst1). rewrite (ST_bind_step _ _ _ _ _ Hread).
  pose proof Hs as (_ & (Hsl & Hsa & Hla)%keys_sorted_app & Hlt)%keys_sorted_app.
  assert (prev_below prev leaf) as Hpb.
  { intros p ->. destruct Hprev as [|(x & Hx & [= ->])]; [done|]. apply Forall_forall. intros y Hy.
    apply (Hlt x (entry_pair y) Hx). apply elem_of_app. left. by apply list_elem_of_fmap_2. }
  pose proof (scan_leaf_ok q start end_ limit leaf result prev Hsl Hpb Hlim) as Hscan.
  destruct (scan_leaf _ _ _ _ _ _ _) as [[r|r prev']|] eqn:Escan; [| |done]; st_run.
  - destruct Hscan as (l1 & l2 & -> & Hr & Hle & Hend). exists r, t1. split; [done|]. split; [done|].
    rewrite fmap_app, <- app_assoc, app_assoc, selected_app, selected_app, <- Hres, <- Hr. destruct Hend as [Hfull|(x & l3 & -> & Hpast)].
    + symmetry. apply take_app_length'. rewrite length_fmap. lia.
    + rewrite selected_none, app_nil_r; [|].
      * symmetry. apply take_ge. rewrite length_fmap. lia.
      * intros y Hy. apply past_end_out. rewrite fmap_app in Hsl, Hla. apply keys_sorted_app in Hsl as (_ & Hsl & _).
        cbn [fmap list_fmap] in *. apply keys_sorted_cons in Hsl as [_ Hx]. rewrite Forall_forall in Hx.
        apply elem_of_app in Hy as [[->|Hy]%elem_of_cons|Hy]; [done| |].
        -- apply (past_end_mono _ (key x)); [done|]. exact (Hx y Hy).
        -- apply (past_end_mono _ (key x)); [done|]. apply (Hla (entry_pair x) y); [|done]. apply elem_of_app. right. left.
  - destruct Hscan as (Hr & Hlt' & Hp'). rewrite Hres, <- selected_app in Hr.
    rewrite app_assoc in Hs. cbn [fst snd].
    destruct (next_leaf_ok t0 frames after visited _ t1 Hcur Hs Hseen Hst1)
      as [[-> Hadv]|(q' & leaf' & next' & frames' & visited' & t2 & after' & Hadv & Hst2 & Hq' & Hne' & -> & Hcur' & Hseen')]; rewrite Hadv.
    + exists r, t1. split; [done|]. split; [done|]. rewrite app_nil_r, <- Hr. symmetry. apply take_ge. rewrite length_fmap. lia.
    + destruct (IH q' leaf' next' frames' visited' (before ++ (entry_pair <$> leaf)) after' r prev' t2) as (r' & t' & Hrun & Hst' & Hr'); try done.
      * destruct Hp' as [->|(x & Hx & ->)].
        -- destruct Hprev as [->|(x & Hx & ->)]; [by left|]. right. exists x. split; [|done]. apply elem_of_app. by left.
        -- right. exists (entry_pair x). split; [|done]. apply elem_of_app. right. by apply list_elem_of_fmap_2.
      * rewrite length_app, length_fmap in Hfuel. destruct leaf; [done|]. cbn [length] in Hfuel. lia.
      * exists r', t'. split; [done|]. split; [done|]. by rewrite Hr', <- app_assoc.
Qed.
End Cursor.

Section Range.
Context {St : Type} `{PageStoreLaws St}.
Context (size_of_node size_of_entry size_of_separator : Z).

Abbreviation TreeState := (@TreeState St).
Abbreviation tree_range := (tree_range size_of_node size_of_entry size_of_separator).

Lemma tree_range_ok (t : TreeState) root m start end_ limit fuel :
  index_holds (live (t_store t)) (Some root) m -> cache_ok t -> 0 <= limit -> (size m <= fuel)%nat ->
  exists r t', tree_range fuel root start end_ limit t = (Ok r, t') /\ t_store t' = t_store t /\ cache_ok t' /\
    entry_pair <$> r = take (Z.to_nat limit) (selected start end_ (bt_list m)).
Proof.
  intros (Ht & Hh & _) Hc Hlim Hfuel. unfold Tree.tree_range.
  destruct (Z.eqb_spec limit 0) as [->|Hl0]; [by exists [], t|]. cbn [orb].
  destruct (match start, end_ with Some s, Some e => bytes_leb e s | _, _ => false end) eqn:Hempty.
  { exists [], t. split; [done|]. split; [done|]. split; [done|]. rewrite selected_none; [by rewrite take_nil|].
    destruct start as [s|], end_ as [e|]; try done. rewrite bytes_leb_key in Hempty. intros x _. unfold in_range.
    destruct (bytes_ltb x.1 s) eqn:E; [done|]. cbn. rewrite bytes_leb_key. apply negb_false_iff.
    apply (key_le_trans e s); [done|]. unfold key_le, key_leb. cbn. by rewrite E. }
  rewrite (ST_bind_step _ _ _ _ _ (root_level_ok root t (proj1 Hh))).
  assert (scan_state (live (t_store t)) t t) as Hst by (split; [done|]; split; [done|]; by intros q n [? _]).
  destruct (descend_ok size_of_node size_of_entry size_of_separator (live (t_store t)) (live_unique _) t _ (Some (default [] start)) _ _ [] [] ∅ t
    Ht (bt_list_sorted m)) as (q & leaf & next & frames & visited & t1 & before & after & Hrun & Hst1 & Hq & Hne & Heq & Hb & Hcur & Hvis);
    [by intros x ?%elem_of_empty|constructor|done|].
  rewrite (ST_bind_step _ _ _ _ _ Hrun). cbn [fst snd]. rewrite app_nil_r in Hcur. pose proof (bt_list_sorted m) as Hs. rewrite Heq in Hs.
  destruct (range_loop_ok size_of_node size_of_entry size_of_separator (live (t_store t)) (live_unique _) t start end_ limit fuel
    q leaf next frames visited before after [] None t1) as (r & t' & Hr & (Hs' & Hc' & _) & Hres); try done.
  - eapply seen_visits; [|exact Hvis|by destruct leaf]. by intros x ?%elem_of_empty.
  - symmetry. by eapply selected_below.
  - cbn. lia.
  - by left.
  - rewrite <- bt_list_length, Heq, !length_app, length_fmap in Hfuel. lia.
  - exists r, t'. split; [done|]. split; [done|]. split; [unfold cache_ok; by rewrite Hs'|]. by rewrite Hres, Heq.
Qed.

(** C28: A range scan returns the entries of the half-open range in key
    order, cut at the limit; it ends after at most one turn for each entry
    of the index. *)
Theorem tree_range_scans (t : TreeState) root m start end_ limit fuel :
  index_holds (live (t_store t)) (Some root) m -> cache_ok t -> 0 <= limit -> (size m <= fuel)%nat ->
  exists r t', tree_range fuel root start end_ limit t = (Ok r, t') /\ t_store t' = t_store t /\ cache_ok t' /\
    entry_pair <$> r = take (Z.to_nat limit) (selected start end_ (bt_list m)).
Proof. apply tree_range_ok. Qed.
End Range.
