(* ===== verification/TreeBuild.v ===== *)
(** * Building a generation

    [BPlusTree::plan] packs sorted entries into leaves and then into levels
    of internal nodes until one node is left.  The plan succeeds, and once
    it is committed its root holds exactly the entries. *)
From S2P Require Import Prelude Page Order ByteLru Node Record Store Handle Tree TreeBase TreeEdit TreeApply TreeFinish.
Local Open Scope Z_scope.

(** Nothing is on the pages before the build. *)
Definition no_base : PageId -> Node -> Prop := fun _ _ => False.

(** [covers o ns]: the nodes [ns] are on the pages [o]. *)
Definition covers (o : gmap PageId Node) (ns : list (PageId * Node)) : Prop := forall p n, (p, n) ∈ ns -> o !! p = Some n.

Lemma covers_app o ns1 ns2 : covers o (ns1 ++ ns2) <-> covers o ns1 /\ covers o ns2.
Proof. unfold covers. setoid_rewrite elem_of_app. naive_solver. Qed.

Lemma no_base_apart o : apart no_base o.
Proof. by intros p n n' _ ?. Qed.

(** ** Validation *)

Lemma strictly_increasing_ok es : keys_sorted (entry_pair <$> es) -> strictly_increasing es = true.
Proof.
  induction es as [|e es IH]; intros Hs; [done|]. apply leaf_sorted_cons in Hs as [Hs Hlt]. destruct es as [|e2 es]; [done|].
  cbn [strictly_increasing]. apply Forall_inv in Hlt. rewrite bytes_leb_key. unfold key_leb, key_lt in *. rewrite Hlt. by apply IH.
Qed.

Lemma strictly_increasing_sorted es : strictly_increasing es = true -> keys_sorted (entry_pair <$> es).
Proof.
  induction es as [|e es IH]; intros Hs; [constructor|]. apply leaf_sorted_cons. destruct es as [|e2 es]; [split; constructor|].
  cbn [strictly_increasing] in Hs. destruct (bytes_leb (key e2) (key e)) eqn:E; [done|]. specialize (IH Hs). split; [done|].
  assert (key_lt (key e) (key e2)) as Hlt.
  { rewrite bytes_leb_key in E. unfold key_leb, key_lt in *. by apply negb_false_iff in E. }
  apply leaf_sorted_cons in IH as [_ IH]. constructor; [done|]. apply (Forall_impl _ _ _ IH). intros x. by apply key_lt_trans.
Qed.

Lemma validate_entry_fits e : key_fits (key e) -> validate_entry e = Ok tt.
Proof.
  intros He. unfold validate_entry, leaf_entry_size, LEAF_ENTRY_OVERHEAD. rewrite (key_fits_size _ He). pose proof (key_fits_cost _ He).
  destruct (Z.ltb_spec MAX_PAGE_PAYLOAD (NODE_HEADER_SIZE + key_cost (key e))); [split_consts; lia|done].
Qed.

Lemma validate_entries_ok es :
  keys_sorted (entry_pair <$> es) -> Forall (fun e => key_fits (key e)) es -> validate_entries es = Ok tt.
Proof.
  intros Hs Hf. unfold validate_entries. rewrite strictly_increasing_ok by done. cbn [negb].
  assert (exists r, try_map validate_entry es = Ok r) as [r ->]; [|done]. clear Hs.
  induction Hf as [|e es He Hf [r IH]]; [by exists []|]. exists (tt :: r). cbn [try_map].
  by rewrite (validate_entry_fits e He), IH.
Qed.

(** ** One level *)

Definition page_range (p : PageId) : Prop := 0 <= p < NO_PAGE.

Lemma plan_leaves_ok groups : forall ids,
  length ids = length groups -> Forall page_range ids ->
  Forall (fun g => g <> [] /\ costs key g <= NODE_ROOM) groups ->
  keys_sorted (entry_pair <$> concat groups) -> Forall (fun e => is_u64 (value e)) (concat groups) ->
  exists ns chs, plan_leaves groups ids = Ok (node_writes ns, chs) /\ ns.*1 = ids /\ length chs = length groups /\
    Forall (fun x => node_fits x.2) ns /\
    forall o, covers o ns -> Forall2 (child_ok no_base o 0) chs ((fun g : list IndexEntry => entry_pair <$> g) <$> groups).
Proof.
  induction groups as [|g groups IH]; intros ids Hlen Hr Hg Hs Hu.
  - destruct ids; [|done]. exists [], []. do 4 (split; [done|]). intros o _. constructor.
  - destruct ids as [|p ids]; [done|]. injection Hlen as Hlen. apply Forall_cons in Hr as [Hp Hr]. apply Forall_cons in Hg as [[Hne Hcost] Hg].
    cbn [concat] in Hs, Hu. rewrite fmap_app in Hs. apply keys_sorted_app in Hs as (Hs & Hsr & _). apply Forall_app in Hu as [Hu Hur].
    assert (node_fits (Leaf g (head ids))) as Hfit.
    { destruct (leaf_group_fits g Hne Hs Hu Hcost) as [[? _] Hsz]. split; [|exact Hsz]. split; [done|]. split; [done|].
      destruct ids; [done|]. by apply Forall_inv in Hr. }
    destruct (IH ids Hlen Hr Hg Hsr Hur) as (ns & chs & Hplan & Hids & Hlenc & Hfits & Hchs).
    exists ((p, Leaf g (head ids)) :: ns), (mkChild (match g with e :: _ => key e | [] => [] end) p :: chs).
    split; [cbn [plan_leaves]; rewrite encode_node_bytes by apply Hfit; cbn [mbind result_bind]; by rewrite Hplan|].
    split; [cbn; by f_equal|]. split; [cbn; by f_equal|]. split; [by constructor|].
    intros o Hcov. constructor; [|apply Hchs; intros q n Hq; apply Hcov; by right].
    split; [|split; [|exact Hp]].
    + apply (etree_node no_base o 0 p (Leaf g (head ids))); [apply Hcov; left|done|]. split; [done|]. split; [done|]. by destruct g.
    + destruct g as [|x g]; [done|]. by eexists _, _.
Qed.

Lemma plan_level_ok l groups : forall ids,
  length ids = length groups -> Forall page_range ids -> Z.of_nat (S l) <= U16_MAX ->
  Forall (fun g => exists c rest, g = c :: rest /\ costs first_key rest <= NODE_ROOM) groups ->
  forall (o0 : gmap PageId Node) csss, Forall2 (Forall2 (child_ok no_base o0 l)) groups csss ->
  keys_sorted (concat (@concat (list byte * PageId) <$> csss)) ->
  exists ns chs, plan_level (Z.of_nat (S l)) groups ids = Ok (node_writes ns, chs) /\ ns.*1 = ids /\ length chs = length groups /\
    Forall (fun x => node_fits x.2) ns /\
    forall o, covers o ns -> Forall2 (Forall2 (child_ok no_base o l)) groups csss ->
      Forall2 (child_ok no_base o (S l)) chs (@concat (list byte * PageId) <$> csss).
Proof.
  induction groups as [|g groups IH]; intros ids Hlen Hr Hlev Hg o0 csss Ho0 Hs.
  - destruct ids; [|done]. exists [], []. do 4 (split; [done|]). intros o _ Ho. inversion Ho; subst. constructor.
  - destruct ids as [|p ids]; [done|]. injection Hlen as Hlen. apply Forall_cons in Hr as [Hp Hr].
    apply Forall_cons in Hg as [(c & rest & -> & Hcost) Hg]. inversion Ho0 as [|? css ? csss' Hch0 Ho0']; subst.
    cbn [fmap list_fmap concat] in Hs. apply keys_sorted_app in Hs as (Hs & Hsr & _).
    destruct (internal_group no_base o0 l (c :: rest) css Hch0 ltac:(done) Hs Hlev Hcost) as [Hfit _].
    destruct (IH ids Hlen Hr Hlev Hg o0 csss' Ho0' Hsr) as (ns & chs & Hplan & Hids & Hlenc & Hfits & Hchs).
    exists ((p, internal_node (Z.of_nat (S l)) (c :: rest)) :: ns), (group_child (c :: rest) p :: chs).
    split; [cbn [plan_level]; rewrite encode_node_bytes by apply Hfit; cbn [mbind result_bind]; by rewrite Hplan|].
    split; [cbn; by f_equal|]. split; [cbn; by f_equal|]. split; [by constructor|].
    intros o Hcov Ho. inversion Ho as [|? ? ? ? Hch Ho']; subst. cbn [fmap list_fmap].
    constructor; [|apply Hchs; [intros q n Hq; apply Hcov; by right|done]].
    destruct (internal_group no_base o l (c :: rest) css Hch ltac:(done) Hs Hlev Hcost) as [_ Hhold].
    split; [|split; [|exact Hp]].
    + apply (etree_node no_base o (S l) p _ _ (Hcov p _ ltac:(left)) Hfit Hhold).
    + inversion Hch as [|? cs ? css' (_ & (v & cs' & ->) & _) _]; subst. cbn. by eexists v, _.
Qed.

(** ** All levels *)

Section Build.
Context {St : Type} `{PageStoreLaws St}.
Context (size_of_node size_of_entry size_of_separator : Z).

Abbreviation TreeState := (@TreeState St).

(** The nodes planned so far, on pages reserved since [t0]. *)
Record planned (t0 t : TreeState) (ns : list (PageId * Node)) : Prop := {
  pl_ok : ps_ok (t_store t);
  pl_cache : t_cache t = t_cache t0;
  pl_read : forall p, ps_read (t_store t) p = ps_read (t_store t0) p;
  pl_unused : forall p, ps_unused (t_store t) p <-> ps_unused (t_store t0) p /\ p ∉ ns.*1;
  pl_fresh : forall p, p ∈ ns.*1 -> ps_unused (t_store t0) p;
  pl_range : Forall page_range ns.*1;
  pl_nodup : NoDup ns.*1;
  pl_fits : Forall (fun x => node_fits x.2) ns;
}.

Lemma covers_self (ns : list (PageId * Node)) : NoDup ns.*1 -> covers (list_to_map ns) ns.
Proof. intros Hnd p n Hp. by apply elem_of_list_to_map. Qed.

Lemma planned_start t : ps_ok (t_store t) -> planned t t [].
Proof.
  intros Ht. split; cbn; auto.
  - intros p. split; [intros Hu; split; [done|apply not_elem_of_nil]|by intros [? _]].
  - by intros p ?%elem_of_nil.
  - constructor.
Qed.

(** Reserving pages for one more level. *)
Lemma reserve_level t0 t ns n :
  planned t0 t ns -> 0 <= n <= ps_room (t_store t) ->
  exists ids t', reserve_page_ids n t = (Ok ids, t') /\ blen ids = n /\ Forall page_range ids /\
    ps_room (t_store t) - n <= ps_room (t_store t') /\
    forall ns', ns'.*1 = ids -> Forall (fun x => node_fits x.2) ns' -> planned t0 t' (ns ++ ns').
Proof.
  intros [Hok Hc Hread Hun Hfr Hrg Hnd Hfit] Hn.
  destruct (ps_reserve_ok (t_store t) n Hok Hn) as (ids & s' & Hres & Hs' & Hlen & Hnd' & Hroom' & Hin & Hun' & Hread').
  exists ids, (set_t_store s' t). split; [unfold reserve_page_ids, storage, zoom; by rewrite Hres|]. split; [done|].
  assert (Forall page_range ids) as Hids'.
  { apply Forall_forall. intros p Hp. destruct (Hin p Hp) as [Hu Hmax]. pose proof (ps_unused_range _ _ Hok Hu). split; done. }
  split; [done|].
  split; [done|]. intros ns' Hids Hfit'. split; cbn [set_t_store t_store t_cache]; auto.
  - intros p. by rewrite Hread', Hread.
  - intros p. rewrite Hun', Hun, fmap_app, Hids, elem_of_app. tauto.
  - intros p. rewrite fmap_app, Hids. intros [Hp|Hp]%elem_of_app; [by apply Hfr|]. destruct (Hin p Hp) as [[? _]%Hun _]. done.
  - rewrite fmap_app, Hids. by apply Forall_app.
  - rewrite fmap_app, Hids. apply NoDup_app. split; [done|]. split; [|done]. intros p Hp Hp'.
    destruct (Hin p Hp') as [[_ ?]%Hun _]. done.
  - by apply Forall_app.
Qed.

Lemma half_pow n g k : (2 * g <= S n)%nat -> (1 < n)%nat -> Z.of_nat n <= 2 ^ Z.of_nat (S k) -> Z.of_nat g <= 2 ^ Z.of_nat k.
Proof. intros Hg Hn Hp. rewrite Nat2Z.inj_succ, Z.pow_succ_r in Hp by lia. lia. Qed.

Lemma Forall2_concat_split {A B} (P Q : A -> B -> Prop) (groups : list (list A)) (ls : list (list B)) :
  Forall2 (Forall2 P) groups ls -> Forall2 Q (concat groups) (concat ls) -> Forall2 (Forall2 Q) groups ls.
Proof.
  induction 1 as [|g l groups ls Hg Hgs IH]; intros Hq; [constructor|]. cbn [concat] in Hq.
  apply Forall2_app_inv in Hq as [? ?]; [|by eapply Forall2_length]. constructor; auto.
Qed.

Lemma plan_levels_ok t0 fuel : forall t l chs css ns k,
  planned t0 t ns -> (length chs <= fuel)%nat -> chs <> [] ->
  (forall o, covers o ns -> Forall2 (child_ok no_base o l) chs css) -> keys_sorted (concat css) -> fits (concat css) ->
  Z.of_nat (length chs) <= 2 ^ Z.of_nat k -> Z.of_nat l + Z.of_nat k < U16_MAX ->
  2 * Z.of_nat (length chs) - 2 <= ps_room (t_store t) ->
  exists l' c ns' t', plan_levels fuel (Z.of_nat l) chs (node_writes ns) t = (Ok (Z.of_nat l', [c], node_writes ns'), t') /\
    planned t0 t' ns' /\ (forall o, covers o ns' -> child_ok no_base o l' c (concat css)) /\ Z.of_nat l' < U16_MAX.
Proof.
  induction fuel as [|fuel IH]; intros t l chs css ns k Hpl Hlen Hne Hrun Hs Hf Hk Hl Hroom; [destruct chs; [done|cbn in Hlen; lia]|].
  cbn [plan_levels]. destruct (Z.ltb_spec 1 (blen chs)) as [Hmany|Hone].
  2: { destruct chs as [|c [|? ?]]; [done| |cbn [length] in Hone; lia]. exists l, c, ns, t. split; [done|]. split; [done|]. split; [|lia].
       intros o Ho. specialize (Hrun o Ho). inversion Hrun as [|? cs ? ? Hc Hnil]; subst. inversion Hnil; subst. cbn. by rewrite app_nil_r. }
  destruct k as [|k]; [cbn in Hk; lia|].
  pose proof (Hrun _ (covers_self ns (pl_nodup _ _ _ Hpl))) as Hrun0.
  pose proof (run_fits no_base _ _ _ _ (ex_intro _ css (conj Hrun0 eq_refl)) Hf) as Hfits.
  destruct (partition_internal_ok (length chs) chs (le_n _) Hfits) as (groups & Hp & Hcat & Hg & Hgne & Hhalf & _).
  destruct (reserve_level t0 t ns (blen groups) Hpl ltac:(lia)) as (ids & t1 & Hres & Hlids & Hrange & Hroom1 & Hpl1).
  rewrite <- Hcat in Hrun0. destruct (Forall2_concat_inv _ _ _ Hrun0) as (csss & Hgs & <-). rewrite concat_concat in Hs, Hf |- *.
  destruct (plan_level_ok l groups ids ltac:(lia) Hrange ltac:(lia) Hg _ csss Hgs Hs)
    as (ns1 & chs1 & Hplan & Hids & Hlen1 & Hfit1 & Hchs1).
  assert (forall o, covers o (ns ++ ns1) -> Forall2 (child_ok no_base o (S l)) chs1 (@concat (list byte * PageId) <$> csss)) as Hrun1.
  { intros o [Ho Ho1]%covers_app. apply Hchs1; [done|]. eapply Forall2_concat_split; [exact Hgs|]. rewrite Hcat. by apply Hrun. }
  destruct (IH t1 (S l) chs1 (@concat (list byte * PageId) <$> csss) (ns ++ ns1) k (Hpl1 ns1 Hids Hfit1) ltac:(lia)) as (l' & c & ns' & t' & Hgo & Hrest);
    [destruct chs1; [by destruct groups; [destruct (Hgne Hne)|]|done]|exact Hrun1|exact Hs|exact Hf|
     rewrite Hlen1; apply (half_pow (length chs)); [done|lia|done]|lia|lia|].
  exists l', c, ns', t'. split; [|done]. rewrite (proj2 (checked_add_Some U16_MAX (Z.of_nat l) 1 (Z.of_nat (S l))) ltac:(lia)).
  st_run. rewrite Hp. cbn. rewrite Hres. cbn. rewrite Hplan. cbn [fst snd]. rewrite <- Hgo. unfold node_writes. by rewrite fmap_app.
Qed.

Lemma groups_length (groups : list (list IndexEntry)) :
  Forall (fun g => g <> [] /\ costs key g <= NODE_ROOM) groups -> (length groups <= length (concat groups))%nat.
Proof.
  induction 1 as [|g groups [Hne _] Hg IH]; [done|]. cbn [concat length]. rewrite length_app. destruct g; [done|]. cbn [length]. lia.
Qed.

Lemma concat_pairs (groups : list (list IndexEntry)) :
  concat ((fun g : list IndexEntry => entry_pair <$> g) <$> groups) = entry_pair <$> concat groups.
Proof. induction groups as [|g groups IH]; [done|]. cbn. rewrite fmap_app. unfold fmap in IH |- *. by rewrite IH. Qed.

Lemma plan_ok t es :
  ps_ok (t_store t) -> es <> [] -> keys_sorted (entry_pair <$> es) -> fits (entry_pair <$> es) ->
  Forall (fun e => is_u64 (value e)) es -> blen es <= U64_MAX -> 3 * blen es <= ps_room (t_store t) ->
  exists r ns t', plan es t = (Ok (mkPlan (Some r) (node_writes ns)), t') /\ planned t t' ns /\
    (forall o, covers o ns -> root_holds no_base o (Some r) (entry_pair <$> es) (blen es)).
Proof.
  intros Hok Hne Hs Hf Hu Hmax Hroom. pose proof Hf as Hf'. unfold fits in Hf'. rewrite Forall_fmap in Hf'.
  unfold plan. rewrite (validate_entries_ok es Hs Hf'). destruct es as [|e0 es0] eqn:Ees; [done|]. rewrite <- Ees in *.
  destruct (partition_leaves_ok (length es) es (le_n _) Hf') as (groups & Hp & Hcat & Hg & _).
  pose proof (groups_length _ Hg) as Hgl. rewrite Hcat in Hgl.
  destruct (reserve_level t t [] (blen groups) (planned_start t Hok) ltac:(lia)) as (ids & t1 & Hres & Hlids & Hrange & Hroom1 & Hpl1).
  rewrite <- Hcat in Hs, Hu. destruct (plan_leaves_ok groups ids ltac:(lia) Hrange Hg Hs Hu) as (ns1 & chs1 & Hplan & Hids & Hlen1 & Hfit1 & Hchs1).
  rewrite <- concat_pairs in Hs. rewrite <- Hcat, <- concat_pairs in Hf.
  assert (chs1 <> []) as Hc1.
  { intros ->. destruct groups; [|done]. by subst es. }
  destruct (plan_levels_ok t (length chs1) t1 0 chs1 _ ns1 64 (Hpl1 ns1 Hids Hfit1) (le_n _) Hc1 Hchs1 Hs Hf) as (l' & c & ns & t' & Hgo & Hpl & Hc & Hl');
    [unfold U64_MAX in Hmax; rewrite Hlen1; change (2 ^ Z.of_nat 64) with 18446744073709551616; lia|done|lia|].
  exists (mkRoot (child_page c) (Z.of_nat l' + 1) (blen es)), ns, t'. split; [|split; [done|]].
  - st_run. rewrite Hp. cbn. rewrite Hres. cbn. rewrite Hplan. cbn [fst snd]. change 0 with (Z.of_nat 0). rewrite Hgo.
    rewrite (proj2 (checked_add_Some U16_MAX (Z.of_nat l') 1 (Z.of_nat l' + 1)) ltac:(lia)). by rewrite Ees.
  - intros o Ho. destruct (Hc o Ho) as (Ht & _ & _). cbn [root_holds height root_page root_entries].
    rewrite concat_pairs, Hcat in Ht. replace (Z.to_nat (Z.of_nat l' + 1 - 1)) with l' by lia. split; [done|]. split; [lia|done].
Qed.

(** Page IDs that a build may use up: the leaves, and at most twice as many
    nodes above them. *)
Definition build_room (entry_count : Z) : Z := 3 * entry_count.

(** The plan of a build, for no entries too. *)
Lemma plan_planned (t : TreeState) es m :
  ps_ok (t_store t) -> bt_list m = entry_pair <$> es -> map_fits m ->
  Forall (fun e => is_u64 (value e)) es -> blen es <= U64_MAX -> build_room (blen es) <= ps_room (t_store t) ->
  exists r ns t', plan es t = (Ok (mkPlan r (node_writes ns)), t') /\ planned t t' ns /\
    (forall o, covers o ns -> root_holds no_base o r (entry_pair <$> es) (blen es)).
Proof.
  intros Hok Hm Hf Hu Hmax Hroom. destruct es as [|e es]; [exists None, [], t; split; [done|]; split; [by apply planned_start|done]|].
  destruct (plan_ok t (e :: es) Hok) as (r & ns & t' & ?); [done|rewrite <- Hm; apply bt_list_sorted|rewrite <- Hm; by apply map_fits_list|done|done|done|].
  by exists (Some r), ns, t'.
Qed.

(** A store on which the plan's pages are written has the index. *)
Lemma planned_index (t t' : TreeState) es m r ns (s : St) :
  planned t t' ns -> (forall o, covers o ns -> root_holds no_base o r (entry_pair <$> es) (blen es)) -> bt_list m = entry_pair <$> es ->
  (forall p b, batch_payload (node_writes ns) p = Some b -> holds s p b) -> (forall p, ps_unused s p -> ps_unused (t_store t') p) ->
  index_holds (live s) r m.
Proof.
  intros Hpl Hroot Hm Hnew Hun. pose proof (pl_nodup _ _ _ Hpl) as Hnd.
  specialize (Hroot _ (covers_self ns Hnd)). destruct r as [r|]; cbn in Hroot |- *.
  2: { apply bt_first_None. unfold bt_first. by rewrite Hm, Hroot. }
  destruct Hroot as (Ht & Hh & Hcount). rewrite <- Hm in Ht. split; [|split; [done|]].
  - apply (etree_commit no_base (list_to_map ns)); [apply no_base_apart|done| |done].
    intros q n _ Hq%elem_of_list_to_map; [|done]. assert (q ∈ ns.*1) as Hin by (by apply (list_elem_of_fmap_2 fst _ (q, n))). split.
    + exists (node_bytes n). pose proof (pl_fits _ _ _ Hpl) as Hfits. rewrite Forall_forall in Hfits. specialize (Hfits _ Hq).
      split; [apply Hnew, node_writes_payload; eauto|]. apply decode_node_bytes; apply Hfits.
    + by intros [_ ?]%Hun%(pl_unused _ _ _ Hpl).
  - by rewrite Hcount, <- bt_list_length, Hm, length_fmap.
Qed.

End Build.
