(* ===== verification/TreeExamples.v ===== *)
(** * The index on a concrete store

    A page store in memory meets the laws of the interface, so the theorems
    of the index apply to it; a small tree shows each of them at work. *)
From S2P Require Import Prelude Page Order ByteLru Node Record Store Handle Tree TreeBase TreeEdit TreeApply TreeFinish TreeRange TreeBuild.
Local Open Scope Z_scope.

Record MemStore := mkMem {
  mem_pages : gmap PageId (list byte);
  mem_next : Z;
}.

Definition mem_read (s : MemStore) (p : PageId) : Result (option Page) :=
  Ok ((fun b => mkPage p 1 b) <$> mem_pages s !! p).

Definition mem_reserve (n : Z) : ST MemStore StorageError (list PageId) :=
  fun s => (Ok (seqZ (mem_next s) n), mkMem (mem_pages s) (mem_next s + n)).

Definition mem_put (m : gmap PageId (list byte)) (w : PageWrite) : gmap PageId (list byte) := <[w_page_id w := w_payload w]> m.

Definition mem_commit (ws : list PageWrite) : ST MemStore StorageError (list Lsn) :=
  fun s => (Ok ((fun _ => 1) <$> ws), mkMem (foldl mem_put (mem_pages s) ws) (mem_next s)).

#[export] Instance mem_store : PageStore MemStore := {| ps_read := mem_read; ps_reserve := mem_reserve; ps_commit := mem_commit |}.

Lemma mem_put_all ws m p :
  foldl mem_put m ws !! p = match batch_payload ws p with Some b => Some b | None => m !! p end.
Proof.
  revert m. induction ws as [|w ws IH]; intros m; cbn [foldl batch_payload]; [done|]. rewrite IH.
  destruct (batch_payload ws p) as [b|]; [done|]. unfold mem_put. destruct (Z.eqb_spec (w_page_id w) p) as [->|Hne].
  - by rewrite lookup_insert_eq.
  - by rewrite lookup_insert_ne.
Qed.

Lemma batch_payload_elem ws p b : batch_payload ws p = Some b -> exists w, w ∈ ws /\ w_page_id w = p.
Proof.
  induction ws as [|w ws IH]; cbn [batch_payload]; [done|]. destruct (batch_payload ws p) as [b'|].
  - intros [= ->]. destruct (IH eq_refl) as (w' & Hw & Hp). exists w'. split; [by right|done].
  - destruct (Z.eqb_spec (w_page_id w) p) as [Hp|]; [|done]. intros _. exists w. split; [left|done].
Qed.

Lemma mem_holds s p b : holds s p b <-> mem_pages s !! p = Some b.
Proof.
  unfold holds. cbn. unfold mem_read. split.
  - intros (page & [= Hp] & <-). destruct (mem_pages s !! p); [|done]. injection Hp as <-. done.
  - intros ->. by eexists.
Qed.

#[export] Program Instance mem_laws : PageStoreLaws MemStore := {|
  ps_ok s := 0 <= mem_next s <= U64_MAX;
  ps_unused s p := mem_next s <= p;
  ps_room s := U64_MAX - mem_next s;
  ps_fits s ws := Forall (fun w => w_page_id w < mem_next s) ws;
|}.
Next Obligation. cbn. lia. Qed.
Next Obligation.
  cbn. intros s n Hs Hn. eexists _, _. split; [reflexivity|]. cbn. split; [lia|]. split; [rewrite length_seqZ; lia|].
  split; [apply NoDup_seqZ|]. split; [lia|]. split; [intros p Hp%elem_of_seqZ; lia|]. split; [|done].
  intros p. rewrite elem_of_seqZ. lia.
Qed.
Next Obligation.
  cbn. intros s ws Hs Hf. eexists _, _. split; [reflexivity|]. cbn. split; [done|]. split.
  - intros p. split; [|tauto]. intros Hp. split; [done|]. destruct (batch_payload ws p) eqn:E; [|done].
    apply batch_payload_elem in E as (w & Hw & <-). rewrite Forall_forall in Hf. specialize (Hf w Hw). lia.
  - split.
    + intros p b Hb. apply mem_holds. cbn. by rewrite mem_put_all, Hb.
    + intros p b Hn Hb%mem_holds. apply mem_holds. cbn. by rewrite mem_put_all, Hn.
Qed.

(** A tree of one leaf on page 3. *)
Definition ex_leaf : Node := Leaf [mkIndexEntry [Byte.x01] 10; mkIndexEntry [Byte.x02] 20] None.
Definition ex_map : gmap (list byte) PageId := {[ [Byte.x01] := 10; [Byte.x02] := 20 ]}.
Definition ex_tree : TreeState (St := MemStore) := mkTree (mkMem {[3 := node_bytes ex_leaf]} 4) (Some (lru_new 1000)).
Definition ex_root : IndexRoot := mkRoot 3 1 2.

Lemma ex_bt_list : bt_list ex_map = [([Byte.x01], 10); ([Byte.x02], 20)].
Proof. vm_compute. reflexivity. Qed.

Lemma ex_leaf_fits : node_fits ex_leaf.
Proof.
  split; [|by vm_compute]. split; [|split; [|done]].
  - cbn. repeat (apply keys_sorted_cons; split; [|repeat constructor]). constructor.
  - repeat (apply Forall_cons; split; [by vm_compute|]). constructor.
Qed.

Lemma ex_holds : index_holds (live (t_store ex_tree)) (Some ex_root) ex_map.
Proof.
  split; [|split; [done|by vm_compute]]. cbn [height ex_root root_page]. exists ex_leaf. split; [|split; [apply ex_leaf_fits|]].
  - split; [|cbn; lia]. exists (node_bytes ex_leaf). split; [by apply mem_holds|]. apply decode_node_bytes; apply ex_leaf_fits.
  - rewrite ex_bt_list. done.
Qed.

Lemma ex_cache : cache_ok ex_tree.
Proof. intros c p n [= <-] (e & Hp & _). cbn in Hp. by rewrite lookup_empty in Hp. Qed.

Lemma ex_fits : map_fits ex_map.
Proof.
  intros k v Hk%elem_of_bt_list. rewrite ex_bt_list in Hk.
  repeat (apply elem_of_cons in Hk as [[= -> ->]|Hk]; [by vm_compute|]). by apply elem_of_nil in Hk.
Qed.

(** The key is found; a missing one is not. *)
Lemma tree_get_finds_witness :
  (exists t', tree_get 56 32 32 ex_root [Byte.x02] ex_tree = (Ok (Some 20), t')) /\
  (exists t', tree_get 56 32 32 ex_root [Byte.x05] ex_tree = (Ok None, t')).
Proof.
  destruct (tree_get_finds 56 32 32 ex_tree ex_root ex_map [Byte.x02] ex_holds ex_cache) as (t1 & H1 & _).
  destruct (tree_get_finds 56 32 32 ex_tree ex_root ex_map [Byte.x05] ex_holds ex_cache) as (t2 & H2 & _).
  split; [exists t1; exact H1|exists t2; exact H2].
Defined.

Lemma tree_range_scans_witness :
  exists r t', tree_range 56 32 32 5 ex_root (Some [Byte.x02]) None 9 ex_tree = (Ok r, t') /\ entry_pair <$> r = [([Byte.x02], 20)].
Proof.
  destruct (tree_range_scans 56 32 32 ex_tree ex_root ex_map (Some [Byte.x02]) None 9 5 ex_holds ex_cache) as (r & t' & Hr & _ & _ & He);
    [lia|vm_compute; lia|].
  exists r, t'. split; [exact Hr|]. rewrite He, ex_bt_list. reflexivity.
Defined.

(** An insertion and a deletion. *)
Definition ex_mutations : list IndexMutation := [Upsert (mkIndexEntry [Byte.x05] 50); Delete [Byte.x01]].

Lemma ex_mutations_ok : Forall mutation_ok ex_mutations.
Proof. repeat (apply Forall_cons; split; [by vm_compute|]). constructor. Qed.

Lemma ex_size : size ex_map = 2%nat.
Proof. vm_compute. reflexivity. Qed.


Definition ex_entries : list IndexEntry := [mkIndexEntry [Byte.x01] 10; mkIndexEntry [Byte.x02] 20].

