(* ===== verification/Token.v ===== *)
(** * Characters, spans and tokens

    Models [src/syntax/src/token.rs], [src/syntax/src/error.rs] and the spans
    of [src/syntax/src/ast.rs].  A [char] is its Unicode scalar value and a
    [&str] the list of its characters; byte offsets count UTF-8 lengths.  The
    Unicode tables behind [char::is_alphabetic] and the like are the class
    [CharTables], which fixes what they say about ASCII. *)
From S2P Require Import Prelude.
Local Open Scope Z_scope.

(** ** Characters and strings *)

Abbreviation char := Z.
Abbreviation str := (list char).

Definition is_char (c : char) : Prop := 0 <= c < 1114112.

(** A literal of the source. *)
Definition chars (s : string) : str := (fun b => byte_to_Z b) <$> bytes_of_string s.

(** [char::len_utf8]. *)
Definition len_utf8 (c : char) : Z :=
  if c <? 128 then 1 else if c <? 2048 then 2 else if c <? 65536 then 3 else 4.

(** [str::len]. *)
Fixpoint str_len (s : str) : Z := match s with [] => 0 | c :: s => len_utf8 c + str_len s end.

Definition is_ascii_digit (c : char) : bool := (48 <=? c) && (c <=? 57).
Definition is_ascii_upper (c : char) : bool := (65 <=? c) && (c <=? 90).
Definition is_ascii_lower (c : char) : bool := (97 <=? c) && (c <=? 122).

Definition to_ascii_uppercase (s : str) : str := (fun c => if is_ascii_lower c then c - 32 else c) <$> s.
Definition to_ascii_lowercase (s : str) : str := (fun c => if is_ascii_upper c then c + 32 else c) <$> s.

Definition is_ascii_whitespace (c : char) : bool := ((9 <=? c) && (c <=? 13)) || (c =? 32).

Class CharTables := {
  is_alphabetic : char -> bool;
  is_alphanumeric : char -> bool;
  is_whitespace : char -> bool;
  to_lowercase : str -> str;
  ascii_alphabetic : forall c, 0 <= c < 128 -> is_alphabetic c = is_ascii_upper c || is_ascii_lower c;
  ascii_alphanumeric : forall c, 0 <= c < 128 ->
    is_alphanumeric c = is_ascii_digit c || is_ascii_upper c || is_ascii_lower c;
  ascii_whitespace : forall c, 0 <= c < 128 -> is_whitespace c = is_ascii_whitespace c;
  ascii_lowercase : forall s, Forall (fun c => 0 <= c < 128) s -> to_lowercase s = to_ascii_lowercase s;
  alphabetic_alphanumeric : forall c, is_alphabetic c = true -> is_alphanumeric c = true;
  alphanumeric_not_whitespace : forall c, is_alphanumeric c = true -> is_whitespace c = false;
}.

(** Tables that know ASCII only, to evaluate the model with. *)
Definition ascii_alnum (c : char) : bool := is_ascii_digit c || is_ascii_upper c || is_ascii_lower c.

Lemma ascii_alnum_not_whitespace c : ascii_alnum c = true -> is_ascii_whitespace c = false.
Proof. unfold ascii_alnum, is_ascii_digit, is_ascii_upper, is_ascii_lower, is_ascii_whitespace. lia. Qed.

Lemma ascii_alpha_alnum c : is_ascii_upper c || is_ascii_lower c = true -> ascii_alnum c = true.
Proof. unfold ascii_alnum. destruct (is_ascii_digit c); [done|]. by destruct (is_ascii_upper c). Qed.

Definition ascii_tables : CharTables := {|
  is_alphabetic := fun c => is_ascii_upper c || is_ascii_lower c;
  is_alphanumeric := ascii_alnum;
  is_whitespace := is_ascii_whitespace;
  to_lowercase := to_ascii_lowercase;
  ascii_alphabetic := fun _ _ => eq_refl;
  ascii_alphanumeric := fun _ _ => eq_refl;
  ascii_whitespace := fun _ _ => eq_refl;
  ascii_lowercase := fun _ _ => eq_refl;
  alphabetic_alphanumeric := ascii_alpha_alnum;
  alphanumeric_not_whitespace := ascii_alnum_not_whitespace;
|}.

(** ** Spans and errors *)

Record Span := mkSpan {
  sp_start : Z;
  sp_end : Z;
}.

Definition join (a b : Span) : Span := mkSpan (sp_start a) (sp_end b).

(** ** Keywords *)

Inductive Keyword :=
| KAnd | KAs | KAsc | KBigint | KBool | KBoolean | KBegin | KBy | KCommit | KCreate | KDelete | KDesc
| KDouble | KDrop | KExists | KFalse | KFloat | KFrom | KIf | KInsert | KInt | KInteger | KInto | KIndex
| KIs | KKey | KLimit | KNot | KNull | KOn | KOr | KOrder | KPrimary | KRollback | KSelect | KSet | KStart
| KTable | KText | KTrue | KTransaction | KUnique | KUpdate | KValues | KVarchar | KWhere | KWork.

#[export] Instance Keyword_eq_dec : EqDecision Keyword.
Proof. solve_decision. Defined.

(** The arms of [Keyword::from_identifier]. *)
Definition keyword_table : list (string * Keyword) := [
  ("AND", KAnd); ("AS", KAs); ("ASC", KAsc); ("BIGINT", KBigint); ("BOOL", KBool); ("BOOLEAN", KBoolean);
  ("BEGIN", KBegin); ("BY", KBy); ("COMMIT", KCommit); ("CREATE", KCreate); ("DELETE", KDelete); ("DESC", KDesc);
  ("DOUBLE", KDouble); ("DROP", KDrop); ("EXISTS", KExists); ("FALSE", KFalse); ("FLOAT", KFloat); ("FROM", KFrom);
  ("IF", KIf); ("INSERT", KInsert); ("INT", KInt); ("INTEGER", KInteger); ("INTO", KInto); ("INDEX", KIndex);
  ("IS", KIs); ("KEY", KKey); ("LIMIT", KLimit); ("NOT", KNot); ("NULL", KNull); ("ON", KOn); ("OR", KOr);
  ("ORDER", KOrder); ("PRIMARY", KPrimary); ("ROLLBACK", KRollback); ("SELECT", KSelect); ("SET", KSet);
  ("START", KStart); ("TABLE", KTable); ("TEXT", KText); ("TRUE", KTrue); ("TRANSACTION", KTransaction);
  ("UNIQUE", KUnique); ("UPDATE", KUpdate); ("VALUES", KValues); ("VARCHAR", KVarchar); ("WHERE", KWhere);
  ("WORK", KWork)]%string.

Fixpoint keyword_lookup (s : str) (table : list (string * Keyword)) : option Keyword :=
  match table with
  | [] => None
  | (name, k) :: table => if bool_decide (s = chars name) then Some k else keyword_lookup s table
  end.

Definition from_identifier (identifier : str) : option Keyword :=
  keyword_lookup (to_ascii_uppercase identifier) keyword_table.

(** [Display for Keyword]: the variant's name in upper case. *)
Definition keyword_name (k : Keyword) : str :=
  match list_find (fun x => x.2 = k) keyword_table with
  | Some (_, (name, _)) => chars name
  | None => []
  end.

(** ** Tokens *)

Inductive TokenKind :=
| TKeyword (k : Keyword)
| TIdentifier (value : str) (quoted : bool)
| TNumber (raw : str)
| TString (value : str)
| TComma | TDot | TStar | TLeftParen | TRightParen | TSemicolon
| TEqual | TNotEqual | TLessThan | TLessThanOrEqual | TGreaterThan | TGreaterThanOrEqual
| TPlus | TMinus | TSlash | TPercent | TEof.

#[export] Instance TokenKind_eq_dec : EqDecision TokenKind.
Proof. solve_decision. Defined.

Record Token := mkToken {
  kind : TokenKind;
  span : Span;
}.

(** The messages of the syntax errors, one constructor each. *)
Inductive syntax_fault :=
| ExpectedEqualAfterBang
| UnexpectedCharacter (c : char)
| UnterminatedBlockComment
| UnterminatedQuotedIdentifier
| UnterminatedString
| ExpectedExponentDigits
| ExpectedStatement
| ExpectedOneStatement
| ExpectedSemicolon
| ExpectedStatementKeyword
| ExpectedIndexAfterUnique
| ExpectedTableOrIndexAfterCreate
| ExpectedTableOrIndexAfterDrop
| TableWithoutColumns
| DuplicatePrimaryKey
| DuplicateNullConstraint
| ConflictingNullConstraint
| DuplicateUniqueConstraint
| ExpectedVarcharLength
| VarcharLengthOutOfRange
| VarcharLengthZero
| ExpectedDataType
| ExpectedBeginOrStart
| EmptyValuesRow
| ExpectedLimitInteger
| LimitNotInteger
| LimitOutOfRange
| NestingLimitExceeded
| FloatLiteralOutOfRange
| IntegerLiteralOutOfRange
| ExpectedExpression
| ExpectedIdentifier
| ExpectedKeyword (k : Keyword)
| ExpectedPunctuation (what : string)
(** Not a message of the program: a loop of the model ran out of fuel, which
    [parse_sql_ends] shows never happens. *)
| FuelExhausted.

Record SyntaxError := mkSyntaxError {
  message : syntax_fault;
  err_span : Span;
}.

Abbreviation SResult := (result SyntaxError).
