(* ===== verification/Lexer.v ===== *)
(** * The lexer

    Models [src/syntax/src/lexer.rs].  The lexer's state is what remains of
    the text and the byte offset of its first character. *)
From S2P Require Import Prelude Token.
Local Open Scope Z_scope.

Section Lexer.
Context `{CharTables}.

Record Lexer := mkLexer {
  remaining : str;
  cursor : Z;
}.

Definition lexer_new (sql : str) : Lexer := mkLexer sql 0.

(** [self.sql.len()]. *)
Definition sql_len (l : Lexer) : Z := cursor l + str_len (remaining l).

Definition peek_char (l : Lexer) : option char := head (remaining l).
Definition peek_second_char (l : Lexer) : option char := remaining l !! 1%nat.

Definition lex_advance (l : Lexer) : Lexer :=
  match remaining l with
  | c :: r => mkLexer r (cursor l + len_utf8 c)
  | [] => l
  end.

Definition peek_is (p : char -> bool) (o : option char) : bool := match o with Some c => p c | None => false end.

Definition consume_char (expected : char) (l : Lexer) : bool * Lexer :=
  if peek_is (Z.eqb expected) (peek_char l) then (true, lex_advance l) else (false, l).

(** [while self.peek_char().is_some_and(p) { self.advance(); }] *)
Fixpoint skip_while (p : char -> bool) (r : str) (at_ : Z) : Lexer :=
  match r with
  | c :: r' => if p c then skip_while p r' (at_ + len_utf8 c) else mkLexer r at_
  | [] => mkLexer [] at_
  end.

Definition advance_while (p : char -> bool) (l : Lexer) : Lexer := skip_while p (remaining l) (cursor l).

Definition consume_ascii_digits (l : Lexer) : Lexer := advance_while is_ascii_digit l.

(** [&self.sql[start..self.cursor]]: what was read from [a] to [b]. *)
Definition text_between (a b : Lexer) : str := take (length (remaining a) - length (remaining b)) (remaining a).

Definition starts_with2 (c d : char) (r : str) : bool :=
  match r with c' :: d' :: _ => (c' =? c) && (d' =? d) | _ => false end.

(** The characters that the lexer tests for. *)
Definition c_newline : char := 10.
Definition c_bang : char := 33.
Definition c_dquote : char := 34.
Definition c_dollar : char := 36.
Definition c_percent : char := 37.
Definition c_quote : char := 39.
Definition c_lparen : char := 40.
Definition c_rparen : char := 41.
Definition c_star : char := 42.
Definition c_plus : char := 43.
Definition c_comma : char := 44.
Definition c_minus : char := 45.
Definition c_dot : char := 46.
Definition c_slash : char := 47.
Definition c_semicolon : char := 59.
Definition c_less : char := 60.
Definition c_equal : char := 61.
Definition c_greater : char := 62.
Definition c_underscore : char := 95.

Definition is_identifier_start (c : char) : bool := (c =? c_underscore) || is_alphabetic c.
Definition is_identifier_continue (c : char) : bool := (c =? c_underscore) || (c =? c_dollar) || is_alphanumeric c.

(** ** Trivia *)

(** The loop of [skip_block_comment], after the opening mark. *)
Fixpoint block_comment (r : str) (at_ depth : Z) : option Lexer :=
  match r with
  | [] => None
  | c :: r1 =>
      match r1 with
      | d :: r2 =>
          if (c =? c_slash) && (d =? c_star) then block_comment r2 (at_ + 2) (saturating_add U32_MAX depth 1)
          else if (c =? c_star) && (d =? c_slash) then
            if depth - 1 =? 0 then Some (mkLexer r2 (at_ + 2)) else block_comment r2 (at_ + 2) (depth - 1)
          else block_comment r1 (at_ + len_utf8 c) depth
      | [] => block_comment r1 (at_ + len_utf8 c) depth
      end
  end.

Definition skip_block_comment (l : Lexer) : SResult Lexer :=
  ok_or (block_comment (drop 2 (remaining l)) (cursor l + 2) 1)
        (mkSyntaxError UnterminatedBlockComment (mkSpan (cursor l) (sql_len l))).

(** The fuel bounds the comments; each has two characters at least. *)
Fixpoint skip_trivia (fuel : nat) (l : Lexer) : SResult Lexer :=
  let l := advance_while is_whitespace l in
  match fuel with
  | O => Ok l
  | S fuel =>
      if starts_with2 c_minus c_minus (remaining l) then
        skip_trivia fuel (skip_while (fun c => negb (c =? c_newline)) (drop 2 (remaining l)) (cursor l + 2))
      else if starts_with2 c_slash c_star (remaining l) then
        l ← skip_block_comment l; skip_trivia fuel l
      else Ok l
  end.

(** ** Tokens *)

Definition lex_identifier (l : Lexer) : Token * Lexer :=
  let l' := advance_while is_identifier_continue (lex_advance l) in
  let value := text_between l l' in
  (mkToken (match from_identifier value with
            | Some k => TKeyword k
            | None => TIdentifier (to_lowercase value) false
            end)
           (mkSpan (cursor l) (cursor l')), l').

(** The loop of [lex_quoted_identifier] and [lex_string], after the opening
    quote: a doubled quote stands for one. *)
Fixpoint lex_quoted (q : char) (r : str) (at_ : Z) (value : str) : option (str * Lexer) :=
  match r with
  | [] => None
  | c :: r1 =>
      if c =? q then
        match r1 with
        | d :: r2 => if d =? q then lex_quoted q r2 (at_ + len_utf8 c + len_utf8 d) (value ++ [q])
                     else Some (value, mkLexer r1 (at_ + len_utf8 c))
        | [] => Some (value, mkLexer r1 (at_ + len_utf8 c))
        end
      else lex_quoted q r1 (at_ + len_utf8 c) (value ++ [c])
  end.

Definition lex_quoted_identifier (l : Lexer) : SResult (Token * Lexer) :=
  let start := lex_advance l in
  match lex_quoted c_dquote (remaining start) (cursor start) [] with
  | None => Err (mkSyntaxError UnterminatedQuotedIdentifier (mkSpan (cursor l) (sql_len l)))
  | Some (value, l') => Ok (mkToken (TIdentifier value true) (mkSpan (cursor l) (cursor l')), l')
  end.

Definition lex_string (l : Lexer) : SResult (Token * Lexer) :=
  let start := lex_advance l in
  match lex_quoted c_quote (remaining start) (cursor start) [] with
  | None => Err (mkSyntaxError UnterminatedString (mkSpan (cursor l) (sql_len l)))
  | Some (value, l') => Ok (mkToken (TString value) (mkSpan (cursor l) (cursor l')), l')
  end.

Definition is_exponent (c : char) : bool := (c =? 101) || (c =? 69).
Definition is_sign (c : char) : bool := (c =? c_plus) || (c =? c_minus).

Definition lex_fraction (l : Lexer) : Lexer :=
  if peek_is (Z.eqb c_dot) (peek_char l) && peek_is is_ascii_digit (peek_second_char l)
  then consume_ascii_digits (lex_advance l) else l.

Definition lex_exponent (start : Z) (l : Lexer) : SResult Lexer :=
  if peek_is is_exponent (peek_char l) then
    let l := lex_advance l in
    let l := if peek_is is_sign (peek_char l) then lex_advance l else l in
    let l' := consume_ascii_digits l in
    if cursor l' =? cursor l then Err (mkSyntaxError ExpectedExponentDigits (mkSpan start (cursor l')))
    else Ok l'
  else Ok l.

Definition lex_number (l : Lexer) : SResult (Token * Lexer) :=
  l' ← lex_exponent (cursor l) (lex_fraction (consume_ascii_digits l));
  Ok (mkToken (TNumber (text_between l l')) (mkSpan (cursor l) (cursor l')), l').

(** A token of one character. *)
Definition single (c : char) : option TokenKind :=
  if c =? c_comma then Some TComma
  else if c =? c_dot then Some TDot
  else if c =? c_star then Some TStar
  else if c =? c_lparen then Some TLeftParen
  else if c =? c_rparen then Some TRightParen
  else if c =? c_semicolon then Some TSemicolon
  else if c =? c_equal then Some TEqual
  else if c =? c_plus then Some TPlus
  else if c =? c_minus then Some TMinus
  else if c =? c_slash then Some TSlash
  else if c =? c_percent then Some TPercent
  else None.

Definition next_token (l : Lexer) : SResult (Token * Lexer) :=
  let start := cursor l in
  let finish (k : TokenKind) (l' : Lexer) := Ok (mkToken k (mkSpan start (cursor l')), l') in
  match peek_char l with
  | None => Ok (mkToken TEof (mkSpan start start), l)
  | Some c =>
      match single c with
      | Some k => finish k (lex_advance l)
      | None =>
          if c =? c_less then
            let l := lex_advance l in
            let '(eq, l1) := consume_char c_equal l in
            if eq then finish TLessThanOrEqual l1
            else let '(gt, l1) := consume_char c_greater l in
                 if gt then finish TNotEqual l1 else finish TLessThan l1
          else if c =? c_greater then
            let l := lex_advance l in
            let '(eq, l1) := consume_char c_equal l in
            if eq then finish TGreaterThanOrEqual l1 else finish TGreaterThan l1
          else if c =? c_bang then
            let l := lex_advance l in
            let '(eq, l1) := consume_char c_equal l in
            if eq then finish TNotEqual l1
            else Err (mkSyntaxError ExpectedEqualAfterBang (mkSpan start (cursor l1)))
          else if c =? c_quote then lex_string l
          else if c =? c_dquote then lex_quoted_identifier l
          else if is_ascii_digit c then lex_number l
          else if is_identifier_start c then Ok (lex_identifier l)
          else Err (mkSyntaxError (UnexpectedCharacter c) (mkSpan start (cursor (lex_advance l))))
      end
  end.

(** The fuel bounds the tokens; each has one character at least. *)
Fixpoint tokenize_loop (fuel : nat) (l : Lexer) (tokens : list Token) : SResult (list Token) :=
  l ← skip_trivia (S (length (remaining l))) l;
  match remaining l, fuel with
  | [], _ => Ok (tokens ++ [mkToken TEof (mkSpan (cursor l) (cursor l))])
  | _ :: _, O => Ok tokens
  | _ :: _, S fuel =>
      step ← next_token l;
      let '(token, l) := step in
      tokenize_loop fuel l (tokens ++ [token])
  end.

Definition tokenize (sql : str) : SResult (list Token) := tokenize_loop (length sql) (lexer_new sql) [].
End Lexer.
