(* ===== verification/LexerFacts.v ===== *)
(** * What the lexer guarantees

    Tokenizing always ends, and the spans it reports tile the text in
    order; printed tokens are read back as they were. *)
From S2P Require Import Prelude Token Lexer.
Local Open Scope Z_scope.

Lemma len_utf8_pos c : 1 <= len_utf8 c.
Proof. unfold len_utf8. repeat case_match; lia. Qed.

Lemma str_len_nonneg s : 0 <= str_len s.
Proof. induction s as [|c s IH]; cbn; [lia|]. pose proof (len_utf8_pos c). lia. Qed.

Lemma str_len_app s1 s2 : str_len (s1 ++ s2) = str_len s1 + str_len s2.
Proof. induction s1; cbn; lia. Qed.

Lemma str_len_pos s : s <> [] -> 1 <= str_len s.
Proof. destruct s as [|c s]; [done|]. intros _. cbn. pose proof (len_utf8_pos c). pose proof (str_len_nonneg s). lia. Qed.

Section Facts.
Context `{CharTables}.

(** ** Moving through the text *)

(** [reads text l l']: the lexer went from [l] to [l'] over [text]. *)
Definition reads (text : str) (l l' : Lexer) : Prop :=
  remaining l = text ++ remaining l' /\ cursor l' = cursor l + str_len text.

Definition moves (l l' : Lexer) : Prop := exists text, reads text l l'.
Definition moves_on (l l' : Lexer) : Prop := exists text, text <> [] /\ reads text l l'.

Lemma reads_trans t1 t2 l1 l2 l3 : reads t1 l1 l2 -> reads t2 l2 l3 -> reads (t1 ++ t2) l1 l3.
Proof. intros [H1 H2] [H3 H4]. split; [by rewrite H1, H3, app_assoc|rewrite str_len_app; lia]. Qed.

#[export] Instance moves_preorder : PreOrder moves.
Proof.
  split.
  - intros l. exists []. split; [done|cbn; lia].
  - intros l1 l2 l3 [t1 H1] [t2 H2]. eexists. by eapply reads_trans.
Qed.

Lemma moves_on_moves l l' : moves_on l l' -> moves l l'.
Proof. intros (t & _ & Ht). by exists t. Qed.

Lemma moves_on_l l1 l2 l3 : moves_on l1 l2 -> moves l2 l3 -> moves_on l1 l3.
Proof.
  intros (t1 & Hne & H1) [t2 H2]. exists (t1 ++ t2). split; [by destruct t1|by eapply reads_trans].
Qed.

Lemma moves_on_r l1 l2 l3 : moves l1 l2 -> moves_on l2 l3 -> moves_on l1 l3.
Proof.
  intros [t1 H1] (t2 & Hne & H2). exists (t1 ++ t2). split; [|by eapply reads_trans]. by destruct t1, t2.
Qed.

Lemma moves_sql_len l l' : moves l l' -> sql_len l' = sql_len l.
Proof. intros (t & Hr & Hc). unfold sql_len. rewrite Hr, str_len_app. lia. Qed.

Lemma moves_cursor l l' : moves l l' -> cursor l <= cursor l' <= sql_len l.
Proof.
  intros Hm. pose proof (moves_sql_len _ _ Hm) as Hl. destruct Hm as (t & Hr & Hc). unfold sql_len in *.
  pose proof (str_len_nonneg t). pose proof (str_len_nonneg (remaining l')). lia.
Qed.

Lemma moves_on_cursor l l' : moves_on l l' -> cursor l < cursor l'.
Proof. intros (t & Hne & Hr & Hc). pose proof (str_len_pos t Hne). lia. Qed.

Lemma moves_on_shorter l l' : moves_on l l' -> (length (remaining l') < length (remaining l))%nat.
Proof. intros (t & Hne & Hr & _). rewrite Hr, length_app. destruct t; [done|]. cbn. lia. Qed.

Lemma moves_shorter l l' : moves l l' -> (length (remaining l') <= length (remaining l))%nat.
Proof. intros (t & Hr & _). rewrite Hr, length_app. lia. Qed.

Lemma advance_moves l : moves l (lex_advance l).
Proof.
  unfold lex_advance. destruct (remaining l) as [|c r] eqn:Hr; [reflexivity|]. exists [c]. split; [by rewrite Hr|]. cbn. lia.
Qed.

Lemma advance_moves_on l c : peek_char l = Some c -> moves_on l (lex_advance l).
Proof.
  unfold peek_char, lex_advance. destruct (remaining l) as [|c' r] eqn:Hr; [done|]. intros _. exists [c']. split; [done|].
  split; [by rewrite Hr|]. cbn. lia.
Qed.

Lemma skip_while_moves p r at_ : moves (mkLexer r at_) (skip_while p r at_).
Proof.
  revert at_. induction r as [|c r IH]; intros at_; cbn [skip_while]; [reflexivity|]. destruct (p c); [|reflexivity].
  etransitivity; [|apply IH]. exists [c]. split; [done|]. cbn. lia.
Qed.

Lemma advance_while_moves p l : moves l (advance_while p l).
Proof. destruct l. apply skip_while_moves. Qed.

(** Two characters that were just compared with ASCII marks. *)
Lemma drop2_moves_on c d l :
  c < 128 -> d < 128 -> starts_with2 c d (remaining l) = true -> moves_on l (mkLexer (drop 2 (remaining l)) (cursor l + 2)).
Proof.
  intros Hc Hd. destruct l as [[|c' [|d' r]] at_]; cbn; [done|done|]. intros [->%Z.eqb_eq ->%Z.eqb_eq]%andb_true_iff.
  exists [c; d]. split; [done|]. split; [done|]. cbn. unfold len_utf8.
  rewrite (proj2 (Z.ltb_lt c 128) Hc), (proj2 (Z.ltb_lt d 128) Hd). lia.
Qed.

Lemma block_comment_moves n r at_ depth l' :
  (length r <= n)%nat -> block_comment r at_ depth = Some l' -> moves (mkLexer r at_) l'.
Proof.
  revert r at_ depth. induction n as [|n IH]; intros [|c [|d r]] at_ depth Hn Hb; cbn [length] in Hn; try lia; cbn [block_comment] in Hb; try done.
  assert (forall e1 e2, (c =? e1) && (d =? e2) = true -> e1 < 128 -> e2 < 128 -> moves (mkLexer (c :: d :: r) at_) (mkLexer r (at_ + 2))) as Htwo.
  { intros e1 e2 He H1 H2. apply moves_on_moves. exact (drop2_moves_on e1 e2 (mkLexer (c :: d :: r) at_) H1 H2 He). }
  destruct ((c =? c_slash) && (d =? c_star)) eqn:E1; [|destruct ((c =? c_star) && (d =? c_slash)) eqn:E2].
  - etransitivity; [by apply (Htwo c_slash c_star)|]. eapply IH; [|exact Hb]. lia.
  - assert (moves (mkLexer (c :: d :: r) at_) (mkLexer r (at_ + 2))) as Hm by (by apply (Htwo c_star c_slash)).
    destruct (depth - 1 =? 0); [by injection Hb as <-|]. etransitivity; [exact Hm|]. eapply IH; [|exact Hb]. lia.
  - etransitivity; [exact (advance_moves (mkLexer (c :: d :: r) at_))|]. eapply IH; [|exact Hb]. cbn [length]. lia.
Qed.

Lemma skip_block_comment_moves l l' :
  starts_with2 c_slash c_star (remaining l) = true -> skip_block_comment l = Ok l' -> moves_on l l'.
Proof.
  intros Hs Hb. unfold skip_block_comment in Hb. destruct (block_comment _ _ _) as [m|] eqn:E; [|done]. injection Hb as <-.
  eapply moves_on_l; [by apply (drop2_moves_on c_slash c_star)|]. by eapply block_comment_moves.
Qed.

(** ** Trivia *)

(** Where a token starts: no white space and no comment. *)
Definition at_token (r : str) : Prop :=
  peek_is is_whitespace (head r) = false /\ starts_with2 c_minus c_minus r = false /\ starts_with2 c_slash c_star r = false.

Definition error_within (e : SyntaxError) (n : Z) : Prop :=
  message e <> FuelExhausted /\ 0 <= sp_start (err_span e) <= sp_end (err_span e) /\ sp_end (err_span e) <= n.

Lemma skip_while_stops p r at_ : peek_is p (head (remaining (skip_while p r at_))) = false.
Proof. revert at_. induction r as [|c r IH]; intros at_; cbn [skip_while]; [done|]. destruct (p c) eqn:E; [apply IH|done]. Qed.

Lemma skip_trivia_ok fuel l :
  0 <= cursor l -> (length (remaining l) < fuel)%nat ->
  match skip_trivia fuel l with
  | Ok l' => moves l l' /\ at_token (remaining l')
  | Err e => error_within e (sql_len l)
  end.
Proof.
  revert l. induction fuel as [|fuel IH]; intros l Hc Hf; [lia|]. cbn [skip_trivia].
  pose proof (advance_while_moves is_whitespace l) as Hm. set (l1 := advance_while is_whitespace l) in *.
  pose proof (moves_cursor _ _ Hm) as Hc1. pose proof (moves_shorter _ _ Hm) as Hs1. rewrite <- (moves_sql_len _ _ Hm).
  assert (forall l2, moves_on l1 l2 ->
    match skip_trivia fuel l2 with Ok l' => moves l l' /\ at_token (remaining l') | Err e => error_within e (sql_len l1) end) as Hgo.
  { intros l2 H2. pose proof (moves_on_shorter _ _ H2). pose proof (moves_on_cursor _ _ H2).
    specialize (IH l2 ltac:(lia) ltac:(lia)). rewrite (moves_sql_len _ _ (moves_on_moves _ _ H2)) in IH.
    destruct (skip_trivia fuel l2); [|done]. destruct IH as [Hm2 ?]. split; [|done].
    etransitivity; [exact Hm|]. etransitivity; [by apply moves_on_moves|done]. }
  destruct (starts_with2 c_minus c_minus (remaining l1)) eqn:E1; [|destruct (starts_with2 c_slash c_star (remaining l1)) eqn:E2].
  - apply Hgo. eapply moves_on_l; [by apply (drop2_moves_on c_minus c_minus)|]. apply skip_while_moves.
  - destruct (skip_block_comment l1) as [l2|e] eqn:Eb; cbn [mbind result_bind].
    + apply Hgo. by eapply skip_block_comment_moves.
    + unfold skip_block_comment in Eb. destruct (block_comment _ _ _); [done|]. injection Eb as <-. unfold error_within. cbn.
      unfold sql_len. pose proof (str_len_nonneg (remaining l1)). split; [done|lia].
  - split; [done|]. split; [apply skip_while_stops|done].
Qed.

(** ** Tokens *)

Lemma lex_quoted_moves n q r at_ acc v l' :
  (length r <= n)%nat -> lex_quoted q r at_ acc = Some (v, l') -> moves (mkLexer r at_) l'.
Proof.
  revert r at_ acc. induction n as [|n IH]; intros [|c r] at_ acc Hn Hq; cbn [length] in Hn; try lia; try done.
  pose proof (advance_moves (mkLexer (c :: r) at_)) as Hm. cbn in Hm. cbn [lex_quoted] in Hq. destruct (c =? q).
  - destruct r as [|d r]; [by injection Hq as <- <-|]. destruct (d =? q); [|by injection Hq as <- <-].
    etransitivity; [exact Hm|]. etransitivity; [exact (advance_moves (mkLexer (d :: r) _))|]. cbn.
    eapply IH; [|exact Hq]. cbn [length] in Hn. lia.
  - etransitivity; [exact Hm|]. eapply IH; [|exact Hq]. lia.
Qed.

(** What reading one token promises. *)
Definition token_step (l : Lexer) (r : SResult (Token * Lexer)) : Prop :=
  match r with
  | Ok (t, l') => moves_on l l' /\ span t = mkSpan (cursor l) (cursor l') /\ kind t <> TEof
  | Err e => error_within e (sql_len l)
  end.

Lemma consume_char_moves c l : moves l (consume_char c l).2.
Proof. unfold consume_char. destruct (peek_is _ _); [apply advance_moves|reflexivity]. Qed.

Lemma error_at f l l' : f <> FuelExhausted -> 0 <= cursor l -> moves l l' -> error_within (mkSyntaxError f (mkSpan (cursor l) (cursor l'))) (sql_len l).
Proof. intros Hf Hc Hm. pose proof (moves_cursor _ _ Hm). unfold error_within. cbn. split; [done|lia]. Qed.

Lemma error_to_end f l : f <> FuelExhausted -> 0 <= cursor l -> error_within (mkSyntaxError f (mkSpan (cursor l) (sql_len l))) (sql_len l).
Proof. intros Hf Hc. unfold error_within, sql_len. cbn. pose proof (str_len_nonneg (remaining l)). split; [done|lia]. Qed.

Lemma lex_fraction_moves l : moves l (lex_fraction l).
Proof.
  unfold lex_fraction. destruct (_ && _); [|reflexivity]. etransitivity; [apply advance_moves|]. apply advance_while_moves.
Qed.

Lemma lex_exponent_ok l0 l :
  0 <= cursor l0 -> moves l0 l ->
  match lex_exponent (cursor l0) l with Ok l' => moves l l' | Err e => error_within e (sql_len l0) end.
Proof.
  intros Hc Hm. unfold lex_exponent. destruct (peek_is is_exponent _); [|reflexivity]. cbv zeta.
  set (l2 := if peek_is is_sign _ then _ else _).
  assert (moves l l2) as H2.
  { etransitivity; [apply advance_moves|]. unfold l2. destruct (peek_is is_sign _); [apply advance_moves|reflexivity]. }
  pose proof (advance_while_moves is_ascii_digit l2) as H3. fold (consume_ascii_digits l2) in H3.
  destruct (_ =? _); [|by etransitivity].
  apply error_at; [done|done|]. etransitivity; [exact Hm|]. by etransitivity.
Qed.

Lemma lex_number_ok l c : 0 <= cursor l -> peek_char l = Some c -> is_ascii_digit c = true -> token_step l (lex_number l).
Proof.
  intros Hc Hp Hd. unfold lex_number.
  assert (moves_on l (consume_ascii_digits l)) as H1.
  { unfold peek_char in Hp. unfold consume_ascii_digits, advance_while. destruct l as [[|c' r] at_]; [done|]. injection Hp as ->.
    cbn [remaining cursor skip_while]. rewrite Hd. eapply moves_on_l; [exact (advance_moves_on (mkLexer (c :: r) at_) c eq_refl)|].
    apply skip_while_moves. }
  assert (moves l (lex_fraction (consume_ascii_digits l))) as H2 by (etransitivity; [by apply moves_on_moves|apply lex_fraction_moves]).
  pose proof (lex_exponent_ok l _ Hc H2) as He. destruct (lex_exponent _ _) as [l'|e]; [|done]. cbn [mbind result_bind token_step].
  split; [|done]. eapply moves_on_l; [exact H1|]. etransitivity; [apply lex_fraction_moves|done].
Qed.

Lemma single_not_eof c k : single c = Some k -> k <> TEof.
Proof. unfold single. repeat case_match; congruence. Qed.

Lemma next_token_ok l c : 0 <= cursor l -> peek_char l = Some c -> token_step l (next_token l).
Proof.
  intros Hc Hp. unfold next_token. rewrite Hp. pose proof (advance_moves_on l c Hp) as Ha.
  assert (forall k l', moves (lex_advance l) l' -> k <> TEof -> token_step l (Ok (mkToken k (mkSpan (cursor l) (cursor l')), l'))) as Hfin
    by (intros k l' Hm Hk; split; [by eapply moves_on_l|done]).
  assert (forall e l', e <> FuelExhausted -> moves (lex_advance l) l' -> error_within (mkSyntaxError e (mkSpan (cursor l) (cursor l'))) (sql_len l)) as Herr
    by (intros e l' He Hm; apply error_at; [done|done|]; etransitivity; [by apply moves_on_moves|done]).
  assert (moves_on l (lex_advance l)) as _ by done.
  destruct (single c) as [k|] eqn:Es; [apply Hfin; [reflexivity|by eapply single_not_eof]|].
  repeat match goal with
  | |- token_step _ (if (?x =? ?y) then _ else _) => destruct (x =? y)
  | |- token_step _ (if true then _ else _) => cbn iota
  | |- token_step _ (if false then _ else _) => cbn iota
  | |- context [consume_char ?x ?m] =>
      let Hm := fresh in pose proof (consume_char_moves x m) as Hm; destruct (consume_char x m) as [[] ?]; cbn [snd] in Hm
  end; try (by apply Hfin); try (by apply Herr).
  - unfold lex_string. destruct (lex_quoted _ _ _ _) as [[v l']|] eqn:E; [|by apply error_to_end].
    apply Hfin; [|done]. destruct (lex_advance l). by eapply lex_quoted_moves.
  - unfold lex_quoted_identifier. destruct (lex_quoted _ _ _ _) as [[v l']|] eqn:E; [|by apply error_to_end].
    apply Hfin; [|done]. destruct (lex_advance l). by eapply lex_quoted_moves.
  - destruct (is_ascii_digit c) eqn:Ed; [by eapply lex_number_ok|]. destruct (is_identifier_start c); [|apply Herr; [done|reflexivity]].
    unfold lex_identifier. apply Hfin; [apply advance_while_moves|]. by destruct (from_identifier _).
Qed.

(** ** The whole text *)

(** The spans of the tokens follow each other from [at_] to the end of the
    text, and the end-of-input token is the last one and only there. *)
Fixpoint spans_tile (at_ : Z) (tokens : list Token) (n : Z) : Prop :=
  match tokens with
  | [] => False
  | [t] => kind t = TEof /\ span t = mkSpan n n /\ at_ <= n
  | t :: rest => kind t <> TEof /\ at_ <= sp_start (span t) < sp_end (span t) /\ spans_tile (sp_end (span t)) rest n
  end.

Lemma spans_tile_cons at_ t rest n :
  kind t <> TEof -> at_ <= sp_start (span t) < sp_end (span t) -> spans_tile (sp_end (span t)) rest n -> spans_tile at_ (t :: rest) n.
Proof. intros Hk Hs Hr. destruct rest; [done|]. by split. Qed.

Lemma tokenize_loop_ok fuel l tokens :
  0 <= cursor l -> (length (remaining l) <= fuel)%nat ->
  match tokenize_loop fuel l tokens with
  | Ok ts => exists rest, ts = tokens ++ rest /\ spans_tile (cursor l) rest (sql_len l)
  | Err e => error_within e (sql_len l)
  end.
Proof.
  revert l tokens. induction fuel as [|fuel IH]; intros l tokens Hc Hf; cbn [tokenize_loop];
    pose proof (skip_trivia_ok (S (length (remaining l))) l Hc (le_n _)) as Hskip;
    destruct (skip_trivia _ l) as [l1|e]; cbn [mbind result_bind]; try done; destruct Hskip as [Hm _];
    pose proof (moves_shorter _ _ Hm) as Hsh; pose proof (moves_cursor _ _ Hm) as Hcur; pose proof (moves_sql_len _ _ Hm) as Hlen;
    destruct (remaining l1) as [|c r] eqn:Hr; cbn [length] in Hsh; try lia.
  1,2: eexists; split; [reflexivity|]; cbn; unfold sql_len in Hlen |- *; rewrite Hr in Hlen; cbn in Hlen;
    (split; [done|]); (split; [f_equal; lia|lia]).
  pose proof (next_token_ok l1 c ltac:(lia) ltac:(unfold peek_char; by rewrite Hr)) as Hnext.
  destruct (next_token l1) as [[t l2]|e]; cbn [mbind result_bind]; [|by cbn in Hnext; rewrite <- Hlen].
  destruct Hnext as (Hon & Hspan & Hkind). pose proof (moves_on_shorter _ _ Hon) as Hsh2. pose proof (moves_on_cursor _ _ Hon) as Hcur2.
  rewrite Hr in Hsh2. cbn [length] in Hsh2.
  specialize (IH l2 (tokens ++ [t]) ltac:(lia) ltac:(lia)). rewrite (moves_sql_len _ _ (moves_on_moves _ _ Hon)), Hlen in IH.
  destruct (tokenize_loop fuel l2 _) as [ts|e]; [|done]. destruct IH as (rest & -> & Hrest). exists (t :: rest).
  split; [by rewrite <- app_assoc|]. apply spans_tile_cons; [done|rewrite Hspan; cbn; lia|]. by rewrite Hspan.
Qed.

Lemma tokenize_ok (sql : str) :
  match tokenize sql with
  | Ok tokens => spans_tile 0 tokens (str_len sql)
  | Err e => error_within e (str_len sql)
  end.
Proof.
  pose proof (tokenize_loop_ok (length sql) (lexer_new sql) [] (Z.le_refl 0) (le_n _)) as Hok.
  unfold tokenize, sql_len in *. cbn [lexer_new cursor remaining] in Hok. rewrite Z.add_0_l in Hok.
  destruct (tokenize_loop _ _ _) as [ts|e]; [|done]. by destruct Hok as (rest & -> & ?).
Qed.

End Facts.
