(* ===== verification/LexerPrint.v ===== *)
(** * Printing tokens and reading them back

    A printer for token lists and the proof that the lexer inverts it:
    quotes are doubled inside quoted text, keywords are in upper case, and
    a space separates the tokens. *)
From S2P Require Import Prelude Token Lexer LexerFacts.
Local Open Scope Z_scope.

Definition c_space : char := 32.

(** A quote inside quoted text is doubled. *)
Fixpoint escape (q : char) (s : str) : str :=
  match s with [] => [] | c :: s => if c =? q then q :: q :: escape q s else c :: escape q s end.

Definition print_token (k : TokenKind) : str :=
  match k with
  | TKeyword k => keyword_name k
  | TIdentifier v false => v
  | TIdentifier v true => c_dquote :: escape c_dquote v ++ [c_dquote]
  | TNumber raw => raw
  | TString v => c_quote :: escape c_quote v ++ [c_quote]
  | TComma => [c_comma]
  | TDot => [c_dot]
  | TStar => [c_star]
  | TLeftParen => [c_lparen]
  | TRightParen => [c_rparen]
  | TSemicolon => [c_semicolon]
  | TEqual => [c_equal]
  | TNotEqual => [c_less; c_greater]
  | TLessThan => [c_less]
  | TLessThanOrEqual => [c_less; c_equal]
  | TGreaterThan => [c_greater]
  | TGreaterThanOrEqual => [c_greater; c_equal]
  | TPlus => [c_plus]
  | TMinus => [c_minus]
  | TSlash => [c_slash]
  | TPercent => [c_percent]
  | TEof => []
  end.

Definition print_tokens (ks : list TokenKind) : str := concat ((fun k => print_token k ++ [c_space]) <$> ks).

(** ** Tokens that can be printed *)

Definition digits (s : str) : Prop := Forall (fun c => is_ascii_digit c = true) s.

(** [12], [12.5], [12e-3], [12.5E7]. *)
Inductive fraction_text : str -> Prop :=
| no_fraction : fraction_text []
| some_fraction d s : is_ascii_digit d = true -> digits s -> fraction_text (c_dot :: d :: s).

Inductive exponent_text : str -> Prop :=
| no_exponent : exponent_text []
| plain_exponent e d s : is_exponent e = true -> is_ascii_digit d = true -> digits s -> exponent_text (e :: d :: s)
| signed_exponent e g d s : is_exponent e = true -> is_sign g = true -> is_ascii_digit d = true -> digits s ->
    exponent_text (e :: g :: d :: s).

Inductive number_text : str -> Prop :=
| number_parts d s f e : is_ascii_digit d = true -> digits s -> fraction_text f -> exponent_text e ->
    number_text (d :: s ++ f ++ e).

Section Print.
Context `{CharTables}.

Definition identifier_text (v : str) : Prop :=
  exists c s, v = c :: s /\ 0 <= c /\ is_identifier_start c = true /\ Forall (fun c => is_identifier_continue c = true) s.

Definition token_ok (k : TokenKind) : Prop :=
  match k with
  | TIdentifier v false => identifier_text v /\ from_identifier v = None /\ to_lowercase v = v
  | TNumber raw => number_text raw
  | TEof => False
  | _ => True
  end.

(** ** What the lexer does with printed text *)

Lemma skip_while_over p s r at_ :
  Forall (fun c => p c = true) s -> peek_is p (head r) = false -> skip_while p (s ++ r) at_ = mkLexer r (at_ + str_len s).
Proof.
  intros Hs Hr. revert at_. induction Hs as [|c s Hc Hs IH]; intros at_; cbn [app skip_while str_len].
  - rewrite Z.add_0_r. destruct r as [|d r]; [done|]. cbn in Hr |- *. by rewrite Hr.
  - rewrite Hc, IH. f_equal. lia.
Qed.

Lemma text_between_app s r at1 at2 : text_between (mkLexer (s ++ r) at1) (mkLexer r at2) = s.
Proof. unfold text_between. cbn [remaining]. rewrite length_app, Nat.add_sub. apply take_app_length. Qed.

(** An identifier's first character is no other token's. *)
Lemma identifier_start_plain c x :
  0 <= c -> is_identifier_start c = true -> 0 <= x < 128 -> is_ascii_upper x || is_ascii_lower x = false -> x <> c_underscore -> c <> x.
Proof.
  intros Hc Hs Hx Ha Hu ->. unfold is_identifier_start in Hs. rewrite ascii_alphabetic, Ha in Hs by done.
  apply orb_true_iff in Hs as [?%Z.eqb_eq|?]; done.
Qed.

Lemma identifier_start_not_digit c : 0 <= c -> is_identifier_start c = true -> is_ascii_digit c = false.
Proof.
  intros Hc Hs. destruct (is_ascii_digit c) eqn:E; [|done]. unfold is_ascii_digit in E.
  exfalso. apply (identifier_start_plain c c Hc Hs); [lia| |unfold c_underscore; lia|done].
  unfold is_ascii_upper, is_ascii_lower. lia.
Qed.

Lemma continue_not_space : is_identifier_continue c_space = false.
Proof. unfold is_identifier_continue. rewrite ascii_alphanumeric; [done|unfold c_space; lia]. Qed.

Lemma identifier_start_single c : 0 <= c -> is_identifier_start c = true ->
  single c = None /\ c <> c_less /\ c <> c_greater /\ c <> c_bang /\ c <> c_quote /\ c <> c_dquote.
Proof.
  intros Hc Hs. assert (forall x, 0 <= x < 128 -> is_ascii_upper x || is_ascii_lower x = false -> x <> c_underscore -> (c =? x) = false) as Hne
    by (intros x ? ? ?; apply Z.eqb_neq; by apply identifier_start_plain).
  assert (forall x, 0 <= x < 128 -> is_ascii_upper x || is_ascii_lower x = false -> x <> c_underscore -> c <> x) as Hne'
    by (intros x ? ? ?; by apply identifier_start_plain).
  split; [|split_and!; by apply Hne']. unfold single. rewrite !Hne by done. done.
Qed.

Lemma next_token_identifier v r at_ :
  identifier_text v -> peek_is is_identifier_continue (head r) = false ->
  exists at', next_token (mkLexer (v ++ r) at_) =
    Ok (mkToken (match from_identifier v with Some k => TKeyword k | None => TIdentifier (to_lowercase v) false end)
                (mkSpan at_ at'), mkLexer r at').
Proof.
  intros (c & s & -> & Hc & Hs & Hcs) Hr.
  destruct (identifier_start_single c Hc Hs) as (Hsingle & N1%Z.eqb_neq & N2%Z.eqb_neq & N3%Z.eqb_neq & N4%Z.eqb_neq & N5%Z.eqb_neq).
  unfold next_token, peek_char. cbn [app head remaining cursor].
  rewrite Hsingle, N1, N2, N3, N4, N5, (identifier_start_not_digit c Hc Hs), Hs.
  unfold lex_identifier, advance_while, lex_advance. cbn [app remaining cursor].
  rewrite (skip_while_over _ s r _ Hcs Hr). change (c :: s ++ r) with ((c :: s) ++ r). rewrite text_between_app. by eexists.
Qed.

Lemma lex_quoted_escape q v r at_ acc :
  peek_is (Z.eqb q) (head r) = false ->
  exists at', lex_quoted q (escape q v ++ q :: r) at_ acc = Some (acc ++ v, mkLexer r at').
Proof.
  intros Hr. revert at_ acc. induction v as [|c v IH]; intros at_ acc; cbn [escape app lex_quoted].
  - rewrite Z.eqb_refl, app_nil_r. destruct r as [|d r]; [by eexists|]. cbn in Hr. rewrite Z.eqb_sym, Hr. by eexists.
  - destruct (Z.eqb_spec c q) as [->|Hne]; cbn [app lex_quoted].
    + rewrite Z.eqb_refl. destruct (IH (at_ + len_utf8 q + len_utf8 q) (acc ++ [q])) as [at' ->].
      exists at'. by rewrite <- app_assoc.
    + rewrite (proj2 (Z.eqb_neq c q) Hne). destruct (IH (at_ + len_utf8 c) (acc ++ [c])) as [at' ->]. exists at'. by rewrite <- app_assoc.
Qed.

Lemma consume_digits s r at_ :
  digits s -> peek_is is_ascii_digit (head r) = false ->
  consume_ascii_digits (mkLexer (s ++ r) at_) = mkLexer r (at_ + str_len s).
Proof. intros Hs Hr. unfold consume_ascii_digits, advance_while. cbn. by apply skip_while_over. Qed.

Lemma lex_fraction_text f r at_ :
  fraction_text f -> peek_is is_ascii_digit (head r) = false -> peek_is (Z.eqb c_dot) (head r) = false ->
  exists at', lex_fraction (mkLexer (f ++ r) at_) = mkLexer r at'.
Proof.
  intros [|d s Hd Hs] Hr Hdot; unfold lex_fraction, peek_char, peek_second_char; cbn [app remaining head].
  - rewrite Hdot. by eexists.
  - cbn [lookup list_lookup peek_is]. rewrite Z.eqb_refl, Hd. cbn [andb lex_advance remaining cursor].
    change (d :: s ++ r) with ((d :: s) ++ r). rewrite (consume_digits (d :: s) r); [by eexists|by constructor|done].
Qed.

Lemma digit_exponent c : is_ascii_digit c = true -> is_sign c = false.
Proof. unfold is_ascii_digit, is_sign, c_plus, c_minus. lia. Qed.

Lemma lex_exponent_text start e r at_ :
  exponent_text e -> peek_is is_ascii_digit (head r) = false -> peek_is is_exponent (head r) = false ->
  exists at', lex_exponent start (mkLexer (e ++ r) at_) = Ok (mkLexer r at').
Proof.
  assert (forall d s at_, is_ascii_digit d = true -> digits s ->
    peek_is is_ascii_digit (head r) = false ->
    let l := mkLexer (d :: s ++ r) at_ in consume_ascii_digits l = mkLexer r (at_ + str_len (d :: s)) /\
      (at_ + str_len (d :: s) =? at_) = false) as Hdig.
  { intros d s at0 Hd Hs Hr. cbn zeta. change (d :: s ++ r) with ((d :: s) ++ r). rewrite consume_digits; [|by constructor|done].
    split; [done|]. apply Z.eqb_neq. pose proof (str_len_pos (d :: s)). specialize (H0 ltac:(done)). lia. }
  intros [|x d s Hx Hd Hs|x g d s Hx Hg Hd Hs] Hr He; unfold lex_exponent, peek_char; cbn [app remaining head].
  - rewrite He. by eexists.
  - cbn [peek_is]. rewrite Hx. cbn [lex_advance remaining cursor head peek_is]. rewrite (digit_exponent d Hd).
    destruct (Hdig d s (at_ + len_utf8 x) Hd Hs Hr) as [-> Hne]. cbn [cursor]. rewrite Hne. by eexists.
  - cbn [peek_is]. rewrite Hx. cbn [lex_advance remaining cursor head peek_is]. rewrite Hg. cbn [remaining cursor].
    destruct (Hdig d s (at_ + len_utf8 x + len_utf8 g) Hd Hs Hr) as [-> Hne]. cbn [cursor]. rewrite Hne. by eexists.
Qed.

Lemma next_token_number raw r at_ :
  number_text raw -> peek_is is_ascii_digit (head r) = false -> peek_is is_exponent (head r) = false ->
  peek_is (Z.eqb c_dot) (head r) = false ->
  exists at', next_token (mkLexer (raw ++ r) at_) = Ok (mkToken (TNumber raw) (mkSpan at_ at'), mkLexer r at').
Proof.
  intros [d s f e Hd Hs Hf He] Hr Hx Hdot.
  assert (peek_is is_ascii_digit (head (f ++ e ++ r)) = false /\ peek_is is_ascii_digit (head (e ++ r)) = false /\
          peek_is (Z.eqb c_dot) (head (e ++ r)) = false) as (H1 & H2 & H3).
  { assert (forall x, is_exponent x = true -> is_ascii_digit x = false /\ (c_dot =? x) = false) as Hexp
      by (intros x; unfold is_exponent, is_ascii_digit, c_dot; lia).
    destruct Hf as [|d' s' Hd' Hs'], He as [|x d2 s2 Hx2 Hd2 Hs2|x g d2 s2 Hx2 Hg Hd2 Hs2]; cbn; try apply Hexp in Hx2 as [? ?]; done. }
  unfold next_token, peek_char. cbn [app head remaining cursor].
  assert (single d = None /\ (d =? c_less) = false /\ (d =? c_greater) = false /\ (d =? c_bang) = false /\ (d =? c_quote) = false /\ (d =? c_dquote) = false)
    as (-> & -> & -> & -> & -> & ->).
  { unfold is_ascii_digit in Hd. apply andb_true_iff in Hd as [?%Z.leb_le ?%Z.leb_le].
    unfold single, c_comma, c_dot, c_star, c_lparen, c_rparen, c_semicolon, c_equal, c_plus, c_minus, c_slash, c_percent,
      c_less, c_greater, c_bang, c_quote, c_dquote. split_and!; try lia.
    repeat match goal with |- context [?a =? ?b] => rewrite (proj2 (Z.eqb_neq a b)) by lia end. done. }
  rewrite Hd. unfold lex_number. cbn [cursor]. rewrite <- !app_assoc.
  change (d :: s ++ f ++ e ++ r) with ((d :: s) ++ f ++ e ++ r).
  rewrite (consume_digits (d :: s)); [|by constructor|done].
  destruct (lex_fraction_text f (e ++ r) (at_ + str_len (d :: s)) Hf H2 H3) as [at1 ->].
  destruct (lex_exponent_text at_ e r at1 He Hr Hx) as [at2 ->]. cbn [mbind result_bind].
  replace ((d :: s) ++ f ++ e ++ r) with ((d :: s ++ f ++ e) ++ r) by (cbn; by rewrite <- !app_assoc).
  rewrite text_between_app. by eexists.
Qed.

Lemma keyword_text k : identifier_text (keyword_name k) /\ from_identifier (keyword_name k) = Some k.
Proof.
  split; [|by destruct k].
  assert (exists c s, keyword_name k = c :: s /\ Forall (fun c => is_ascii_upper c = true) (c :: s)) as (c & s & -> & Hall)
    by (destruct k; eexists _, _; (split; [reflexivity|repeat (apply Forall_cons; split; [reflexivity|]); apply Forall_nil; exact I])).
  assert (forall x, is_ascii_upper x = true -> 0 <= x < 128) as Hr by (unfold is_ascii_upper; intros; lia).
  apply Forall_cons in Hall as [Hc Hs]. exists c, s. split_and!; [done|by apply Hr in Hc as [? _]| |].
  - unfold is_identifier_start. rewrite ascii_alphabetic, Hc by auto. by rewrite orb_true_r.
  - eapply Forall_impl; [exact Hs|]. cbn. intros x Hx. unfold is_identifier_continue.
    rewrite ascii_alphanumeric by auto. rewrite Hx. by rewrite !orb_true_r || rewrite orb_true_r.
Qed.

Lemma next_token_string v r at_ : peek_is (Z.eqb c_quote) (head r) = false -> exists at',
  next_token (mkLexer (c_quote :: escape c_quote v ++ c_quote :: r) at_) = Ok (mkToken (TString v) (mkSpan at_ at'), mkLexer r at').
Proof.
  intros Hr. change (next_token _) with (lex_string (mkLexer (c_quote :: escape c_quote v ++ c_quote :: r) at_)).
  unfold lex_string, lex_advance. cbn [remaining cursor].
  destruct (lex_quoted_escape c_quote v r (at_ + len_utf8 c_quote) [] Hr) as [at' ->]. by eexists.
Qed.

Lemma next_token_quoted v r at_ : peek_is (Z.eqb c_dquote) (head r) = false -> exists at',
  next_token (mkLexer (c_dquote :: escape c_dquote v ++ c_dquote :: r) at_) = Ok (mkToken (TIdentifier v true) (mkSpan at_ at'), mkLexer r at').
Proof.
  intros Hr. change (next_token _) with (lex_quoted_identifier (mkLexer (c_dquote :: escape c_dquote v ++ c_dquote :: r) at_)).
  unfold lex_quoted_identifier, lex_advance. cbn [remaining cursor].
  destruct (lex_quoted_escape c_dquote v r (at_ + len_utf8 c_dquote) [] Hr) as [at' ->]. by eexists.
Qed.

(** One printed token followed by a space is read back. *)
Lemma next_token_print k r at_ :
  token_ok k -> exists at', next_token (mkLexer (print_token k ++ c_space :: r) at_) = Ok (mkToken k (mkSpan at_ at'), mkLexer (c_space :: r) at').
Proof.
  intros Hk.
  assert (peek_is is_identifier_continue (head (c_space :: r)) = false) as Hsp by apply continue_not_space.
  destruct k as [k|v quoted|raw|v| | | | | | | | | | | | | | | | |]; cbn [print_token token_ok] in *; try done; try (by eexists).
  - destruct (keyword_text k) as [Hid Hk']. destruct (next_token_identifier _ (c_space :: r) at_ Hid Hsp) as [at' Hn].
    exists at'. by rewrite Hn, Hk'.
  - destruct quoted.
    + cbn [app]. rewrite <- app_assoc. by apply next_token_quoted.
    + destruct Hk as (Hid & Hnone & Hlow). destruct (next_token_identifier _ (c_space :: r) at_ Hid Hsp) as [at' Hn].
      exists at'. by rewrite Hn, Hnone, Hlow.
  - by apply next_token_number.
  - cbn [app]. rewrite <- app_assoc. by apply next_token_string.
Qed.

Lemma at_token_char c r : is_whitespace c = false -> c <> c_minus -> c <> c_slash -> at_token (c :: r).
Proof.
  intros Hw N1%Z.eqb_neq N2%Z.eqb_neq. split_and!; cbn; [done|destruct r; [done|by rewrite N1]|destruct r; [done|by rewrite N2]].
Qed.

Lemma identifier_at_token v r : identifier_text v -> at_token (v ++ r).
Proof.
  intros (c & s & -> & Hc & Hs & _). cbn. apply at_token_char; [|by apply identifier_start_plain..].
  unfold is_identifier_start in Hs. apply orb_true_iff in Hs as [->%Z.eqb_eq|Ha].
  - by rewrite ascii_whitespace.
  - by apply alphanumeric_not_whitespace, alphabetic_alphanumeric.
Qed.

Lemma print_at_token k r : token_ok k -> at_token (print_token k ++ c_space :: r).
Proof.
  intros Hk. destruct k as [k|v quoted|raw|v| | | | | | | | | | | | | | | | |]; cbn [print_token token_ok app] in *; try done;
    try (apply at_token_char; [by rewrite ascii_whitespace|done|done]);
    try (by split_and!; cbn; rewrite ?ascii_whitespace).
  - apply identifier_at_token, keyword_text.
  - destruct quoted; [|apply identifier_at_token, Hk]. apply at_token_char; [by rewrite ascii_whitespace|done|done].
  - destruct Hk as [d s f e Hd _ _ _]. unfold is_ascii_digit in Hd. apply andb_true_iff in Hd as [?%Z.leb_le ?%Z.leb_le].
    cbn. apply at_token_char; [|unfold c_minus; lia|unfold c_slash; lia].
    rewrite ascii_whitespace by lia. unfold is_ascii_whitespace. lia.
Qed.

Lemma skip_trivia_at_token n sp r at_ :
  sp = [] \/ sp = [c_space] -> at_token r ->
  exists at', skip_trivia (S n) (mkLexer (sp ++ r) at_) = Ok (mkLexer r at').
Proof.
  intros Hsp (Hw & Hm & Hs).
  assert (Forall (fun c => is_whitespace c = true) sp) as Hall
    by (destruct Hsp as [->| ->]; [done|]; apply Forall_singleton; by rewrite ascii_whitespace).
  cbn [skip_trivia]. unfold advance_while. cbn [remaining cursor]. rewrite (skip_while_over _ sp r at_ Hall Hw). cbn [remaining].
  rewrite Hm, Hs. by eexists.
Qed.

Lemma tokenize_loop_print ks : forall sp fuel at_ acc,
  sp = [] \/ sp = [c_space] -> Forall token_ok ks -> (length ks <= fuel)%nat ->
  exists ts, tokenize_loop fuel (mkLexer (sp ++ print_tokens ks) at_) acc = Ok (acc ++ ts) /\ kind <$> ts = ks ++ [TEof].
Proof.
  induction ks as [|k ks IH]; intros sp fuel at_ acc Hsp Hks Hfuel.
  - destruct (skip_trivia_at_token (length (sp ++ print_tokens [])) sp [] at_ Hsp) as [at' Hskip]; [by split_and!|].
    destruct fuel; cbn [tokenize_loop remaining]; unfold print_tokens in *; cbn [fmap list_fmap concat] in *;
      rewrite Hskip; cbn; by eexists.
  - apply Forall_cons in Hks as [Hk Hks]. destruct fuel as [|fuel]; [cbn in Hfuel; lia|].
    unfold print_tokens. cbn [fmap list_fmap concat]. change (concat _) with (print_tokens ks). rewrite <- app_assoc. cbn [app].
    pose proof (print_at_token k (print_tokens ks) Hk) as Hat.
    destruct (skip_trivia_at_token (length (sp ++ print_token k ++ c_space :: print_tokens ks)) sp _ at_ Hsp Hat) as [at' Hskip].
    cbn [tokenize_loop remaining]. rewrite Hskip. cbn [mbind result_bind remaining].
    destruct (next_token_print k (print_tokens ks) at' Hk) as [at'' Hnext]. rewrite Hnext.
    destruct (IH [c_space] fuel at'' (acc ++ [mkToken k (mkSpan at' at'')]) (or_intror eq_refl) Hks ltac:(cbn in Hfuel; lia)) as (ts & Hts & Hkinds).
    exists (mkToken k (mkSpan at' at'') :: ts). split; [|cbn; by rewrite Hkinds].
    destruct (print_token k ++ c_space :: print_tokens ks) as [|x y] eqn:E; [by apply app_eq_nil in E as [_ ?]|].
    cbn [mbind result_bind app] in *. rewrite Hts, <- app_assoc. done.
Qed.

Lemma print_tokens_length ks : (length ks <= length (print_tokens ks))%nat.
Proof.
  induction ks as [|k ks IH]; [done|]. unfold print_tokens. cbn [fmap list_fmap concat]. change (concat _) with (print_tokens ks).
  rewrite !length_app. cbn. lia.
Qed.

(** C39: the lexer reads printed tokens back: any list of well-formed tokens,
    printed with quotes doubled inside quoted text and a space after each
    token, tokenizes to exactly those tokens followed by the end mark. *)
Theorem tokenize_print (ks : list TokenKind) :
  Forall token_ok ks -> exists ts, tokenize (print_tokens ks) = Ok ts /\ kind <$> ts = ks ++ [TEof].
Proof.
  intros Hks. unfold tokenize, lexer_new.
  destruct (tokenize_loop_print ks [] (length (print_tokens ks)) 0 [] (or_introl eq_refl) Hks (print_tokens_length ks)) as (ts & Hts & Hk).
  by exists ts.
Qed.
End Print.

(** A keyword, an identifier and a string with a quote inside, a number. *)
Definition sample_tokens : list TokenKind :=
  [TKeyword KSelect; TIdentifier [97; 34; 98] true; TComma; TNumber [49; 46; 53; 101; 45; 51]; TNotEqual;
   TString [105; 116; 39; 115]; TIdentifier [120; 95] false].

Lemma tokenize_print_witness :
  Forall (@token_ok ascii_tables) sample_tokens /\
  exists ts, @tokenize ascii_tables (print_tokens sample_tokens) = Ok ts /\ kind <$> ts = sample_tokens ++ [TEof].
Proof.
  assert (Forall (@token_ok ascii_tables) sample_tokens) as Hok.
  { repeat (apply Forall_cons; split); try exact I; [|split_and!; [|reflexivity|reflexivity]|by apply Forall_nil].
    - apply (number_parts 49 [] [46; 53] [101; 45; 51]); [reflexivity|by apply Forall_nil| |].
      + apply some_fraction; [reflexivity|by apply Forall_nil].
      + apply signed_exponent; try reflexivity. by apply Forall_nil.
    - exists 120, [95]. split_and!; [reflexivity|lia|reflexivity|]. by apply Forall_singleton. }
  split; [exact Hok|]. exact (@tokenize_print ascii_tables sample_tokens Hok).
Defined.
