(* ===== verification/F64.v ===== *)
(** * 64-bit floating point and number parsing

    [f64] as the IEEE 754 binary64 format of the Standard Library's
    specification floats (one not-a-number), the operations the program
    uses on it, and Rust's [str::parse] for integers and floats. *)
From S2P Require Import Prelude Token.
From Stdlib Require Import Floats.SpecFloat.
Local Open Scope Z_scope.

Abbreviation f64 := spec_float.

#[export] Instance f64_eq_dec : EqDecision f64.
Proof. solve_decision. Defined.

Definition prec : Z := 53.
Definition emax : Z := 1024.

Definition f64_add : f64 -> f64 -> f64 := SFadd prec emax.
Definition f64_sub : f64 -> f64 -> f64 := SFsub prec emax.
Definition f64_mul : f64 -> f64 -> f64 := SFmul prec emax.
Definition f64_div : f64 -> f64 -> f64 := SFdiv prec emax.
Definition f64_neg : f64 -> f64 := SFopp.

(** [partial_cmp]: nothing for a not-a-number; the zeros are equal. *)
Definition f64_partial_cmp : f64 -> f64 -> option comparison := SFcompare.
(** [==]. *)
Definition f64_eq (a b : f64) : bool := match f64_partial_cmp a b with Some Eq => true | _ => false end.

Definition is_finite (x : f64) : bool :=
  match x with S754_zero _ | S754_finite _ _ _ => true | _ => false end.

(** [integer as f64], rounded to nearest even. *)
Definition f64_of_Z (z : Z) : f64 := binary_normalize prec emax z 0 false.

(** [left % right]: the remainder of the truncated quotient, which is exact. *)
Definition f64_rem (x y : f64) : f64 :=
  match x, y with
  | S754_nan, _ | _, S754_nan | S754_infinity _, _ | _, S754_zero _ => S754_nan
  | S754_zero s, _ => S754_zero s
  | _, S754_infinity _ => x
  | S754_finite s m1 e1, S754_finite _ m2 e2 =>
      let e := Z.min e1 e2 in
      let r := (Zpos m1 * 2 ^ (e1 - e)) mod (Zpos m2 * 2 ^ (e2 - e)) in
      if r =? 0 then S754_zero s else binary_normalize prec emax (if s then - r else r) e s
  end.

(** [to_bits]: sign, biased exponent, fraction. *)
Definition f64_to_bits (x : f64) : Z :=
  let sign (s : bool) := if s then 2 ^ 63 else 0 in
  match x with
  | S754_zero s => sign s
  | S754_infinity s => sign s + 2047 * 2 ^ 52
  | S754_nan => 2047 * 2 ^ 52 + 2 ^ 51
  | S754_finite s m e =>
      if Zpos m <? 2 ^ 52 then sign s + Zpos m
      else sign s + (e + 1075) * 2 ^ 52 + (Zpos m - 2 ^ 52)
  end.

(** [total_cmp]: the bits, read as a signed integer whose low 63 bits are
    flipped when negative. *)
Definition total_key (bits : Z) : Z := if bits <? 2 ^ 63 then bits else - (bits - 2 ^ 63) - 1.
Definition f64_total_cmp (x y : f64) : comparison := total_key (f64_to_bits x) ?= total_key (f64_to_bits y).

(** A float that exists: normalised as binary64 stores it. *)
Definition f64_valid (x : f64) : Prop := valid_binary prec emax x = true.

(** ** [str::parse] *)

Definition I64_MIN : Z := - 2 ^ 63.
Definition I64_MAX : Z := 2 ^ 63 - 1.
Definition is_i64 (z : Z) : Prop := I64_MIN <= z <= I64_MAX.

(** The value of a run of decimal digits. *)
Fixpoint decimal (acc : Z) (s : str) : option Z :=
  match s with
  | [] => Some acc
  | c :: s => if is_ascii_digit c then decimal (10 * acc + (c - 48)) s else None
  end.

Definition some_decimal (s : str) : option Z := match s with [] => None | _ => decimal 0 s end.

Definition in_range (lo hi : Z) (z : Z) : option Z := if (lo <=? z) && (z <=? hi) then Some z else None.

(** Integer parsing: an optional [+], for signed types also [-], then at
    least one digit; a value out of range is an error. *)
Definition parse_int (lo hi : Z) (s : str) : option Z :=
  match s with
  | [] => None
  | c :: rest =>
      if c =? 43 then some_decimal rest ≫= in_range lo hi
      else if (c =? 45) && (lo <? 0) then some_decimal rest ≫= (fun z => in_range lo hi (- z))
      else some_decimal s ≫= in_range lo hi
  end.

Definition parse_u32 : str -> option Z := parse_int 0 U32_MAX.
Definition parse_u64 : str -> option Z := parse_int 0 U64_MAX.
Definition parse_i64 : str -> option Z := parse_int I64_MIN I64_MAX.

(** [m * 10 ^ e], rounded to nearest even. *)
Definition f64_of_decimal (m e : Z) : f64 :=
  match m with
  | Zpos p =>
      if 0 <=? e then f64_of_Z (m * 10 ^ e)
      else match 10 ^ (- e) with
           | Zpos q => let '(mz, ez, lz) := SFdiv_core_binary prec emax (Zpos p) 0 (Zpos q) 0 in
                       binary_round_aux prec emax false mz ez lz
           | _ => S754_zero false
           end
  | _ => S754_zero false
  end.

Fixpoint split_digits (s : str) : str * str :=
  match s with
  | c :: s' => if is_ascii_digit c then let '(d, r) := split_digits s' in (c :: d, r) else ([], s)
  | [] => ([], [])
  end.

(** The exponent of a decimal literal: nothing, or [e] and a signed integer. *)
Definition parse_exponent (s : str) : option Z :=
  match s with
  | [] => Some 0
  | c :: s =>
      if (c =? 101) || (c =? 69) then
        match s with
        | g :: s' => if g =? 45 then Z.opp <$> some_decimal s'
                     else if g =? 43 then some_decimal s' else some_decimal s
        | [] => None
        end
      else None
  end.

(** Float parsing of an unsigned decimal: it never overflows into an error,
    a value too large is infinite. *)
Definition parse_f64 (s : str) : option f64 :=
  let '(whole, rest) := split_digits s in
  let '(frac, rest) := match rest with c :: r => if c =? 46 then split_digits r else ([], rest) | [] => ([], []) end in
  match whole ++ frac with
  | [] => None
  | digits => m ← decimal 0 digits; e ← parse_exponent rest; Some (f64_of_decimal m (e - blen frac))
  end.
