(* ===== verification/Ast.v ===== *)
(** * The syntax tree

    [syntax/src/ast.rs]: statements and expressions, each with the byte
    range it was read from. *)
From S2P Require Import Prelude Token F64.
Local Open Scope Z_scope.

Record Identifier := mkIdentifier {
  id_value : str;
  id_quoted : bool;
  id_span : Span;
}.

Inductive Literal :=
| LNull
| LBoolean (b : bool)
| LInteger (z : Z)
| LFloat (x : f64)
| LString (s : str).

Inductive UnaryOperator := Not | Plus | Minus.

Inductive BinaryOperator :=
| Or | And | Equal | NotEqual | LessThan | LessThanOrEqual | GreaterThan | GreaterThanOrEqual
| Add | Subtract | Multiply | Divide | Modulo.

#[export] Instance UnaryOperator_eq_dec : EqDecision UnaryOperator.
Proof. solve_decision. Defined.
#[export] Instance BinaryOperator_eq_dec : EqDecision BinaryOperator.
Proof. solve_decision. Defined.

Inductive Expr :=
| EIdentifier (identifier : Identifier)
| ELiteral (value : Literal) (sp : Span)
| EUnary (operator : UnaryOperator) (expression : Expr) (sp : Span)
| EBinary (left : Expr) (operator : BinaryOperator) (right : Expr) (sp : Span)
| EIsNull (expression : Expr) (negated : bool) (sp : Span)
| EParenthesized (expression : Expr) (sp : Span).

Definition expr_span (e : Expr) : Span :=
  match e with
  | EIdentifier identifier => id_span identifier
  | ELiteral _ sp | EUnary _ _ sp | EBinary _ _ _ sp | EIsNull _ _ sp | EParenthesized _ sp => sp
  end.

Inductive DataType :=
| DBoolean
| DInt64
| DFloat64
| DText (max_length : option Z).

Record ColumnDef := mkColumnDef {
  cd_name : Identifier;
  cd_data_type : DataType;
  cd_nullable : bool;
  cd_primary_key : bool;
  cd_unique : bool;
  cd_span : Span;
}.

Record CreateTable := mkCreateTable {
  ct_name : Identifier;
  ct_if_not_exists : bool;
  ct_columns : list ColumnDef;
  ct_span : Span;
}.

Record DropTable := mkDropTable {
  dt_name : Identifier;
  dt_if_exists : bool;
  dt_span : Span;
}.

Record CreateIndex := mkCreateIndex {
  ci_name : Identifier;
  ci_table : Identifier;
  ci_columns : list Identifier;
  ci_unique : bool;
  ci_if_not_exists : bool;
  ci_span : Span;
}.

Record DropIndex := mkDropIndex {
  di_name : Identifier;
  di_if_exists : bool;
  di_span : Span;
}.

Record Insert := mkInsert {
  ins_table : Identifier;
  ins_columns : list Identifier;
  ins_rows : list (list Expr);
  ins_span : Span;
}.

Inductive SelectItem :=
| Wildcard (sp : Span)
| ItemExpression (expression : Expr) (alias : option Identifier) (sp : Span).

Record OrderKey := mkOrderKey {
  ok_expression : Expr;
  ok_descending : bool;
  ok_span : Span;
}.

Record Select := mkSelect {
  sel_projection : list SelectItem;
  sel_from : Identifier;
  sel_selection : option Expr;
  sel_order_by : list OrderKey;
  sel_limit : option Z;
  sel_span : Span;
}.

Record Assignment := mkAssignment {
  as_column : Identifier;
  as_value : Expr;
  as_span : Span;
}.

Record Update := mkUpdate {
  up_table : Identifier;
  up_assignments : list Assignment;
  up_selection : option Expr;
  up_span : Span;
}.

Record Delete := mkDelete {
  del_table : Identifier;
  del_selection : option Expr;
  del_span : Span;
}.

(** [BeginTransaction], [Commit] and [Rollback] hold their span only. *)
Inductive Statement :=
| SCreateTable (create : CreateTable)
| SCreateIndex (create : CreateIndex)
| SDropTable (drop : DropTable)
| SDropIndex (drop : DropIndex)
| SBeginTransaction (sp : Span)
| SCommit (sp : Span)
| SRollback (sp : Span)
| SInsert (insert : Insert)
| SSelect (select : Select)
| SUpdate (update : Update)
| SDelete (delete : Delete).

Definition statement_span (s : Statement) : Span :=
  match s with
  | SCreateTable s => ct_span s
  | SCreateIndex s => ci_span s
  | SDropTable s => dt_span s
  | SDropIndex s => di_span s
  | SBeginTransaction sp | SCommit sp | SRollback sp => sp
  | SInsert s => ins_span s
  | SSelect s => sel_span s
  | SUpdate s => up_span s
  | SDelete s => del_span s
  end.
