(* ===== verification/Parser.v ===== *)
(** * The parser

    [syntax/src/parser.rs]: recursive descent over the token vector, with
    binding powers for expressions.  Loops take the number of tokens left as
    fuel; the nesting of expressions takes the room below the depth limit. *)
From S2P Require Import Prelude Token F64 Ast Lexer.
Local Open Scope Z_scope.

Definition MAX_EXPRESSION_DEPTH : Z := 256.

Record Parser := mkParser {
  p_tokens : list Token;
  p_cursor : Z;
  p_expression_depth : Z;
}.

Abbreviation P := (ST Parser SyntaxError).

Definition parser_new (tokens : list Token) : Parser := mkParser tokens 0 0.

(** ** Looking at tokens *)

Definition end_token : Token := mkToken TEof (mkSpan 0 0).

(** The token vector is never empty: it ends with the end mark. *)
Definition current (p : Parser) : Token :=
  let index := Z.min (p_cursor p) (saturating_sub (blen (p_tokens p)) 1) in
  nth (Z.to_nat index) (p_tokens p) end_token.

Definition at_eof (p : Parser) : bool := bool_decide (kind (current p) = TEof).

Definition advance : P Token :=
  p ← get;
  let token := current p in
  _ ← modify (fun p => if bool_decide (kind token = TEof) then p
                       else mkParser (p_tokens p) (p_cursor p + 1) (p_expression_depth p));
  mret token.

Definition error_current {A} (m : syntax_fault) : P A :=
  p ← get; throw (mkSyntaxError m (span (current p))).

Definition is_keyword (expected : Keyword) (p : Parser) : bool :=
  bool_decide (kind (current p) = TKeyword expected).

Definition expect_keyword (expected : Keyword) : P Token :=
  p ← get; if is_keyword expected p then advance else error_current (ExpectedKeyword expected).

Definition consume_keyword (expected : Keyword) : P (option Token) :=
  p ← get; if is_keyword expected p then token ← advance; mret (Some token) else mret None.

Definition is_punctuation (k : TokenKind) (p : Parser) : bool := bool_decide (kind (current p) = k).

Definition expect_punctuation (k : TokenKind) (what : string) : P Token :=
  p ← get; if is_punctuation k p then advance else error_current (ExpectedPunctuation what).

Definition consume_punctuation (k : TokenKind) : P (option Token) :=
  p ← get; if is_punctuation k p then token ← advance; mret (Some token) else mret None.

Definition parse_identifier : P Identifier :=
  token ← advance;
  match kind token with
  | TIdentifier value quoted => mret (mkIdentifier value quoted (span token))
  | _ => throw (mkSyntaxError ExpectedIdentifier (span token))
  end.

(** ** Loops *)

Definition fuel_of (p : Parser) : nat := S (Z.to_nat (blen (p_tokens p) - p_cursor p)).

Definition out_of_fuel {A} : P A := error_current FuelExhausted.

(** [loop { items.push(item()?); if consume(Comma).is_none() { break; } }] *)
Fixpoint comma_loop {A} (item : P A) (fuel : nat) (items : list A) : P (list A) :=
  match fuel with
  | O => out_of_fuel
  | S fuel =>
      x ← item;
      comma ← consume_punctuation TComma;
      match comma with
      | None => mret (items ++ [x])
      | Some _ => comma_loop item fuel (items ++ [x])
      end
  end.

Definition comma_list {A} (item : P A) : P (list A) := p ← get; comma_loop item (fuel_of p) [].

(** ** Expressions *)

Definition contains_float_mark (raw : str) : bool :=
  existsb (fun c => (c =? 46) || (c =? 101) || (c =? 69)) raw.

(** The arms of [current_binary_operator]. *)
Definition binary_operator (k : TokenKind) : option (BinaryOperator * Z * Z) :=
  match k with
  | TKeyword KOr => Some (Or, 1, 2)
  | TKeyword KAnd => Some (And, 3, 4)
  | TEqual => Some (Equal, 5, 6)
  | TNotEqual => Some (NotEqual, 5, 6)
  | TLessThan => Some (LessThan, 5, 6)
  | TLessThanOrEqual => Some (LessThanOrEqual, 5, 6)
  | TGreaterThan => Some (GreaterThan, 5, 6)
  | TGreaterThanOrEqual => Some (GreaterThanOrEqual, 5, 6)
  | TPlus => Some (Add, 7, 8)
  | TMinus => Some (Subtract, 7, 8)
  | TStar => Some (Multiply, 9, 10)
  | TSlash => Some (Divide, 9, 10)
  | TPercent => Some (Modulo, 9, 10)
  | _ => None
  end.

Definition current_binary_operator (p : Parser) : option (BinaryOperator * Z * Z) := binary_operator (kind (current p)).

Definition number_literal (raw : str) (sp : Span) : SResult Literal :=
  if contains_float_mark raw
  then LFloat <$> ok_or (parse_f64 raw) (mkSyntaxError FloatLiteralOutOfRange sp)
  else LInteger <$> ok_or (parse_i64 raw) (mkSyntaxError IntegerLiteralOutOfRange sp).

Section Expressions.
(** [self.parse_expression], the recursive call. *)
Variable parse_expression : Z -> P Expr.

Definition parse_primary_expression : P Expr :=
  token ← advance;
  match kind token with
  | TIdentifier value quoted => mret (EIdentifier (mkIdentifier value quoted (span token)))
  | TString value => mret (ELiteral (LString value) (span token))
  | TNumber raw => value ← lift (number_literal raw (span token)); mret (ELiteral value (span token))
  | TKeyword KNull => mret (ELiteral LNull (span token))
  | TKeyword KTrue => mret (ELiteral (LBoolean true) (span token))
  | TKeyword KFalse => mret (ELiteral (LBoolean false) (span token))
  | TLeftParen =>
      expression ← parse_expression 0;
      close ← expect_punctuation TRightParen "')' after expression";
      mret (EParenthesized expression (join (span token) (span close)))
  | _ => throw (mkSyntaxError ExpectedExpression (span token))
  end.

Definition prefix_operator (k : TokenKind) : option (UnaryOperator * Z) :=
  match k with
  | TKeyword KNot => Some (Not, 5)
  | TPlus => Some (Plus, 11)
  | TMinus => Some (Minus, 11)
  | _ => None
  end.

Definition parse_prefix_expression : P Expr :=
  p ← get;
  match prefix_operator (kind (current p)) with
  | Some (operator, binding_power) =>
      start ← advance;
      expression ← parse_expression binding_power;
      mret (EUnary operator expression (join (span start) (expr_span expression)))
  | None => parse_primary_expression
  end.

Definition IS_BINDING_POWER : Z := 5.

(** The loop of [parse_expression_inner]. *)
Fixpoint infix_loop (fuel : nat) (minimum_binding_power : Z) (left : Expr) : P Expr :=
  match fuel with
  | O => out_of_fuel
  | S fuel =>
      p ← get;
      if is_keyword KIs p then
        if IS_BINDING_POWER <? minimum_binding_power then mret left
        else
          _ ← advance;
          negated ← consume_keyword KNot;
          null ← expect_keyword KNull;
          infix_loop fuel minimum_binding_power
            (EIsNull left (bool_decide (is_Some negated)) (join (expr_span left) (span null)))
      else
        match current_binary_operator p with
        | None => mret left
        | Some (operator, left_power, right_power) =>
            if left_power <? minimum_binding_power then mret left
            else
              _ ← advance;
              right ← parse_expression right_power;
              infix_loop fuel minimum_binding_power
                (EBinary left operator right (join (expr_span left) (expr_span right)))
        end
  end.

Definition parse_expression_inner (minimum_binding_power : Z) : P Expr :=
  left ← parse_prefix_expression;
  p ← get;
  infix_loop (fuel_of p) minimum_binding_power left.
End Expressions.

Definition set_depth (f : Z -> Z) (p : Parser) : Parser := mkParser (p_tokens p) (p_cursor p) (f (p_expression_depth p)).

(** The depth goes back down after an error as well. *)
Definition nested {A} (m : P A) : P A :=
  fun p => let '(r, p) := m (set_depth (fun d => d + 1) p) in (r, set_depth (fun d => d - 1) p).

Fixpoint parse_expression_at (room : nat) (minimum_binding_power : Z) : P Expr :=
  match room with
  | O => out_of_fuel
  | S room =>
      p ← get;
      if MAX_EXPRESSION_DEPTH <=? p_expression_depth p then error_current NestingLimitExceeded
      else nested (parse_expression_inner (parse_expression_at room) minimum_binding_power)
  end.

Definition room_of (p : Parser) : nat := S (Z.to_nat (MAX_EXPRESSION_DEPTH - p_expression_depth p)).

Definition parse_expression (minimum_binding_power : Z) : P Expr :=
  p ← get; parse_expression_at (room_of p) minimum_binding_power.

(** [WHERE expression], or nothing. *)
Definition parse_where : P (option Expr) :=
  keyword ← consume_keyword KWhere;
  match keyword with
  | Some _ => expression ← parse_expression 0; mret (Some expression)
  | None => mret None
  end.

(** ** Data definition *)

(** [if self.consume_keyword(If).is_some() { expect...; true } else { false }] *)
Definition if_not_exists : P bool :=
  keyword ← consume_keyword KIf;
  match keyword with
  | Some _ => _ ← expect_keyword KNot; _ ← expect_keyword KExists; mret true
  | None => mret false
  end.

Definition if_exists : P bool :=
  keyword ← consume_keyword KIf;
  match keyword with
  | Some _ => _ ← expect_keyword KExists; mret true
  | None => mret false
  end.

Definition parse_varchar_length : P (Z * Span) :=
  token ← advance;
  match kind token with
  | TNumber raw =>
      length ← lift (ok_or (parse_u32 raw) (mkSyntaxError VarcharLengthOutOfRange (span token)));
      if length =? 0 then throw (mkSyntaxError VarcharLengthZero (span token))
      else close ← expect_punctuation TRightParen "')' after VARCHAR length"; mret (length, span close)
  | _ => throw (mkSyntaxError ExpectedVarcharLength (span token))
  end.

Definition parse_data_type : P (DataType * Span) :=
  token ← advance;
  match kind token with
  | TKeyword KBool | TKeyword KBoolean => mret (DBoolean, span token)
  | TKeyword KInt | TKeyword KInteger | TKeyword KBigint => mret (DInt64, span token)
  | TKeyword KFloat | TKeyword KDouble => mret (DFloat64, span token)
  | TKeyword KText => mret (DText None, span token)
  | TKeyword KVarchar =>
      open ← consume_punctuation TLeftParen;
      match open with
      | Some _ => length ← parse_varchar_length;
                  mret (DText (Some (fst length)), join (span token) (snd length))
      | None => mret (DText None, join (span token) (span token))
      end
  | _ => throw (mkSyntaxError ExpectedDataType (span token))
  end.

(** What the constraint loop of a column has seen. *)
Record column_flags := mkFlags {
  f_nullable : bool;
  f_primary_key : bool;
  f_unique : bool;
  f_saw_nullability : bool;
  f_end : Span;
}.

Fixpoint constraint_loop (fuel : nat) (f : column_flags) : P column_flags :=
  match fuel with
  | O => out_of_fuel
  | S fuel =>
      primary ← consume_keyword KPrimary;
      match primary with
      | Some token =>
          if f_primary_key f then throw (mkSyntaxError DuplicatePrimaryKey (span token))
          else key ← expect_keyword KKey;
               constraint_loop fuel (mkFlags false true (f_unique f) (f_saw_nullability f) (span key))
      | None =>
          not ← consume_keyword KNot;
          match not with
          | Some token =>
              if f_saw_nullability f then throw (mkSyntaxError DuplicateNullConstraint (span token))
              else null ← expect_keyword KNull;
                   constraint_loop fuel (mkFlags false (f_primary_key f) (f_unique f) true (span null))
          | None =>
              null ← consume_keyword KNull;
              match null with
              | Some token =>
                  if f_saw_nullability f || f_primary_key f
                  then throw (mkSyntaxError ConflictingNullConstraint (span token))
                  else constraint_loop fuel (mkFlags true (f_primary_key f) (f_unique f) true (span token))
              | None =>
                  unique ← consume_keyword KUnique;
                  match unique with
                  | Some token =>
                      if f_unique f then throw (mkSyntaxError DuplicateUniqueConstraint (span token))
                      else constraint_loop fuel
                             (mkFlags (f_nullable f) (f_primary_key f) true (f_saw_nullability f) (span token))
                  | None => mret f
                  end
              end
          end
      end
  end.

Definition parse_column_def : P ColumnDef :=
  name ← parse_identifier;
  data_type ← parse_data_type;
  p ← get;
  f ← constraint_loop (fuel_of p) (mkFlags true false false false (snd data_type));
  mret (mkColumnDef name (fst data_type) (f_nullable f) (f_primary_key f) (f_unique f)
                    (join (id_span name) (f_end f))).

Definition parse_create_table_after_create (start : Span) : P CreateTable :=
  _ ← expect_keyword KTable;
  if_not_exists ← if_not_exists;
  name ← parse_identifier;
  _ ← expect_punctuation TLeftParen "'(' after table name";
  p ← get;
  if is_punctuation TRightParen p then error_current TableWithoutColumns
  else
    columns ← comma_list parse_column_def;
    close ← expect_punctuation TRightParen "')' after column definitions";
    mret (mkCreateTable name if_not_exists columns (join start (span close))).

Definition parse_create_index_after_create (start : Span) (unique : bool) : P CreateIndex :=
  _ ← expect_keyword KIndex;
  if_not_exists ← if_not_exists;
  name ← parse_identifier;
  _ ← expect_keyword KOn;
  table ← parse_identifier;
  _ ← expect_punctuation TLeftParen "'(' before index columns";
  columns ← comma_list parse_identifier;
  close ← expect_punctuation TRightParen "')' after index columns";
  mret (mkCreateIndex name table columns unique if_not_exists (join start (span close))).

Definition parse_create_statement : P Statement :=
  create ← expect_keyword KCreate;
  unique_token ← consume_keyword KUnique;
  let unique := bool_decide (is_Some unique_token) in
  p ← get;
  if is_keyword KTable p && negb unique then SCreateTable <$> parse_create_table_after_create (span create)
  else if is_keyword KIndex p then SCreateIndex <$> parse_create_index_after_create (span create) unique
  else if unique then error_current ExpectedIndexAfterUnique
  else error_current ExpectedTableOrIndexAfterCreate.

Definition parse_drop_table_after_drop (start : Span) : P DropTable :=
  _ ← expect_keyword KTable;
  if_exists ← if_exists;
  name ← parse_identifier;
  mret (mkDropTable name if_exists (join start (id_span name))).

Definition parse_drop_index_after_drop (start : Span) : P DropIndex :=
  _ ← expect_keyword KIndex;
  if_exists ← if_exists;
  name ← parse_identifier;
  mret (mkDropIndex name if_exists (join start (id_span name))).

Definition parse_drop_statement : P Statement :=
  drop ← expect_keyword KDrop;
  p ← get;
  if is_keyword KTable p then SDropTable <$> parse_drop_table_after_drop (span drop)
  else if is_keyword KIndex p then SDropIndex <$> parse_drop_index_after_drop (span drop)
  else error_current ExpectedTableOrIndexAfterDrop.

(** ** Transactions *)

(** [consume(Transaction).or_else(|| consume(Work)).map_or(start, span)] *)
Definition transaction_or_work (start : Span) : P Span :=
  transaction ← consume_keyword KTransaction;
  match transaction with
  | Some token => mret (span token)
  | None => work ← consume_keyword KWork;
            match work with Some token => mret (span token) | None => mret start end
  end.

Definition parse_begin_transaction : P Span :=
  start ← advance;
  match kind start with
  | TKeyword KBegin => last ← transaction_or_work (span start); mret (join (span start) last)
  | TKeyword KStart => token ← expect_keyword KTransaction; mret (join (span start) (span token))
  | _ => throw (mkSyntaxError ExpectedBeginOrStart (span start))
  end.

Definition parse_commit : P Span :=
  start ← expect_keyword KCommit;
  last ← transaction_or_work (span start);
  mret (join (span start) last).

Definition parse_rollback : P Span :=
  start ← expect_keyword KRollback;
  last ← transaction_or_work (span start);
  mret (join (span start) last).

(** ** Rows *)

Definition parse_values_row : P (list Expr * Span) :=
  _ ← expect_punctuation TLeftParen "'(' before VALUES row";
  p ← get;
  if is_punctuation TRightParen p then error_current EmptyValuesRow
  else
    values ← comma_list (parse_expression 0);
    close ← expect_punctuation TRightParen "')' after VALUES row";
    mret (values, span close).

Definition parse_insert_columns : P (list Identifier) :=
  open ← consume_punctuation TLeftParen;
  match open with
  | Some _ =>
      columns ← comma_list parse_identifier;
      _ ← expect_punctuation TRightParen "')' after INSERT columns";
      mret columns
  | None => mret []
  end.

Definition parse_insert : P Insert :=
  start ← expect_keyword KInsert;
  _ ← expect_keyword KInto;
  table ← parse_identifier;
  columns ← parse_insert_columns;
  _ ← expect_keyword KValues;
  rows ← comma_list parse_values_row;
  let end_span := default (span start) (snd <$> last rows) in
  mret (mkInsert table columns (fst <$> rows) (join (span start) end_span)).

Definition parse_select_item : P SelectItem :=
  star ← consume_punctuation TStar;
  match star with
  | Some token => mret (Wildcard (span token))
  | None =>
      expression ← parse_expression 0;
      keyword ← consume_keyword KAs;
      match keyword with
      | Some _ => alias ← parse_identifier;
                  mret (ItemExpression expression (Some alias) (join (expr_span expression) (id_span alias)))
      | None => mret (ItemExpression expression None (expr_span expression))
      end
  end.

Definition parse_order_key : P OrderKey :=
  expression ← parse_expression 0;
  desc ← consume_keyword KDesc;
  match desc with
  | Some token => mret (mkOrderKey expression true (join (expr_span expression) (span token)))
  | None =>
      asc ← consume_keyword KAsc;
      match asc with
      | Some token => mret (mkOrderKey expression false (join (expr_span expression) (span token)))
      | None => mret (mkOrderKey expression false (join (expr_span expression) (expr_span expression)))
      end
  end.

Definition parse_order_by : P (list OrderKey) :=
  keyword ← consume_keyword KOrder;
  match keyword with
  | Some _ => _ ← expect_keyword KBy; comma_list parse_order_key
  | None => mret []
  end.

(** The limit and the span of its token. *)
Definition parse_limit : P (option (Z * Span)) :=
  keyword ← consume_keyword KLimit;
  match keyword with
  | None => mret None
  | Some _ =>
      token ← advance;
      match kind token with
      | TNumber raw =>
          if contains_float_mark raw then throw (mkSyntaxError LimitNotInteger (span token))
          else limit ← lift (ok_or (parse_u64 raw) (mkSyntaxError LimitOutOfRange (span token)));
               mret (Some (limit, span token))
      | _ => throw (mkSyntaxError ExpectedLimitInteger (span token))
      end
  end.

Definition parse_select : P Select :=
  start ← expect_keyword KSelect;
  projection ← comma_list parse_select_item;
  _ ← expect_keyword KFrom;
  from ← parse_identifier;
  selection ← parse_where;
  order_by ← parse_order_by;
  limit ← parse_limit;
  let end_span :=
    match limit with
    | Some (_, sp) => sp
    | None => match last order_by with
              | Some key => ok_span key
              | None => match selection with Some e => expr_span e | None => id_span from end
              end
    end in
  mret (mkSelect projection from selection order_by (fst <$> limit) (join (span start) end_span)).

Definition parse_assignment : P Assignment :=
  column ← parse_identifier;
  _ ← expect_punctuation TEqual "'=' in assignment";
  value ← parse_expression 0;
  mret (mkAssignment column value (join (id_span column) (expr_span value))).

Definition parse_update : P Update :=
  start ← expect_keyword KUpdate;
  table ← parse_identifier;
  _ ← expect_keyword KSet;
  assignments ← comma_list parse_assignment;
  selection ← parse_where;
  let end_span :=
    match selection with
    | Some e => expr_span e
    | None => match last assignments with Some item => as_span item | None => id_span table end
    end in
  mret (mkUpdate table assignments selection (join (span start) end_span)).

Definition parse_delete : P Delete :=
  start ← expect_keyword KDelete;
  _ ← expect_keyword KFrom;
  table ← parse_identifier;
  selection ← parse_where;
  let end_span := match selection with Some e => expr_span e | None => id_span table end in
  mret (mkDelete table selection (join (span start) end_span)).

(** ** Statements *)

Definition parse_next_statement : P Statement :=
  p ← get;
  match kind (current p) with
  | TKeyword KCreate => parse_create_statement
  | TKeyword KDrop => parse_drop_statement
  | TKeyword KBegin | TKeyword KStart => SBeginTransaction <$> parse_begin_transaction
  | TKeyword KCommit => SCommit <$> parse_commit
  | TKeyword KRollback => SRollback <$> parse_rollback
  | TKeyword KInsert => SInsert <$> parse_insert
  | TKeyword KSelect => SSelect <$> parse_select
  | TKeyword KUpdate => SUpdate <$> parse_update
  | TKeyword KDelete => SDelete <$> parse_delete
  | _ => error_current ExpectedStatementKeyword
  end.

(** [while self.consume_punctuation(Semicolon).is_some() {}] *)
Fixpoint skip_semicolons (fuel : nat) : P unit :=
  match fuel with
  | O => out_of_fuel
  | S fuel => semicolon ← consume_punctuation TSemicolon;
              match semicolon with Some _ => skip_semicolons fuel | None => mret tt end
  end.

Fixpoint parse_statements_loop (fuel : nat) (statements : list Statement) : P (list Statement) :=
  match fuel with
  | O => out_of_fuel
  | S fuel =>
      p ← get;
      if at_eof p then mret statements
      else
        _ ← skip_semicolons (fuel_of p);
        p ← get;
        if at_eof p then mret statements
        else
          statement ← parse_next_statement;
          semicolon ← consume_punctuation TSemicolon;
          p ← get;
          if negb (bool_decide (is_Some semicolon)) && negb (at_eof p) then error_current ExpectedSemicolon
          else parse_statements_loop fuel (statements ++ [statement])
  end.

Definition parse_statements : P (list Statement) := p ← get; parse_statements_loop (fuel_of p) [].

Section Sql.
Context `{CharTables}.

Definition parse_sql (sql : str) : SResult (list Statement) :=
  tokens ← tokenize sql; eval parse_statements (parser_new tokens).

Definition parse_statement (sql : str) : SResult Statement :=
  statements ← parse_sql sql;
  match statements with
  | [] => Err (mkSyntaxError ExpectedStatement (mkSpan 0 0))
  | [statement] => Ok statement
  | _ :: second :: _ => Err (mkSyntaxError ExpectedOneStatement (statement_span second))
  end.
End Sql.
