(* ===== verification/Grammar.v ===== *)
(** * The expression grammar

    What the expression parser accepts, as a grammar over tokens with
    binding powers, and a small logic for running the parser. *)
From S2P Require Import Prelude Token F64 Ast Lexer Parser.
Local Open Scope Z_scope.

(** ** The grammar *)

(** The power with which a token continues the expression to its left. *)
Definition power (k : TokenKind) : Z :=
  if bool_decide (k = TKeyword KIs) then IS_BINDING_POWER
  else match binary_operator k with Some (_, lp, _) => lp | None => -1 end.

Definition prefix_power (op : UnaryOperator) : Z := match op with Not => 5 | Plus | Minus => 11 end.

Definition right_power (op : BinaryOperator) : Z :=
  match op with
  | Or => 2
  | And => 4
  | Equal | NotEqual | LessThan | LessThanOrEqual | GreaterThan | GreaterThanOrEqual => 6
  | Add | Subtract => 8
  | Multiply | Divide | Modulo => 10
  end.

(** What an expression's right edge would absorb: a token of this power or
    more belongs to a subexpression. *)
Fixpoint edge (e : Expr) : Z :=
  match e with
  | EUnary op x _ => Z.min (prefix_power op) (edge x)
  | EBinary _ op r _ => Z.min (right_power op) (edge r)
  | _ => 100
  end.

(** How deep [parse_expression] calls itself to read the expression. *)
Fixpoint nesting (e : Expr) : Z :=
  match e with
  | EIdentifier _ | ELiteral _ _ => 1
  | EUnary _ x _ | EParenthesized x _ => 1 + nesting x
  | EBinary l _ r _ => Z.max (nesting l) (1 + nesting r)
  | EIsNull x _ _ => nesting x
  end.

(** A token that is an expression by itself. *)
Inductive atom : Expr -> Token -> Prop :=
| atom_identifier t v q : kind t = TIdentifier v q -> atom (EIdentifier (mkIdentifier v q (span t))) t
| atom_string t s : kind t = TString s -> atom (ELiteral (LString s) (span t)) t
| atom_number t raw l : kind t = TNumber raw -> number_literal raw (span t) = Ok l -> atom (ELiteral l (span t)) t
| atom_null t : kind t = TKeyword KNull -> atom (ELiteral LNull (span t)) t
| atom_true t : kind t = TKeyword KTrue -> atom (ELiteral (LBoolean true) (span t)) t
| atom_false t : kind t = TKeyword KFalse -> atom (ELiteral (LBoolean false) (span t)) t.

(** [derives m e ts]: the tokens [ts] spell [e], whose operators outside
    parentheses and prefix operands bind with power [m] or more. *)
Inductive derives : Z -> Expr -> list Token -> Prop :=
| derives_atom m e t : atom e t -> derives m e [t]
| derives_paren m e ts t1 t2 :
    kind t1 = TLeftParen -> derives 0 e ts -> kind t2 = TRightParen ->
    derives m (EParenthesized e (join (span t1) (span t2))) (t1 :: ts ++ [t2])
| derives_unary m op bp e ts t :
    prefix_operator (kind t) = Some (op, bp) -> derives bp e ts ->
    derives m (EUnary op e (join (span t) (expr_span e))) (t :: ts)
| derives_binary m l ls t op lp rp r rs :
    derives m l ls -> binary_operator (kind t) = Some (op, lp, rp) -> m <= lp -> lp < edge l -> derives rp r rs ->
    derives m (EBinary l op r (join (expr_span l) (expr_span r))) (ls ++ t :: rs)
| derives_is_null m x xs t1 t2 :
    derives m x xs -> kind t1 = TKeyword KIs -> m <= IS_BINDING_POWER -> IS_BINDING_POWER < edge x ->
    kind t2 = TKeyword KNull ->
    derives m (EIsNull x false (join (expr_span x) (span t2))) (xs ++ [t1; t2])
| derives_is_not_null m x xs t1 t t2 :
    derives m x xs -> kind t1 = TKeyword KIs -> m <= IS_BINDING_POWER -> IS_BINDING_POWER < edge x ->
    kind t = TKeyword KNot -> kind t2 = TKeyword KNull ->
    derives m (EIsNull x true (join (expr_span x) (span t2))) (xs ++ [t1; t; t2]).

Lemma power_small k : power k < 100.
Proof.
  unfold power, binary_operator. repeat case_match; simplify_eq; unfold IS_BINDING_POWER; lia.
Qed.

Lemma power_operator k op lp rp : binary_operator k = Some (op, lp, rp) -> power k = lp /\ right_power op = rp /\ 0 <= lp /\ 0 <= rp.
Proof.
  unfold power. destruct (bool_decide_reflect (k = TKeyword KIs)) as [->|_]; [done|]. intros Hop. rewrite Hop.
  split; [done|]. unfold binary_operator in Hop.
  destruct k as [[]| | | | | | | | | | | | | | | | | | | |]; simplify_eq; (split; [done|lia]).
Qed.

Lemma prefix_operator_power k op bp : prefix_operator k = Some (op, bp) -> bp = prefix_power op.
Proof. destruct k as [[]| | | | | | | | | | | | | | | | | | | |]; cbn; intros; simplify_eq; done. Qed.

Lemma nesting_pos e : 1 <= nesting e.
Proof. induction e; cbn; lia. Qed.

(** ** Running the parser on a fixed token vector *)

Section Run.
Variable ts : list Token.
Hypothesis ends : kind (nth (length ts - 1) ts end_token) = TEof.

Abbreviation len := (blen ts).
Abbreviation at_ c d := (mkParser ts c d).

Definition tok (c : Z) : Token := nth (Z.to_nat c) ts end_token.

(** The tokens from [c] up to [c']. *)
Definition cut (c c' : Z) : list Token := take (Z.to_nat (c' - c)) (drop (Z.to_nat c) ts).

Lemma current_at c d : 0 <= c < len -> current (at_ c d) = tok c.
Proof. intros. unfold current, tok, saturating_sub. cbn. do 2 f_equal. lia. Qed.

Lemma tok_in c : 0 <= c < len -> tok c ∈ ts.
Proof. intros. unfold tok. apply list_elem_of_In, nth_In. lia. Qed.

(** The last token is the end mark, so another token is not the last. *)
Lemma not_end c : 0 <= c < len -> kind (tok c) <> TEof -> c + 1 < len.
Proof.
  intros Hc Hk. destruct (decide (c + 1 < len)); [done|]. destruct Hk. unfold tok. replace (Z.to_nat c) with (length ts - 1)%nat by lia. done.
Qed.

Lemma cut_nil c : cut c c = [].
Proof. unfold cut. by rewrite Z.sub_diag. Qed.

Lemma cut_app c c1 c2 : 0 <= c <= c1 -> c1 <= c2 -> cut c c2 = cut c c1 ++ cut c1 c2.
Proof.
  intros. unfold cut. replace (Z.to_nat (c2 - c)) with (Z.to_nat (c1 - c) + Z.to_nat (c2 - c1))%nat by lia.
  rewrite <- take_take_drop, drop_drop. do 3 f_equal. lia.
Qed.

Lemma cut_one c : 0 <= c < len -> cut c (c + 1) = [tok c].
Proof.
  intros Hc. unfold cut, tok. replace (Z.to_nat (c + 1 - c)) with 1%nat by lia.
  destruct (lookup_lt_is_Some_2 ts (Z.to_nat c)) as [t Ht]; [lia|].
  rewrite (drop_S _ _ _ Ht). cbn. f_equal. symmetry. by apply nth_lookup_Some.
Qed.

Lemma cut_cons c c' : 0 <= c < len -> c + 1 <= c' -> cut c c' = tok c :: cut (c + 1) c'.
Proof. intros. rewrite (cut_app c (c + 1) c') by lia. by rewrite cut_one. Qed.

Lemma cut_length c c' : 0 <= c <= c' -> c' <= len -> blen (cut c c') = c' - c.
Proof. intros. unfold cut. rewrite length_take, length_drop. lia. Qed.

(** An error of the source, at one of the tokens. *)
Definition good_error (e : SyntaxError) : Prop :=
  message e <> FuelExhausted /\ exists t, t ∈ ts /\ err_span e = span t.

(** Running [m] at token [c] and depth [d] ends in a good error, or at a
    token [c'] with a value that satisfy the postcondition. *)
Definition runs {A} (c d : Z) (m : P A) (Q : Z -> A -> Prop) : Prop :=
  match m (at_ c d) with
  | (Ok a, p) => exists c', p = at_ c' d /\ c <= c' < len /\ Q c' a
  | (Err e, _) => good_error e
  end.

Implicit Types (c d : Z).

Lemma runs_bind {A B} c d (m : P A) (k : A -> P B) Q :
  runs c d m (fun c' a => runs c' d (k a) Q) -> runs c d (m ≫= k) Q.
Proof.
  unfold runs. unfold mbind, ST_bind. destruct (m _) as [[a|e] p]; [|done].
  intros (c' & -> & Hc & Hk). destruct (k a _) as [[b|e] p']; [|done].
  destruct Hk as (c'' & -> & Hc' & HQ). exists c''. split_and!; try done; lia.
Qed.

Lemma runs_ret {A} c d (a : A) Q : 0 <= c < len -> Q c a -> runs c d (mret a) Q.
Proof. intros Hc HQ. exists c. split_and!; try done; lia. Qed.

Lemma runs_fmap {A B} c d (f : A -> B) (m : P A) Q :
  0 <= c < len -> runs c d m (fun c' a => Q c' (f a)) -> runs c d (f <$> m) Q.
Proof.
  intros Hc Hm. unfold fmap, ST_fmap. apply runs_bind. unfold runs in *. destruct (m _) as [[a|e] p]; [|done].
  destruct Hm as (c' & -> & Hc' & HQ). exists c'. split_and!; try done; try lia. apply runs_ret; [lia|done].
Qed.

Lemma runs_get {B} c d (k : Parser -> P B) Q : runs c d (k (at_ c d)) Q -> runs c d (get ≫= k) Q.
Proof. done. Qed.

Lemma runs_mono {A} c d (m : P A) (Q R : Z -> A -> Prop) :
  runs c d m Q -> (forall c' a, c <= c' < len -> Q c' a -> R c' a) -> runs c d m R.
Proof.
  unfold runs. destruct (m _) as [[a|e] p]; [|done]. intros (c' & -> & Hc & HQ) HR. exists c'. split_and!; try done; try lia. by apply HR.
Qed.

Lemma runs_throw {A} c d m t Q : m <> FuelExhausted -> t ∈ ts -> runs (A := A) c d (throw (mkSyntaxError m (span t))) Q.
Proof. intros Hm Ht. split; [done|]. by exists t. Qed.

Lemma runs_error_current {A} c d m Q : 0 <= c < len -> m <> FuelExhausted -> runs (A := A) c d (error_current m) Q.
Proof.
  intros Hc Hm. apply runs_get. rewrite current_at by done. apply runs_throw; [done|by apply tok_in].
Qed.

Lemma runs_lift {A} c d (m : SResult A) Q :
  0 <= c < len -> (forall a, m = Ok a -> Q c a) -> (forall e, m = Err e -> good_error e) -> runs c d (lift m) Q.
Proof. unfold runs, lift. intros Hc HO HE. destruct m as [a|e]; [|by apply HE]. exists c. split_and!; try done; try lia. by apply HO. Qed.

(** [advance] stays at the end mark and moves over any other token. *)
Lemma runs_advance c d Q :
  0 <= c < len -> (kind (tok c) <> TEof -> c + 1 < len -> Q (c + 1) (tok c)) -> (kind (tok c) = TEof -> Q c (tok c)) ->
  runs c d advance Q.
Proof.
  intros Hc Hne He. unfold runs, advance. unfold mbind, ST_bind, get, modify, mret, ST_ret.
  rewrite current_at by done. case_bool_decide as Hk.
  - exists c. split_and!; try done; try lia. by apply He.
  - pose proof (not_end c Hc Hk). exists (c + 1). cbn. split_and!; try done; try lia. by apply Hne.
Qed.

Lemma runs_move c d Q : 0 <= c < len -> kind (tok c) <> TEof -> (c + 1 < len -> Q (c + 1) (tok c)) -> runs c d advance Q.
Proof. intros Hc Hk HQ. apply runs_advance; [done|by intros _|done]. Qed.

Lemma runs_expect_punctuation c d tk what Q :
  0 <= c < len -> tk <> TEof -> (kind (tok c) = tk -> c + 1 < len -> Q (c + 1) (tok c)) ->
  runs c d (expect_punctuation tk what) Q.
Proof.
  intros Hc Htk HQ. apply runs_get. unfold is_punctuation. rewrite current_at by done.
  case_bool_decide as Hk; [|by apply runs_error_current]. apply runs_move; [done|by rewrite Hk|by apply HQ].
Qed.

Lemma runs_expect_keyword c d kw Q :
  0 <= c < len -> (kind (tok c) = TKeyword kw -> c + 1 < len -> Q (c + 1) (tok c)) -> runs c d (expect_keyword kw) Q.
Proof.
  intros Hc HQ. apply runs_get. unfold is_keyword. rewrite current_at by done.
  case_bool_decide as Hk; [|by apply runs_error_current]. apply runs_move; [done|by rewrite Hk|by apply HQ].
Qed.

Lemma runs_consume_punctuation c d tk Q :
  0 <= c < len -> tk <> TEof -> (kind (tok c) = tk -> c + 1 < len -> Q (c + 1) (Some (tok c))) -> (kind (tok c) <> tk -> Q c None) ->
  runs c d (consume_punctuation tk) Q.
Proof.
  intros Hc Htk HS HN. apply runs_get. unfold is_punctuation. rewrite current_at by done.
  case_bool_decide as Hk; [|by apply runs_ret; [|by apply HN]].
  apply runs_bind, runs_move; [done|by rewrite Hk|]. intros. apply runs_ret; [lia|]. by apply HS.
Qed.

Lemma runs_consume_keyword c d kw Q :
  0 <= c < len -> (kind (tok c) = TKeyword kw -> c + 1 < len -> Q (c + 1) (Some (tok c))) -> (kind (tok c) <> TKeyword kw -> Q c None) ->
  runs c d (consume_keyword kw) Q.
Proof. intros Hc. by apply runs_consume_punctuation. Qed.

Lemma runs_parse_identifier c d Q :
  0 <= c < len -> (forall v q, kind (tok c) = TIdentifier v q -> c + 1 < len -> Q (c + 1) (mkIdentifier v q (span (tok c)))) ->
  runs c d parse_identifier Q.
Proof.
  intros Hc HQ. unfold parse_identifier. pose proof (tok_in c Hc).
  apply runs_bind, runs_advance; [done| |]; intros Hk; [intros Hl|rewrite Hk; by apply runs_throw].
  destruct (kind (tok c)) eqn:E; try (by apply runs_throw). apply runs_ret; [lia|by apply HQ].
Qed.

(** The items of a loop move on by a token each. *)
Definition moves_on {A} (d : Z) (m : P A) : Prop :=
  forall c (R : Z -> A -> Prop), 0 <= c < len -> (forall c' a, c < c' < len -> R c' a) -> runs c d m R.

Lemma runs_comma_loop {A} d (item : P A) fuel : forall items c Q,
  0 <= c < len -> len - c < Z.of_nat fuel -> moves_on d item ->
  (forall c' l, c < c' < len -> Q c' l) -> runs c d (comma_loop item fuel items) Q.
Proof.
  induction fuel as [|fuel IH]; intros items c Q Hc Hf Hitem HQ; [lia|]. cbn [comma_loop].
  apply runs_bind, Hitem; [done|]. intros c1 x Hc1.
  apply runs_bind, runs_consume_punctuation; [lia|done| |].
  - intros _ Hl. apply IH; [lia|lia|done|]. intros. apply HQ. lia.
  - intros _. apply runs_ret; [lia|]. apply HQ. lia.
Qed.

Lemma comma_list_moves {A} d (item : P A) : moves_on d item -> moves_on d (comma_list item).
Proof.
  intros Hitem c R Hc HR. apply runs_get. apply runs_comma_loop; [done| |done|done]. unfold fuel_of. cbn. lia.
Qed.

(** ** The expression parser follows the grammar *)

(** Where an expression ends: the next token continues neither the
    expression nor its right edge. *)
Definition stops (m : Z) (e : Expr) (c : Z) : Prop := power (kind (tok c)) < m /\ power (kind (tok c)) < edge e.

Definition reads_expression (d : Z) (rec : Z -> P Expr) : Prop :=
  forall m c Q, 0 <= c < len -> 0 <= m ->
  (forall c' e, c < c' < len -> derives m e (cut c c') -> stops m e c' -> d + nesting e <= MAX_EXPRESSION_DEPTH -> Q c' e) ->
  runs c d (rec m) Q.

Section Inner.
Variable rec : Z -> P Expr.
Variable d : Z.
Hypothesis room : d <= MAX_EXPRESSION_DEPTH.
Hypothesis rec_reads : reads_expression d rec.

Lemma number_literal_error raw t e : t ∈ ts -> number_literal raw (span t) = Err e -> good_error e.
Proof.
  intros Ht. unfold number_literal, ok_or. case_match; case_match; intros; simplify_eq/=; (split; [done|by exists t]).
Qed.

Lemma primary_reads c Q :
  0 <= c < len ->
  (forall c' e, c < c' < len -> (forall m, derives m e (cut c c')) -> edge e = 100 -> d + nesting e <= MAX_EXPRESSION_DEPTH + 1 -> Q c' e) ->
  runs c d (parse_primary_expression rec) Q.
Proof.
  intros Hc HQ. unfold parse_primary_expression. pose proof (tok_in c Hc) as Hin.
  apply runs_bind, runs_advance; [done|intros Hk Hl|intros Hk; rewrite Hk; by apply runs_throw].
  assert (forall e, atom e (tok c) -> edge e = 100 -> nesting e = 1 -> runs (c + 1) d (mret e : P Expr) Q) as Hatom.
  { intros e Ha He Hn. apply runs_ret; [lia|]. apply HQ; [lia| |done|lia]. intros m. rewrite cut_one by done. by constructor. }
  destruct (kind (tok c)) as [k|v q|raw|v| | | | | | | | | | | | | | | | |] eqn:E; try (by apply runs_throw).
  - destruct k; try (by apply runs_throw); apply Hatom; try done; by constructor.
  - apply Hatom; try done. by constructor.
  - apply runs_bind, runs_lift; [lia| |by intros e; apply number_literal_error]. intros l Hlit. apply Hatom; try done. by econstructor.
  - apply Hatom; try done. by constructor.
  - apply runs_bind, rec_reads; [lia|lia|]. intros c1 e Hc1 Hd _ Hn.
    apply runs_bind, runs_expect_punctuation; [lia|done|]. intros Hk2 Hl2. apply runs_ret; [lia|].
    apply HQ; [lia| |done|cbn; lia]. intros m. rewrite (cut_cons c) by lia. rewrite (cut_app (c + 1) c1) by lia. rewrite (cut_one c1) by lia.
    by constructor.
Qed.

Lemma prefix_reads c Q :
  0 <= c < len ->
  (forall c' e, c < c' < len -> (forall m, derives m e (cut c c')) -> power (kind (tok c')) < edge e -> d + nesting e <= MAX_EXPRESSION_DEPTH + 1 -> Q c' e) ->
  runs c d (parse_prefix_expression rec) Q.
Proof.
  intros Hc HQ. unfold parse_prefix_expression. apply runs_get. rewrite current_at by done.
  destruct (prefix_operator (kind (tok c))) as [[op bp]|] eqn:E.
  - apply runs_bind, runs_move; [done|by intros H; rewrite H in E|intros Hl].
    assert (0 <= bp) by (rewrite (prefix_operator_power _ _ _ E); destruct op; cbn; lia).
    apply runs_bind, rec_reads; [lia|lia|]. intros c1 e Hc1 Hd [Hs1 Hs2] Hn. apply runs_ret; [lia|].
    apply HQ; [lia| |cbn; rewrite <- (prefix_operator_power _ _ _ E); lia|cbn; lia].
    intros m. rewrite (cut_cons c) by lia. by econstructor.
  - apply primary_reads; [done|]. intros c1 e Hc1 Hd He Hn. apply HQ; try done. rewrite He. apply power_small.
Qed.

Lemma infix_reads fuel : forall m c0 c left Q,
  0 <= m -> 0 <= c0 < c -> c < len -> len - c < Z.of_nat fuel ->
  derives m left (cut c0 c) -> power (kind (tok c)) < edge left -> d + nesting left <= MAX_EXPRESSION_DEPTH + 1 ->
  (forall c' e, c <= c' < len -> derives m e (cut c0 c') -> stops m e c' -> d + nesting e <= MAX_EXPRESSION_DEPTH + 1 -> Q c' e) ->
  runs c d (infix_loop rec fuel m left) Q.
Proof.
  induction fuel as [|fuel IH]; intros m c0 c left Q Hm Hc0 Hc Hf Hd He Hn HQ; [lia|]. cbn [infix_loop].
  apply runs_get. unfold is_keyword, current_binary_operator. rewrite current_at by lia.
  assert (power (kind (tok c)) < m -> runs c d (mret left : P Expr) Q) as Hret
    by (intros; apply runs_ret; [lia|]; apply HQ; [lia|done|by split|lia]).
  destruct (bool_decide_reflect (kind (tok c) = TKeyword KIs)) as [Hk|Hk].
  - assert (power (kind (tok c)) = IS_BINDING_POWER) as Hp by (by rewrite Hk).
    destruct (Z.ltb_spec IS_BINDING_POWER m); [apply Hret; lia|].
    apply runs_bind, runs_move; [lia|by rewrite Hk|intros Hl].
    apply runs_bind, runs_consume_keyword; [lia| |]; intros Hnot; [intros Hl2|].
    + apply runs_bind, runs_expect_keyword; [lia|]. intros Hnull Hl3.
      apply (IH m c0); [lia|lia|lia|lia| |cbn; apply power_small|cbn; lia|intros; apply HQ; [lia|done..]].
      rewrite (cut_app c0 c) by lia. rewrite (cut_cons c), (cut_cons (c + 1)), cut_one by lia. rewrite bool_decide_eq_true_2 by done.
      apply derives_is_not_null; done || lia.
    + apply runs_bind, runs_expect_keyword; [lia|]. intros Hnull Hl3.
      apply (IH m c0); [lia|lia|lia|lia| |cbn; apply power_small|cbn; lia|intros; apply HQ; [lia|done..]].
      rewrite (cut_app c0 c) by lia. rewrite (cut_cons c), cut_one by lia. rewrite bool_decide_eq_false_2 by (by intros [? ?]).
      apply derives_is_null; done || lia.
  - destruct (binary_operator (kind (tok c))) as [[[op lp] rp]|] eqn:Eop.
    + destruct (power_operator _ _ _ _ Eop) as (Hp & Hrp & Hlp & Hrp0). destruct (Z.ltb_spec lp m); [apply Hret; lia|].
      apply runs_bind, runs_move; [lia|by intros H'; rewrite H' in Eop|intros Hl].
      apply runs_bind, rec_reads; [lia|lia|]. intros c1 r Hc1 Hdr [Hs1 Hs2] Hnr.
      apply (IH m c0); [lia|lia|lia|lia| |cbn; lia|cbn; lia|intros; apply HQ; [lia|done..]].
      rewrite (cut_app c0 c) by lia. rewrite (cut_cons c) by lia. eapply derives_binary; try done; lia.
    + assert (power (kind (tok c)) = -1) as Hp by (unfold power; by rewrite bool_decide_eq_false_2, Eop).
      apply Hret. lia.
Qed.

Lemma inner_reads m c Q :
  0 <= c < len -> 0 <= m ->
  (forall c' e, c < c' < len -> derives m e (cut c c') -> stops m e c' -> d + nesting e <= MAX_EXPRESSION_DEPTH + 1 -> Q c' e) ->
  runs c d (parse_expression_inner rec m) Q.
Proof.
  intros Hc Hm HQ. unfold parse_expression_inner. apply runs_bind, prefix_reads; [done|]. intros c1 e Hc1 Hd He Hn.
  apply runs_get. apply (infix_reads _ m c); [done|lia|lia|unfold fuel_of; cbn; lia|done|done|done|]. intros. apply HQ; [lia|done..].
Qed.
End Inner.

Lemma runs_nested {A} c d (m : P A) Q : runs c (d + 1) m Q -> runs c d (nested m) Q.
Proof.
  unfold runs, nested, set_depth. cbn. destruct (m _) as [[a|e] p]; [|done].
  intros (c' & -> & Hc & HQ). exists c'. split_and!; try done; try lia. cbn. f_equal. lia.
Qed.

Lemma expression_at_reads room : forall d,
  d <= MAX_EXPRESSION_DEPTH -> MAX_EXPRESSION_DEPTH - d < Z.of_nat room -> reads_expression d (parse_expression_at room).
Proof.
  induction room as [|room IH]; intros d Hd Hroom m c Q Hc Hm HQ; [lia|]. cbn [parse_expression_at].
  apply runs_get. cbn [p_expression_depth]. destruct (Z.leb_spec MAX_EXPRESSION_DEPTH d); [by apply runs_error_current|].
  apply runs_nested, inner_reads; [lia|apply IH; lia|done|done|]. intros. apply HQ; [done..|lia].
Qed.

Lemma expression_reads d : d <= MAX_EXPRESSION_DEPTH -> reads_expression d parse_expression.
Proof.
  intros Hd m c Q Hc Hm HQ. apply runs_get. apply expression_at_reads; [done| |done|done|done].
  unfold room_of. cbn [p_expression_depth]. lia.
Qed.

Lemma expression_moves d m : d <= MAX_EXPRESSION_DEPTH -> 0 <= m -> moves_on d (parse_expression m).
Proof. intros Hd Hm c R Hc HR. apply expression_reads; [done..|]. intros. by apply HR. Qed.
End Run.
