(* ===== verification/ParserFacts.v ===== *)
(** * What the parser guarantees

    The expression parser accepts exactly the grammar; every loop of the
    parser ends, and its errors point into the text. *)
From S2P Require Import Prelude Token F64 Ast Lexer LexerFacts Parser Grammar.
Local Open Scope Z_scope.

Lemma edge_pos e : 2 <= edge e.
Proof. induction e as [| |op e IH|l IHl op r IHr| |]; cbn; try lia; destruct op; cbn; lia. Qed.

Section Complete.
Variable ts : list Token.

Abbreviation len := (blen ts).
Abbreviation at_ c d := (mkParser ts c d).
Abbreviation tok := (tok ts).

(** ** Steps on a given token *)

Lemma advance_eq c d : 0 <= c < len -> kind (tok c) <> TEof -> advance (at_ c d) = (Ok (tok c), at_ (c + 1) d).
Proof.
  intros Hc Hk. unfold advance, mbind, ST_bind, get, modify, mret, ST_ret. rewrite current_at by done.
  by rewrite bool_decide_eq_false_2.
Qed.

Lemma expect_punctuation_eq c d k what :
  0 <= c < len -> k <> TEof -> kind (tok c) = k -> expect_punctuation k what (at_ c d) = (Ok (tok c), at_ (c + 1) d).
Proof.
  intros Hc Hne Hk. unfold expect_punctuation, mbind, ST_bind, get, is_punctuation. rewrite current_at by done.
  rewrite bool_decide_eq_true_2 by done. apply advance_eq; [done|by rewrite Hk].
Qed.

Lemma expect_keyword_eq c d k :
  0 <= c < len -> kind (tok c) = TKeyword k -> expect_keyword k (at_ c d) = (Ok (tok c), at_ (c + 1) d).
Proof.
  intros Hc Hk. unfold expect_keyword, mbind, ST_bind, get, is_keyword. rewrite current_at by done.
  rewrite bool_decide_eq_true_2 by done. apply advance_eq; [done|by rewrite Hk].
Qed.

Lemma consume_keyword_eq c d k :
  0 <= c < len -> consume_keyword k (at_ c d) =
    if bool_decide (kind (tok c) = TKeyword k) then (Ok (Some (tok c)), at_ (c + 1) d) else (Ok None, at_ c d).
Proof.
  intros Hc. unfold consume_keyword, is_keyword. unfold mbind at 1, ST_bind at 1, get. rewrite current_at by done.
  case_bool_decide as Hk; [|done]. rewrite (ST_bind_step _ _ _ _ _ (advance_eq c d Hc ltac:(by rewrite Hk))). done.
Qed.

(** ** Segments of the token vector *)

(** The tokens [seg] are at [c], and more tokens follow. *)
Definition spelled (c : Z) (seg : list Token) : Prop :=
  0 <= c /\ c + blen seg < len /\ drop (Z.to_nat c) ts = seg ++ drop (Z.to_nat (c + blen seg)) ts.

Lemma spelled_cons c t seg : spelled c (t :: seg) <-> (0 <= c < len /\ tok c = t) /\ spelled (c + 1) seg.
Proof.
  unfold spelled. cbn [length app]. rewrite Nat2Z.inj_succ. replace (c + Z.succ (blen seg)) with (c + 1 + blen seg) by lia.
  split.
  - intros (Hc & Hl & Hd). destruct (lookup_lt_is_Some_2 ts (Z.to_nat c)) as [t' Ht']; [lia|].
    rewrite (drop_S _ _ _ Ht') in Hd. simplify_eq. split_and!; try lia.
    + unfold Grammar.tok. by apply nth_lookup_Some.
    + replace (Z.to_nat (c + 1)) with (S (Z.to_nat c)) by lia. done.
  - intros ((Hc & Ht) & Hc1 & Hl & Hd). split_and!; try lia.
    destruct (lookup_lt_is_Some_2 ts (Z.to_nat c)) as [t' Ht']; [lia|].
    rewrite (drop_S _ _ _ Ht'). unfold Grammar.tok in Ht. rewrite (nth_lookup_Some _ _ _ _ Ht') in Ht. subst t'.
    replace (S (Z.to_nat c)) with (Z.to_nat (c + 1)) by lia. by rewrite Hd at 1.
Qed.

Lemma spelled_nil c : spelled c [] <-> 0 <= c < len.
Proof. unfold spelled. cbn. rewrite Z.add_0_r. naive_solver. Qed.

Lemma spelled_app c a b : spelled c (a ++ b) <-> spelled c a /\ spelled (c + blen a) b.
Proof.
  revert c. induction a as [|t a IH]; intros c; cbn [app].
  - rewrite spelled_nil. cbn [length]. rewrite Z.add_0_r. split; [|by intros [_ ?]]. intros Hs. split; [|done]. destruct Hs as (? & ? & _). lia.
  - rewrite !spelled_cons, IH. cbn [length]. rewrite Nat2Z.inj_succ. replace (c + Z.succ (blen a)) with (c + 1 + blen a) by lia. naive_solver.
Qed.

Lemma spelled_cut c c' : 0 <= c <= c' -> c' < len -> spelled c (cut ts c c').
Proof.
  intros Hc Hl. unfold spelled. rewrite cut_length by lia. split_and!; try lia.
  unfold cut. replace (c + (c' - c)) with c' by lia.
  rewrite <- (take_drop (Z.to_nat (c' - c)) (drop (Z.to_nat c) ts)) at 1. rewrite drop_drop. do 2 f_equal. lia.
Qed.

Lemma cut_spelled c seg : spelled c seg -> cut ts c (c + blen seg) = seg.
Proof.
  intros (Hc & Hl & Hd). unfold cut. rewrite Hd. replace (Z.to_nat (c + blen seg - c)) with (length seg) by lia.
  apply take_app_length.
Qed.

(** ** The parser reads every derivable expression *)

Lemma prefix_operator_atom e t : atom e t -> prefix_operator (kind t) = None /\ kind t <> TEof.
Proof. intros []; by rewrite H. Qed.

Section Level.
Variable rec : Z -> P Expr.
Variable d : Z.

(** [rec] reads [e] from the tokens [seg]. *)
Definition rec_accepts (m : Z) (e : Expr) (seg : list Token) : Prop :=
  forall c, spelled c seg -> stops ts m e (c + blen seg) -> rec m (at_ c d) = (Ok e, at_ (c + blen seg) d).

(** The loop reaches [e] after the tokens [seg]. *)
Definition inner_reaches (m : Z) (e : Expr) (seg : list Token) : Prop :=
  forall c, spelled c seg -> power (kind (tok (c + blen seg))) < edge e ->
  exists fuel, len - (c + blen seg) < Z.of_nat fuel /\
    parse_expression_inner rec m (at_ c d) = infix_loop rec fuel m e (at_ (c + blen seg) d).

Lemma prefix_reaches m e seg :
  (forall c, spelled c seg -> power (kind (tok (c + blen seg))) < edge e ->
     parse_prefix_expression rec (at_ c d) = (Ok e, at_ (c + blen seg) d)) -> inner_reaches m e seg.
Proof.
  intros Hpre c Hs He. exists (fuel_of (at_ (c + blen seg) d)). split; [unfold fuel_of; cbn; lia|].
  unfold parse_expression_inner. by rewrite (ST_bind_step _ _ _ _ _ (Hpre c Hs He)).
Qed.

Lemma atom_reaches m e t : atom e t -> inner_reaches m e [t].
Proof.
  intros Ha. destruct (prefix_operator_atom e t Ha) as [Hp Hne]. apply prefix_reaches.
  intros c [[Hc Ht] _]%spelled_cons _. unfold parse_prefix_expression. unfold mbind, ST_bind, get. rewrite current_at by done. rewrite Ht, Hp.
  unfold parse_primary_expression. rewrite <- Ht in Hne. rewrite (ST_bind_step _ _ _ _ _ (advance_eq c d Hc Hne)). rewrite Ht.
  destruct Ha as [t v q E|t s E|t raw l E El|t E|t E|t E]; rewrite E; try done. unfold lift, mbind, ST_bind. by rewrite El.
Qed.

Lemma paren_reaches m e seg t1 t2 :
  kind t1 = TLeftParen -> kind t2 = TRightParen -> rec_accepts 0 e seg ->
  inner_reaches m (EParenthesized e (join (span t1) (span t2))) (t1 :: seg ++ [t2]).
Proof.
  intros H1 H2 Hrec. apply prefix_reaches. intros c [[Hc Ht1] [Hseg [[Hc2 Ht2] _]%spelled_cons]%spelled_app]%spelled_cons _.
  unfold parse_prefix_expression. unfold mbind at 1, ST_bind at 1, get. rewrite current_at by done. rewrite Ht1, H1. cbn [prefix_operator].
  unfold parse_primary_expression. rewrite (ST_bind_step _ _ _ _ _ (advance_eq c d Hc ltac:(by rewrite Ht1, H1))). rewrite Ht1, H1.
  assert (stops ts 0 e (c + 1 + blen seg)) as Hstop.
  { unfold stops. rewrite Ht2, H2. pose proof (edge_pos e). change (power TRightParen) with (-1). lia. }
  rewrite (ST_bind_step _ _ _ _ _ (Hrec _ Hseg Hstop)).
  rewrite (ST_bind_step _ _ _ _ _ (expect_punctuation_eq (c + 1 + blen seg) d TRightParen _ Hc2 ltac:(done) ltac:(by rewrite Ht2))).
  rewrite Ht2. cbn [length]. rewrite length_app. cbn [length].
  by replace (c + Z.of_nat (S (length seg + 1))) with (c + 1 + blen seg + 1) by lia.
Qed.

Lemma unary_reaches m op bp e seg t :
  prefix_operator (kind t) = Some (op, bp) -> rec_accepts bp e seg ->
  inner_reaches m (EUnary op e (join (span t) (expr_span e))) (t :: seg).
Proof.
  intros Hp Hrec. apply prefix_reaches. intros c [[Hc Ht] Hseg]%spelled_cons He. cbn [length] in *. rewrite Nat2Z.inj_succ in *.
  replace (c + Z.succ (blen seg)) with (c + 1 + blen seg) in * by lia.
  unfold parse_prefix_expression. unfold mbind at 1, ST_bind at 1, get. rewrite current_at by done. rewrite Ht, Hp.
  rewrite (ST_bind_step _ _ _ _ _ (advance_eq c d Hc ltac:(rewrite Ht; by intros E; rewrite E in Hp))). rewrite Ht.
  cbn [edge] in He. rewrite <- (prefix_operator_power _ _ _ Hp) in He.
  by rewrite (ST_bind_step _ _ _ _ _ (Hrec _ Hseg ltac:(split; lia))).
Qed.

Lemma binary_reaches m l ls t op lp rp r rs :
  inner_reaches m l ls -> binary_operator (kind t) = Some (op, lp, rp) -> m <= lp -> lp < edge l -> rec_accepts rp r rs ->
  inner_reaches m (EBinary l op r (join (expr_span l) (expr_span r))) (ls ++ t :: rs).
Proof.
  intros Hl Hop Hm Hedge Hr c [Hls [[Hc Ht] Hrs]%spelled_cons]%spelled_app He.
  destruct (power_operator _ _ _ _ Hop) as (Hp & Hrp & _).
  destruct (Hl c Hls) as (fuel & Hf & ->); [rewrite Ht; lia|]. rewrite length_app in *. cbn [length edge] in *.
  replace (c + Z.of_nat (length ls + S (length rs))) with (c + blen ls + 1 + blen rs) in * by lia.
  destruct fuel as [|fuel]; [lia|]. exists fuel. split; [lia|]. cbn [infix_loop].
  unfold mbind at 1, ST_bind at 1, get. unfold is_keyword, current_binary_operator. rewrite current_at by done. rewrite Ht, Hop.
  rewrite bool_decide_eq_false_2 by (by intros E; rewrite E in Hop).
  rewrite (proj2 (Z.ltb_ge lp m) Hm).
  rewrite (ST_bind_step _ _ _ _ _ (advance_eq (c + blen ls) d Hc ltac:(rewrite Ht; by intros E; rewrite E in Hop))).
  by rewrite (ST_bind_step _ _ _ _ _ (Hr _ Hrs ltac:(split; lia))).
Qed.

Lemma is_null_reaches m x xs t1 ns t2 :
  inner_reaches m x xs -> kind t1 = TKeyword KIs -> m <= IS_BINDING_POWER -> IS_BINDING_POWER < edge x ->
  (ns = [] \/ exists t, kind t = TKeyword KNot /\ ns = [t]) -> kind t2 = TKeyword KNull ->
  inner_reaches m (EIsNull x (negb (bool_decide (ns = []))) (join (expr_span x) (span t2))) (xs ++ t1 :: ns ++ [t2]).
Proof.
  intros Hx H1 Hm Hedge Hns H2 c [Hxs [[Hc Ht1] [Hnss [[Hc2 Ht2] _]%spelled_cons]%spelled_app]%spelled_cons]%spelled_app He.
  destruct (Hx c Hxs) as (fuel & Hf & ->); [rewrite Ht1, H1; exact Hedge|]. rewrite length_app in *. cbn [length] in *. rewrite length_app in *. cbn [length] in *.
  replace (c + Z.of_nat (length xs + S (length ns + 1))) with (c + blen xs + 1 + blen ns + 1) in * by lia.
  destruct fuel as [|fuel]; [lia|]. exists fuel. split; [lia|]. cbn [infix_loop].
  unfold mbind at 1, ST_bind at 1, get. unfold is_keyword. rewrite current_at by done. rewrite Ht1, H1.
  rewrite bool_decide_eq_true_2 by done. rewrite (proj2 (Z.ltb_ge _ _) Hm).
  rewrite (ST_bind_step _ _ _ _ _ (advance_eq (c + blen xs) d Hc ltac:(by rewrite Ht1, H1))).
  assert (consume_keyword KNot (at_ (c + blen xs + 1) d) = (Ok (head ns), at_ (c + blen xs + 1 + blen ns) d)) as Hnot.
  { destruct Hns as [->|(t & Ht & ->)].
    - cbn [length head] in *. rewrite Z.add_0_r in *. rewrite consume_keyword_eq by done. by rewrite Ht2, H2.
    - apply spelled_cons in Hnss as [[Hc3 Ht3] _]. rewrite consume_keyword_eq by done. rewrite Ht3, Ht. done. }
  rewrite (ST_bind_step _ _ _ _ _ Hnot).
  rewrite (ST_bind_step _ _ _ _ _ (expect_keyword_eq (c + blen xs + 1 + blen ns) d KNull Hc2 ltac:(by rewrite Ht2))).
  rewrite Ht2. by destruct Hns as [->|(t & Ht & ->)].
Qed.
End Level.

Lemma infix_loop_stops rec fuel m e c d :
  0 <= c < len -> 0 <= m -> power (kind (tok c)) < m -> infix_loop rec (S fuel) m e (at_ c d) = (Ok e, at_ c d).
Proof.
  intros Hc Hm Hp. cbn [infix_loop]. unfold mbind, ST_bind, get. unfold is_keyword, current_binary_operator. rewrite current_at by done.
  unfold power in Hp. case_bool_decide as Hk.
  - by rewrite (proj2 (Z.ltb_lt IS_BINDING_POWER m) Hp).
  - destruct (binary_operator (kind (tok c))) as [[[op lp] rp]|]; [|done]. by rewrite (proj2 (Z.ltb_lt lp m) Hp).
Qed.

Lemma reaches_accepts room d m e seg :
  d < MAX_EXPRESSION_DEPTH -> 0 <= m -> inner_reaches (parse_expression_at room) (d + 1) m e seg ->
  rec_accepts (parse_expression_at (S room)) d m e seg.
Proof.
  intros Hd Hm Hin c Hs [Hstop1 Hstop2]. cbn [parse_expression_at]. unfold mbind at 1, ST_bind at 1, get. cbn [p_expression_depth].
  rewrite (proj2 (Z.leb_gt MAX_EXPRESSION_DEPTH d) Hd). unfold nested, set_depth. cbn [p_tokens p_cursor p_expression_depth].
  destruct (Hin c Hs Hstop2) as (fuel & Hf & ->). destruct Hs as (? & ? & _). destruct fuel as [|fuel]; [lia|].
  rewrite infix_loop_stops by (done || lia). cbn. do 2 f_equal. lia.
Qed.

Lemma derives_reaches m e seg :
  derives m e seg -> forall room d, d + nesting e <= MAX_EXPRESSION_DEPTH + 1 -> MAX_EXPRESSION_DEPTH - d < Z.of_nat room ->
  inner_reaches (parse_expression_at room) d m e seg.
Proof.
  assert (forall room d m e seg, 0 <= m -> d + nesting e <= MAX_EXPRESSION_DEPTH -> MAX_EXPRESSION_DEPTH - d < Z.of_nat room ->
    (forall room d, d + nesting e <= MAX_EXPRESSION_DEPTH + 1 -> MAX_EXPRESSION_DEPTH - d < Z.of_nat room ->
       inner_reaches (parse_expression_at room) d m e seg) -> rec_accepts (parse_expression_at room) d m e seg) as Hrec.
  { intros room d m' e' seg' Hm Hn Hroom IH. pose proof (nesting_pos e'). destruct room as [|room]; [lia|].
    apply reaches_accepts; [lia|done|]. apply IH; lia. }
  induction 1 as [m e t Ha|m e ts0 t1 t2 H1 Hd IH H2|m op bp e ts0 t Hp Hd IH|m l ls t op lp rp r rs Hl IHl Hop Hm He Hr IHr
                 |m x xs t1 t2 Hx IH H1 Hm He H2|m x xs t1 t t2 Hx IH H1 Hm He Ht H2]; intros room d Hn Hroom; cbn [nesting] in Hn.
  - by apply atom_reaches.
  - apply paren_reaches; [done|done|]. apply Hrec; [lia..|done].
  - apply (unary_reaches _ _ _ op bp); [done|]. apply Hrec; [rewrite (prefix_operator_power _ _ _ Hp); destruct op; cbn; lia|lia..|done].
  - destruct (power_operator _ _ _ _ Hop) as (_ & _ & _ & Hrp). eapply binary_reaches; [apply IHl; lia|done..|]. apply Hrec; [lia..|done].
  - apply (is_null_reaches _ _ m x xs t1 [] t2); try done; [apply IH; lia|by left].
  - apply (is_null_reaches _ _ m x xs t1 [t] t2); try done; [apply IH; lia|right; by exists t].
Qed.

(** The parser reads [e] from the tokens [seg] that spell it. *)
Lemma expression_accepts m e seg c d :
  derives m e seg -> 0 <= m -> d + nesting e <= MAX_EXPRESSION_DEPTH -> spelled c seg -> stops ts m e (c + blen seg) ->
  parse_expression m (at_ c d) = (Ok e, at_ (c + blen seg) d).
Proof.
  intros Hd Hm Hn Hs Hstop. pose proof (nesting_pos e). unfold parse_expression. unfold mbind, ST_bind, get.
  unfold room_of. cbn [p_expression_depth]. apply reaches_accepts; [lia|done| |done|done].
  apply derives_reaches; [done|lia|lia].
Qed.
End Complete.

(** The tokens from [c] to [c'] are a maximal expression that binds with
    power [m] or more, and reading it at depth [d] stays within the limit. *)
Definition sentence (ts : list Token) (m c c' d : Z) (e : Expr) : Prop :=
  c < c' < blen ts /\ derives m e (cut ts c c') /\ stops ts m e c' /\ d + nesting e <= MAX_EXPRESSION_DEPTH.

(** C37: the expression parser accepts exactly the expression grammar: at any
    token and nesting depth it returns [e] and stops at token [c'] if and
    only if the tokens in between spell [e] by the precedence grammar
    [derives], the token at [c'] continues neither [e] nor its right edge,
    and the nesting stays within the limit. *)
Theorem parse_expression_grammar (ts : list Token) (m c c' d : Z) (e : Expr) :
  kind (nth (length ts - 1) ts end_token) = TEof -> 0 <= c < blen ts -> 0 <= m -> 0 <= d <= MAX_EXPRESSION_DEPTH ->
  parse_expression m (mkParser ts c d) = (Ok e, mkParser ts c' d) <-> sentence ts m c c' d e.
Proof.
  intros Hend Hc Hm Hd. split.
  - intros Hrun.
    assert (runs ts c d (parse_expression m) (fun c' e => c < c' < blen ts /\ derives m e (cut ts c c') /\ stops ts m e c' /\
      d + nesting e <= MAX_EXPRESSION_DEPTH)) as Hreads by (apply expression_reads; [done|lia|done|done|]; intros c1 e1 H1 H2 H3 H4; exact (conj H1 (conj H2 (conj H3 H4)))).
    unfold runs in Hreads. rewrite Hrun in Hreads. destruct Hreads as (c1 & [= <-] & _ & HQ). exact HQ.
  - intros (Hc' & Hder & Hstop & Hn).
    pose proof (cut_length ts c c' ltac:(lia) ltac:(lia)) as Hlen.
    rewrite (expression_accepts ts m e (cut ts c c') c d); [|done|done|done|apply spelled_cut; lia|].
    + do 3 f_equal. lia.
    + rewrite Hlen. by replace (c + (c' - c)) with c' by lia.
Qed.

(** [1 + 2 * 3]: the product is the right operand of the sum. *)
Definition sum_tokens : list Token :=
  (fun k => mkToken k (mkSpan 0 0)) <$> [TNumber [49]; TPlus; TNumber [50]; TStar; TNumber [51]; TEof].

Definition sum_tree : Expr :=
  let lit n := ELiteral (LInteger n) (mkSpan 0 0) in
  EBinary (lit 1) Add (EBinary (lit 2) Multiply (lit 3) (mkSpan 0 0)) (mkSpan 0 0).

Lemma parse_expression_grammar_witness :
  parse_expression 0 (mkParser sum_tokens 0 0) = (Ok sum_tree, mkParser sum_tokens 5 0) /\ derives 0 sum_tree (cut sum_tokens 0 5).
Proof.
  assert (parse_expression 0 (mkParser sum_tokens 0 0) = (Ok sum_tree, mkParser sum_tokens 5 0)) as Hrun by (vm_compute; reflexivity).
  split; [exact Hrun|].
  apply (parse_expression_grammar sum_tokens 0 0 5 0 sum_tree) in Hrun; [apply Hrun|reflexivity|cbn; lia|lia|unfold MAX_EXPRESSION_DEPTH; lia].
Defined.

(** ** Statements *)

Section Statements.
Variable ts : list Token.
Hypothesis ends : kind (nth (length ts - 1) ts end_token) = TEof.
Variable d : Z.
Hypothesis shallow : d <= MAX_EXPRESSION_DEPTH.

Abbreviation len := (blen ts).
Abbreviation tok := (tok ts).
Abbreviation moves_on := (moves_on ts d).

Create HintDb parser.

Lemma runs_moves {A} (m : P A) c Q : moves_on m -> 0 <= c < len -> (forall c' a, c < c' < len -> Q c' a) -> runs ts c d m Q.
Proof. intros Hm. apply Hm. Qed.

(** Operations that may read nothing. *)
Definition stays {A} (m : P A) : Prop :=
  forall c (R : Z -> A -> Prop), 0 <= c < len -> (forall c' a, c <= c' < len -> R c' a) -> runs ts c d m R.

Lemma runs_stays {A} (m : P A) c Q : stays m -> 0 <= c < len -> (forall c' a, c <= c' < len -> Q c' a) -> runs ts c d m Q.
Proof. intros Hm. apply Hm. Qed.

Lemma identifier_moves : moves_on parse_identifier.
Proof. intros c R Hc HR. apply runs_parse_identifier; [done|done|]. intros. apply HR. lia. Qed.

Lemma expression_moves_on m : 0 <= m -> moves_on (parse_expression m).
Proof. intros Hm. by apply expression_moves. Qed.

Lemma comma_list_moves_on {A} (m : P A) : moves_on m -> moves_on (comma_list m).
Proof. by apply comma_list_moves. Qed.

#[local] Hint Resolve identifier_moves comma_list_moves_on : parser.
#[local] Hint Extern 0 (Grammar.moves_on _ _ (parse_expression _)) => apply expression_moves_on; lia : parser.

(** Runs one step of the parser: the rule for the leading operation. *)
Ltac step :=
  cbv beta iota;
  lazymatch goal with
  | |- runs _ _ _ (get ≫= _) _ =>
      apply runs_get; cbn [p_expression_depth]; unfold is_keyword, is_punctuation, at_eof; rewrite ?current_at by lia
  | |- runs _ _ _ (_ ≫= _) _ => apply runs_bind
  | |- runs _ _ _ (_ <$> _) _ => apply runs_fmap; [lia|]
  | |- runs _ _ _ (mret _) _ => apply runs_ret; [lia|]
  | |- runs _ _ _ (expect_keyword _) _ => apply runs_expect_keyword; [done|lia|intros ? ?]
  | |- runs _ _ _ (expect_punctuation _ _) _ => apply runs_expect_punctuation; [done|lia|done|intros ? ?]
  | |- runs _ _ _ (consume_keyword _) _ => apply runs_consume_keyword; [done|lia|intros ? ?|intros ?]
  | |- runs _ _ _ (consume_punctuation _) _ => apply runs_consume_punctuation; [done|lia|done|intros ? ?|intros ?]
  | |- runs _ _ _ advance _ => apply runs_advance; [done|lia|intros ? ?|let H := fresh in intros H; rewrite H]
  | |- runs _ _ _ (error_current _) _ => apply runs_error_current; [lia|done]
  | |- runs _ _ _ (throw (mkSyntaxError _ (span (Grammar.tok _ _)))) _ => apply runs_throw; [done|apply tok_in; lia]
  | |- runs _ _ _ (lift (ok_or ?x _)) _ =>
      apply runs_lift; [lia|intros ? ?|destruct x; intros; simplify_eq/=; split; [done|eexists; split; [apply tok_in|]; [|reflexivity]; lia]]
  | |- runs _ _ _ (if ?b then _ else _) _ => destruct b eqn:?
  | |- runs _ _ _ (match ?x with _ => _ end) _ => destruct x eqn:?
  | |- runs _ _ _ (let _ := _ in _) _ => cbv zeta
  | |- runs _ _ _ _ _ =>
      first [ eapply runs_moves; [solve [eauto with parser]|lia|intros ? ? ?]
            | eapply runs_stays; [solve [eauto with parser]|lia|intros ? ? ?] ]
  | HR : forall c' a, _ -> ?R c' a |- ?R _ _ => apply HR; lia
  end.
Ltac wp := repeat step.

Lemma if_not_exists_stays : stays if_not_exists.
Proof. intros c R Hc HR. unfold if_not_exists. wp. Qed.

Lemma if_exists_stays : stays if_exists.
Proof. intros c R Hc HR. unfold if_exists. wp. Qed.

Lemma where_stays : stays parse_where.
Proof. intros c R Hc HR. unfold parse_where. wp. Qed.

Lemma transaction_or_work_stays sp : stays (transaction_or_work sp).
Proof. intros c R Hc HR. unfold transaction_or_work. wp. Qed.

Lemma varchar_length_moves : moves_on parse_varchar_length.
Proof. intros c R Hc HR. unfold parse_varchar_length. wp. Qed.
#[local] Hint Resolve if_not_exists_stays if_exists_stays where_stays transaction_or_work_stays varchar_length_moves : parser.

Lemma data_type_moves : moves_on parse_data_type.
Proof. intros c R Hc HR. unfold parse_data_type. wp. Qed.
#[local] Hint Resolve data_type_moves : parser.

Lemma constraint_loop_ends fuel : forall f c R,
  0 <= c < len -> len - c < Z.of_nat fuel -> (forall c' a, c <= c' < len -> R c' a) -> runs ts c d (constraint_loop fuel f) R.
Proof.
  induction fuel as [|fuel IH]; intros f c R Hc Hf HR; [lia|]. cbn [constraint_loop].
  wp; (apply IH; [lia|lia|intros; apply HR; lia]).
Qed.

Lemma column_def_moves : moves_on parse_column_def.
Proof.
  intros c R Hc HR. unfold parse_column_def. do 5 step. apply runs_bind, constraint_loop_ends; [lia|unfold fuel_of; cbn; lia|]. intros. wp.
Qed.
#[local] Hint Resolve column_def_moves : parser.

Lemma create_table_moves sp : moves_on (parse_create_table_after_create sp).
Proof. intros c R Hc HR. unfold parse_create_table_after_create. wp. Qed.

Lemma create_index_moves sp unique : moves_on (parse_create_index_after_create sp unique).
Proof. intros c R Hc HR. unfold parse_create_index_after_create. wp. Qed.

Lemma drop_table_moves sp : moves_on (parse_drop_table_after_drop sp).
Proof. intros c R Hc HR. unfold parse_drop_table_after_drop. wp. Qed.

Lemma drop_index_moves sp : moves_on (parse_drop_index_after_drop sp).
Proof. intros c R Hc HR. unfold parse_drop_index_after_drop. wp. Qed.
#[local] Hint Resolve create_table_moves create_index_moves drop_table_moves drop_index_moves : parser.

Lemma create_moves : moves_on parse_create_statement.
Proof. intros c R Hc HR. unfold parse_create_statement. wp. Qed.

Lemma drop_moves : moves_on parse_drop_statement.
Proof. intros c R Hc HR. unfold parse_drop_statement. wp. Qed.

Lemma begin_moves : moves_on parse_begin_transaction.
Proof. intros c R Hc HR. unfold parse_begin_transaction. wp. Qed.

Lemma commit_moves : moves_on parse_commit.
Proof. intros c R Hc HR. unfold parse_commit. wp. Qed.

Lemma rollback_moves : moves_on parse_rollback.
Proof. intros c R Hc HR. unfold parse_rollback. wp. Qed.

Lemma values_row_moves : moves_on parse_values_row.
Proof. intros c R Hc HR. unfold parse_values_row. wp. Qed.

Lemma insert_columns_stays : stays parse_insert_columns.
Proof. intros c R Hc HR. unfold parse_insert_columns. wp. Qed.

Lemma select_item_moves : moves_on parse_select_item.
Proof. intros c R Hc HR. unfold parse_select_item. wp. Qed.

Lemma order_key_moves : moves_on parse_order_key.
Proof. intros c R Hc HR. unfold parse_order_key. wp. Qed.
#[local] Hint Resolve values_row_moves insert_columns_stays select_item_moves order_key_moves : parser.

Lemma order_by_stays : stays parse_order_by.
Proof. intros c R Hc HR. unfold parse_order_by. wp. Qed.

Lemma limit_stays : stays parse_limit.
Proof. intros c R Hc HR. unfold parse_limit. wp. Qed.

Lemma assignment_moves : moves_on parse_assignment.
Proof. intros c R Hc HR. unfold parse_assignment. wp. Qed.
#[local] Hint Resolve order_by_stays limit_stays assignment_moves : parser.

Lemma insert_moves : moves_on parse_insert.
Proof. intros c R Hc HR. unfold parse_insert. wp. Qed.

Lemma select_moves : moves_on parse_select.
Proof. intros c R Hc HR. unfold parse_select. wp. Qed.

Lemma update_moves : moves_on parse_update.
Proof. intros c R Hc HR. unfold parse_update. wp. Qed.

Lemma delete_moves : moves_on parse_delete.
Proof. intros c R Hc HR. unfold parse_delete. wp. Qed.
#[local] Hint Resolve create_moves drop_moves begin_moves commit_moves rollback_moves insert_moves select_moves update_moves delete_moves : parser.

Lemma next_statement_moves : moves_on parse_next_statement.
Proof. intros c R Hc HR. unfold parse_next_statement. wp. Qed.
#[local] Hint Resolve next_statement_moves : parser.

Lemma skip_semicolons_ends fuel : forall c R,
  0 <= c < len -> len - c < Z.of_nat fuel -> (forall c' a, c <= c' < len -> R c' a) -> runs ts c d (skip_semicolons fuel) R.
Proof.
  induction fuel as [|fuel IH]; intros c R Hc Hf HR; [lia|]. cbn [skip_semicolons].
  wp. apply IH; [lia|lia|intros; apply HR; lia].
Qed.

Lemma statements_loop_ends fuel : forall l c R,
  0 <= c < len -> len - c < Z.of_nat fuel -> (forall c' a, c <= c' < len -> R c' a) -> runs ts c d (parse_statements_loop fuel l) R.
Proof.
  induction fuel as [|fuel IH]; intros l c R Hc Hf HR; [lia|]. cbn [parse_statements_loop]. step. step; [wp|].
  apply runs_bind, skip_semicolons_ends; [lia|unfold fuel_of; cbn; lia|]. intros c1 _ Hc1. wp; (apply IH; [lia|lia|intros; apply HR; lia]).
Qed.
End Statements.

(** ** From text to statements *)

Lemma spans_tile_ends at_ tokens n :
  spans_tile at_ tokens n -> kind (nth (length tokens - 1) tokens end_token) = TEof /\ tokens <> [].
Proof.
  revert at_. induction tokens as [|t [|t2 rest] IH]; intros at_; [done|by intros (? & _)|].
  intros (_ & _ & Hr). destruct (IH _ Hr) as [Hk _]. split; [|done]. cbn [length] in *.
  replace (S (S (length rest)) - 1)%nat with (S (length rest)) by lia. by replace (S (length rest) - 1)%nat with (length rest) in Hk by lia.
Qed.

Lemma spans_tile_within at_ tokens n t :
  0 <= at_ -> spans_tile at_ tokens n -> t ∈ tokens -> 0 <= sp_start (span t) <= sp_end (span t) /\ sp_end (span t) <= n.
Proof.
  intros Hat Ht Hin. enough (at_ <= n /\ (t ∈ tokens -> at_ <= sp_start (span t) <= sp_end (span t) /\ sp_end (span t) <= n)) as [_ H] by (specialize (H Hin); lia).
  clear Hin. revert at_ Hat Ht. induction tokens as [|t1 [|t2 rest] IH]; intros at_ Hat; [done| |].
  - intros (_ & Hs & Hle). split; [done|]. intros ->%list_elem_of_singleton. rewrite Hs. cbn. lia.
  - intros (_ & Hs & Hr). destruct (IH (sp_end (span t1)) ltac:(lia) Hr) as [Hle Hin]. split; [lia|].
    intros [->|Ht]%elem_of_cons; [lia|]. specialize (Hin Ht). lia.
Qed.

Section Outcome.
Context `{CharTables}.

(** What parsing a text may end with. *)
Definition syntax_outcome {A} (sql : str) (r : SResult A) : Prop :=
  match r with
  | Ok _ => True
  | Err e => message e <> FuelExhausted /\ error_within e (str_len sql)
  end.

(** C38: Parsing any text ends: no loop of the parser runs for more steps than
    there are tokens and no expression nests deeper than the limit; and a
    syntax error it reports, from the lexer or from the parser, is a message
    of the program whose span is inside the text. *)
Theorem parse_sql_ends (sql : str) : syntax_outcome sql (parse_sql sql).
Proof.
  unfold parse_sql, syntax_outcome. pose proof (tokenize_ok sql) as Htok.
  destruct (tokenize sql) as [ts|e] eqn:E; cbn [mbind result_bind]; [|by split; [apply Htok|]].
  destruct (spans_tile_ends _ _ _ Htok) as [Hend Hne].
  assert (0 <= 0 < blen ts) as Hc by (destruct ts; cbn; [done|lia]).
  pose proof (statements_loop_ends ts Hend 0 ltac:(done) (fuel_of (parser_new ts)) [] 0 (fun _ _ => True) Hc
    ltac:(unfold fuel_of; cbn; lia) ltac:(done)) as Hrun.
  unfold eval, parse_statements. unfold mbind, ST_bind, get. unfold runs in Hrun. change (parser_new ts) with (mkParser ts 0 0) in *.
  destruct (parse_statements_loop _ _ _) as [[l|e] p]; cbn; [done|]. destruct Hrun as (Hm & t & Ht & Hsp). split; [done|]. split; [done|].
  rewrite Hsp. by apply (spans_tile_within 0 ts).
Qed.
End Outcome.
