(* ===== verification/Backend.v ===== *)
(** * What the transaction layer needs of storage and index

    [Backend] is what [MvccDatabase] calls: the storage handle's pages,
    reservations, relaxed commits, appends and releases, and the B+ tree over
    it.  [BackendLaws] is what the transaction layer's theorems rely on:
    index roots keep the map they were built for, and a page changes only
    when it is written, appended to or released. *)
From S2P Require Import Prelude Page Order Node Record Store Tree.
Local Open Scope Z_scope.

Class Backend (B : Type) := {
  bk_read_page : PageId -> B -> Result (option Page);
  bk_reserve : Z -> ST B StorageError (list PageId);
  bk_commit_relaxed : list PageWrite -> ST B StorageError (list Lsn);
  bk_append : list PageAppend -> ST B StorageError (list Lsn);
  bk_release : list PageId -> ST B StorageError unit;
  bk_get : IndexRoot -> list byte -> ST B IndexError (option PageId);
  bk_range : IndexRoot -> option (list byte) -> option (list byte) -> Z -> ST B IndexError (list IndexEntry);
  bk_plan : list IndexEntry -> ST B IndexError IndexBuildPlan;
  bk_edit_plan : option IndexRoot -> list IndexMutation -> ST B IndexError IndexBuildPlan;
}.

(** What a list of appends leaves on a page. *)
Definition appended (appends : list PageAppend) (p : PageId) (bytes : list byte) : list byte :=
  foldl (fun bytes a => if a_page_id a =? p then splice bytes (a_offset a) (a_payload a) else bytes) bytes appends.

(** The half-open range of a scan. *)
Definition in_bounds (start end_ : option (list byte)) (k : list byte) : bool :=
  match start with Some s => negb (bytes_ltb k s) | None => true end
  && match end_ with Some e => negb (bytes_leb e k) | None => true end.

Definition append_fits (a : PageAppend) : Prop := 0 <= a_offset a /\ a_offset a + blen (a_payload a) <= MAX_PAGE_PAYLOAD.

Definition apply_mutation (m : gmap (list byte) PageId) (mutation : IndexMutation) : gmap (list byte) PageId :=
  match mutation with Upsert e => <[key e := value e]> m | Delete k => delete k m end.

(** Payloads that no index node has. *)
Definition data_payload (bytes : list byte) : Prop := slice bytes 0 4 <> NODE_MAGIC.

(** The pages that a plan writes. *)
Definition plan_pages (plan : IndexBuildPlan) : list PageId := w_page_id <$> plan_writes plan.

Class BackendLaws (B : Type) `{Backend B} := {
  bk_ok : B -> Prop;
  (** The root is an index that holds the map. *)
  bk_index : B -> option IndexRoot -> gmap (list byte) PageId -> Prop;
  (** A page that the transaction layer wrote and has not released, and its payload. *)
  bk_data : B -> PageId -> list byte -> Prop;
  (** A page that was reserved and not written yet. *)
  bk_reserved : B -> PageId -> Prop;
  (** A plan whose pages are ready to be committed. *)
  bk_planned : B -> IndexBuildPlan -> gmap (list byte) PageId -> Prop;
  (** How many pages can still be reserved and logged. *)
  bk_pages : B -> Z;
  bk_log : B -> Z;
  bk_can_plan : B -> list IndexEntry -> Prop;
  bk_can_edit : B -> option IndexRoot -> list IndexMutation -> Prop;

  bk_index_none : forall b m, bk_index b None m -> m = ∅;
  bk_index_size : forall b r m, bk_index b r m -> Z.of_nat (size m) <= U64_MAX;
  bk_data_range : forall b p bytes, bk_ok b -> bk_data b p bytes -> is_u64 p;
  bk_data_payload : forall b p bytes, bk_data b p bytes -> data_payload bytes;

  bk_data_unique : forall b p x y, bk_ok b -> bk_data b p x -> bk_data b p y -> x = y;

  bk_read_ok : forall b p bytes, bk_ok b -> bk_data b p bytes ->
    exists page, bk_read_page p b = Ok (Some page) /\ payload page = bytes;

  bk_get_ok : forall b root m k, bk_ok b -> bk_index b (Some root) m ->
    exists b', bk_get root k b = (Ok (m !! k), b') /\ bk_ok b' /\
      (forall r m, bk_index b r m -> bk_index b' r m) /\ (forall p bytes, bk_data b p bytes -> bk_data b' p bytes);

  bk_range_ok : forall b root m start end_ , bk_ok b -> bk_index b (Some root) m ->
    exists es b', bk_range root start end_ U64_MAX b = (Ok es, b') /\ bk_ok b' /\
      (forall r m, bk_index b r m -> bk_index b' r m) /\ (forall p bytes, bk_data b p bytes -> bk_data b' p bytes) /\
      entry_pair <$> es = filter (fun x => in_bounds start end_ x.1 = true) (bt_list m);

  bk_reserve_ok : forall b, bk_ok b -> 1 <= bk_pages b ->
    exists p b', bk_reserve 1 b = (Ok [p], b') /\ bk_ok b' /\ bk_reserved b' p /\
      (forall bytes, ~ bk_data b p bytes) /\
      (forall r m, bk_index b r m -> bk_index b' r m) /\ (forall p bytes, bk_data b p bytes -> bk_data b' p bytes) /\
      (forall plan m, bk_planned b plan m -> bk_planned b' plan m /\ p ∉ plan_pages plan) /\
      bk_pages b - 1 <= bk_pages b' /\ bk_log b <= bk_log b';

  bk_blank_ok : forall b p, bk_ok b -> bk_reserved b p -> 1 <= bk_log b ->
    exists lsns b', bk_commit_relaxed [mkPageWrite p []] b = (Ok lsns, b') /\ bk_ok b' /\ bk_data b' p [] /\
      (forall r m, bk_index b r m -> bk_index b' r m) /\
      (forall q bytes, q <> p -> bk_data b q bytes -> bk_data b' q bytes) /\
      bk_pages b <= bk_pages b' /\ bk_log b - 1 <= bk_log b';

  bk_append_ok : forall b appends, bk_ok b -> blen appends <= bk_log b -> Forall append_fits appends ->
    (forall a, a ∈ appends -> exists bytes, bk_data b (a_page_id a) bytes) ->
    (forall p bytes, bk_data b p bytes -> data_payload (appended appends p bytes)) ->
    exists lsns b', bk_append appends b = (Ok lsns, b') /\ length lsns = length appends /\ bk_ok b' /\
      (forall r m, bk_index b r m -> bk_index b' r m) /\
      (forall p bytes, bk_data b p bytes -> bk_data b' p (appended appends p bytes));

  bk_release_ok : forall b ps, bk_ok b -> NoDup ps -> (forall p, p ∈ ps -> exists bytes, bk_data b p bytes) ->
    exists b', bk_release ps b = (Ok tt, b') /\ bk_ok b' /\
      (forall r m, bk_index b r m -> bk_index b' r m) /\
      (forall p bytes, bk_data b p bytes -> p ∉ ps -> bk_data b' p bytes);

  bk_plan_ok : forall b es m, bk_ok b -> bk_can_plan b es -> bt_list m = entry_pair <$> es ->
    Forall (fun e => is_u64 (value e)) es ->
    exists plan b', bk_plan es b = (Ok plan, b') /\ bk_ok b' /\ bk_planned b' plan m /\
      (forall r m, bk_index b r m -> bk_index b' r m) /\ (forall p bytes, bk_data b p bytes -> bk_data b' p bytes) /\
      (forall p bytes, p ∈ plan_pages plan -> ~ bk_data b p bytes) /\
      1 <= bk_pages b' /\ blen (plan_writes plan) + 1 <= bk_log b';

  bk_edit_ok : forall b root m mutations, bk_ok b -> bk_can_edit b root mutations -> bk_index b root m ->
    (forall e, Upsert e ∈ mutations -> is_u64 (value e)) ->
    exists plan b', bk_edit_plan root mutations b = (Ok plan, b') /\ bk_ok b' /\
      bk_planned b' plan (foldl apply_mutation m mutations) /\
      (forall r m, bk_index b r m -> bk_index b' r m) /\ (forall p bytes, bk_data b p bytes -> bk_data b' p bytes) /\
      (forall p bytes, p ∈ plan_pages plan -> ~ bk_data b p bytes) /\
      1 <= bk_pages b' /\ blen (plan_writes plan) + 1 <= bk_log b';

  bk_publish_ok : forall b plan m p bytes, bk_ok b -> bk_planned b plan m -> bk_reserved b p -> p ∉ plan_pages plan ->
    blen bytes <= MAX_PAGE_PAYLOAD -> data_payload bytes -> blen (plan_writes plan) + 1 <= bk_log b ->
    exists lsns b', bk_commit_relaxed (plan_writes plan ++ [mkPageWrite p bytes]) b = (Ok lsns, b') /\ bk_ok b' /\
      bk_index b' (plan_root plan) m /\ bk_data b' p bytes /\
      (forall r m, bk_index b r m -> bk_index b' r m) /\
      (forall q bytes, q <> p -> q ∉ plan_pages plan -> bk_data b q bytes -> bk_data b' q bytes);
}.
