(* ===== verification/Mvcc.v ===== *)
(** * Transactions

    [mvcc/src/database.rs]: the multi-version state under its lock, the
    commit protocol, index generations and their reclamation, and the
    operations of a transaction.  Every function that takes the state lock
    is one step of [MvccSystem]. *)
From S2P Require Import Prelude Page Order Node Record Store ByteLru Tree Backend.
Local Open Scope Z_scope.

Abbreviation Key := (list byte).
Abbreviation TransactionId := Z.

Record Version := mkVersion {
  v_timestamp : Timestamp;
  v_value : option (list byte);
  v_page_id : PageId;
}.

#[export] Instance Version_eq_dec : EqDecision Version.
Proof. solve_decision. Defined.

Record State := mkState {
  versions : gmap Key (list Version);
  page_refs : gmap PageId Z;
  intents : gmap Key TransactionId;
  active : gmap TransactionId Timestamp;
  completed_timestamps : gset Z;
  next_transaction_id : Z;
  next_commit_timestamp : Z;
  visible_through : Timestamp;
  generations : list IndexGeneration;
  dirty_keys : gset Key;
  reclaimed_versions : Z;
}.

(** ** Generations *)

(** [iter().rev().find(p)]. *)
Definition rfind {A} (p : A -> bool) (l : list A) : option A := last (filter (fun x => p x = true) l).

(** [iter().rposition(p)]: the length of the prefix before the last match. *)
Fixpoint rposition {A} (p : A -> bool) (l : list A) : option nat :=
  match l with
  | [] => None
  | x :: l => match rposition p l with
              | Some i => Some (S i)
              | None => if p x then Some O else None
              end
  end.

Definition latest_generation (s : State) : option IndexGeneration := last (generations s).

Definition generation_at (snapshot : Timestamp) (s : State) : option IndexGeneration :=
  rfind (fun g => g_timestamp g <=? snapshot) (generations s).

Definition oldest_active_snapshot (s : State) : Timestamp :=
  match snd <$> map_to_list (active s) with
  | [] => visible_through s
  | t :: ts => foldr Z.min t ts
  end.

Definition generation_leb (a b : IndexGeneration) : bool :=
  (g_timestamp a <? g_timestamp b) ||
  ((g_timestamp a =? g_timestamp b) && (manifest_page_id a <=? manifest_page_id b)).

Definition publish_generation (g : IndexGeneration) (gs : list IndexGeneration) : list IndexGeneration :=
  let position := partition_point (fun existing => generation_leb existing g) gs in
  let duplicate :=
    match position with
    | O => false
    | S i => match gs !! i with
             | Some previous => (g_timestamp previous =? g_timestamp g) && (manifest_page_id previous =? manifest_page_id g)
             | None => false
             end
    end in
  if duplicate then gs else vec_insert gs position g.

(** ** Reclamation *)

(** The [release] closure of [reclaim_covered]. *)
Definition release_ref (protect : option PageId) (page_id : PageId) (x : gmap PageId Z * list PageId)
  : gmap PageId Z * list PageId :=
  let '(refs, freed) := x in
  match refs !! page_id with
  | None => (refs, freed)
  | Some n =>
      let remaining := saturating_sub n 1 in
      if remaining =? 0
      then (delete page_id refs, if bool_decide (protect = Some page_id) then freed else freed ++ [page_id])
      else (<[page_id := remaining]> refs, freed)
  end.

(** What [retain] carries from key to key. *)
Record Sweep := mkSweep {
  sw_versions : gmap Key (list Version);
  sw_refs : gmap PageId Z;
  sw_freed : list PageId;
  sw_reclaimed : Z;
}.

(** The closure of [versions.retain]. *)
Definition sweep_key (protect : option PageId) (oldest : Timestamp) (cover : option Timestamp)
  (s : State) (w : Sweep) (x : Key * list Version) : Sweep :=
  let '(k, vs) := x in
  let drop_to := match rposition (fun v => v_timestamp v <=? oldest) vs with Some i => i | None => O end in
  let '(refs, freed) := foldl (fun x v => release_ref protect (v_page_id v) x) (sw_refs w, sw_freed w) (take drop_to vs) in
  let kept := drop drop_to vs in
  let fully_covered :=
    match cover, kept with
    | Some cover, [v] => v_timestamp v <=? cover
    | _, _ => false
    end in
  if fully_covered && negb (bool_decide (k ∈ dirty_keys s)) && negb (bool_decide (is_Some (intents s !! k)))
  then mkSweep (sw_versions w) refs freed (sw_reclaimed w + Z.of_nat drop_to + 1)
  else mkSweep (<[k := kept]> (sw_versions w)) refs freed (sw_reclaimed w + Z.of_nat drop_to).

Definition reclaim_covered (protect : option PageId) (s : State) : list PageId * State :=
  let oldest := oldest_active_snapshot s in
  let pruned := match rposition (fun g => g_timestamp g <=? oldest) (generations s) with Some i => i | None => O end in
  let freed := manifest_page_id <$> take pruned (generations s) in
  let gs := drop pruned (generations s) in
  let cover := g_timestamp <$> rfind (fun g => g_timestamp g <=? oldest) gs in
  let w := foldl (sweep_key protect oldest cover s) (mkSweep ∅ (page_refs s) freed (reclaimed_versions s)) (bt_list (versions s)) in
  (sw_freed w,
   mkState (sw_versions w) (sw_refs w) (intents s) (active s) (completed_timestamps s) (next_transaction_id s)
           (next_commit_timestamp s) (visible_through s) gs (dirty_keys s) (sw_reclaimed w)).

(** The newest version that a snapshot sees. *)
Definition version_at (vs : list Version) (snapshot : Timestamp) : option Version :=
  rfind (fun v => v_timestamp v <=? snapshot) vs.

(** ** Prefix ranges *)

(** The least key above every key with the prefix: the last byte that is not
    255 goes up by one and what follows it is cut. *)
Fixpoint prefix_end (prefix : Key) : option Key :=
  match prefix with
  | [] => None
  | b :: rest =>
      match prefix_end rest with
      | Some e => Some (b :: e)
      | None => if byte_to_Z b =? 255 then None else Some [byte_of_Z (byte_to_Z b + 1)]
      end
  end.

Fixpoint starts_with (k prefix : Key) : bool :=
  match prefix, k with
  | [], _ => true
  | b :: prefix, c :: k => bool_decide (b = c) && starts_with k prefix
  | _ :: _, [] => false
  end.

Definition in_prefix_range (prefix : Key) (k : Key) : bool :=
  bytes_leb prefix k && match prefix_end prefix with Some e => bytes_ltb k e | None => true end.

Definition version_range (vs : gmap Key (list Version)) (prefix : Key) : list (Key * list Version) :=
  filter (fun x => in_prefix_range prefix x.1 = true) (bt_list vs).

Definition current_index_entries (vs : gmap Key (list Version)) (snapshot : Timestamp) : list IndexEntry :=
  omap (fun x => v ← version_at x.2 snapshot; _ ← v_value v; Some (mkIndexEntry x.1 (v_page_id v))) (bt_list vs).

(** ** The commit protocol under the state lock *)

Definition newer_than (snapshot : Timestamp) (vs : option (list Version)) : bool :=
  match vs ≫= last with Some v => snapshot <? v_timestamp v | None => false end.

Definition foreign (id : TransactionId) (owner : option TransactionId) : bool :=
  match owner with Some owner => negb (owner =? id) | None => false end.

Definition check_write (id : TransactionId) (snapshot : Timestamp) (s : State) (k : Key) : TResult unit :=
  if foreign id (intents s !! k) then Err (WriteConflict k)
  else if newer_than snapshot (versions s !! k) then Err (WriteConflict k)
  else Ok tt.

Definition check_range (id : TransactionId) (snapshot : Timestamp) (s : State) (prefix : Key) : TResult unit :=
  let newer_version := existsb (fun x => newer_than snapshot (Some x.2)) (version_range (versions s) prefix) in
  let foreign_intent := existsb (fun x => foreign id (Some x.2) && starts_with x.1 prefix) (map_to_list (intents s)) in
  if newer_version || foreign_intent then Err (RangeConflict prefix) else Ok tt.

Definition prepare_commit (id : TransactionId) (snapshot : Timestamp) (keys : list Key) (scanned_prefixes : list Key)
  : ST State TransactionError Timestamp :=
  s ← get;
  _ ← lift (try_map (check_write id snapshot s) keys);
  _ ← lift (try_map (check_range id snapshot s) scanned_prefixes);
  let timestamp := next_commit_timestamp s in
  next ← lift (ok_or (checked_add U64_MAX timestamp 1) TimestampExhausted);
  _ ← modify (fun s =>
        mkState (versions s) (page_refs s) (foldl (fun m k => <[k := id]> m) (intents s) keys) (active s)
                (completed_timestamps s) (next_transaction_id s) next (visible_through s) (generations s)
                (dirty_keys s) (reclaimed_versions s));
  mret timestamp.

(** [binary_search_by_key(&timestamp)] on versions in ascending order. *)
Definition insert_position (vs : list Version) (timestamp : Timestamp) : nat :=
  partition_point (fun v => v_timestamp v <? timestamp) vs.

(** One turn of the loop over the writes in [finish_prepared]. *)
Definition install_version (timestamp : Timestamp) (x : nat * ((Key * option (list byte)) * PageId)) : ST State TransactionError unit :=
  let '(position, ((k, value), page_id)) := x in
  s ← get;
  let vs := default [] (versions s !! k) in
  let insert_at := insert_position vs timestamp in
  if match vs !! insert_at with Some v => v_timestamp v =? timestamp | None => false end
  then
    (* [entry(key).or_default()] has already inserted the key. *)
    _ ← modify (fun s => mkState (<[k := vs]> (versions s)) (page_refs s) (intents s) (active s) (completed_timestamps s)
                           (next_transaction_id s) (next_commit_timestamp s) (visible_through s) (generations s)
                           (dirty_keys s) (reclaimed_versions s));
    throw (CorruptRecord page_id (DuplicateCommitTimestamp timestamp (Z.of_nat position)))
  else
    modify (fun s =>
      mkState (<[k := vec_insert vs insert_at (mkVersion timestamp value page_id)]> (versions s))
              (<[page_id := default 0 (page_refs s !! page_id) + 1]> (page_refs s))
              (intents s) (active s) (completed_timestamps s) (next_transaction_id s) (next_commit_timestamp s)
              (visible_through s) (generations s) ({[k]} ∪ dirty_keys s) (reclaimed_versions s)).

(** [while let Some(next) = visible_through.checked_add(1) { ... }] *)
Fixpoint advance_visible (fuel : nat) (visible : Timestamp) (completed : gset Z) : Timestamp * gset Z :=
  match fuel with
  | O => (visible, completed)
  | S fuel =>
      match checked_add U64_MAX visible 1 with
      | None => (visible, completed)
      | Some next =>
          if bool_decide (next ∈ completed) then advance_visible fuel next (completed ∖ {[next]}) else (visible, completed)
      end
  end.

Definition complete_timestamp (timestamp : Timestamp) (s : State) : State :=
  let completed := {[timestamp]} ∪ completed_timestamps s in
  let '(visible, completed) := advance_visible (S (size completed)) (visible_through s) completed in
  mkState (versions s) (page_refs s) (intents s) (active s) completed (next_transaction_id s) (next_commit_timestamp s)
          visible (generations s) (dirty_keys s) (reclaimed_versions s).

Definition release_intents (id : TransactionId) (keys : list Key) (m : gmap Key TransactionId) : gmap Key TransactionId :=
  foldl (fun m k => if bool_decide (m !! k = Some id) then delete k m else m) m keys.

Definition finish_prepared (id : TransactionId) (timestamp : Timestamp) (writes : list (Key * option (list byte)))
  (page_ids : option (list PageId)) : ST State TransactionError unit :=
  _ ← modify (fun s => mkState (versions s) (page_refs s) (release_intents id writes.*1 (intents s)) (active s)
                         (completed_timestamps s) (next_transaction_id s) (next_commit_timestamp s) (visible_through s)
                         (generations s) (dirty_keys s) (reclaimed_versions s));
  _ ← match page_ids with
      | Some page_ids => for_each (imap (fun i x => (i, x)) (zip writes page_ids)) (install_version timestamp)
      | None => mret tt
      end;
  modify (complete_timestamp timestamp).

Definition begin_transaction : ST State TransactionError (TransactionId * Timestamp) :=
  s ← get;
  let id := next_transaction_id s in
  next ← lift (ok_or (checked_add U64_MAX id 1) TransactionIdExhausted);
  let snapshot := visible_through s in
  _ ← modify (fun s => mkState (versions s) (page_refs s) (intents s) (<[id := snapshot]> (active s))
                         (completed_timestamps s) next (next_commit_timestamp s) (visible_through s) (generations s)
                         (dirty_keys s) (reclaimed_versions s));
  mret (id, snapshot).

Definition end_transaction (id : TransactionId) (s : State) : State :=
  mkState (versions s) (page_refs s) (intents s) (delete id (active s)) (completed_timestamps s) (next_transaction_id s)
          (next_commit_timestamp s) (visible_through s) (generations s) (dirty_keys s) (reclaimed_versions s).

(** ** Opening *)

Record Loaded := mkLoaded {
  ld_versions : gmap Key (list Version);
  ld_refs : gmap PageId Z;
  ld_generations : list IndexGeneration;
  ld_maximum : Z;
}.

Definition load_record (page_id : PageId) (l : Loaded) (r : VersionRecord) : TResult Loaded :=
  let maximum := Z.max (ld_maximum l) (vr_timestamp r) in
  let vs := default [] (ld_versions l !! vr_key r) in
  if existsb (fun v => v_timestamp v =? vr_timestamp r) vs
  then Err (CorruptRecord page_id (DuplicateTimestamp (vr_timestamp r)))
  else Ok (mkLoaded (<[vr_key r := vs ++ [mkVersion (vr_timestamp r) (vr_value r) page_id]]> (ld_versions l))
                    (<[page_id := default 0 (ld_refs l !! page_id) + 1]> (ld_refs l)) (ld_generations l) maximum).

Definition load_page (read : PageId -> Result (option Page)) (l : Loaded) (page_id : PageId) : TResult Loaded :=
  found ← map_err TxStorage (read page_id);
  match found with
  | None => Ok l
  | Some page =>
      manifest ← decode_manifest page_id (payload page);
      match manifest with
      | Some generation => Ok (mkLoaded (ld_versions l) (ld_refs l) (ld_generations l ++ [generation]) (ld_maximum l))
      | None =>
          records ← decode_page page_id (payload page);
          try_fold (load_record page_id) l records
      end
  end.

Definition version_le (a b : Version) : Prop := v_timestamp a <= v_timestamp b.
#[export] Instance version_le_dec : RelDecision version_le := fun a b => Z_le_dec (v_timestamp a) (v_timestamp b).
Definition generation_le (a b : IndexGeneration) : Prop := generation_leb a b = true.
#[export] Instance generation_le_dec : RelDecision generation_le := fun a b => bool_eq_dec (generation_leb a b) true.

(** [for raw_page_id in 0..store.page_count()?], then the state at rest. *)
Definition open_state (page_count : Z) (read : PageId -> Result (option Page)) : TResult State :=
  l ← try_fold (load_page read) (mkLoaded ∅ ∅ [] 0) (seqZ 0 page_count);
  next ← ok_or (checked_add U64_MAX (ld_maximum l) 1) TimestampExhausted;
  let vs := merge_sort version_le <$> ld_versions l in
  let gs := merge_sort generation_le (filter (fun g => g_timestamp g <= ld_maximum l) (ld_generations l)) in
  let indexed_through := match last gs with Some g => g_timestamp g | None => 0 end in
  let dirty := filter (fun k => existsb (fun v => indexed_through <? v_timestamp v) (default [] (vs !! k)) = true) (dom vs) in
  Ok (mkState vs (ld_refs l) ∅ ∅ ∅ 1 next (ld_maximum l) gs dirty 0).

(** ** The database *)

Record OpenPage := mkOpenPage {
  op_page_id : PageId;
  op_offset : Z;
}.

Section Mvcc.
Context {B : Type} `{Backend B}.
(** [std::mem::size_of::<VersionRecord>()], for the cache's accounting. *)
Context (size_of_record : Z).

Record Inner := mkInner {
  i_state : State;
  i_storage : B;
  i_open_page : option OpenPage;
  i_record_cache : LruInner (list VersionRecord);
}.

Abbreviation DB := (ST Inner TransactionError).

Definition set_state (s : State) (i : Inner) : Inner := mkInner s (i_storage i) (i_open_page i) (i_record_cache i).
Definition set_storage (b : B) (i : Inner) : Inner := mkInner (i_state i) b (i_open_page i) (i_record_cache i).
Definition set_open_page (o : option OpenPage) (i : Inner) : Inner := mkInner (i_state i) (i_storage i) o (i_record_cache i).
Definition set_record_cache (c : LruInner (list VersionRecord)) (i : Inner) : Inner :=
  mkInner (i_state i) (i_storage i) (i_open_page i) c.

(** Storage and index errors become transaction errors through [From]. *)
Definition on_storage {A} (m : ST B StorageError A) : DB A :=
  fun i => let '(r, b) := m (i_storage i) in (map_err TxStorage r, set_storage b i).
Definition on_index {A} (m : ST B IndexError A) : DB A :=
  fun i => let '(r, b) := m (i_storage i) in (map_err TxIndex r, set_storage b i).
(** A critical section of the state lock that cannot fail. *)
Definition locked {A} (f : State -> A * State) : DB A :=
  fun i => let '(a, s) := f (i_state i) in (Ok a, set_state s i).

Definition forget_records (ids : list PageId) : DB unit :=
  modify (fun i => set_record_cache (foldl (fun c p => lru_remove p c) (i_record_cache i) ids) i).

(** ** Reading *)

Definition approximate_record_bytes (r : VersionRecord) : Z := size_of_record + blen (vr_key r) + value_length (vr_value r).

(** [max_by_key(timestamp)]: the last of the newest. *)
Fixpoint newest_record (rs : list VersionRecord) (best : option VersionRecord) : option VersionRecord :=
  match rs with
  | [] => best
  | r :: rs =>
      newest_record rs (match best with
                        | Some b => if vr_timestamp b <=? vr_timestamp r then Some r else best
                        | None => Some r
                        end)
  end.

Definition page_records (page_id : PageId) : DB (list VersionRecord) :=
  i ← get;
  let '(cached, c) := lru_get page_id (i_record_cache i) in
  _ ← modify (set_record_cache c);
  match cached with
  | Some records => mret records
  | None =>
      i ← get;
      found ← lift (map_err TxStorage (bk_read_page page_id (i_storage i)));
      match found with
      | None => throw (CorruptRecord page_id AbsentVersionPage)
      | Some page =>
          records ← lift (decode_page page_id (payload page));
          match records with
          | [] => throw (CorruptRecord page_id NonMvccPage)
          | _ =>
              let bytes := foldr (fun r n => approximate_record_bytes r + n) 0 records in
              _ ← modify (fun i => set_record_cache (lru_insert page_id records bytes (i_record_cache i)) i);
              mret records
          end
      end
  end.

Definition read_index_version (page_id : PageId) (k : Key) (snapshot : Timestamp) : DB (option (list byte)) :=
  records ← page_records page_id;
  match newest_record (filter (fun r => vr_key r = k /\ vr_timestamp r <= snapshot) records) None with
  | Some visible => mret (vr_value visible)
  | None => throw (CorruptRecord page_id NoVisibleVersion)
  end.

Definition read_indexed (root : option IndexRoot) (k : Key) (snapshot : Timestamp) : DB (option (list byte)) :=
  match root with
  | None => mret None
  | Some root =>
      found ← on_index (bk_get root k);
      match found with
      | None => mret None
      | Some page_id => read_index_version page_id k snapshot
      end
  end.

Definition read (k : Key) (snapshot : Timestamp) : DB (option (list byte)) :=
  i ← get;
  match version_at (default [] (versions (i_state i) !! k)) snapshot with
  | Some version => mret (v_value version)
  | None =>
      match generation_at snapshot (i_state i) with
      | None => mret None
      | Some generation => read_indexed (g_root generation) k snapshot
      end
  end.

(** [MvccDatabase::get]: at the newest snapshot, which it does not register. *)
Definition database_get (k : Key) : DB (option (list byte)) :=
  i ← get; read k (visible_through (i_state i)).

(** ** Writing *)

(** A critical section of the state lock that may fail. *)
Definition with_state {A} (m : ST State TransactionError A) : DB A := zoom i_state set_state m.

(** One turn of the loop of [persist_commit], under the open page's lock. *)
Definition place_record (timestamp : Timestamp) (w : Key * option (list byte)) : DB (list PageAppend * PageId) :=
  encoded ← lift (encode_record (mkVersionRecord timestamp w.1 w.2));
  i ← get;
  let rolls_over :=
    match i_open_page i with
    | None => true
    | Some page => MAX_PAGE_PAYLOAD <? op_offset page + blen encoded
    end in
  sealing ←
    (if rolls_over then
       let sealing := match i_open_page i with
                      | Some previous => [mkPageAppend (op_page_id previous) (op_offset previous) [] true]
                      | None => []
                      end in
       _ ← modify (set_open_page None);
       ids ← on_storage (bk_reserve 1);
       page_id ← lift (ok_or (head ids) TimestampExhausted);
       _ ← on_storage (bk_commit_relaxed [mkPageWrite page_id []]);
       _ ← modify (set_open_page (Some (mkOpenPage page_id 0)));
       mret sealing
     else mret []);
  i ← get;
  match i_open_page i with
  | None => mret (sealing, 0) (* [expect]: a page is open *)
  | Some page =>
      _ ← modify (set_open_page (Some (mkOpenPage (op_page_id page) (op_offset page + blen encoded))));
      mret (sealing ++ [mkPageAppend (op_page_id page) (op_offset page) encoded false], op_page_id page)
  end.

Definition persist_commit (timestamp : Timestamp) (writes : list (Key * option (list byte))) : DB (list PageId) :=
  placed ← collect writes (place_record timestamp);
  let page_ids := placed.*2 in
  lsns ← on_storage (bk_append (concat placed.*1));
  _ ← forget_records page_ids;
  if blen lsns <? blen writes then throw (TxStorage (GroupCommit (TooFewLsns (blen lsns) (blen writes)))) else mret page_ids.

Record CommitResult := mkCommitResult {
  cr_timestamp : option Timestamp;
  cr_writes : Z;
}.

(** [Inner::commit]; waking the publisher has no effect on the state. *)
Definition commit (id : TransactionId) (snapshot : Timestamp) (writes : gmap Key (option (list byte)))
  (scanned_prefixes : list Key) : DB CommitResult :=
  if bool_decide (writes = ∅) then mret (mkCommitResult None 0)
  else
    let writes := bt_list writes in
    timestamp ← with_state (prepare_commit id snapshot writes.*1 scanned_prefixes);
    persisted ← attempt (persist_commit timestamp writes);
    match persisted with
    | Ok page_ids =>
        _ ← with_state (finish_prepared id timestamp writes (Some page_ids));
        mret (mkCommitResult (Some timestamp) (blen writes))
    | Err error =>
        _ ← attempt (with_state (finish_prepared id timestamp writes None));
        throw error
    end.

(** ** Index generations *)

(** What [rebuild_index] takes from the state under the first lock. *)
Record Capture := mkCapture {
  cp_timestamp : Timestamp;
  cp_base : option IndexGeneration;
  cp_live_entries : list IndexEntry;
  cp_mutations : list IndexMutation;
}.

Definition captured_mutation (s : State) (timestamp : Timestamp) (base : IndexGeneration) (k : Key) : option IndexMutation :=
  vs ← versions s !! k;
  newest ← version_at vs timestamp;
  if v_timestamp newest <=? g_timestamp base then None
  else Some (match v_value newest with
             | None => Tree.Delete k
             | Some _ => Upsert (mkIndexEntry k (v_page_id newest))
             end).

Definition set_list (ks : gset Key) : list Key := (bt_list (gset_to_gmap tt ks)).*1.

Definition capture (s : State) : Capture :=
  let timestamp := visible_through s in
  let base := latest_generation s in
  mkCapture timestamp base
    (match base with None => current_index_entries (versions s) timestamp | Some _ => [] end)
    (match base with None => [] | Some g => omap (captured_mutation s timestamp g) (set_list (dirty_keys s)) end).

Definition build_generation (c : Capture) : DB IndexGeneration :=
  plan ← match cp_base c with
         | Some generation => on_index (bk_edit_plan (g_root generation) (cp_mutations c))
         | None => on_index (bk_plan (cp_live_entries c))
         end;
  ids ← on_storage (bk_reserve 1);
  manifest ← lift (ok_or (head ids) (TxStorage (GroupCommit NoManifestPage)));
  let generation := mkGeneration (cp_timestamp c) (plan_root plan) manifest in
  _ ← on_storage (bk_commit_relaxed (plan_writes plan ++ [mkPageWrite manifest (encode_manifest generation)]));
  mret generation.

(** The second lock: publish, forget clean keys, reclaim. *)
Definition publish (generation : IndexGeneration) (protect : option PageId) (s : State) : list PageId * State :=
  let clean k := match versions s !! k with
                 | Some vs => negb (existsb (fun v => g_timestamp generation <? v_timestamp v) vs)
                 | None => true
                 end in
  reclaim_covered protect
    (mkState (versions s) (page_refs s) (intents s) (active s) (completed_timestamps s) (next_transaction_id s)
             (next_commit_timestamp s) (visible_through s) (publish_generation generation (generations s))
             (filter (fun k => clean k = false) (dirty_keys s)) (reclaimed_versions s)).

Definition rebuild_index : DB (Timestamp * option IndexRoot) :=
  i ← get;
  let c := capture (i_state i) in
  match cp_base c with
  | Some generation =>
      if g_timestamp generation =? cp_timestamp c then mret (cp_timestamp c, g_root generation)
      else
        generation ← build_generation c;
        i ← get;
        freed ← locked (publish generation (op_page_id <$> i_open_page i));
        _ ← forget_records freed;
        _ ← on_storage (bk_release freed);
        mret (cp_timestamp c, g_root generation)
  | None =>
      generation ← build_generation c;
      i ← get;
      freed ← locked (publish generation (op_page_id <$> i_open_page i));
      _ ← forget_records freed;
      _ ← on_storage (bk_release freed);
      mret (cp_timestamp c, g_root generation)
  end.

(** ** Transactions *)

Record Transaction := mkTransaction {
  t_id : TransactionId;
  t_snapshot : Timestamp;
  t_writes : gmap Key (option (list byte));
  t_scanned_prefixes : list Key;
  t_range_protected : bool;
  t_finished : bool;
}.

(** A transaction and the database it shares with the others. *)
Record Session := mkSession {
  s_transaction : Transaction;
  s_inner : Inner;
}.

Abbreviation TX := (ST Session TransactionError).

Definition on_inner {A} (m : DB A) : TX A := zoom s_inner (fun i s => mkSession (s_transaction s) i) m.
Definition on_transaction (f : Transaction -> Transaction) : TX unit :=
  modify (fun s => mkSession (f (s_transaction s)) (s_inner s)).

Definition set_writes (w : gmap Key (option (list byte))) (t : Transaction) : Transaction :=
  mkTransaction (t_id t) (t_snapshot t) w (t_scanned_prefixes t) (t_range_protected t) (t_finished t).
Definition set_scanned (l : list Key) (t : Transaction) : Transaction :=
  mkTransaction (t_id t) (t_snapshot t) (t_writes t) l (t_range_protected t) (t_finished t).
Definition set_finished (t : Transaction) : Transaction :=
  mkTransaction (t_id t) (t_snapshot t) (t_writes t) (t_scanned_prefixes t) (t_range_protected t) true.

(** [MvccDatabase::begin]. *)
Definition begin : DB Transaction :=
  x ← with_state begin_transaction;
  mret (mkTransaction (fst x) (snd x) ∅ [] false false).

Definition ensure_active : TX unit :=
  s ← get; if t_finished (s_transaction s) then throw Inactive else mret tt.

Definition transaction_get (k : Key) : TX (option (list byte)) :=
  _ ← ensure_active;
  s ← get;
  match t_writes (s_transaction s) !! k with
  | Some value => mret value
  | None => on_inner (read k (t_snapshot (s_transaction s)))
  end.

Definition transaction_put (k : Key) (value : list byte) : TX unit :=
  _ ← ensure_active;
  _ ← lift (validate_size k (Some value));
  on_transaction (fun t => set_writes (<[k := Some value]> (t_writes t)) t).

Definition transaction_delete (k : Key) : TX unit :=
  _ ← ensure_active;
  _ ← lift (validate_size k None);
  on_transaction (fun t => set_writes (<[k := None]> (t_writes t)) t).

Definition protect_scans : TX unit :=
  on_transaction (fun t => mkTransaction (t_id t) (t_snapshot t) (t_writes t) (t_scanned_prefixes t) true (t_finished t)).

(** The prefixes to remember after scanning one more. *)
Definition note_scan (prefix : Key) (scanned : list Key) : list Key :=
  if existsb (fun existing => starts_with prefix existing) scanned then scanned
  else filter (fun existing => starts_with existing prefix = false) scanned ++ [prefix].

Definition track_scan (prefix : Key) (t : Transaction) : Transaction :=
  if t_range_protected t then set_scanned (note_scan prefix (t_scanned_prefixes t)) t else t.

(** The part of [scan_prefix] under the state lock: the keys whose version
    the map decides, and the values among them. *)
Definition map_results (snapshot : Timestamp) (l : list (Key * list Version)) : gset Key * gmap Key (list byte) :=
  foldl (fun x y => match version_at y.2 snapshot with
                    | None => x
                    | Some v => ({[y.1]} ∪ fst x, match v_value v with Some value => <[y.1 := value]> (snd x) | None => snd x end)
                    end) (∅, ∅) l.

Fixpoint index_results (snapshot : Timestamp) (masked : gset Key) (entries : list IndexEntry) (results : gmap Key (list byte))
  : DB (gmap Key (list byte)) :=
  match entries with
  | [] => mret results
  | e :: entries =>
      if bool_decide (key e ∈ masked) then index_results snapshot masked entries results
      else
        value ← read_index_version (value e) (key e) snapshot;
        index_results snapshot masked entries (match value with Some v => <[key e := v]> results | None => results end)
  end.

Definition own_writes (prefix : Key) (writes : gmap Key (option (list byte))) (results : gmap Key (list byte)) : gmap Key (list byte) :=
  foldl (fun m x => match x.2 with Some v => <[x.1 := v]> m | None => delete x.1 m end) results
        (filter (fun x => starts_with x.1 prefix = true) (bt_list writes)).

(** [usize::MAX], the limit of the index scan. *)
Definition no_limit : Z := U64_MAX.

Definition scan_prefix (prefix : Key) : TX (list (Key * list byte)) :=
  _ ← ensure_active;
  _ ← on_transaction (track_scan prefix);
  s ← get;
  let snapshot := t_snapshot (s_transaction s) in
  let state := i_state (s_inner s) in
  let '(masked, results) := map_results snapshot (version_range (versions state) prefix) in
  results ←
    match generation_at snapshot state ≫= g_root with
    | None => mret results
    | Some root =>
        on_inner (entries ← on_index (bk_range root (Some prefix) (prefix_end prefix) no_limit);
                  index_results snapshot masked entries results)
    end;
  mret (bt_list (own_writes prefix (t_writes (s_transaction s)) results)).

(** The transaction is ended whether the commit succeeds or not. *)
Definition transaction_commit : TX CommitResult :=
  _ ← ensure_active;
  s ← get;
  let t := s_transaction s in
  _ ← on_transaction (fun t => set_writes ∅ (set_scanned [] t));
  result ← attempt (on_inner (commit (t_id t) (t_snapshot t) (t_writes t) (t_scanned_prefixes t)));
  _ ← on_transaction set_finished;
  _ ← on_inner (modify (fun i => set_state (end_transaction (t_id t) (i_state i)) i));
  lift result.

Definition transaction_rollback : TX unit :=
  _ ← ensure_active;
  s ← get;
  _ ← on_transaction (fun t => set_finished (set_writes ∅ t));
  on_inner (modify (fun i => set_state (end_transaction (t_id (s_transaction s)) (i_state i)) i)).

(** [Drop for Transaction]. *)
Definition transaction_drop : TX unit :=
  s ← get;
  if t_finished (s_transaction s) then mret tt
  else
    _ ← on_inner (modify (fun i => set_state (end_transaction (t_id (s_transaction s)) (i_state i)) i));
    on_transaction set_finished.

(** [MvccDatabase::open], over the handle of the committer that the opened
    store was handed to. *)
Definition open_database (page_count : Z) (record_cache_bytes : Z) (b : B) : TResult Inner :=
  state ← open_state page_count (fun p => bk_read_page p b);
  let '(checked, b) :=
    match latest_generation state ≫= g_root with
    | Some root => bk_range root None None 1 b
    | None => (Ok [], b)
    end in
  _ ← map_err TxIndex checked;
  let '(freed, state) := reclaim_covered None state in
  let '(released, b) := bk_release freed b in
  _ ← map_err TxStorage released;
  Ok (mkInner state b None (lru_new record_cache_bytes)).
End Mvcc.
