(* ===== verification/MvccSweep.v ===== *)
(** * Versions in order and their reclamation

    The version lists, generation rings and prefix ranges of the transaction
    layer: what searching, inserting and cutting do to them; then what the
    sweep that reclaims versions and generations keeps. *)
From S2P Require Import Prelude Order Page Store Node Record Tree Backend Mvcc.
Local Open Scope Z_scope.

(** ** Searching from the end *)

Section Rfind.
Context {A : Type} (p : A -> bool).

Lemma rfind_Some l x : rfind p l = Some x -> x ∈ l /\ p x = true.
Proof. unfold rfind. intros Hl%last_Some_elem_of. by apply list_elem_of_filter in Hl as [? ?]. Qed.

Lemma rfind_None l : rfind p l = None <-> forall x, x ∈ l -> p x = false.
Proof.
  unfold rfind. rewrite last_None. split.
  - intros Hf x Hx. destruct (p x) eqn:E; [|done]. assert (x ∈ filter (fun x => p x = true) l) as Hin by (by apply list_elem_of_filter).
    rewrite Hf in Hin. by apply not_elem_of_nil in Hin.
  - intros Hall. destruct (filter _ l) as [|x r] eqn:E; [done|]. exfalso. assert (x ∈ filter (fun x => p x = true) l) as Hin by (rewrite E; left).
    apply list_elem_of_filter in Hin as [Hp Hin]. by rewrite (Hall x Hin) in Hp.
Qed.

Lemma rposition_spec l :
  match rposition p l with
  | Some i => exists x, l !! i = Some x /\ p x = true /\ forall y, y ∈ drop (S i) l -> p y = false
  | None => forall x, x ∈ l -> p x = false
  end.
Proof.
  induction l as [|x l IH]; cbn [rposition]; [by intros x ?%not_elem_of_nil|].
  destruct (rposition p l) as [i|]; [done|]. destruct (p x) eqn:E.
  - exists x. split; [done|]. split; [done|]. cbn. by rewrite drop_0.
  - intros y [->|Hy]%elem_of_cons; auto.
Qed.
End Rfind.

(** ** Ascending lists *)

Definition ascending (vs : list Version) : Prop := StronglySorted (fun a b => v_timestamp a < v_timestamp b) vs.

Lemma ascending_unique vs v w : ascending vs -> v ∈ vs -> w ∈ vs -> v_timestamp v = v_timestamp w -> v = w.
Proof.
  induction 1 as [|x vs Hs IH Hx]; [by intros ?%not_elem_of_nil|]. rewrite Forall_forall in Hx.
  rewrite !elem_of_cons. intros [->|Hv] [->|Hw] He; auto.
  - specialize (Hx w Hw). lia.
  - specialize (Hx v Hv). lia.
Qed.

(** [newest vs s v]: [v] is the newest of the versions that [s] sees. *)
Definition newest (vs : list Version) (s : Timestamp) (v : Version) : Prop :=
  v ∈ vs /\ v_timestamp v <= s /\ forall w, w ∈ vs -> v_timestamp w <= s -> v_timestamp w <= v_timestamp v.

Lemma newest_unique vs s v w : ascending vs -> newest vs s v -> newest vs s w -> v = w.
Proof. intros Ha (Hv & Hs & Hm) (Hw & Hs' & Hm'). apply (ascending_unique vs); auto. specialize (Hm w Hw Hs'). specialize (Hm' v Hv Hs). lia. Qed.

Lemma version_at_newest vs s v : ascending vs -> version_at vs s = Some v <-> newest vs s v.
Proof.
  intros Ha. assert (forall u, version_at vs s = Some u -> newest vs s u) as Hto.
  { clear v. unfold version_at, rfind. induction Ha as [|x vs Hs IH Hx]; [done|]. intros u. rewrite Forall_forall in Hx.
    destruct (decide ((v_timestamp x <=? s) = true)) as [Hp|Hp].
    - rewrite filter_cons_True by done. rewrite last_cons. destruct (last (filter _ vs)) as [y|] eqn:E.
      + intros [= <-]. destruct (IH y eq_refl) as (Hy & Hle & Hm). split; [by right|]. split; [done|].
        intros w [->|Hw]%elem_of_cons Hws; [specialize (Hx y Hy); lia|by apply Hm].
      + intros [= <-]. split; [left|]. split; [by apply Z.leb_le|]. intros w [->|Hw]%elem_of_cons Hws; [lia|].
        exfalso. apply last_None in E. assert (w ∈ filter (fun x => (v_timestamp x <=? s) = true) vs) as Hin
          by (apply list_elem_of_filter; split; [by apply Z.leb_le|done]). rewrite E in Hin. by apply not_elem_of_nil in Hin.
    - rewrite filter_cons_False by done. intros E. destruct (IH u E) as (Hy & Hle & Hm). split; [by right|]. split; [done|].
      intros w [->|Hw]%elem_of_cons Hws; [by rewrite <- Z.leb_le in Hws|by apply Hm]. }
  split; [apply Hto|]. intros Hn. destruct (version_at vs s) as [u|] eqn:E.
  - f_equal. by eapply newest_unique; [done|apply Hto|].
  - exfalso. pose proof (proj1 (rfind_None _ _) E v (proj1 Hn)) as Hv. destruct Hn as (_ & Hle & _). cbn in Hv. lia.
Qed.

Lemma version_at_None vs s : version_at vs s = None <-> forall v, v ∈ vs -> s < v_timestamp v.
Proof.
  unfold version_at. rewrite rfind_None. split; intros Hall v Hv; specialize (Hall v Hv); lia.
Qed.

Lemma version_at_filter vs ws s :
  ascending vs -> ascending ws ->
  (forall v, newest vs s v -> v ∈ ws) -> (forall v, v ∈ ws -> v ∈ vs) -> version_at ws s = version_at vs s.
Proof.
  intros Hv Hw Hin Hsub. destruct (version_at vs s) as [v|] eqn:E.
  - apply version_at_newest in E; [|done]. apply version_at_newest; [done|]. destruct E as (Hin' & Hle & Hm).
    split; [by apply Hin|]. split; [done|]. intros w Hw'. by apply Hm, Hsub.
  - rewrite version_at_None in E |- *. intros v Hv'. by apply E, Hsub.
Qed.

(** ** Inserting a version *)

Lemma partition_point_split {A} (p : A -> bool) l :
  Forall (fun x => p x = true) (take (partition_point p l) l) /\
  match l !! partition_point p l with Some x => p x = false | None => True end.
Proof.
  induction l as [|x l [IH1 IH2]]; cbn; [done|]. destruct (p x) eqn:E; cbn; [|done]. split; [by apply Forall_cons|done].
Qed.

Lemma partition_point_drop {A} (p : A -> bool) (R : A -> A -> Prop) l :
  StronglySorted R l -> (forall x y, R x y -> p y = true -> p x = true) -> Forall (fun x => p x = false) (drop (partition_point p l) l).
Proof.
  intros Hs Hmono. induction Hs as [|x l Hs IH Hx]; cbn; [done|]. destruct (p x) eqn:E; cbn; [done|].
  apply Forall_cons. split; [done|]. eapply Forall_impl; [exact Hx|]. cbn. intros y Hy. destruct (p y) eqn:Ey; [|done]. by rewrite (Hmono x y) in E.
Qed.

Lemma elem_of_vec_insert {A} (l : list A) i x y : y ∈ vec_insert l i x <-> y = x \/ y ∈ l.
Proof.
  unfold vec_insert. rewrite elem_of_app, elem_of_cons. rewrite <- (take_drop i l) at 3. rewrite elem_of_app. tauto.
Qed.

Lemma StronglySorted_vec_insert {A} (R : A -> A -> Prop) (l : list A) i x :
  StronglySorted R l -> Forall (fun y => R y x) (take i l) -> Forall (R x) (drop i l) -> StronglySorted R (vec_insert l i x).
Proof.
  intros Hs H1 H2. unfold vec_insert. rewrite <- (take_drop i l) in Hs. apply StronglySorted_app in Hs as (Hall & Hs1 & Hs2).
  apply StronglySorted_app_2; [|done|by constructor].
  intros a b Ha [->|Hb]%elem_of_cons; [by rewrite Forall_forall in H1; apply H1|by apply Hall].
Qed.

Lemma ascending_insert vs v :
  ascending vs -> (forall w, w ∈ vs -> v_timestamp w <> v_timestamp v) ->
  ascending (vec_insert vs (insert_position vs (v_timestamp v)) v).
Proof.
  intros Hs Hne. unfold insert_position. apply StronglySorted_vec_insert; [done| |].
  - eapply Forall_impl; [apply partition_point_split|]. cbn. intros w. lia.
  - pose proof (partition_point_drop (fun w => v_timestamp w <? v_timestamp v) _ vs Hs ltac:(cbn; lia)) as Hd.
    rewrite Forall_forall in Hd |- *. intros w Hw. specialize (Hd w Hw). cbn in Hd.
    assert (w ∈ vs) as Hin by (rewrite <- (take_drop (partition_point (fun w => v_timestamp w <? v_timestamp v) vs) vs), elem_of_app; by right).
    specialize (Hne w Hin). lia.
Qed.

Lemma insert_position_fresh vs t :
  (forall w, w ∈ vs -> v_timestamp w <> t) ->
  match vs !! insert_position vs t with Some v => v_timestamp v =? t | None => false end = false.
Proof.
  intros Hne. destruct (vs !! insert_position vs t) as [v|] eqn:E; [|done]. apply Z.eqb_neq, Hne. by eapply list_elem_of_lookup_2.
Qed.

(** ** Generations and reclamation

    The ring of index generations stays in order, and one sweep of
    [reclaim_covered] keeps exactly what the reference counts say. *)

(** ** The ring of generations *)

Definition ring (gs : list IndexGeneration) : Prop := StronglySorted (fun a b => generation_leb a b = true) gs.

Lemma generation_leb_timestamp a b : generation_leb a b = true -> g_timestamp a <= g_timestamp b.
Proof. unfold generation_leb. lia. Qed.

Lemma generation_leb_total a b : generation_leb a b = false -> generation_leb b a = true.
Proof. unfold generation_leb. lia. Qed.

Lemma generation_leb_trans a b c : generation_leb a b = true -> generation_leb b c = true -> generation_leb a c = true.
Proof. unfold generation_leb. lia. Qed.

(** A new manifest page makes a new entry. *)
Lemma publish_generation_insert g gs :
  (forall g', g' ∈ gs -> manifest_page_id g' <> manifest_page_id g) ->
  publish_generation g gs = vec_insert gs (partition_point (fun e => generation_leb e g) gs) g.
Proof.
  intros Hnew. unfold publish_generation. destruct (partition_point _ gs) as [|i] eqn:E; [done|].
  destruct (gs !! i) as [g'|] eqn:Hg; [|done]. rewrite (proj2 (Z.eqb_neq (manifest_page_id g') _)), andb_false_r; [done|].
  apply Hnew. by eapply list_elem_of_lookup_2.
Qed.

Lemma publish_generation_ring g gs :
  (forall g', g' ∈ gs -> manifest_page_id g' <> manifest_page_id g) -> ring gs -> ring (publish_generation g gs).
Proof.
  intros Hnew Hr. rewrite publish_generation_insert by done. apply StronglySorted_vec_insert; [done|apply partition_point_split|].
  pose proof (partition_point_drop (fun e => generation_leb e g) _ gs Hr (fun x y Hxy Hy => generation_leb_trans x y g Hxy Hy)) as Hd.
  eapply Forall_impl; [exact Hd|]. cbn. intros x. apply generation_leb_total.
Qed.

Lemma elem_of_publish g gs g' :
  (forall g', g' ∈ gs -> manifest_page_id g' <> manifest_page_id g) ->
  g' ∈ publish_generation g gs <-> g' = g \/ g' ∈ gs.
Proof. intros Hnew. rewrite publish_generation_insert by done. apply elem_of_vec_insert. Qed.

Lemma ring_last gs g g' : ring gs -> last gs = Some g -> g' ∈ gs -> g_timestamp g' <= g_timestamp g.
Proof.
  intros Hr Hl Hg. apply last_Some in Hl as [l ->]. apply StronglySorted_app in Hr as (Hall & _ & _).
  apply elem_of_app in Hg as [Hg|Hg]; [|by apply list_elem_of_singleton in Hg as ->].
  apply generation_leb_timestamp, Hall; [done|by left].
Qed.

(** The newest generation at or below a snapshot. *)
Lemma ring_at gs s g :
  ring gs -> rfind (fun g => g_timestamp g <=? s) gs = Some g ->
  g ∈ gs /\ g_timestamp g <= s /\ forall g', g' ∈ gs -> g_timestamp g' <= s -> g_timestamp g' <= g_timestamp g.
Proof.
  intros Hr Hf. pose proof (rfind_Some _ _ _ Hf) as [Hin Hle]. split; [done|]. split; [lia|]. intros g' Hg' Hs.
  unfold rfind in Hf. eapply (ring_last (filter _ gs)); [|exact Hf|apply list_elem_of_filter; split; [lia|done]].
  clear - Hr. induction Hr as [|x l Hs IH Hx]; [constructor|]. destruct (decide ((g_timestamp x <=? s) = true)).
  - rewrite filter_cons_True by done. constructor; [done|]. rewrite Forall_forall in Hx |- *. intros y [_ Hy]%list_elem_of_filter. by apply Hx.
  - by rewrite filter_cons_False.
Qed.

Lemma StronglySorted_drop {A} (R : A -> A -> Prop) l i : StronglySorted R l -> StronglySorted R (drop i l).
Proof. rewrite <- (take_drop i l) at 1. by intros (_ & _ & ?)%StronglySorted_app. Qed.

(** What pruning leaves. *)
Definition pruned (oldest : Timestamp) (gs : list IndexGeneration) : nat :=
  match rposition (fun g => g_timestamp g <=? oldest) gs with Some i => i | None => O end.

Lemma elem_of_take_drop {A} (l : list A) i x : x ∈ l <-> x ∈ take i l \/ x ∈ drop i l.
Proof. rewrite <- (take_drop i l) at 1. apply elem_of_app. Qed.

Lemma prune_keeps oldest gs g :
  ring gs -> g ∈ gs ->
  (oldest < g_timestamp g -> g ∈ drop (pruned oldest gs) gs) /\
  (g_timestamp g <= oldest -> exists g', g' ∈ drop (pruned oldest gs) gs /\ g_timestamp g <= g_timestamp g' <= oldest).
Proof.
  intros Hr Hg. unfold pruned. pose proof (rposition_spec (fun g => g_timestamp g <=? oldest) gs) as Hp.
  destruct (rposition _ gs) as [i|].
  - destruct Hp as (x & Hx & Hle & Hafter). apply Z.leb_le in Hle. rewrite (drop_S _ _ _ Hx).
    rewrite (elem_of_take_drop gs i) in Hg. rewrite (drop_S _ _ _ Hx) in Hg.
    assert (forall y, y ∈ take i gs -> g_timestamp y <= g_timestamp x) as Hbefore.
    { intros y Hy. rewrite <- (take_drop i gs) in Hr. apply StronglySorted_app in Hr as (Hall & _ & _).
      apply generation_leb_timestamp, Hall; [done|]. rewrite (drop_S _ _ _ Hx). by left. }
    destruct Hg as [Hg|[->|Hg]%elem_of_cons].
    + specialize (Hbefore g Hg). split; [lia|]. intros _. exists x. split; [by left|lia].
    + split; [lia|]. intros _. exists x. split; [by left|lia].
    + specialize (Hafter g Hg). cbn in Hafter. split; [intros _; by right|lia].
  - specialize (Hp g Hg). cbn in Hp. split; [intros _; by rewrite drop_0|lia].
Qed.

(** ** Reference counts *)

(** [home] maps each version that reclamation has not drained to its page. *)
Abbreviation Home := (gmap (Key * Timestamp) PageId).

Definition count (h : Home) (p : PageId) : Z := Z.of_nat (size (filter (fun x => x.2 = p) h)).

Definition refs_ok (refs : gmap PageId Z) (h : Home) : Prop :=
  forall p, refs !! p = if count h p =? 0 then None else Some (count h p).

Lemma count_nonneg h p : 0 <= count h p.
Proof. unfold count. lia. Qed.

Lemma count_zero h p x : count h p = 0 -> h !! x <> Some p.
Proof.
  unfold count. intros Hc Hx. assert (filter (fun x => x.2 = p) h = ∅) as He by (apply map_size_empty_inv; lia).
  assert (filter (fun x => x.2 = p) h !! x = Some p) as Hf by (by apply map_lookup_filter_Some). by rewrite He, lookup_empty in Hf.
Qed.

Lemma count_insert h x p q : h !! x = None -> count (<[x := p]> h) q = count h q + (if p =? q then 1 else 0).
Proof.
  intros Hx. unfold count. destruct (Z.eqb_spec p q) as [->|Hne].
  - rewrite map_filter_insert_True by done. rewrite map_size_insert_None; [lia|]. by apply map_lookup_filter_None_2; left.
  - rewrite map_filter_insert_False by done. rewrite delete_id by done. lia.
Qed.

Lemma count_delete h x p q : h !! x = Some p -> count (delete x h) q = count h q - (if p =? q then 1 else 0).
Proof.
  intros Hx. rewrite <- (insert_delete_id h x p Hx) at 2. rewrite count_insert by apply lookup_delete_eq. lia.
Qed.

(** Releasing the page of one version. *)
Lemma release_ref_ok protect refs freed h x p :
  refs_ok refs h -> h !! x = Some p ->
  exists refs', release_ref protect p (refs, freed) =
      (refs', if (count (delete x h) p =? 0) && negb (bool_decide (protect = Some p)) then freed ++ [p] else freed) /\
    refs_ok refs' (delete x h).
Proof.
  intros Hr Hx. pose proof (count_delete h x p p Hx) as Hc. rewrite Z.eqb_refl in Hc.
  pose proof (count_nonneg (delete x h) p) as Hn. unfold release_ref. rewrite (Hr p).
  destruct (Z.eqb_spec (count h p) 0); [lia|]. unfold saturating_sub. replace (Z.max 0 (count h p - 1)) with (count (delete x h) p) by lia.
  assert (forall q, q <> p -> count (delete x h) q = count h q) as Hq
    by (intros q Hne; rewrite (count_delete h x p q Hx); destruct (Z.eqb_spec p q); [by subst|lia]).
  destruct (Z.eqb_spec (count (delete x h) p) 0) as [H0|H0]; cbn [andb].
  - eexists. split; [by destruct (bool_decide _)|]. intros q. destruct (decide (q = p)) as [->|Hne].
    + rewrite lookup_delete_eq, H0. done.
    + rewrite lookup_delete_ne by done. rewrite (Hr q), Hq by done. done.
  - eexists. split; [done|]. intros q. destruct (decide (q = p)) as [->|Hne].
    + rewrite lookup_insert_eq. by rewrite (proj2 (Z.eqb_neq _ _) H0).
    + rewrite lookup_insert_ne by done. rewrite (Hr q), Hq by done. done.
Qed.

(** Releasing the pages of a list of versions. *)
Definition drained (l : list (Key * Version)) (h : Home) : Home := foldl (fun h x => delete (x.1, v_timestamp x.2) h) h l.

Definition homes (l : list (Key * Version)) (h : Home) : Prop :=
  NoDup ((fun x => (x.1, v_timestamp x.2)) <$> l) /\ forall x, x ∈ l -> h !! (x.1, v_timestamp x.2) = Some (v_page_id x.2).

Lemma lookup_drained l h x :
  drained l h !! x = if bool_decide (x ∈ ((fun x => (x.1, v_timestamp x.2)) <$> l)) then None else h !! x.
Proof.
  revert h. unfold drained. induction l as [|y l IH]; intros h; cbn [foldl fmap list_fmap]; [done|].
  rewrite IH. repeat case_bool_decide; try done; rewrite ?elem_of_cons in *; try tauto.
  - destruct (decide (x = (y.1, v_timestamp y.2))) as [->|]; [by rewrite lookup_delete_eq|]. tauto.
  - apply lookup_delete_ne. intros <-. tauto.
Qed.

Lemma release_all_ok protect l : forall refs freed h,
  refs_ok refs h -> homes l h ->
  exists refs' ps, foldl (fun x v => release_ref protect (v_page_id v) x) (refs, freed) (snd <$> l) = (refs', freed ++ ps) /\
    refs_ok refs' (drained l h) /\ NoDup ps /\
    forall p, p ∈ ps -> protect <> Some p /\ count (drained l h) p = 0 /\ count h p <> 0.
Proof.
  induction l as [|[k v] l IH]; intros refs freed h Hr [Hnd Hh].
  - exists refs, []. rewrite app_nil_r. split_and!; [done|done|constructor|]. by intros p ?%not_elem_of_nil.
  - cbn [fmap list_fmap] in Hnd. apply NoDup_cons in Hnd as [Hnin Hnd]. cbn [fst snd] in *.
    assert (h !! (k, v_timestamp v) = Some (v_page_id v)) as Hv by apply (Hh (k, v)), elem_of_cons, or_introl, eq_refl.
    destruct (release_ref_ok protect refs freed h _ _ Hr Hv) as (refs1 & Hrel & Hr1).
    assert (homes l (delete (k, v_timestamp v) h)) as Hh1.
    { split; [done|]. intros x Hx. rewrite lookup_delete_ne; [apply Hh; by right|]. intros E. apply Hnin. rewrite E.
      apply list_elem_of_fmap. by exists x. }
    cbn [fmap list_fmap foldl fst snd]. rewrite Hrel.
    match goal with |- context [foldl _ (refs1, ?f) _] => set (freed1 := f) end.
    destruct (IH refs1 freed1 _ Hr1 Hh1) as (refs' & ps & Hf & Hr' & Hps & Hall). cbn [drained foldl fst snd]. fold (drained l (delete (k, v_timestamp v) h)).
    rewrite Hf. pose proof (count_delete h _ _ (v_page_id v) Hv) as Hc. rewrite Z.eqb_refl in Hc.
    pose proof (count_nonneg (delete (k, v_timestamp v) h) (v_page_id v)) as Hn.
    assert (forall p, count (delete (k, v_timestamp v) h) p <> 0 -> count h p <> 0) as Hmono
      by (intros p; pose proof (count_nonneg (delete (k, v_timestamp v) h) p) as Hp; pose proof (count_delete h _ _ p Hv) as Hcd;
          destruct (_ =? _) in Hcd; lia).
    unfold freed1. destruct (Z.eqb_spec (count (delete (k, v_timestamp v) h) (v_page_id v)) 0) as [H0|H0]; cbn [andb];
      [destruct (bool_decide_reflect (protect = Some (v_page_id v))) as [Hp|Hp]; cbn [negb]|].
    + exists refs', ps. split_and!; [done|done|done|]. intros p Hin. destruct (Hall p Hin) as (? & ? & ?). auto.
    + exists refs', (v_page_id v :: ps). split_and!; [by rewrite <- app_assoc|done| |].
      * apply NoDup_cons. split; [|done]. intros Hin. destruct (Hall _ Hin) as (_ & _ & ?). lia.
      * intros p [->|Hin]%elem_of_cons; [|destruct (Hall p Hin) as (? & ? & ?); auto]. split; [done|]. split; [|lia].
        clear - H0 Hnin. enough (forall h, count h (v_page_id v) = 0 -> count (drained l h) (v_page_id v) = 0) as Hd by (by apply Hd).
        clear H0 h. unfold drained. induction l as [|y l IHl]; intros h H0; cbn [foldl]; [done|]. apply IHl.
        { intros Hin. apply Hnin. cbn. by right. }
        destruct (h !! (y.1, v_timestamp y.2)) as [q|] eqn:E; [|by rewrite delete_id].
        pose proof (count_delete h _ _ (v_page_id v) E). pose proof (count_nonneg (delete (y.1, v_timestamp y.2) h) (v_page_id v)). destruct (_ =? _); lia.
    + exists refs', ps. split_and!; [done|done|done|]. intros p Hin. destruct (Hall p Hin) as (? & ? & ?). auto.
Qed.

(** ** One sweep over the versions *)

Definition drop_to (oldest : Timestamp) (vs : list Version) : nat :=
  match rposition (fun v => v_timestamp v <=? oldest) vs with Some i => i | None => O end.
Definition gone (oldest : Timestamp) (vs : list Version) : list Version := take (drop_to oldest vs) vs.
Definition kept (oldest : Timestamp) (vs : list Version) : list Version := drop (drop_to oldest vs) vs.

(** The key leaves the map: a generation serves its only version. *)
Definition leaves (oldest : Timestamp) (cover : option Timestamp) (s : State) (k : Key) (vs : list Version) : bool :=
  match cover, kept oldest vs with
  | Some cover, [v] => v_timestamp v <=? cover
  | _, _ => false
  end && negb (bool_decide (k ∈ dirty_keys s)) && negb (bool_decide (is_Some (intents s !! k))).

Definition all_gone (oldest : Timestamp) (l : list (Key * list Version)) : list (Key * Version) :=
  mjoin ((fun x => pair x.1 <$> gone oldest x.2) <$> l).

Lemma sweep_key_spec protect oldest cover s w k vs :
  let w1 := sweep_key protect oldest cover s w (k, vs) in
  (sw_refs w1, sw_freed w1) = foldl (fun x v => release_ref protect (v_page_id v) x) (sw_refs w, sw_freed w) (gone oldest vs) /\
  sw_versions w1 = if leaves oldest cover s k vs then sw_versions w else <[k := kept oldest vs]> (sw_versions w).
Proof.
  unfold sweep_key. fold (drop_to oldest vs). fold (gone oldest vs). fold (kept oldest vs).
  destruct (foldl _ _ _) as [refs freed]. unfold leaves. by destruct (_ && _ && _).
Qed.

Lemma sweep_fold protect oldest cover s l : forall w,
  NoDup l.*1 ->
  let w' := foldl (sweep_key protect oldest cover s) w l in
  (sw_refs w', sw_freed w') = foldl (fun x v => release_ref protect (v_page_id v) x) (sw_refs w, sw_freed w) (snd <$> all_gone oldest l) /\
  forall k, sw_versions w' !! k =
    match list_find (fun x => x.1 = k) l with
    | Some (_, (_, vs)) => if leaves oldest cover s k vs then sw_versions w !! k else Some (kept oldest vs)
    | None => sw_versions w !! k
    end.
Proof.
  induction l as [|[k vs] l IH]; intros w Hnd; cbn [foldl]; [done|]. cbn [fmap list_fmap fst] in Hnd. apply NoDup_cons in Hnd as [Hk Hnd].
  specialize (IH (sweep_key protect oldest cover s w (k, vs)) Hnd). cbn zeta in IH |- *. destruct IH as [IH1 IH2].
  destruct (sweep_key_spec protect oldest cover s w k vs) as [Hrf Hv].
  split.
  - rewrite IH1, Hrf. unfold all_gone. cbn [fmap list_fmap mjoin list_join]. rewrite fmap_app, foldl_app. cbn [fst snd].
    rewrite <- list_fmap_compose. f_equal. f_equal. symmetry. apply list_fmap_id.
  - intros k'. rewrite IH2, Hv. cbn [list_find]. destruct (decide ((k, vs).1 = k')) as [<-|Hne]; cbn [fst].
    + assert (list_find (fun x : Key * list Version => x.1 = k) l = None) as ->.
      { apply list_find_None, Forall_forall. intros x Hx E. apply Hk. rewrite <- E. by apply list_elem_of_fmap_2. }
      destruct (leaves _ _ _ _ _); [done|]. by rewrite lookup_insert_eq.
    + assert ((if leaves oldest cover s k vs then sw_versions w else <[k:=kept oldest vs]> (sw_versions w)) !! k' = sw_versions w !! k') as ->
        by (destruct (leaves _ _ _ _ _); [done|by rewrite lookup_insert_ne]).
      destruct (list_find _ l) as [[i [k2 vs2]]|] eqn:E; done.
Qed.

Lemma bt_list_find (m : gmap Key (list Version)) k :
  list_find (fun x => x.1 = k) (bt_list m) = None /\ m !! k = None \/
  exists i vs, list_find (fun x => x.1 = k) (bt_list m) = Some (i, (k, vs)) /\ m !! k = Some vs.
Proof.
  destruct (list_find (fun x => x.1 = k) (bt_list m)) as [[i [k' vs]]|] eqn:E; [right|left].
  - apply list_find_Some in E as (Hi & Hk & _). cbn in Hk. subst k'. exists i, vs. split; [done|].
    apply elem_of_bt_list. by eapply list_elem_of_lookup_2.
  - split; [done|]. apply list_find_None in E. rewrite Forall_forall in E. apply eq_None_not_Some. intros [vs Hvs].
    apply elem_of_bt_list in Hvs. by apply (E _ Hvs).
Qed.

Lemma elem_of_all_gone (oldest : Timestamp) (m : gmap Key (list Version)) (k : Key) (v : Version) :
  (k, v) ∈ all_gone oldest (bt_list m) <-> exists vs, m !! k = Some vs /\ v ∈ gone oldest vs.
Proof.
  unfold all_gone. rewrite list_elem_of_join. split.
  - intros (x & Hv & Hx). apply list_elem_of_fmap in Hx as ([k' vs] & -> & Hin). cbn in Hv.
    apply list_elem_of_fmap in Hv as (v' & [= <- <-] & Hv). exists vs. split; [by apply elem_of_bt_list|done].
  - intros (vs & Hm & Hv). exists (pair k <$> gone oldest vs). split; [by apply list_elem_of_fmap_2|].
    apply elem_of_bt_list in Hm. apply list_elem_of_fmap. by exists (k, vs).
Qed.

Lemma ascending_NoDup vs : ascending vs -> NoDup (v_timestamp <$> vs).
Proof.
  induction 1 as [|v vs Hs IH Hv]; cbn; [constructor|]. apply NoDup_cons. split; [|done].
  intros (w & Hw & Hin)%list_elem_of_fmap. rewrite Forall_forall in Hv. specialize (Hv w Hin). lia.
Qed.

Lemma all_gone_homes (oldest : Timestamp) (m : gmap Key (list Version)) h :
  (forall k vs, m !! k = Some vs -> ascending vs) ->
  (forall k vs v, m !! k = Some vs -> v ∈ vs -> h !! (k, v_timestamp v) = Some (v_page_id v)) ->
  homes (all_gone oldest (bt_list m)) h.
Proof.
  intros Ha Hh. split.
  - assert (forall l, NoDup l.*1 -> (forall x, x ∈ l -> ascending x.2) ->
      NoDup ((fun x : Key * Version => (x.1, v_timestamp x.2)) <$> all_gone oldest l)) as Hall.
    { induction l as [|[k vs] l IH]; intros Hnd Hasc; [constructor|]. cbn [fmap list_fmap fst] in Hnd. apply NoDup_cons in Hnd as [Hk Hnd].
      unfold all_gone. cbn [fmap list_fmap mjoin list_join fst snd]. rewrite fmap_app. apply NoDup_app. split; [|split].
      - rewrite <- list_fmap_compose. specialize (Hasc (k, vs) ltac:(left)). cbn in Hasc.
        assert (ascending (gone oldest vs)) as Hg by (unfold gone; rewrite <- (take_drop (drop_to oldest vs) vs) in Hasc; by apply StronglySorted_app in Hasc as (_ & ? & _)).
        apply ascending_NoDup in Hg. rewrite <- (NoDup_fmap (fun t => (k, t)) (v_timestamp <$> gone oldest vs)) in Hg. by rewrite <- list_fmap_compose in Hg.
      - intros x ((k1 & v1) & -> & (v2 & [= -> ->] & _)%list_elem_of_fmap)%list_elem_of_fmap. cbn.
        intros ((k3 & v3) & [= Hk3 _] & Hin)%list_elem_of_fmap. cbn in Hk3. subst k3.
        apply list_elem_of_join in Hin as (y & Hy & (z & -> & Hz)%list_elem_of_fmap). apply list_elem_of_fmap in Hy as (v4 & [= -> _] & _).
        apply Hk. by apply list_elem_of_fmap_2.
      - apply IH; [done|]. intros x Hx. apply Hasc. by right. }
    apply Hall; [apply keys_sorted_NoDup, bt_list_sorted|]. intros [k vs] Hx%elem_of_bt_list. by apply (Ha k).
  - intros [k v] (vs & Hm & Hv)%elem_of_all_gone. cbn. apply (Hh k vs); [done|]. unfold gone in Hv.
    rewrite <- (take_drop (drop_to oldest vs) vs). apply elem_of_app. by left.
Qed.

(** ** The oldest snapshot *)

Lemma oldest_spec s :
  (active s = ∅ /\ oldest_active_snapshot s = visible_through s) \/
  (exists id, active s !! id = Some (oldest_active_snapshot s)) /\
  forall id t, active s !! id = Some t -> oldest_active_snapshot s <= t.
Proof.
  unfold oldest_active_snapshot. destruct (snd <$> map_to_list (active s)) as [|t ts] eqn:E.
  - left. split; [|done]. apply fmap_nil_inv in E. by apply map_to_list_empty_iff.
  - right. assert (forall x, x ∈ t :: ts <-> exists id, active s !! id = Some x) as Hin.
    { intros x. rewrite <- E. rewrite list_elem_of_fmap. split.
      - intros ([id x'] & -> & Hx%elem_of_map_to_list). by exists id.
      - intros (id & Hx%elem_of_map_to_list). by exists (id, x). }
    assert (foldr Z.min t ts ∈ t :: ts /\ forall x, x ∈ t :: ts -> foldr Z.min t ts <= x) as [Hm Hle].
    { clear. induction ts as [|y ts [IH1 IH2]]; cbn [foldr]; [split; [left|intros x ->%list_elem_of_singleton; lia]|]. split.
      - destruct (Z.min_spec y (foldr Z.min t ts)) as [[_ ->]|[_ ->]]; [right; left|].
        apply elem_of_cons in IH1 as [->|IH1]; [left|right; by right].
      - intros x [->|[->|Hx]%elem_of_cons]%elem_of_cons; [specialize (IH2 t ltac:(left)); lia|lia|specialize (IH2 x ltac:(by right)); lia]. }
    split; [by apply Hin|]. intros id x Hx. apply Hle, Hin. by exists id.
Qed.

Lemma oldest_le_active s id t : active s !! id = Some t -> oldest_active_snapshot s <= t.
Proof. intros Ht. destruct (oldest_spec s) as [[He _]|[_ Hle]]; [by rewrite He in Ht|by eapply Hle]. Qed.

Lemma oldest_le_visible s :
  (forall id t, active s !! id = Some t -> t <= visible_through s) -> oldest_active_snapshot s <= visible_through s.
Proof. intros Ha. destruct (oldest_spec s) as [[_ ->]|[[id Hid] _]]; [lia|by apply (Ha id)]. Qed.

Lemma oldest_mono s s' :
  oldest_active_snapshot s <= visible_through s' ->
  (forall id t, active s' !! id = Some t -> oldest_active_snapshot s <= t) -> oldest_active_snapshot s <= oldest_active_snapshot s'.
Proof. intros Hv Ha. destruct (oldest_spec s') as [[_ ->]|[[id Hid] _]]; [done|by apply (Ha id)]. Qed.

(** ** Reclamation *)

Definition cover_of (oldest : Timestamp) (gs : list IndexGeneration) : option Timestamp :=
  g_timestamp <$> rfind (fun g => g_timestamp g <=? oldest) (drop (pruned oldest gs) gs).

Lemma reclaim_covered_spec protect s h :
  refs_ok (page_refs s) h ->
  (forall k vs, versions s !! k = Some vs -> ascending vs) ->
  (forall k vs v, versions s !! k = Some vs -> v ∈ vs -> h !! (k, v_timestamp v) = Some (v_page_id v)) ->
  let oldest := oldest_active_snapshot s in
  let h' := drained (all_gone oldest (bt_list (versions s))) h in
  exists ps n refs' vs', reclaim_covered protect s =
      ((manifest_page_id <$> take (pruned oldest (generations s)) (generations s)) ++ ps,
       mkState vs' refs' (intents s) (active s) (completed_timestamps s) (next_transaction_id s) (next_commit_timestamp s)
               (visible_through s) (drop (pruned oldest (generations s)) (generations s)) (dirty_keys s) n) /\
    refs_ok refs' h' /\ NoDup ps /\ (forall p, p ∈ ps -> protect <> Some p /\ count h' p = 0 /\ count h p <> 0) /\
    forall k, vs' !! k =
      match versions s !! k with
      | Some vs => if leaves oldest (cover_of oldest (generations s)) s k vs then None else Some (kept oldest vs)
      | None => None
      end.
Proof.
  intros Hr Ha Hh oldest h'. unfold reclaim_covered. fold oldest. fold (pruned oldest (generations s)).
  set (gs := drop (pruned oldest (generations s)) (generations s)). fold (cover_of oldest (generations s)).
  set (w0 := mkSweep ∅ (page_refs s) (manifest_page_id <$> take (pruned oldest (generations s)) (generations s)) (reclaimed_versions s)).
  pose proof (sweep_fold protect oldest (cover_of oldest (generations s)) s (bt_list (versions s)) w0
    (keys_sorted_NoDup _ (bt_list_sorted _))) as [Hrf Hv].
  destruct (release_all_ok protect _ (page_refs s) (sw_freed w0) h Hr (all_gone_homes oldest (versions s) h Ha Hh)) as (refs' & ps & Hrel & Hr' & Hnd & Hps).
  set (w := foldl _ w0 _) in *. cbn [w0 sw_refs sw_freed] in Hrf, Hrel. rewrite Hrel in Hrf. injection Hrf as Hrefs Hfreed.
  exists ps, (sw_reclaimed w), refs', (sw_versions w). rewrite Hrefs, Hfreed. split_and!; [done|done|done|done|].
  intros k. rewrite Hv. destruct (bt_list_find (versions s) k) as [[-> ->]|(i & vs & -> & ->)]; [done|].
  destruct (leaves _ _ _ _ _); done.
Qed.

Lemma kept_sub oldest vs v : v ∈ kept oldest vs -> v ∈ vs.
Proof. unfold kept. intros Hv. apply (elem_of_take_drop vs (drop_to oldest vs)). by right. Qed.

(** What leaves a version list is older than a version that stays and that
    every snapshot sees. *)
Lemma gone_superseded oldest vs v :
  ascending vs -> v ∈ gone oldest vs -> exists w, w ∈ kept oldest vs /\ v_timestamp v < v_timestamp w <= oldest.
Proof.
  intros Ha. unfold gone, kept, drop_to. pose proof (rposition_spec (fun v => v_timestamp v <=? oldest) vs) as Hp.
  destruct (rposition _ vs) as [i|]; [|by intros ?%not_elem_of_nil].
  destruct Hp as (w & Hw & Hle & _). intros Hv. exists w. rewrite (drop_S _ _ _ Hw). split; [by left|].
  rewrite <- (take_drop i vs) in Ha. apply StronglySorted_app in Ha as (Hall & _ & _). split; [|lia].
  apply Hall; [done|]. rewrite (drop_S _ _ _ Hw). by left.
Qed.

Lemma gone_or_kept oldest vs v : v ∈ vs <-> v ∈ gone oldest vs \/ v ∈ kept oldest vs.
Proof. apply elem_of_take_drop. Qed.

Lemma ascending_kept oldest vs : ascending vs -> ascending (kept oldest vs).
Proof. apply StronglySorted_drop. Qed.
