(* ===== verification/MvccSystem.v ===== *)
(** * Transactions running side by side

    The database with its running commits and index builds as a transition
    system: each step is one critical section of the state lock, or one call
    of a commit or of an index build into storage.  [history] is the
    specification: every version that was ever committed, never reclaimed.
    [Inv] relates it to what the database still holds. *)
From S2P Require Import Prelude Page Order Node Record Store ByteLru Tree Backend Mvcc MvccSweep.
Local Open Scope Z_scope.

Abbreviation History := (gmap Key (list Version)).

Definition at_key (H : History) (k : Key) : list Version := default [] (H !! k).

(** The value a snapshot sees. *)
Definition visible_value (H : History) (k : Key) (s : Timestamp) : option (list byte) :=
  version_at (at_key H k) s ≫= v_value.

Abbreviation write := (Key * option (list byte))%type.

(** A commit between [prepare_commit] and [finish_prepared]. *)
Record Inflight := mkInflight {
  f_id : TransactionId;
  f_snapshot : Timestamp;
  f_timestamp : Timestamp;
  f_writes : list write;
  f_pages : option (list PageId);
}.

(** An index build between its critical sections, and the release after it. *)
Inductive Job :=
| Captured (c : Capture)
| Built (g : IndexGeneration)
| Freed (ps : list PageId).

Definition with_pages (f : Inflight) (ps : list PageId) : Inflight :=
  mkInflight (f_id f) (f_snapshot f) (f_timestamp f) (f_writes f) (Some ps).

Definition record_version (t : Timestamp) (H : History) (x : write * PageId) : History :=
  let '((k, value), p) := x in
  let vs := at_key H k in
  <[k := vec_insert vs (insert_position vs t) (mkVersion t value p)]> H.

Definition record_commit (t : Timestamp) (writes : list write) (ps : list PageId) (H : History) : History :=
  foldl (record_version t) H (zip writes ps).

(** The records on each version page. *)
Abbreviation Pages := (gmap PageId (list VersionRecord)).

Section System.
Context {B : Type} {BB : Backend B} {BL : BackendLaws B} (size_of_record : Z).

Record Sys := mkSys {
  inner : @Inner B;
  history : History;
  inflight : list Inflight;
  jobs : list Job;
}.

Definition needs_build (s : State) : Prop :=
  forall g, latest_generation s = Some g -> g_timestamp g <> visible_through s.

Definition can_build (b : B) (c : Capture) : Prop :=
  match cp_base c with
  | Some g => bk_can_edit b (g_root g) (cp_mutations c)
  | None => bk_can_plan b (cp_live_entries c)
  end.

Inductive step : Sys -> Sys -> Prop :=
| step_get i H F J t k v i' :
    active (i_state i) !! t_id t = Some (t_snapshot t) ->
    transaction_get size_of_record k (mkSession t i) = (Ok v, mkSession t i') ->
    step (mkSys i H F J) (mkSys i' H F J)
| step_scan i H F J t prefix r t' i' :
    active (i_state i) !! t_id t = Some (t_snapshot t) ->
    scan_prefix size_of_record prefix (mkSession t i) = (Ok r, mkSession t' i') ->
    step (mkSys i H F J) (mkSys i' H F J)
| step_begin i H F J id snapshot s' :
    begin_transaction (i_state i) = (Ok (id, snapshot), s') ->
    step (mkSys i H F J) (mkSys (set_state s' i) H F J)
| step_prepare i H F J id snapshot writes prefixes t s' :
    active (i_state i) !! id = Some snapshot -> (forall f, f ∈ F -> f_id f <> id) ->
    NoDup writes.*1 -> Forall (fun w => validate_size w.1 w.2 = Ok tt) writes ->
    prepare_commit id snapshot writes.*1 prefixes (i_state i) = (Ok t, s') ->
    step (mkSys i H F J) (mkSys (set_state s' i) H (mkInflight id snapshot t writes None :: F) J)
| step_persist i H F1 f F2 J ps i' :
    f_pages f = None -> blen (f_writes f) <= bk_pages (i_storage i) -> 3 * blen (f_writes f) <= bk_log (i_storage i) ->
    persist_commit (f_timestamp f) (f_writes f) i = (Ok ps, i') ->
    step (mkSys i H (F1 ++ f :: F2) J) (mkSys i' H (F1 ++ with_pages f ps :: F2) J)
| step_abort i H F1 f F2 J s' :
    f_pages f = None ->
    finish_prepared (f_id f) (f_timestamp f) (f_writes f) None (i_state i) = (Ok tt, s') ->
    step (mkSys i H (F1 ++ f :: F2) J) (mkSys (set_state s' i) H (F1 ++ F2) J)
| step_finish i H F1 f F2 J ps s' :
    f_pages f = Some ps ->
    finish_prepared (f_id f) (f_timestamp f) (f_writes f) (Some ps) (i_state i) = (Ok tt, s') ->
    step (mkSys i H (F1 ++ f :: F2) J)
         (mkSys (set_state s' i) (record_commit (f_timestamp f) (f_writes f) ps H) (F1 ++ F2) J)
| step_end i H F J id :
    (forall f, f ∈ F -> f_id f <> id) ->
    step (mkSys i H F J) (mkSys (set_state (end_transaction id (i_state i)) i) H F J)
| step_capture i H F J :
    needs_build (i_state i) ->
    step (mkSys i H F J) (mkSys i H F (Captured (capture (i_state i)) :: J))
| step_build i H F J1 c J2 g i' :
    can_build (i_storage i) c -> build_generation c i = (Ok g, i') ->
    step (mkSys i H F (J1 ++ Captured c :: J2)) (mkSys i' H F (J1 ++ Built g :: J2))
| step_publish i H F J1 g J2 freed s' i' :
    publish g (op_page_id <$> i_open_page i) (i_state i) = (freed, s') ->
    forget_records freed (set_state s' i) = (Ok tt, i') ->
    step (mkSys i H F (J1 ++ Built g :: J2)) (mkSys i' H F (J1 ++ Freed freed :: J2))
| step_release i H F J1 ps J2 b' :
    bk_release ps (i_storage i) = (Ok tt, b') ->
    step (mkSys i H F (J1 ++ Freed ps :: J2)) (mkSys (set_storage b' i) H F (J1 ++ J2)).

(** ** The invariant *)

(** The map of an index that was built for a snapshot. *)
Definition reflects (H : History) (m : gmap Key PageId) (t : Timestamp) : Prop :=
  forall k, m !! k = (v ← version_at (at_key H k) t; _ ← v_value v; Some (v_page_id v)).

Definition page_ids_ok (mutations : list IndexMutation) : Prop := forall e, Upsert e ∈ mutations -> is_u64 (value e).

Definition capture_ok (b : B) (H : History) (c : Capture) : Prop :=
  match cp_base c with
  | Some g => exists m, bk_index b (g_root g) m /\ reflects H (foldl apply_mutation m (cp_mutations c)) (cp_timestamp c) /\
                        page_ids_ok (cp_mutations c)
  | None => exists m, bt_list m = entry_pair <$> cp_live_entries c /\ reflects H m (cp_timestamp c) /\
                      Forall (fun e => is_u64 (value e)) (cp_live_entries c)
  end.

Definition serves (b : B) (H : History) (g : IndexGeneration) : Prop :=
  exists m, bk_index b (g_root g) m /\ reflects H m (g_timestamp g).

(** Pages that hold no versions: manifests, and pages waiting for release. *)
Definition job_pages (j : Job) : list PageId :=
  match j with Captured _ => [] | Built g => [manifest_page_id g] | Freed ps => ps end.

Definition other_pages (gs : list IndexGeneration) (J : list Job) : list PageId :=
  (manifest_page_id <$> gs) ++ mjoin (job_pages <$> J).

(** [v] is served by a generation that every snapshot may use. *)
Definition covered (s : State) (h : Home) (k : Key) (v : Version) : Prop :=
  h !! (k, v_timestamp v) = Some (v_page_id v) /\
  (exists g, g ∈ generations s /\ v_timestamp v <= g_timestamp g <= oldest_active_snapshot s) /\
  forall w, w ∈ at_key (versions s) k -> v_timestamp v < v_timestamp w.

(** [v] is older than a version that every snapshot sees. *)
Definition superseded (H : History) (oldest : Timestamp) (k : Key) (v : Version) : Prop :=
  exists w, w ∈ at_key H k /\ v_timestamp v < v_timestamp w <= oldest.

Record VersionsOk (s : State) (H : History) (h : Home) : Prop := {
  vo_history : forall k, ascending (at_key H k);
  vo_ascending : forall k, ascending (at_key (versions s) k);
  vo_sub : forall k v, v ∈ at_key (versions s) k -> v ∈ at_key H k /\ h !! (k, v_timestamp v) = Some (v_page_id v);
  vo_kept : forall k v, v ∈ at_key H k -> v ∈ at_key (versions s) k \/ covered s h k v \/ superseded H (oldest_active_snapshot s) k v;
  vo_refs : refs_ok (page_refs s) h;
  vo_dirty : forall k v, v ∈ at_key H k -> k ∈ dirty_keys s \/ exists g, last (generations s) = Some g /\ v_timestamp v <= g_timestamp g;
}.

Record PagesOk (i : @Inner B) (H : History) (F : list Inflight) (h : Home) (P : Pages) : Prop := {
  po_ok : bk_ok (i_storage i);
  po_home : forall k t p, h !! (k, t) = Some p ->
    exists v rs, v ∈ at_key H k /\ v_timestamp v = t /\ v_page_id v = p /\ P !! p = Some rs /\ mkVersionRecord t k (v_value v) ∈ rs;
  po_data : forall p rs, P !! p = Some rs ->
    bk_data (i_storage i) p (records_bytes rs) /\ Forall record_ok rs /\ blen (records_bytes rs) <= MAX_PAGE_PAYLOAD;
  po_records : forall p rs r, P !! p = Some rs -> r ∈ rs ->
    (exists v, v ∈ at_key H (vr_key r) /\ v_timestamp v = vr_timestamp r /\ v_value v = vr_value r) \/
    (exists f, f ∈ F /\ f_timestamp f = vr_timestamp r /\ (vr_key r, vr_value r) ∈ f_writes f /\ f_pages f <> None);
  po_open : forall o, i_open_page i = Some o ->
    exists rs, P !! op_page_id o = Some rs /\ op_offset o = blen (records_bytes rs);
  po_cache : forall p rs, lru_holds (i_record_cache i) p rs -> P !! p = Some rs;
}.

Record TimesOk (s : State) (H : History) (F : list Inflight) : Prop := {
  to_range : 0 <= visible_through s < next_commit_timestamp s /\ next_commit_timestamp s <= U64_MAX;
  to_history : forall k v, v ∈ at_key H k -> 1 <= v_timestamp v < next_commit_timestamp s;
  to_inflight : forall f, f ∈ F -> visible_through s < f_timestamp f < next_commit_timestamp s;
  to_distinct : NoDup (f_timestamp <$> F);
  to_apart : forall k v f, v ∈ at_key H k -> f ∈ F -> v_timestamp v <> f_timestamp f;
  to_completed : forall t, t ∈ completed_timestamps s -> visible_through s < t < next_commit_timestamp s /\ t ∉ f_timestamp <$> F;
  to_all : forall t, visible_through s < t < next_commit_timestamp s -> t ∈ completed_timestamps s \/ t ∈ f_timestamp <$> F;
  to_next : visible_through s + 1 ∉ completed_timestamps s;
  to_active : forall id t, active s !! id = Some t -> id < next_transaction_id s /\ t <= visible_through s;
}.

Record InflightOk (s : State) (H : History) (P : Pages) (f : Inflight) : Prop := {
  io_active : active s !! f_id f = Some (f_snapshot f);
  io_keys : NoDup (f_writes f).*1;
  io_sizes : Forall (fun w => validate_size w.1 w.2 = Ok tt) (f_writes f);
  io_intents : forall k, k ∈ (f_writes f).*1 -> intents s !! k = Some (f_id f);
  io_latest : forall k v, k ∈ (f_writes f).*1 -> v ∈ at_key H k -> v_timestamp v <= f_snapshot f;
  io_pages : forall ps, f_pages f = Some ps -> length ps = length (f_writes f) /\
    forall j w p, f_writes f !! j = Some w -> ps !! j = Some p ->
      exists rs, P !! p = Some rs /\ mkVersionRecord (f_timestamp f) w.1 w.2 ∈ rs;
}.

Record RingOk (i : @Inner B) (H : History) (J : list Job) (P : Pages) : Prop := {
  ro_ring : ring (generations (i_state i));
  ro_index : forall g, g ∈ generations (i_state i) -> serves (i_storage i) H g /\ g_timestamp g <= visible_through (i_state i);
  ro_captured : forall c, Captured c ∈ J -> capture_ok (i_storage i) H c /\ cp_timestamp c <= visible_through (i_state i);
  ro_built : forall g, Built g ∈ J -> serves (i_storage i) H g /\ g_timestamp g <= visible_through (i_state i);
  ro_distinct : NoDup (other_pages (generations (i_state i)) J);
  ro_others : forall p, p ∈ other_pages (generations (i_state i)) J -> P !! p = None /\ exists bytes, bk_data (i_storage i) p bytes;
}.

(** Where records were placed.  The open page is the newest one, so whatever
    follows a version on it is on it too; an unfinished commit was placed
    while its page was open, which everything it has seen precedes. *)
Record PlaceOk (open : option OpenPage) (H : History) (F : list Inflight) (h : Home) : Prop := {
  pc_open : forall o k t w, open = Some o -> h !! (k, t) = Some (op_page_id o) -> w ∈ at_key H k -> t < v_timestamp w ->
    v_page_id w = op_page_id o;
  pc_next : forall o k t f ps j value p, open = Some o -> h !! (k, t) = Some (op_page_id o) -> f ∈ F -> f_pages f = Some ps ->
    f_writes f !! j = Some (k, value) -> ps !! j = Some p -> p = op_page_id o;
  pc_inflight : forall f ps p k t w, f ∈ F -> f_pages f = Some ps -> p ∈ ps -> h !! (k, t) = Some p -> w ∈ at_key H k ->
    t < v_timestamp w <= f_snapshot f -> v_page_id w = p;
}.

Record Invariants (y : Sys) (h : Home) (P : Pages) : Prop := {
  inv_versions : VersionsOk (i_state (inner y)) (history y) h;
  inv_storage : PagesOk (inner y) (history y) (inflight y) h P;
  inv_times : TimesOk (i_state (inner y)) (history y) (inflight y);
  inv_ids : NoDup (f_id <$> inflight y);
  inv_inflight : forall f, f ∈ inflight y -> InflightOk (i_state (inner y)) (history y) P f;
  inv_ring : RingOk (inner y) (history y) (jobs y) P;
  inv_intents : forall k id, intents (i_state (inner y)) !! k = Some id -> exists f, f ∈ inflight y /\ f_id f = id /\ k ∈ (f_writes f).*1;
  inv_place : PlaceOk (i_open_page (inner y)) (history y) (inflight y) h;
}.

Definition Inv (y : Sys) : Prop := exists h P, Invariants y h P.
End System.
