(* ===== verification/MvccReads.v ===== *)
(** * Reading at a snapshot

    In every state of the invariant, a read at a snapshot that is not older
    than the oldest active one returns what the history says. *)
From S2P Require Import Prelude Page Order Node Record Store ByteLru Tree Backend Mvcc MvccSweep MvccSystem.
Local Open Scope Z_scope.

(** ** The newest record of a page *)

Lemma newest_record_spec rs : forall best,
  (forall r, best = Some r -> True) ->
  match newest_record rs best with
  | Some r => (r ∈ rs \/ best = Some r) /\ (forall x, x ∈ rs -> vr_timestamp x <= vr_timestamp r) /\
              (forall x, best = Some x -> vr_timestamp x <= vr_timestamp r)
  | None => rs = [] /\ best = None
  end.
Proof.
  induction rs as [|r rs IH]; intros best _; cbn [newest_record].
  - destruct best as [b|]; [|done]. split; [by right|]. split; [by intros x ?%not_elem_of_nil|by intros x [= ->]].
  - match goal with |- context [newest_record rs ?b] => specialize (IH b (fun _ _ => I)); destruct (newest_record rs b) as [y|] eqn:E end.
    + destruct IH as (Hin & Hrs & Hbest). split; [|split].
      * destruct Hin as [Hin|Hin]; [left; by right|]. destruct best as [b|]; [|injection Hin as <-; left; left].
        destruct (vr_timestamp b <=? vr_timestamp r); injection Hin as <-; [left; left|by right].
      * intros x [->|Hx]%elem_of_cons; [|by apply Hrs]. destruct best as [b|]; [|by apply Hbest].
        destruct (Z.leb_spec (vr_timestamp b) (vr_timestamp r)); [by apply Hbest|]. specialize (Hbest b eq_refl). lia.
      * intros x ->. destruct (Z.leb_spec (vr_timestamp x) (vr_timestamp r)); [specialize (Hbest r eq_refl)|specialize (Hbest x eq_refl)]; lia.
    + destruct IH as [_ IH]. destruct best as [b|]; [destruct (_ <=? _)|]; done.
Qed.

Section Reads.
Context {B : Type} {BB : Backend B} {BL : BackendLaws B} (size_of_record : Z).

Abbreviation Inner := (@Inner B).
Abbreviation page_records := (page_records size_of_record).
Abbreviation read_index_version := (read_index_version size_of_record).
Abbreviation read_indexed := (read_indexed size_of_record).
Abbreviation read := (read size_of_record).

(** A read changes nothing but the caches. *)
Definition same (i i' : Inner) : Prop :=
  i_state i' = i_state i /\ i_open_page i' = i_open_page i /\
  (forall r m, bk_index (i_storage i) r m -> bk_index (i_storage i') r m) /\
  (forall p bytes, bk_data (i_storage i) p bytes -> bk_data (i_storage i') p bytes).

Lemma same_refl i : same i i.
Proof. done. Qed.

Lemma same_trans i1 i2 i3 : same i1 i2 -> same i2 i3 -> same i1 i3.
Proof.
  intros (S1 & O1 & X1 & D1) (S2 & O2 & X2 & D2). split_and!; [congruence|congruence|auto|auto].
Qed.

(** The pages and the record cache agree. *)
Definition records_ok (i : Inner) (P : Pages) : Prop :=
  bk_ok (i_storage i) /\
  (forall p rs, P !! p = Some rs -> bk_data (i_storage i) p (records_bytes rs) /\ Forall record_ok rs) /\
  (forall p rs, lru_holds (i_record_cache i) p rs -> P !! p = Some rs).

Lemma PagesOk_records i H F h P : PagesOk i H F h P -> records_ok i P.
Proof. intros [Hok Hh Hd Hr Ho Hc]. split; [done|]. split; [|done]. intros p rs Hp. destruct (Hd p rs Hp) as (? & ? & _). done. Qed.

Lemma decode_packed p rs : Forall record_ok rs -> decode_page p (records_bytes rs) = Ok rs.
Proof. intros Hrs. rewrite <- (app_nil_r (records_bytes rs)). by apply decode_page_records. Qed.

Lemma page_records_ok i P p rs :
  records_ok i P -> P !! p = Some rs -> rs <> [] ->
  exists i', page_records p i = (Ok rs, i') /\ same i i' /\ records_ok i' P.
Proof.
  intros (Hok & Hd & Hc) Hp Hne. unfold Mvcc.page_records. st_run.
  destruct (lru_get p (i_record_cache i)) as [o c'] eqn:Hg.
  assert (forall q r, lru_holds c' q r -> P !! q = Some r) as Hc' by (intros q r Hq; apply Hc; by eapply lru_get_keeps).
  destruct o as [r|].
  - assert (r = rs) as -> by (apply lru_get_value, Hc in Hg; congruence).
    exists (set_record_cache c' i). split; [done|]. split; [done|]. by split_and!.
  - destruct (Hd p rs Hp) as [Hdata Hrs]. destruct (bk_read_ok _ _ _ Hok Hdata) as (page & Hread & Hpay).
    cbn [i_storage set_record_cache]. rewrite Hread. cbn [map_err]. rewrite Hpay, (decode_packed p rs Hrs).
    destruct rs as [|r rs]; [done|]. eexists. split; [done|]. split; [done|]. split_and!; [done|done|].
    cbn [i_record_cache set_record_cache]. intros q x Hq. apply lru_insert_keeps in Hq as [[-> ->]|Hq]; [done|by apply Hc'].
Qed.

(** The page holds records of the key, and the newest that the snapshot sees
    has the value. *)
Definition page_gives (P : Pages) (p : PageId) (k : Key) (s : Timestamp) (value : option (list byte)) : Prop :=
  exists rs r, P !! p = Some rs /\ r ∈ rs /\ vr_key r = k /\ vr_timestamp r <= s /\
    forall x, x ∈ rs -> vr_key x = k -> vr_timestamp x <= s ->
      vr_timestamp x <= vr_timestamp r /\ (vr_timestamp x = vr_timestamp r -> vr_value x = value).

(** A page that an index points to holds the newest visible version. *)
Lemma read_index_version_ok i P p k s value :
  records_ok i P -> page_gives P p k s value ->
  exists i', read_index_version p k s i = (Ok value, i') /\ same i i' /\ records_ok i' P.
Proof.
  intros Hr (rs & r & Hp & Hin & Hk & Hs & Hnew). destruct (page_records_ok i P p rs Hr Hp) as (i' & Hrun & Hsame & Hr'); [by intros ->; apply not_elem_of_nil in Hin|].
  exists i'. split; [|done]. unfold Mvcc.read_index_version. rewrite (ST_bind_step _ _ _ _ _ Hrun).
  pose proof (newest_record_spec (filter (fun r => vr_key r = k /\ vr_timestamp r <= s) rs) None (fun _ _ => I)) as Hn.
  destruct (newest_record _ None) as [x|].
  - destruct Hn as ([Hx|?] & Hmax & _); [|done]. apply list_elem_of_filter in Hx as [[Hxk Hxs] Hx].
    assert (vr_timestamp r <= vr_timestamp x) by (apply Hmax, list_elem_of_filter; by split_and!).
    destruct (Hnew x Hx Hxk Hxs) as [Hle Hval]. rewrite Hval by lia. done.
  - destruct Hn as [Hn _]. assert (r ∈ filter (fun r => vr_key r = k /\ vr_timestamp r <= s) rs) as Hf by (apply list_elem_of_filter; by split_and!).
    rewrite Hn in Hf. by apply not_elem_of_nil in Hf.
Qed.

(** ** Reading through the map and the generations *)

Section State.
Context (i : Inner) (H : History) (F : list Inflight) (J : list Job) (h : Home) (P : Pages).
Hypothesis Hv : VersionsOk (i_state i) H h.
Hypothesis Hp : PagesOk i H F h P.
Hypothesis Ht : TimesOk (i_state i) H F.
Hypothesis Hg : RingOk i H J P.

Abbreviation oldest := (oldest_active_snapshot (i_state i)).

(** What [read_index_version] needs of the page of the newest version. *)
Lemma page_serves k s v :
  s <= visible_through (i_state i) -> newest (at_key H k) s v -> h !! (k, v_timestamp v) = Some (v_page_id v) ->
  page_gives P (v_page_id v) k s (v_value v).
Proof.
  intros Hs (Hin & Hle & Hmax) Hh. destruct (po_home _ _ _ _ _ Hp _ _ _ Hh) as (w & rs & Hw & Htw & _ & Hrs & Hrec).
  assert (w = v) as -> by (eapply ascending_unique; [apply (vo_history _ _ _ Hv k)|done|done|done]).
  exists rs. eexists. split; [done|]. split; [exact Hrec|]. cbn. split; [done|]. split; [done|]. intros x Hx Hk Hxs.
  destruct (po_records _ _ _ _ _ Hp _ _ _ Hrs Hx) as [(u & Hu & Htu & Hval)|(f & Hf & Htf & _)].
  - rewrite Hk in Hu. rewrite <- Htu. split; [apply Hmax; [done|lia]|]. intros He.
    assert (u = v) as -> by (eapply ascending_unique; [apply (vo_history _ _ _ Hv k)|done|done|done]). done.
  - pose proof (to_inflight _ _ _ Ht f Hf). lia.
Qed.

(** When the map has no version for a snapshot, the covering generation has. *)
Lemma read_through_generation k s :
  oldest <= s <= visible_through (i_state i) -> version_at (at_key (versions (i_state i)) k) s = None ->
  match version_at (at_key H k) s with
  | None => True
  | Some v => h !! (k, v_timestamp v) = Some (v_page_id v) /\ exists g, generation_at s (i_state i) = Some g /\ v_timestamp v <= g_timestamp g
  end.
Proof.
  intros Hs Hnone. destruct (version_at (at_key H k) s) as [v|] eqn:E; [|done].
  apply version_at_newest in E; [|apply (vo_history _ _ _ Hv)]. destruct E as (Hin & Hle & Hmax). rewrite version_at_None in Hnone.
  destruct (vo_kept _ _ _ Hv k v Hin) as [Hm|[(Hh & (g & Hgin & Hgle) & _)|(w & Hw & Hlt)]].
  - specialize (Hnone v Hm). lia.
  - split; [done|]. destruct (generation_at s (i_state i)) as [g'|] eqn:Eg.
    + exists g'. split; [done|]. destruct (ring_at _ _ _ (ro_ring _ _ _ _ Hg) Eg) as (_ & _ & Hbest). specialize (Hbest g Hgin ltac:(lia)). lia.
    + pose proof (proj1 (rfind_None _ _) Eg g Hgin) as Hf. cbn in Hf. lia.
  - specialize (Hmax w Hw ltac:(lia)). lia.
Qed.

(** Versions that a snapshot sees and that the map still holds. *)
Lemma map_version k s v :
  oldest <= s -> version_at (at_key (versions (i_state i)) k) s = Some v -> version_at (at_key H k) s = Some v.
Proof.
  intros Hs E. apply version_at_newest in E; [|apply (vo_ascending _ _ _ Hv)]. destruct E as (Hin & Hle & Hmax).
  pose proof (vo_history _ _ _ Hv k) as Ha. destruct (vo_sub _ _ _ Hv k v Hin) as [Hvh _].
  destruct (version_at (at_key H k) s) as [u|] eqn:Eu.
  - apply version_at_newest in Eu; [|done]. pose proof Eu as (Hu & Hus & Humax). f_equal.
    destruct (vo_kept _ _ _ Hv k u Hu) as [Hm|[(_ & _ & Hlater)|(w & Hw & Hlt)]].
    + eapply ascending_unique; [exact Ha|done|done|]. specialize (Hmax u Hm Hus). specialize (Humax v Hvh Hle). lia.
    + specialize (Hlater v Hin). specialize (Humax v Hvh Hle). lia.
    + specialize (Humax w Hw ltac:(lia)). lia.
  - rewrite version_at_None in Eu. specialize (Eu v Hvh). lia.
Qed.

(** The generation of a snapshot answers as the snapshot, for keys that the
    map does not decide. *)
Lemma generation_agrees k s g :
  oldest <= s <= visible_through (i_state i) -> version_at (at_key (versions (i_state i)) k) s = None ->
  generation_at s (i_state i) = Some g -> version_at (at_key H k) (g_timestamp g) = version_at (at_key H k) s.
Proof.
  intros Hs Em Eg. pose proof (read_through_generation k s Hs Em) as Hgen. rewrite Eg in Hgen.
  destruct (ring_at _ _ _ (ro_ring _ _ _ _ Hg) Eg) as (_ & Hgs & _). pose proof (vo_history _ _ _ Hv k) as Ha.
  destruct (version_at (at_key H k) s) as [v|] eqn:Ev.
  - destruct Hgen as (_ & g' & [= <-] & Hle). apply version_at_newest in Ev as (Hin & _ & Hmax); [|done].
    apply version_at_newest; [done|]. split_and!; [done|lia|]. intros w Hw Hws. apply Hmax; [done|lia].
  - rewrite version_at_None in Ev |- *. intros w Hw. specialize (Ev w Hw). lia.
Qed.

(** What the index says of a key, and what its page then gives. *)
Lemma index_serves k s g m :
  oldest <= s <= visible_through (i_state i) -> version_at (at_key (versions (i_state i)) k) s = None ->
  generation_at s (i_state i) = Some g -> reflects H m (g_timestamp g) ->
  match m !! k with
  | None => visible_value H k s = None
  | Some p => exists value, visible_value H k s = Some value /\ page_gives P p k s (Some value)
  end.
Proof.
  intros Hs Em Eg Href. pose proof (read_through_generation k s Hs Em) as Hgen. pose proof (generation_agrees k s g Hs Em Eg) as Hag.
  rewrite (Href k), Hag. unfold visible_value.
  destruct (version_at (at_key H k) s) as [v|] eqn:Ev; cbn [mbind option_bind]; [|done].
  destruct (v_value v) as [value|] eqn:Eval; cbn [mbind option_bind]; [|done].
  destruct Hgen as (Hh & _). apply version_at_newest in Ev; [|apply (vo_history _ _ _ Hv)].
  exists value. split; [done|]. rewrite <- Eval. apply page_serves; [lia|done|done].
Qed.

Lemma set_storage_ok b' :
  bk_ok b' -> (forall r m, bk_index (i_storage i) r m -> bk_index b' r m) ->
  (forall p bytes, bk_data (i_storage i) p bytes -> bk_data b' p bytes) ->
  same i (set_storage b' i) /\ records_ok (set_storage b' i) P.
Proof.
  intros Hok Hidx Hdat. split; [by split_and!|]. destruct (PagesOk_records _ _ _ _ _ Hp) as (_ & Hd & Hc). split_and!; [done| |done].
  intros p rs Hpp. destruct (Hd p rs Hpp). split; [by apply Hdat|done].
Qed.

Lemma read_ok k s :
  oldest <= s <= visible_through (i_state i) ->
  exists i', read k s i = (Ok (visible_value H k s), i') /\ same i i' /\ records_ok i' P.
Proof.
  intros Hs. pose proof (PagesOk_records _ _ _ _ _ Hp) as Hrec. unfold Mvcc.read. st_run. fold (at_key (versions (i_state i)) k).
  destruct (version_at (at_key (versions (i_state i)) k) s) as [v|] eqn:Em.
  { unfold visible_value. rewrite (map_version k s v) by (done || lia). by exists i. }
  destruct (generation_at s (i_state i)) as [g|] eqn:Eg.
  - destruct (ring_at _ _ _ (ro_ring _ _ _ _ Hg) Eg) as (Hgin & _ & _). destruct (ro_index _ _ _ _ Hg g Hgin) as [(m & Hm & Href) _].
    pose proof (index_serves k s g m Hs Em Eg Href) as Hserve. unfold Mvcc.read_indexed. destruct (g_root g) as [root|].
    + destruct (bk_get_ok _ _ _ k (po_ok _ _ _ _ _ Hp) Hm) as (b' & Hget & Hok' & Hidx & Hdat).
      destruct (set_storage_ok b' Hok' Hidx Hdat) as [Hsm Hrec'].
      assert (on_index (bk_get root k) i = (Ok (m !! k), set_storage b' i)) as Hrun by (unfold on_index; by rewrite Hget).
      rewrite (ST_bind_step _ _ _ _ _ Hrun). destruct (m !! k) as [p|]; [|rewrite Hserve; by exists (set_storage b' i)].
      destruct Hserve as (value & -> & Hr).
      destruct (read_index_version_ok _ P _ k s (Some value) Hrec' Hr) as (i' & Hrun' & Hs' & Hr').
      exists i'. split; [done|]. split; [by eapply same_trans|done].
    + apply bk_index_none in Hm as ->. rewrite lookup_empty in Hserve. rewrite Hserve. by exists i.
  - pose proof (read_through_generation k s Hs Em) as Hgen. unfold visible_value.
    destruct (version_at (at_key H k) s) as [v|]; [|by exists i]. destruct Hgen as (_ & g & Eg' & _). by rewrite Eg in Eg'.
Qed.
End State.
End Reads.
