(* ===== verification/MvccCommit.v ===== *)
(** * The commit protocol keeps the invariant

    Beginning, preparing, aborting, finishing and ending a transaction. *)
From S2P Require Import Prelude Page Order Node Record Store ByteLru Tree Backend Mvcc MvccSweep MvccSystem.
Local Open Scope Z_scope.

(** ** What the parts of the invariant depend on *)

Section Frames.
Context {B : Type} {BB : Backend B} {BL : BackendLaws B}.

Lemma VersionsOk_state s s' H h :
  VersionsOk s H h -> versions s' = versions s -> page_refs s' = page_refs s -> generations s' = generations s ->
  dirty_keys s' = dirty_keys s -> oldest_active_snapshot s <= oldest_active_snapshot s' -> VersionsOk s' H h.
Proof.
  intros [Hh Ha Hs Hk Hr Hd] Ev Er Eg Ed Ho. split; rewrite ?Ev, ?Er, ?Eg, ?Ed; try done. intros k v Hv.
  destruct (Hk k v Hv) as [?|[(? & (g & ? & ?) & ?)|(w & ? & ?)]]; [by left|right; left|right; right].
  - split; [done|]. rewrite Eg, Ev. split; [|done]. exists g. split; [done|lia].
  - exists w. split; [done|lia].
Qed.

Lemma RingOk_state s' (i : @Inner B) H J P :
  RingOk i H J P -> generations s' = generations (i_state i) -> visible_through (i_state i) <= visible_through s' ->
  RingOk (set_state s' i) H J P.
Proof.
  intros [Hr Hi Hc Hb Hd Ho] Eg Ev. split; cbn [i_state set_state i_storage]; rewrite ?Eg; try done.
  - intros g Hg. destruct (Hi g Hg). split; [done|lia].
  - intros c Hc'. destruct (Hc c Hc'). split; [done|lia].
  - intros g Hg. destruct (Hb g Hg). split; [done|lia].
Qed.

Lemma PagesOk_state s' (i : @Inner B) H F h P : PagesOk i H F h P -> PagesOk (set_state s' i) H F h P.
Proof. by intros []. Qed.

Lemma InflightOk_state s s' H P f :
  InflightOk s H P f -> active s' !! f_id f = active s !! f_id f ->
  (forall k, k ∈ (f_writes f).*1 -> intents s' !! k = intents s !! k) -> InflightOk s' H P f.
Proof. intros [Ha Hk Hz Hi Hl Hp] Ea Ei. split; try done; [by rewrite Ea|]. intros k Hin. rewrite Ei by done. by apply Hi. Qed.

(** Fewer commits and fewer homes. *)
Lemma PlaceOk_sub (open : option OpenPage) (H : History) (F F' : list Inflight) (h h' : Home) :
  PlaceOk open H F h -> (forall f, f ∈ F' -> f ∈ F \/ f_pages f = None) -> (forall x p, h' !! x = Some p -> h !! x = Some p) ->
  PlaceOk open H F' h'.
Proof.
  intros [Ho Hn Hi] HF Hh. split.
  - intros o k t w Eo Hk. apply (Ho o k t w Eo). by apply Hh.
  - intros o k t f ps j value p Eo Hk Hf Hps. destruct (HF f Hf) as [Hf'|?]; [|congruence]. apply (Hn o k t f ps j value p Eo); auto.
  - intros f ps p k t w Hf Hps Hp Hk. destruct (HF f Hf) as [Hf'|?]; [|congruence]. apply (Hi f ps p k t w); auto.
Qed.

(** ** Beginning and ending *)

Lemma begin_ok i H F J h P id snapshot s' :
  Invariants (mkSys i H F J) h P -> begin_transaction (i_state i) = (Ok (id, snapshot), s') ->
  Invariants (mkSys (set_state s' i) H F J) h P /\ snapshot = visible_through (i_state i) /\ active s' !! id = Some snapshot.
Proof.
  intros [Hv Hs Ht Hd Hf Hr Hint Hpc]. cbn [inner history inflight jobs] in *. unfold begin_transaction. st_run.
  destruct (checked_add U64_MAX (next_transaction_id (i_state i)) 1) as [next|] eqn:E; [|done]. cbn [ok_or]. intros [= <- <- <-].
  apply checked_add_Some in E as [-> _].
  assert (active (i_state i) !! next_transaction_id (i_state i) = None) as Hfresh.
  { apply eq_None_not_Some. intros [t Hid]. apply (to_active _ _ _ Ht) in Hid. lia. }
  pose proof (oldest_le_visible _ (fun id t Hid => proj2 (to_active _ _ _ Ht id t Hid))) as Hov.
  split; [|split; [done|cbn; by rewrite lookup_insert_eq]]. split; cbn [inner history inflight jobs i_state set_state].
  - eapply VersionsOk_state; try done. apply oldest_mono; cbn [active visible_through]; [done|].
    intros id t. rewrite lookup_insert_Some. intros [[_ <-]|[_ Hid]]; [done|by eapply oldest_le_active].
  - by apply PagesOk_state.
  - destruct Ht as [Hrange Hhist Hin Hdis Hap Hc Hall Hnx Ha]. split; cbn; try done.
    intros id t. rewrite lookup_insert_Some. intros [[<- <-]|[_ Hid]]; [lia|]. destruct (Ha id t Hid). lia.
  - done.
  - intros f Hin. specialize (Hf f Hin). eapply InflightOk_state; [done| |done]. cbn. apply lookup_insert_ne. intros E.
    pose proof (io_active _ _ _ _ Hf) as Hact. rewrite <- E, Hfresh in Hact. done.
  - apply RingOk_state; [done|done|]. cbn. lia.
  - done.
  - done.
Qed.

Lemma end_ok i H F J h P id :
  Invariants (mkSys i H F J) h P -> (forall f, f ∈ F -> f_id f <> id) ->
  Invariants (mkSys (set_state (end_transaction id (i_state i)) i) H F J) h P.
Proof.
  intros [Hv Hs Ht Hd Hf Hr Hint Hpc] Hid. cbn [inner history inflight jobs] in *.
  pose proof (oldest_le_visible _ (fun id t Hid => proj2 (to_active _ _ _ Ht id t Hid))) as Hov.
  split; cbn [inner history inflight jobs i_state set_state].
  - eapply VersionsOk_state; try done. apply oldest_mono; cbn [active visible_through end_transaction]; [done|].
    intros id' t. rewrite lookup_delete_Some. intros [_ Hid']. by eapply oldest_le_active.
  - by apply PagesOk_state.
  - destruct Ht as [Hrange Hhist Hin Hdis Hap Hc Hall Hnx Ha]. split; cbn; try done.
    intros id' t. rewrite lookup_delete_Some. intros [_ Hid']. by apply Ha.
  - done.
  - intros f Hin. eapply InflightOk_state; [by apply Hf| |done]. cbn. apply lookup_delete_ne. intros E. by apply (Hid f Hin).
  - apply RingOk_state; [done|done|]. cbn. lia.
  - done.
  - done.
Qed.

(** ** Preparing *)

Lemma lookup_insert_all (keys : list Key) (id : TransactionId) : forall (m : gmap Key TransactionId) (k : Key),
  foldl (fun m k => <[k := id]> m) m keys !! k = if bool_decide (k ∈ keys) then Some id else m !! k.
Proof.
  induction keys as [|x keys IH]; intros m k; cbn [foldl]; [done|]. rewrite IH. repeat case_bool_decide; rewrite ?elem_of_cons in *; try tauto.
  - destruct (decide (k = x)) as [->|]; [by rewrite lookup_insert_eq|]. tauto.
  - apply lookup_insert_ne. intros ->. tauto.
Qed.

(** A key passes [check_write] when nothing newer than the snapshot was
    committed and no other transaction is about to. *)
Lemma check_write_ok s H h id snapshot k :
  VersionsOk s H h -> active s !! id = Some snapshot -> check_write id snapshot s k = Ok tt ->
  (forall owner, intents s !! k = Some owner -> owner = id) /\ forall v, v ∈ at_key H k -> v_timestamp v <= snapshot.
Proof.
  intros Hv Hact. unfold check_write, foreign. pose proof (oldest_le_active s id snapshot Hact) as Hold.
  destruct (match intents s !! k with Some owner => negb (owner =? id) | None => false end) eqn:Ei; [done|].
  destruct (newer_than snapshot (versions s !! k)) eqn:En; [done|]. intros _. split.
  { intros owner Ho. rewrite Ho in Ei. lia. }
  intros v Hin. destruct (vo_kept _ _ _ Hv k v Hin) as [Hm|[(_ & (g & _ & ?) & _)|(w & _ & ?)]]; [|lia|lia].
  pose proof (vo_ascending _ _ _ Hv k) as Ha. unfold at_key in *. unfold newer_than in En. destruct (versions s !! k) as [vs|]; [|by apply not_elem_of_nil in Hm].
  cbn in *. destruct (last vs) as [w|] eqn:El; [|apply last_None in El; subst; by apply not_elem_of_nil in Hm].
  apply last_Some in El as [l ->]. apply StronglySorted_app in Ha as (Hall & _ & _).
  apply elem_of_app in Hm as [Hm|Hm]; [|apply list_elem_of_singleton in Hm as ->; lia]. specialize (Hall v w Hm ltac:(by left)). lia.
Qed.

Lemma prepare_commit_spec id snapshot keys prefixes s t s' :
  prepare_commit id snapshot keys prefixes s = (Ok t, s') ->
  Forall (fun k => check_write id snapshot s k = Ok tt) keys /\ Forall (fun p => check_range id snapshot s p = Ok tt) prefixes /\
  t = next_commit_timestamp s /\ t + 1 <= U64_MAX /\
  s' = mkState (versions s) (page_refs s) (foldl (fun m k => <[k := id]> m) (intents s) keys) (active s)
               (completed_timestamps s) (next_transaction_id s) (t + 1) (visible_through s) (generations s) (dirty_keys s) (reclaimed_versions s).
Proof.
  unfold prepare_commit. st_run. destruct (try_map (check_write id snapshot s) keys) as [l1|] eqn:E1; [|done].
  destruct (try_map (check_range id snapshot s) prefixes) as [l2|] eqn:E2; [|done].
  destruct (checked_add U64_MAX (next_commit_timestamp s) 1) as [n|] eqn:E3; [|done]. cbn [ok_or]. intros [= <- <-].
  apply checked_add_Some in E3 as [-> Hle]. apply try_map_Forall2 in E1, E2.
  assert (forall A (f : A -> TResult unit) l us, Forall2 (fun x y => f x = Ok y) l us -> Forall (fun x => f x = Ok tt) l) as Hall
    by (induction 1 as [|x [] ? ? ? ? IH]; constructor; done).
  split_and!; [by eapply Hall|by eapply Hall|done|done|done].
Qed.

Lemma prepare_ok i H F J h P id snapshot writes prefixes t s' :
  Invariants (mkSys i H F J) h P -> active (i_state i) !! id = Some snapshot -> (forall f, f ∈ F -> f_id f <> id) ->
  NoDup writes.*1 -> Forall (fun w => validate_size w.1 w.2 = Ok tt) writes ->
  prepare_commit id snapshot writes.*1 prefixes (i_state i) = (Ok t, s') ->
  Invariants (mkSys (set_state s' i) H (mkInflight id snapshot t writes None :: F) J) h P.
Proof.
  intros [Hv Hs Ht Hd Hf Hr Hint Hpc] Hact Hid Hnd Hsz Hprep. cbn [inner history inflight jobs] in *.
  apply prepare_commit_spec in Hprep as (Hck & _ & Et & Hmax & ->). rewrite Forall_forall in Hck.
  pose proof (fun k Hk => check_write_ok _ _ _ _ _ _ Hv Hact (Hck k Hk)) as Hcw. destruct Ht as [Hrange Hhist Hin Hdis Hap Hc Hall Hnx Ha].
  split; cbn [inner history inflight jobs i_state set_state].
  - eapply VersionsOk_state; try done.
  - destruct Hs as [? ? ? Hrec ? ?]. split; try done. intros p rs r Hp Hrr.
    destruct (Hrec p rs r Hp Hrr) as [?|(f & ? & ?)]; [by left|right]. exists f. split; [by right|done].
  - split; cbn; try done; try lia.
    + intros k v Hk. specialize (Hhist k v Hk). lia.
    + intros f [->|Hf']%elem_of_cons; cbn; [lia|]. specialize (Hin f Hf'). lia.
    + apply NoDup_cons. split; [|done]. intros (f & Ef & Hf')%list_elem_of_fmap. specialize (Hin f Hf'). cbn in Ef. lia.
    + intros k v f Hk [->|Hf']%elem_of_cons; cbn; [|by eapply Hap]. specialize (Hhist k v Hk). lia.
    + intros x Hx. destruct (Hc x Hx) as [? ?]. split; [lia|]. intros [?|?]%elem_of_cons; [lia|done].
    + intros x Hx. destruct (decide (x = t)) as [->|]; [right; left|]. destruct (Hall x ltac:(lia)); [by left|right; by right].
  - apply NoDup_cons. split; [|done]. intros (f & Ef & Hf')%list_elem_of_fmap. by apply (Hid f Hf').
  - intros f [->|Hf']%elem_of_cons.
    + split; cbn; try done. * intros k Hk. rewrite lookup_insert_all. by rewrite bool_decide_eq_true_2.
      * intros k v Hk Hvk. by apply (Hcw k Hk).
    + eapply InflightOk_state; [by apply Hf|done|]. cbn. intros k Hk. rewrite lookup_insert_all. case_bool_decide as Hin'; [|done].
      exfalso. pose proof (io_intents _ _ _ _ (Hf f Hf') k Hk) as Hint'. destruct (Hcw k Hin') as [Hown _].
      apply Hown in Hint'. by apply (Hid f Hf').
  - apply RingOk_state; [done|done|]. cbn. lia.
  - intros k owner. cbn. rewrite lookup_insert_all. case_bool_decide as Hk.
    + intros [= <-]. eexists. split; [left|]. done.
    + intros (f & ? & ?)%Hint. exists f. split; [by right|done].
  - eapply PlaceOk_sub; [exact Hpc| |done]. intros f [->|?]%elem_of_cons; [by right|by left].
Qed.

(** ** Completing a timestamp *)

Lemma advance_visible_spec fuel : forall v C,
  (size C < fuel)%nat -> (forall t, t ∈ C -> v < t <= U64_MAX) ->
  let '(v', C') := advance_visible fuel v C in
  v <= v' /\ (forall t, v < t <= v' -> t ∈ C) /\ (forall t, t ∈ C' <-> t ∈ C /\ v' < t) /\ (v' + 1 ∉ C').
Proof.
  induction fuel as [|fuel IH]; intros v C Hf HC; [lia|]. cbn [advance_visible].
  destruct (checked_add U64_MAX v 1) as [n|] eqn:E.
  - apply checked_add_Some in E as [-> Hle]. case_bool_decide as Hin.
    + specialize (IH (v + 1) (C ∖ {[v + 1]})).
      assert (size (C ∖ {[(v + 1)%Z]}) < fuel)%nat as Hsz.
      { assert (C ≡ {[v + 1]} ∪ (C ∖ {[v + 1]})) as Heq by (rewrite <- union_difference; set_solver).
        assert (size C = S (size (C ∖ {[v + 1]}))) as Hs by (rewrite Heq at 1; rewrite size_union by set_solver; by rewrite size_singleton). lia. }
      specialize (IH Hsz ltac:(intros t [Ht Hne]%elem_of_difference; rewrite elem_of_singleton in Hne; specialize (HC t Ht); lia)).
      destruct (advance_visible fuel (v + 1) (C ∖ {[v + 1]})) as [v' C']. destruct IH as (H1 & H2 & H3 & H4). split_and!; [lia| | |done].
      * intros t Ht. destruct (decide (t = v + 1)) as [->|]; [done|]. specialize (H2 t ltac:(lia)). set_solver.
      * intros t. rewrite H3, elem_of_difference, elem_of_singleton. split; [tauto|]. intros [? ?]. split; [split; [done|lia]|done].
    + split_and!; [lia|intros; lia| |done]. intros t. split; [|tauto]. intros Ht. split; [done|]. specialize (HC t Ht). lia.
  - apply checked_add_None in E. split_and!; [lia|intros; lia| |].
    + intros t. split; [|tauto]. intros Ht. split; [done|]. specialize (HC t Ht). lia.
    + intros Hin. specialize (HC _ Hin). lia.
Qed.

(** A timestamp leaves the running commits and counts as completed. *)
Lemma complete_times s H F1 f F2 t :
  TimesOk s H (F1 ++ f :: F2) -> f_timestamp f = t ->
  let s' := complete_timestamp t s in
  visible_through s <= visible_through s' /\ TimesOk s' H (F1 ++ F2).
Proof.
  intros [Hrange Hhist Hin Hdis Hap Hc Hall Hnx Ha] <-. unfold complete_timestamp. set (C := {[f_timestamp f]} ∪ completed_timestamps s).
  assert (f ∈ F1 ++ f :: F2) as Hff by (apply elem_of_app; right; left). pose proof (Hin f Hff) as Hft.
  assert (forall x, x ∈ C <-> x = f_timestamp f \/ x ∈ completed_timestamps s) as HC by (intros; unfold C; set_solver).
  pose proof (advance_visible_spec (S (size C)) (visible_through s) C ltac:(lia)) as Hadv.
  specialize (Hadv ltac:(intros x [->|Hx]%HC; [lia|specialize (Hc x Hx); lia])).
  destruct (advance_visible _ _ C) as [v' C']. destruct Hadv as (Hle & Hbelow & HC' & Hnx'). cbn [visible_through]. split; [done|].
  assert (forall g, g ∈ F1 ++ F2 -> g ∈ F1 ++ f :: F2) as Hsub by (intros g; rewrite !elem_of_app, elem_of_cons; tauto).
  rewrite fmap_app, fmap_cons in Hdis. assert (forall g, g ∈ F1 ++ F2 -> f_timestamp g <> f_timestamp f) as Hother.
  { intros g Hg E. apply NoDup_app in Hdis as (_ & Hd1 & Hd2). apply NoDup_cons in Hd2 as [Hd2 _]. apply elem_of_app in Hg as [Hg|Hg].
    - apply (Hd1 (f_timestamp f)); [rewrite <- E; by apply list_elem_of_fmap_2|left].
    - apply Hd2. rewrite <- E. by apply list_elem_of_fmap_2. }
  assert (forall g, g ∈ F1 ++ F2 -> f_timestamp g ∉ C) as HnotC.
  { intros g Hg [E|E]%HC; [by apply (Hother g Hg)|]. destruct (Hc _ E) as [_ Hn]. apply Hn. apply list_elem_of_fmap_2. by apply Hsub. }
  split; cbn; try done.
  - destruct (decide (v' = visible_through s)) as [->|]; [lia|]. specialize (Hbelow v' ltac:(lia)). apply HC in Hbelow as [->|Hx]; [lia|]. specialize (Hc _ Hx). lia.
  - intros g Hg. specialize (Hin g (Hsub g Hg)). specialize (HnotC g Hg). split; [|lia].
    destruct (decide (v' < f_timestamp g)); [done|]. exfalso. apply HnotC, Hbelow. lia.
  - rewrite fmap_app. apply NoDup_app in Hdis as (? & Hd1 & Hd2). apply NoDup_cons in Hd2 as [? ?]. apply NoDup_app. split_and!; [done| |done].
    intros x Hx Hx2. apply (Hd1 x Hx). by right.
  - intros k v g Hk Hg. apply (Hap k v g Hk). by apply Hsub.
  - intros x Hx. apply HC' in Hx as [Hx Hlt]. split.
    + split; [done|]. apply HC in Hx as [->|Hx]; [lia|]. specialize (Hc x Hx). lia.
    + intros (g & -> & Hg)%list_elem_of_fmap. by apply (HnotC g Hg).
  - intros x Hx. destruct (Hall x ltac:(lia)) as [Hx'|(g & -> & Hg)%list_elem_of_fmap].
    + left. apply HC'. split; [|lia]. apply HC. by right.
    + rewrite elem_of_app, elem_of_cons in Hg. destruct (decide (f_timestamp g = f_timestamp f)) as [E|E].
      * left. apply HC'. split; [|lia]. apply HC. by left.
      * right. apply list_elem_of_fmap_2. rewrite elem_of_app. destruct Hg as [Hg|[->|Hg]]; [by left|done|by right].
  - intros id x Hx. destruct (Ha id x Hx). lia.
Qed.

Lemma complete_fields t s :
  let s' := complete_timestamp t s in
  versions s' = versions s /\ page_refs s' = page_refs s /\ intents s' = intents s /\ active s' = active s /\
  generations s' = generations s /\ dirty_keys s' = dirty_keys s /\ next_transaction_id s' = next_transaction_id s.
Proof. unfold complete_timestamp. by destruct (advance_visible _ _ _). Qed.

Lemma TimesOk_fields s s' H F :
  TimesOk s H F -> visible_through s' = visible_through s -> next_commit_timestamp s' = next_commit_timestamp s ->
  completed_timestamps s' = completed_timestamps s -> active s' = active s -> next_transaction_id s' = next_transaction_id s ->
  TimesOk s' H F.
Proof. intros [] E1 E2 E3 E4 E5. split; rewrite ?E1, ?E2, ?E3, ?E4, ?E5; done. Qed.

(** ** Intents *)

Lemma release_intents_spec (id : TransactionId) (keys : list Key) : forall (m : gmap Key TransactionId) (k : Key),
  (m !! k <> Some id -> release_intents id keys m !! k = m !! k).
Proof.
  unfold release_intents. induction keys as [|x keys IH]; intros m k Hk; cbn [foldl]; [done|].
  case_bool_decide as Hx; [|by apply IH]. destruct (decide (k = x)) as [->|]; [done|]. rewrite IH; rewrite lookup_delete_ne by done; done.
Qed.

Lemma release_intents_sub (id : TransactionId) (keys : list Key) : forall (m : gmap Key TransactionId) (k : Key) (owner : TransactionId),
  release_intents id keys m !! k = Some owner -> m !! k = Some owner.
Proof.
  unfold release_intents. induction keys as [|x keys IH]; intros m k owner; cbn [foldl]; [done|]. intros Hk%IH.
  case_bool_decide; [|done]. by apply lookup_delete_Some in Hk as [_ ?].
Qed.

Lemma release_intents_gone (id : TransactionId) (keys : list Key) : forall (m : gmap Key TransactionId) (k : Key),
  k ∈ keys -> release_intents id keys m !! k <> Some id.
Proof.
  unfold release_intents. induction keys as [|x keys IH]; intros m k Hk; [by apply not_elem_of_nil in Hk|]. cbn [foldl].
  apply elem_of_cons in Hk as [->|Hk]; [|by apply IH]. destruct (decide (x ∈ keys)) as [Hin|Hin]; [by apply IH|].
  set (m1 := if bool_decide _ then _ else _). assert (m1 !! x <> Some id) as Hm1.
  { unfold m1. case_bool_decide; [by rewrite lookup_delete_eq|done]. }
  fold (release_intents id keys m1). by rewrite release_intents_spec.
Qed.

(** Every intent still has its commit after [f] leaves with its own. *)
Lemma intents_leave (m : gmap Key TransactionId) (F1 : list Inflight) (f : Inflight) (F2 : list Inflight) :
  (forall k id, m !! k = Some id -> exists g, g ∈ F1 ++ f :: F2 /\ f_id g = id /\ k ∈ (f_writes g).*1) ->
  forall k id, release_intents (f_id f) (f_writes f).*1 m !! k = Some id ->
  exists g, g ∈ F1 ++ F2 /\ f_id g = id /\ k ∈ (f_writes g).*1.
Proof.
  intros Hm k id Hk. destruct (Hm k id (release_intents_sub _ _ _ _ _ Hk)) as (g & Hg & Hid & Hkg).
  rewrite elem_of_app, elem_of_cons in Hg. assert (g = f \/ g ∈ F1 ++ F2) as [->|Hg'] by (rewrite elem_of_app; tauto); [|by exists g].
  exfalso. subst id. by apply release_intents_gone in Hk.
Qed.

(** The other commits do not notice that [f] leaves. *)
Lemma InflightOk_leave s s' H P F1 f F2 g :
  (forall g, g ∈ F1 ++ f :: F2 -> InflightOk s H P g) -> NoDup (f_id <$> F1 ++ f :: F2) -> g ∈ F1 ++ F2 ->
  active s' = active s -> intents s' = release_intents (f_id f) (f_writes f).*1 (intents s) ->
  InflightOk s' H P g /\ f_id g <> f_id f.
Proof.
  intros Hf Hd Hg Ea Ei. assert (f_id g <> f_id f) as Hne.
  { intros E. rewrite fmap_app, fmap_cons in Hd. apply NoDup_app in Hd as (_ & Hd1 & Hd2). apply NoDup_cons in Hd2 as [Hd2 _].
    apply elem_of_app in Hg as [Hg|Hg].
    - apply (Hd1 (f_id f)); [rewrite <- E; by apply list_elem_of_fmap_2|left].
    - apply Hd2. rewrite <- E. by apply list_elem_of_fmap_2. }
  assert (g ∈ F1 ++ f :: F2) as Hg' by (rewrite elem_of_app, elem_of_cons; apply elem_of_app in Hg; tauto).
  split; [|done]. eapply InflightOk_state; [by apply Hf|by rewrite Ea|]. intros k Hk. rewrite Ei. apply release_intents_spec.
  rewrite (io_intents _ _ _ _ (Hf g Hg') k Hk). by intros [= ?].
Qed.

Lemma NoDup_leave {A C} (f : A -> C) l1 x l2 : NoDup (f <$> l1 ++ x :: l2) -> NoDup (f <$> l1 ++ l2).
Proof.
  rewrite !fmap_app, fmap_cons, !NoDup_app, NoDup_cons. intros (? & Hd & ? & ?). split_and!; [done| |done].
  intros y Hy Hy2. apply (Hd y Hy). by right.
Qed.

Lemma finish_prepared_run id t writes page_ids s :
  finish_prepared id t writes page_ids s =
  let s1 := mkState (versions s) (page_refs s) (release_intents id writes.*1 (intents s)) (active s)
                    (completed_timestamps s) (next_transaction_id s) (next_commit_timestamp s) (visible_through s)
                    (generations s) (dirty_keys s) (reclaimed_versions s) in
  let '(r, s2) := match page_ids with
                  | Some page_ids => for_each (imap (fun i x => (i, x)) (zip writes page_ids)) (install_version t) s1
                  | None => (Ok tt, s1)
                  end in
  match r with Ok _ => (Ok tt, complete_timestamp t s2) | Err e => (Err e, s2) end.
Proof.
  unfold finish_prepared. st_run. destruct page_ids as [ps|]; [|done]. unfold mbind, ST_bind.
  by destruct (for_each _ _ _) as [[[]|e] s2].
Qed.

(** An aborted commit only frees its keys and its timestamp. *)
Lemma abort_ok i H F1 f F2 J h P s' :
  Invariants (mkSys i H (F1 ++ f :: F2) J) h P -> f_pages f = None ->
  finish_prepared (f_id f) (f_timestamp f) (f_writes f) None (i_state i) = (Ok tt, s') ->
  Invariants (mkSys (set_state s' i) H (F1 ++ F2) J) h P /\ visible_through (i_state i) <= visible_through s'.
Proof.
  intros [Hv Hs Ht Hd Hf Hr Hint Hpc] Hnone. cbn [inner history inflight jobs] in *. rewrite finish_prepared_run. cbv zeta.
  intros [= <-]. match goal with |- context [complete_timestamp _ ?s] => set (s1 := s) end.
  assert (TimesOk s1 H (F1 ++ f :: F2)) as Ht1 by (by eapply TimesOk_fields).
  destruct (complete_times _ _ _ _ _ _ Ht1 eq_refl) as [Hvis Ht2]. cbn zeta in *.
  destruct (complete_fields (f_timestamp f) s1) as (E1 & E2 & E3 & E4 & E5 & E6 & E7). cbn zeta in *.
  pose proof (oldest_le_visible _ (fun id t Hid => proj2 (to_active _ _ _ Ht id t Hid))) as Hov. cbn [visible_through s1] in Hvis.
  split; [|done]. split; cbn [inner history inflight jobs i_state set_state].
  - eapply VersionsOk_state; [done|by rewrite ?E1, ?E2, ?E5, ?E6..|]. apply oldest_mono; [lia|]. rewrite E4. intros. by eapply oldest_le_active.
  - apply PagesOk_state. destruct Hs as [? ? ? Hrec ? ?]. split; try done. intros p rs r Hp Hrr.
    destruct (Hrec p rs r Hp Hrr) as [?|(g & Hg & ?)]; [by left|right]. exists g. split; [|done].
    rewrite elem_of_app, elem_of_cons in Hg. apply elem_of_app. destruct Hg as [?|[->|?]]; [by left|tauto|by right].
  - done.
  - by eapply NoDup_leave.
  - intros g Hg. by apply (InflightOk_leave (i_state i) _ H P F1 f F2 g).
  - apply RingOk_state; [done|done|lia].
  - rewrite E3. by eapply intents_leave.
  - eapply PlaceOk_sub; [exact Hpc| |done]. intros g Hg. left. rewrite elem_of_app, elem_of_cons. apply elem_of_app in Hg. tauto.
Qed.
End Frames.
