(* ===== verification/MvccFinish.v ===== *)
(** * Finishing a commit keeps the invariant

    The versions of a commit enter the map and the history together, above
    every timestamp that a snapshot or an index generation can have. *)
From S2P Require Import Prelude Page Order Node Record Store ByteLru Tree Backend Mvcc MvccSweep MvccSystem MvccCommit.
Local Open Scope Z_scope.

(** ** Histories that grow above a timestamp *)

(** [H'] has the versions of [H] and those that [l] writes at [t]. *)
Definition extends (t : Timestamp) (l : list (write * PageId)) (H H' : History) : Prop :=
  forall k v, v ∈ at_key H' k <-> v ∈ at_key H k \/ exists value p, ((k, value), p) ∈ l /\ v = mkVersion t value p.

Lemma version_at_extends t l H H' k s :
  extends t l H H' -> ascending (at_key H k) -> ascending (at_key H' k) -> s < t ->
  version_at (at_key H' k) s = version_at (at_key H k) s.
Proof.
  intros Hg Ha Ha' Hlt. symmetry. apply version_at_filter; [done|done| |].
  - intros v (Hin & Hle & _). apply Hg in Hin as [?|(value & p & _ & ->)]; [done|]. cbn in Hle. lia.
  - intros v Hv. apply Hg. by left.
Qed.

Lemma reflects_extends t l H H' m s :
  extends t l H H' -> (forall k, ascending (at_key H k)) -> (forall k, ascending (at_key H' k)) -> s < t ->
  reflects H m s -> reflects H' m s.
Proof. intros Hg Ha Ha' Hlt Hr k. by rewrite (Hr k), (version_at_extends t l H H' k s). Qed.

Lemma at_key_record t H k value p k' :
  at_key (record_version t H ((k, value), p)) k' =
  if decide (k' = k) then vec_insert (at_key H k) (insert_position (at_key H k) t) (mkVersion t value p) else at_key H k'.
Proof.
  unfold record_version. unfold at_key at 1. case_decide as E.
  - subst. by rewrite lookup_insert_eq.
  - by rewrite lookup_insert_ne.
Qed.

Lemma extends_one t H k value p : extends t [((k, value), p)] H (record_version t H ((k, value), p)).
Proof.
  intros k' v. rewrite at_key_record. case_decide as E.
  - subst k'. rewrite elem_of_vec_insert. split.
    + intros [->|?]; [right|by left]. exists value, p. split; [by left|done].
    + intros [?|(value' & p' & [= -> ->]%list_elem_of_singleton & ->)]; [by right|by left].
  - split; [by left|]. intros [?|(value' & p' & [= -> _ _]%list_elem_of_singleton & _)]; done.
Qed.

Lemma extends_trans t l1 l2 H1 H2 H3 : extends t l1 H1 H2 -> extends t l2 H2 H3 -> extends t (l1 ++ l2) H1 H3.
Proof.
  intros G1 G2 k v. rewrite (G2 k v), (G1 k v). setoid_rewrite elem_of_app. split.
  - intros [[?|(value & p & ? & ?)]|(value & p & ? & ?)]; [by left|right; exists value, p; tauto..].
  - intros [?|(value & p & [?|?] & ?)]; [by left; left|left; right; by exists value, p|right; by exists value, p].
Qed.

(** ** Installing the versions *)

(** What an installation leaves alone. *)
Definition same_frame (s s' : State) : Prop :=
  intents s' = intents s /\ active s' = active s /\ completed_timestamps s' = completed_timestamps s /\
  next_transaction_id s' = next_transaction_id s /\ next_commit_timestamp s' = next_commit_timestamp s /\
  visible_through s' = visible_through s /\ generations s' = generations s.

Definition homes_of (t : Timestamp) (l : list (write * PageId)) (h h' : Home) : Prop :=
  forall k t' p, h' !! (k, t') = Some p <-> h !! (k, t') = Some p \/ t' = t /\ exists value, ((k, value), p) ∈ l.

Lemma oldest_same s s' : active s = active s' -> visible_through s = visible_through s' -> oldest_active_snapshot s = oldest_active_snapshot s'.
Proof. unfold oldest_active_snapshot. by intros -> ->. Qed.

Lemma complete_next t s : next_commit_timestamp (complete_timestamp t s) = next_commit_timestamp s.
Proof. unfold complete_timestamp. by destruct (advance_visible _ _ _). Qed.

Section Finish.
Context {B : Type} {BB : Backend B} {BL : BackendLaws B}.

Lemma install_version_ok t j k value p s H h :
  VersionsOk s H h -> (forall v, v ∈ at_key H k -> v_timestamp v < t) -> h !! (k, t) = None ->
  exists s', install_version t (j, ((k, value), p)) s = (Ok tt, s') /\
    VersionsOk s' (record_version t H ((k, value), p)) (<[(k, t) := p]> h) /\ same_frame s s'.
Proof.
  intros Hv Hlt Hfresh. unfold install_version. st_run. pose proof (extends_one t H k value p) as Hg.
  assert (forall w, w ∈ at_key (versions s) k -> v_timestamp w <> t) as Hne.
  { intros w Hw. apply (vo_sub _ _ _ Hv) in Hw as [Hw _]. specialize (Hlt w Hw). lia. }
  fold (at_key (versions s) k). rewrite insert_position_fresh by done. eexists. split; [reflexivity|]. split; [|by repeat split].
  set (s' := mkState _ _ _ _ _ _ _ _ _ _ _).
  assert (forall k', at_key (versions s') k' = at_key (record_version t (versions s) ((k, value), p)) k') as Hat by done.
  pose proof (extends_one t (versions s) k value p) as Hg'. destruct Hv as [Vh Va Vs Vk Vr Vd].
  assert (forall (M : History), (forall k, ascending (at_key M k)) -> (forall w, w ∈ at_key M k -> v_timestamp w <> t) ->
    forall k', ascending (at_key (record_version t M ((k, value), p)) k')) as Hasc.
  { intros M HM HMne k'. rewrite at_key_record. case_decide; [|done]. by apply (ascending_insert _ (mkVersion t value p)). }
  split.
  - apply Hasc; [done|]. intros w Hw. specialize (Hlt w Hw). lia.
  - intros k'. rewrite Hat. by apply Hasc.
  - intros k' v. rewrite Hat, (Hg' k' v), (Hg k' v). intros [Hin|(value' & p' & Hin & ->)].
    + destruct (Vs k' v Hin) as [HvH Hh]. split; [by left|]. rewrite lookup_insert_ne; [done|]. intros [= -> E]. by apply (Hne v Hin).
    + split; [right; by exists value', p'|]. apply list_elem_of_singleton in Hin as [= -> -> ->]. cbn. apply lookup_insert_eq.
  - intros k' v. rewrite Hat, (Hg k' v), (Hg' k' v). intros [Hin|Hin]; [|left; by right].
    destruct (Vk k' v Hin) as [?|[(Hh & Hgen & Hall)|(w & Hw & ?)]]; [left; by left|right; left|right; right].
    + split; [|split; [done|]].
      * rewrite lookup_insert_ne; [done|]. intros [= -> E]. specialize (Hlt v Hin). lia.
      * intros w. rewrite Hat, (Hg' k' w). intros [?|(value' & p' & [= -> -> ->]%list_elem_of_singleton & ->)]; [by apply Hall|]. cbn. by apply Hlt.
    + exists w. split; [|done]. apply Hg. by left.
  - intros q. cbn. rewrite count_insert by done. destruct (decide (p = q)) as [->|Hpq].
    + rewrite lookup_insert_eq, Z.eqb_refl, (Vr q). pose proof (count_nonneg h q). destruct (Z.eqb_spec (count h q) 0) as [E|E].
      * rewrite E. done.
      * destruct (Z.eqb_spec (count h q + 1) 0); [lia|done].
    + rewrite lookup_insert_ne, (proj2 (Z.eqb_neq p q)), Z.add_0_r by done. apply Vr.
  - intros k' v. rewrite (Hg k' v). cbn. intros [Hin|(value' & p' & [= -> -> ->]%list_elem_of_singleton & ->)]; [|left; set_solver].
    destruct (Vd k' v Hin) as [?|?]; [left; set_solver|by right].
Qed.

Lemma install_all_ok t l : forall j s H h,
  VersionsOk s H h -> NoDup l.*1.*1 -> (forall k v, k ∈ l.*1.*1 -> v ∈ at_key H k -> v_timestamp v < t) ->
  (forall k, k ∈ l.*1.*1 -> h !! (k, t) = None) ->
  exists s' h', for_each (imap (fun i x => ((j + i)%nat, x)) l) (install_version t) s = (Ok tt, s') /\
    VersionsOk s' (foldl (record_version t) H l) h' /\ same_frame s s' /\ extends t l H (foldl (record_version t) H l) /\ homes_of t l h h'.
Proof.
  induction l as [|[[k value] p] l IH]; intros j s H h Hv Hnd Hlt Hfresh.
  - exists s, h. cbn. split; [done|]. split; [done|]. split; [by repeat split|]. split.
    + intros k v. split; [by left|]. intros [?|(? & ? & []%not_elem_of_nil & _)]; done.
    + intros k t' p. split; [by left|]. intros [?|[_ [? []%not_elem_of_nil]]]; done.
  - cbn [fmap list_fmap fst snd] in Hnd, Hlt, Hfresh. apply NoDup_cons in Hnd as [Hk Hnd].
    destruct (install_version_ok t (j + 0) k value p s H h Hv) as (s1 & Hrun & Hv1 & Hs1).
    { intros v Hin. apply (Hlt k); [by left|done]. } { apply Hfresh. by left. }
    pose proof (extends_one t H k value p) as Hg1.
    destruct (IH (S j) s1 _ _ Hv1 Hnd) as (s2 & h2 & Hrun2 & Hv2 & Hs2 & Hg2 & Hh2).
    { intros k' v Hk' Hin. apply Hg1 in Hin as [Hin|(value' & p' & [= -> _ _]%list_elem_of_singleton & _)]; [|done].
      apply (Hlt k'); [by right|done]. }
    { intros k' Hk'. rewrite lookup_insert_ne; [apply Hfresh; by right|]. by intros [= ->]. }
    exists s2, h2. split_and!.
    + cbn [imap for_each]. rewrite (ST_bind_step _ _ _ _ _ Hrun). rewrite <- Hrun2. f_equal. apply imap_ext. intros i x _. cbn. f_equal. lia.
    + done.
    + destruct Hs1 as (?&?&?&?&?&?&?), Hs2 as (?&?&?&?&?&?&?). repeat split; congruence.
    + apply (extends_trans t [((k, value), p)] l _ _ _ Hg1 Hg2).
    + intros k' t' p'. rewrite (Hh2 k' t' p'). setoid_rewrite elem_of_cons. split.
      * intros [Hh|[-> [value' ?]]]; [|right; split; [done|]; exists value'; by right].
        apply lookup_insert_Some in Hh as [[[= <- <-] <-]|[_ ?]]; [right; split; [done|]; exists value; by left|by left].
      * intros [Hh|[-> [value' [[= -> -> ->]|?]]]]; [left|left; apply lookup_insert_eq|right; split; [done|]; by exists value'].
        rewrite lookup_insert_ne; [done|]. intros [= <- <-]. rewrite (Hfresh k) in Hh by (by left). done.
Qed.

Lemma serves_extends t l H H' (b : B) g s :
  extends t l H H' -> (forall k, ascending (at_key H k)) -> (forall k, ascending (at_key H' k)) -> s < t ->
  serves b H g /\ g_timestamp g <= s -> serves b H' g /\ g_timestamp g <= s.
Proof.
  intros Hg Ha Ha' Hlt [(m & Hm & Hr) Hle]. split; [|done]. exists m. split; [done|]. eapply reflects_extends; [done..| |done]. lia.
Qed.

Lemma RingOk_extends t l (i : @Inner B) H H' J P :
  extends t l H H' -> (forall k, ascending (at_key H k)) -> (forall k, ascending (at_key H' k)) -> visible_through (i_state i) < t ->
  RingOk i H J P -> RingOk i H' J P.
Proof.
  intros Hg Ha Ha' Hlt [Hr Hi Hc Hb Hd Ho]. split; try done.
  - intros g Hin. eapply serves_extends; [done..|]. by apply Hi.
  - intros c Hin. destruct (Hc c Hin) as [Hok Hle]. split; [|done]. unfold capture_ok in *. destruct (cp_base c).
    + destruct Hok as (m & ? & ? & ?). exists m. split_and!; [done| |done]. eapply reflects_extends; [done..| |done]. lia.
    + destruct Hok as (m & ? & ? & ?). exists m. split_and!; [done| |done]. eapply reflects_extends; [done..| |done]. lia.
  - intros g Hin. eapply serves_extends; [done..|]. by apply Hb.
Qed.

Lemma TimesOk_extends t l s H H' F :
  extends t l H H' -> 1 <= t < next_commit_timestamp s -> t ∉ f_timestamp <$> F -> TimesOk s H F -> TimesOk s H' F.
Proof.
  intros Hg Ht Hnin [Hrange Hhist Hin Hdis Hap Hc Hall Hnx Ha]. split; try done.
  - intros k v [?|(value & p & _ & ->)]%Hg; [by eapply Hhist|done].
  - intros k v f [?|(value & p & _ & ->)]%Hg Hf; [by eapply Hap|]. cbn. intros ->. apply Hnin. by apply list_elem_of_fmap_2.
Qed.

(** The pages already hold what the map learns now. *)
Lemma PagesOk_extends (i : @Inner B) H H' F1 f F2 h h' P ps l :
  extends (f_timestamp f) l H H' -> homes_of (f_timestamp f) l h h' -> l = zip (f_writes f) ps -> length ps = length (f_writes f) ->
  (forall j w p, f_writes f !! j = Some w -> ps !! j = Some p ->
     exists rs, P !! p = Some rs /\ mkVersionRecord (f_timestamp f) w.1 w.2 ∈ rs) ->
  PagesOk i H (F1 ++ f :: F2) h P -> PagesOk i H' (F1 ++ F2) h' P.
Proof.
  intros Hg Hh -> Hlen Hpages [Ho Hhome Hdata Hrec Hopen Hcache]. split; try done.
  - intros k t p [Hold|[-> [value Hin]]]%Hh.
    + destruct (Hhome k t p Hold) as (v & rs & Hv & ?). exists v, rs. split; [apply Hg; by left|done].
    + apply list_elem_of_lookup in Hin as [j Hj]. apply lookup_zip_Some in Hj as [Hw Hp]. destruct (Hpages j _ _ Hw Hp) as (rs & HP & Hr).
      exists (mkVersion (f_timestamp f) value p), rs. split_and!; try done. apply Hg. right. exists value, p. split; [|done].
      apply list_elem_of_lookup. exists j. by apply lookup_zip_Some.
  - intros p rs r Hp Hr. destruct (Hrec p rs r Hp Hr) as [(v & Hv & ?)|(g & Hgin & Hts & Hw & Hnone)].
    + left. exists v. split; [apply Hg; by left|done].
    + rewrite elem_of_app, elem_of_cons in Hgin. assert (g = f \/ g ∈ F1 ++ F2) as [->|Hgin'] by (rewrite elem_of_app; tauto).
      * left. apply list_elem_of_lookup in Hw as [j Hj]. destruct (lookup_lt_is_Some_2 ps j) as [q Hq]; [rewrite Hlen; by eapply lookup_lt_Some|].
        exists (mkVersion (f_timestamp f) (vr_value r) q). split; [|done]. apply Hg. right. exists (vr_value r), q. split; [|done].
        apply list_elem_of_lookup. exists j. by apply lookup_zip_Some.
      * right. by exists g.
Qed.

(** What is placed stays placed when a commit joins the history. *)
Lemma PlaceOk_extends (open : option OpenPage) (H H' : History) (F1 : list Inflight) (f : Inflight) (F2 : list Inflight) (h h' : Home) (ps : list PageId)
  (l : list (write * PageId)) :
  extends (f_timestamp f) l H H' -> homes_of (f_timestamp f) l h h' -> l = zip (f_writes f) ps -> f_pages f = Some ps ->
  (forall k v, k ∈ (f_writes f).*1 -> v ∈ at_key H k -> v_timestamp v < f_timestamp f) ->
  (forall g, g ∈ F1 ++ F2 -> f_snapshot g < f_timestamp f) ->
  (forall g k, g ∈ F1 ++ F2 -> k ∈ (f_writes g).*1 -> k ∈ (f_writes f).*1 -> False) ->
  PlaceOk open H (F1 ++ f :: F2) h -> PlaceOk open H' (F1 ++ F2) h'.
Proof.
  intros Hg Hh -> Hps Hlt Hsnap Hdis [Ho Hn Hi]. set (l := zip (f_writes f) ps) in *.
  assert (forall k value p, ((k, value), p) ∈ l -> exists j, f_writes f !! j = Some (k, value) /\ ps !! j = Some p) as Hl.
  { intros k value p Hin. apply list_elem_of_lookup in Hin as [j Hj]. apply lookup_zip_Some in Hj. by exists j. }
  assert (forall k value p, ((k, value), p) ∈ l -> k ∈ (f_writes f).*1) as Hkey.
  { intros k value p (j & Hj & _)%Hl. apply (list_elem_of_fmap_2 fst _ (k, value)). by eapply list_elem_of_lookup_2. }
  assert (forall k value p w, ((k, value), p) ∈ l -> w ∈ at_key H' k -> v_timestamp w <= f_timestamp f) as Hlast.
  { intros k value p w Hin [Hw|(? & ? & _ & ->)]%Hg; [|done]. specialize (Hlt k w (Hkey _ _ _ Hin) Hw). lia. }
  assert (forall g, g ∈ F1 ++ F2 -> g ∈ F1 ++ f :: F2) as Hsub by (intros g; rewrite !elem_of_app, elem_of_cons; tauto).
  assert (f ∈ F1 ++ f :: F2) as Hff by (apply elem_of_app; right; left). split.
  - intros o k t w Eo [Hk|[-> [value Hin]]]%Hh Hw Htw; [|pose proof (Hlast _ _ _ w Hin Hw); lia].
    apply Hg in Hw as [Hw|(value & p & Hin & ->)]; [by apply (Ho o k t w)|]. cbn. destruct (Hl _ _ _ Hin) as (j & Hj & Hp).
    by apply (Hn o k t f ps j value p).
  - intros o k t g qs j value p Eo [Hk|[-> [v Hin]]]%Hh Hgin Hqs Hj Hp; [by apply (Hn o k t g qs j value p); auto|]. exfalso.
    apply (Hdis g k Hgin); [|by eapply Hkey]. apply (list_elem_of_fmap_2 fst _ (k, value)). by eapply list_elem_of_lookup_2.
  - intros g qs p k t w Hgin Hqs Hp [Hk|[-> [value Hin]]]%Hh Hw Htw; [|pose proof (Hlast _ _ _ w Hin Hw); lia].
    apply Hg in Hw as [Hw|(value & q & Hin & ->)]; [by apply (Hi g qs p k t w); auto|]. cbn in Htw. specialize (Hsnap g Hgin). lia.
Qed.

(** Finishing never meets a duplicate, and makes the commit part of history. *)
Lemma finish_commit_ok i H F1 f F2 J h P ps :
  Invariants (mkSys i H (F1 ++ f :: F2) J) h P -> f_pages f = Some ps ->
  exists s' h', finish_prepared (f_id f) (f_timestamp f) (f_writes f) (Some ps) (i_state i) = (Ok tt, s') /\
    Invariants (mkSys (set_state s' i) (record_commit (f_timestamp f) (f_writes f) ps H) (F1 ++ F2) J) h' P /\
    visible_through (i_state i) <= visible_through s' /\
    extends (f_timestamp f) (zip (f_writes f) ps) H (record_commit (f_timestamp f) (f_writes f) ps H) /\
    active s' = active (i_state i) /\ next_commit_timestamp s' = next_commit_timestamp (i_state i).
Proof.
  intros [Hv Hs Ht Hd Hf Hr Hint Hpc] Hps. cbn [inner history inflight jobs] in *. rewrite finish_prepared_run. cbv zeta.
  match goal with |- context [for_each _ _ ?s] => set (s1 := s) end.
  assert (f ∈ F1 ++ f :: F2) as Hff by (apply elem_of_app; right; left). pose proof (Hf f Hff) as Hok.
  pose proof (to_inflight _ _ _ Ht f Hff) as Hft. pose proof (to_active _ _ _ Ht _ _ (io_active _ _ _ _ Hok)) as [_ Hsnap].
  destruct (io_pages _ _ _ _ Hok ps Hps) as [Hlen Hpages]. set (l := zip (f_writes f) ps).
  assert (l.*1 = f_writes f) as Hl by (apply fst_zip; lia).
  assert (VersionsOk s1 H h) as Hv1 by (by eapply VersionsOk_state).
  destruct (install_all_ok (f_timestamp f) l 0 s1 H h Hv1) as (s2 & h2 & Hrun & Hv2 & Hfr & Hg & Hh).
  { rewrite Hl. by apply (io_keys _ _ _ _ Hok). }
  { rewrite Hl. intros k v Hk Hin. pose proof (io_latest _ _ _ _ Hok k v Hk Hin). lia. }
  { intros k _. apply eq_None_not_Some. intros [p Hp]. apply (po_home _ _ _ _ _ Hs) in Hp as (v & rs & Hin & Hts & _).
    by apply (to_apart _ _ _ Ht k v f Hin Hff). }
  change (imap (fun i x => ((0 + i)%nat, x)) l) with (imap (fun i x => (i, x)) l) in Hrun. rewrite Hrun.
  change (foldl (record_version (f_timestamp f)) H l) with (record_commit (f_timestamp f) (f_writes f) ps H) in *.
  set (H' := record_commit _ _ _ _) in *. destruct Hfr as (E1 & E2 & E3 & E4 & E5 & E6 & E7).
  assert (TimesOk s2 H (F1 ++ f :: F2)) as Ht1 by (eapply TimesOk_fields; [exact Ht|done..]).
  destruct (complete_times _ _ _ _ _ _ Ht1 eq_refl) as [Hvis Ht2]. cbn zeta in *.
  destruct (complete_fields (f_timestamp f) s2) as (D1 & D2 & D3 & D4 & D5 & D6 & D7). cbn zeta in *.
  set (s3 := complete_timestamp (f_timestamp f) s2) in *. rewrite E6 in Hvis. cbn [visible_through s1] in Hvis.
  pose proof (oldest_le_visible _ (fun id t Hid => proj2 (to_active _ _ _ Ht id t Hid))) as Hov.
  pose proof (vo_history _ _ _ Hv) as Ha. pose proof (vo_history _ _ _ Hv2) as Ha'.
  exists s3, h2. split; [done|]. split; [|split_and!; [done|done|by rewrite D4, E2|unfold s3; by rewrite complete_next, E5]]. split; cbn [inner history inflight jobs i_state set_state].
  - eapply VersionsOk_state; [exact Hv2|done..|]. apply oldest_mono.
    + rewrite (oldest_same s2 (i_state i)) by done. lia.
    + rewrite D4. intros. by eapply oldest_le_active.
  - apply PagesOk_state. by eapply (PagesOk_extends i H H' F1 f F2 h h2 P ps l).
  - eapply TimesOk_extends; [exact Hg| | |exact Ht2].
    + unfold s3. rewrite complete_next, E5. cbn. pose proof (to_range _ _ _ Ht). lia.
    + pose proof (to_distinct _ _ _ Ht) as Hdis. rewrite fmap_app, fmap_cons in Hdis. apply NoDup_app in Hdis as (_ & Hd1 & Hd2).
      apply NoDup_cons in Hd2 as [Hd2 _]. rewrite fmap_app, elem_of_app. intros [Hx|Hx]; [apply (Hd1 _ Hx); left|done].
  - by eapply NoDup_leave.
  - intros g Hgin. destruct (InflightOk_leave (i_state i) s3 H P F1 f F2 g Hf Hd Hgin) as [[Ia Ik Iz Ii Il Ip] Hne]; [by rewrite D4, E2|by rewrite D3, E1|].
    split; try done. intros k v Hk [Hin|(value & p & Hin & ->)]%Hg; [by apply (Il k)|]. exfalso.
    assert (k ∈ (f_writes f).*1) as Hkf by (rewrite <- Hl; by apply (list_elem_of_fmap_2 fst), (list_elem_of_fmap_2 fst) in Hin).
    pose proof (Ii k Hk) as Hi1. rewrite D3, E1 in Hi1. cbn in Hi1. destruct (decide (intents (i_state i) !! k = Some (f_id g))) as [Hi2|Hi2].
    + rewrite (io_intents _ _ _ _ Hok k Hkf) in Hi2. congruence.
    + rewrite (io_intents _ _ _ _ Hok k Hkf) in Hi2. pose proof (io_intents _ _ _ _ (Hf g ltac:(rewrite elem_of_app, elem_of_cons; apply elem_of_app in Hgin; tauto)) k Hk) as Hi3.
      rewrite (io_intents _ _ _ _ Hok k Hkf) in Hi3. congruence.
  - apply RingOk_state; [|by rewrite D5, E7|done]. eapply (RingOk_extends (f_timestamp f) l i H H'); [done..|lia|done].
  - rewrite D3, E1. by eapply intents_leave.
  - apply (PlaceOk_extends (i_open_page i) H H' F1 f F2 h h2 ps l); try done.
    + intros k v Hk Hin. pose proof (io_latest _ _ _ _ Hok k v Hk Hin). lia.
    + intros g Hq. pose proof (to_active _ _ _ Ht _ _ (io_active _ _ _ _ (Hf g ltac:(rewrite elem_of_app, elem_of_cons; apply elem_of_app in Hq; tauto)))). lia.
    + intros g k Hq Hkg Hkf. assert (g ∈ F1 ++ f :: F2) as Hq' by (rewrite elem_of_app, elem_of_cons; apply elem_of_app in Hq; tauto).
      pose proof (io_intents _ _ _ _ (Hf g Hq') k Hkg) as Hi1. rewrite (io_intents _ _ _ _ Hok k Hkf) in Hi1.
      destruct (InflightOk_leave (i_state i) s3 H P F1 f F2 g Hf Hd Hq) as [_ Hne]; [by rewrite D4, E2|by rewrite D3, E1|]. congruence.
Qed.
End Finish.
