(* ===== verification/MvccPersist.v ===== *)
(** * Persisting a commit keeps the invariant

    A commit's records go to the open page one after another; the appends are
    handed to storage together.  [Placing] is what holds between two records:
    the pages as they will be once the pending appends are applied. *)
From S2P Require Import Prelude Page Order Node Record Store ByteLru Tree Backend Mvcc MvccSweep MvccSystem MvccCommit.
Local Open Scope Z_scope.

(** ** Bytes *)

Lemma splice_append bytes x : splice bytes (blen bytes) x = bytes ++ x.
Proof.
  unfold splice. destruct (Z.ltb_spec (blen bytes) (blen bytes + blen x)).
  - rewrite put_app_zeros by lia. replace (blen bytes + blen x - blen bytes - blen x) with 0 by lia. apply app_nil_r.
  - assert (x = []) as -> by (destruct x; cbn in *; [done|lia]). unfold put. rewrite Nat2Z.id, firstn_all. cbn. by rewrite Nat.add_0_r, skipn_all.
Qed.

Lemma appended_snoc appends a p bytes :
  appended (appends ++ [a]) p bytes =
  if a_page_id a =? p then splice (appended appends p bytes) (a_offset a) (a_payload a) else appended appends p bytes.
Proof. unfold appended. by rewrite foldl_app. Qed.

Lemma appended_other appends p bytes : (forall a, a ∈ appends -> a_page_id a <> p) -> appended appends p bytes = bytes.
Proof.
  unfold appended. revert bytes. induction appends as [|a l IH]; intros bytes Hne; cbn [foldl]; [done|].
  rewrite (proj2 (Z.eqb_neq (a_page_id a) p)) by (apply Hne; left). apply IH. intros b Hb. apply Hne. by right.
Qed.

Lemma records_bytes_snoc rs r : records_bytes (rs ++ [r]) = records_bytes rs ++ record_bytes r.
Proof. unfold records_bytes. rewrite fmap_app, concat_app. cbn. by rewrite app_nil_r. Qed.

Lemma records_data rs : Forall record_ok rs -> data_payload (records_bytes rs).
Proof.
  intros Hrs. unfold data_payload. destruct rs as [|r rs]; [by vm_compute|]. apply Forall_cons in Hrs as [Hr _].
  change (records_bytes (r :: rs)) with (record_bytes r ++ records_bytes rs).
  destruct (record_bytes_parts r (records_bytes rs) Hr) as [Hh _]. rewrite Hh by lia.
  destruct (version_header_fields r Hr) as [-> _]. by vm_compute.
Qed.

Lemma validate_size_inv k v : validate_size k v = Ok tt -> RECORD_HEADER_SIZE + blen k + value_length v <= MAX_PAGE_PAYLOAD.
Proof.
  unfold validate_size. destruct (checked_add U64_MAX RECORD_HEADER_SIZE (blen k)) as [l|] eqn:E1; [|done].
  cbn [mbind option_bind]. destruct (checked_add U64_MAX l (value_length v)) as [n|] eqn:E2; [|done].
  apply checked_add_Some in E1 as [-> _]. apply checked_add_Some in E2 as [-> _]. cbn [ok_or mbind result_bind].
  destruct (Z.ltb_spec MAX_PAGE_PAYLOAD (RECORD_HEADER_SIZE + blen k + value_length v)); [done|]. intros _. lia.
Qed.

(** ** Between two records *)

Section Persist.
Context {B : Type} {BB : Backend B} {BL : BackendLaws B}.

Record Placing (i0 : @Inner B) (P0 : Pages) (t : Timestamp) (n : Z) (written : list write) (ids : list PageId) (A : list PageAppend)
  (i : @Inner B) (P : Pages) : Prop := {
  pl_ok : bk_ok (i_storage i);
  pl_state : i_state i = i_state i0;
  pl_cache : i_record_cache i = i_record_cache i0;
  pl_index : forall r m, bk_index (i_storage i0) r m -> bk_index (i_storage i) r m;
  pl_old : forall p bytes, bk_data (i_storage i0) p bytes -> bk_data (i_storage i) p bytes;
  pl_data : forall p rs, P !! p = Some rs ->
    (exists bytes, bk_data (i_storage i) p bytes /\ appended A p bytes = records_bytes rs) /\
    Forall record_ok rs /\ blen (records_bytes rs) <= MAX_PAGE_PAYLOAD;
  pl_appends : forall a, a ∈ A -> append_fits a /\ is_Some (P !! a_page_id a);
  pl_open : forall o, i_open_page i = Some o -> exists rs, P !! op_page_id o = Some rs /\ op_offset o = blen (records_bytes rs);
  pl_grown : forall p rs, P0 !! p = Some rs -> exists extra, P !! p = Some (rs ++ extra);
  pl_fresh : forall p, is_Some (P !! p) -> P0 !! p = None -> forall bytes, ~ bk_data (i_storage i0) p bytes;
  pl_untouched : forall p rs, P0 !! p = Some rs -> p ∉ ids -> P !! p = Some rs;
  pl_records : forall p rs r, P !! p = Some rs -> r ∈ rs ->
    (exists rs0, P0 !! p = Some rs0 /\ r ∈ rs0) \/ (exists w, w ∈ written /\ r = mkVersionRecord t w.1 w.2);
  pl_placed : length ids = length written /\
    forall j w p, written !! j = Some w -> ids !! j = Some p -> exists rs, P !! p = Some rs /\ mkVersionRecord t w.1 w.2 ∈ rs;
  pl_where : forall p, p ∈ ids -> (exists o, i_open_page i0 = Some o /\ p = op_page_id o) \/ P0 !! p = None;
  pl_now : forall o', i_open_page i = Some o' ->
    P0 !! op_page_id o' = None \/ exists o, i_open_page i0 = Some o /\ op_page_id o' = op_page_id o /\ forall p, p ∈ ids -> p = op_page_id o;
  pl_budget : n <= bk_pages (i_storage i) /\ 3 * n + blen A <= bk_log (i_storage i);
}.

(** A record goes to the end of the open page. *)
Lemma place_on_open i0 P0 t n written ids A i P o rs r w :
  Placing i0 P0 t n written ids A i P -> i_open_page i = Some o -> P !! op_page_id o = Some rs ->
  r = mkVersionRecord t w.1 w.2 -> record_ok r -> op_offset o + blen (record_bytes r) <= MAX_PAGE_PAYLOAD ->
  forall n', n' <= n -> 3 * n' + blen A + 1 <= bk_log (i_storage i) ->
  Placing i0 P0 t n' (written ++ [w]) (ids ++ [op_page_id o])
    (A ++ [mkPageAppend (op_page_id o) (op_offset o) (record_bytes r) false])
    (set_open_page (Some (mkOpenPage (op_page_id o) (op_offset o + blen (record_bytes r)))) i)
    (<[op_page_id o := rs ++ [r]]> P).
Proof.
  intros [Xok Xst Xca Xix Xol Xda Xap Xop Xgr Xfr Xun Xre [Xlen Xpl] Xwh Xno Xbu] Ho Hrs Hr Hok Hfit n' Hn Hlog.
  destruct (Xop o Ho) as (rs' & Hrs' & Hoff). assert (rs' = rs) as -> by congruence. set (q := op_page_id o) in *.
  destruct (Xda q rs Hrs) as ((bytes & Hd & Hbytes) & Hall & Hmax).
  assert (forall p x y, P !! p = Some x -> y ∈ x -> exists x', <[q := rs ++ [r]]> P !! p = Some x' /\ y ∈ x') as Hext.
  { intros p x y Hp Hy. destruct (decide (p = q)) as [->|Hne].
    - rewrite lookup_insert_eq. assert (x = rs) as -> by congruence. eexists. split; [done|]. apply elem_of_app. by left.
    - rewrite lookup_insert_ne by done. by exists x. }
  split; cbn [i_storage i_state i_record_cache i_open_page set_open_page]; try done.
  - intros p x. rewrite lookup_insert_Some. intros [[<- <-]|[Hne Hp]].
    + rewrite records_bytes_snoc. split_and!.
      * exists bytes. split; [done|]. rewrite appended_snoc. cbn. by rewrite Z.eqb_refl, Hbytes, Hoff, splice_append.
      * apply Forall_app. split; [done|by constructor].
      * rewrite length_app, Nat2Z.inj_add. lia.
    + destruct (Xda p x Hp) as ((bytes' & Hd' & Hb') & ?). split; [|done]. exists bytes'. split; [done|]. rewrite appended_snoc. cbn.
      by rewrite (proj2 (Z.eqb_neq q p)).
  - intros a Ha. apply elem_of_app in Ha as [Ha|Ha]; [|apply list_elem_of_singleton in Ha as ->].
    + destruct (Xap a Ha) as [? [x Hx]]. split; [done|]. destruct (decide (a_page_id a = q)) as [->|]; [rewrite lookup_insert_eq|rewrite lookup_insert_ne by done]; eauto.
    + split; [split; cbn; lia|]. cbn. rewrite lookup_insert_eq. eauto.
  - intros o' [= <-]. cbn. exists (rs ++ [r]). rewrite lookup_insert_eq. split; [done|]. rewrite records_bytes_snoc, length_app, Nat2Z.inj_add. lia.
  - intros p x Hp. destruct (Xgr p x Hp) as [extra He]. destruct (decide (p = q)) as [->|].
    + rewrite lookup_insert_eq. assert (rs = x ++ extra) as -> by congruence. exists (extra ++ [r]). by rewrite app_assoc.
    + rewrite lookup_insert_ne by done. by exists extra.
  - intros p Hp. apply Xfr. destruct (decide (p = q)) as [->|]; [by rewrite Hrs|]. by rewrite lookup_insert_ne in Hp by done.
  - intros p x Hp Hnin. rewrite elem_of_app, list_elem_of_singleton in Hnin. rewrite lookup_insert_ne by (intros E; apply Hnin; by right). apply Xun; [done|tauto].
  - intros p x y. rewrite lookup_insert_Some. setoid_rewrite elem_of_app. intros [[<- <-]|[Hne Hp]] Hy.
    + apply elem_of_app in Hy as [Hy|Hy]; [|apply list_elem_of_singleton in Hy as ->; right; exists w; split; [right; left|done]].
      destruct (Xre q rs y Hrs Hy) as [?|(v & ? & ?)]; [by left|right; exists v; tauto].
    + destruct (Xre p x y Hp Hy) as [?|(v & ? & ?)]; [by left|right; exists v; tauto].
  - split; [rewrite !length_app; cbn; lia|]. intros j v p Hj Hp. apply lookup_snoc_Some in Hj as [[Hlt Hj]|[Hj <-]].
    + rewrite lookup_app_l in Hp by lia. destruct (Xpl j v p Hj Hp) as (x & Hx & Hin). by apply (Hext p x).
    + rewrite lookup_app_r in Hp by lia. replace (j - length ids)%nat with 0%nat in Hp by lia. injection Hp as <-.
      rewrite lookup_insert_eq. eexists. split; [done|]. apply elem_of_app. right. subst r. left.
  - intros p [Hp|Hp]%elem_of_app; [by apply Xwh|]. apply list_elem_of_singleton in Hp as ->.
    destruct (Xno o Ho) as [?|(o0 & E0 & Eq & _)]; [by right|left; by exists o0].
  - intros o' [= <-]. cbn. destruct (Xno o Ho) as [?|(o0 & E0 & Eq & Hall')]; [by left|right]. exists o0. split_and!; [done|done|].
    intros p [Hp|Hp]%elem_of_app; [by apply Hall'|]. by apply list_elem_of_singleton in Hp as ->.
  - rewrite length_app, Nat2Z.inj_add. cbn. lia.
Qed.

Lemma appends_seal i0 P0 t n written ids A i P o :
  Placing i0 P0 t n written ids A i P -> i_open_page i = Some o ->
  forall n', n' <= n -> 3 * n' + blen A + 1 <= bk_log (i_storage i) ->
  Placing i0 P0 t n' written ids (A ++ [mkPageAppend (op_page_id o) (op_offset o) [] true]) (set_open_page None i) P.
Proof.
  intros [Xok Xst Xca Xix Xol Xda Xap Xop Xgr Xfr Xun Xre Xpl Xwh Xno Xbu] Ho n' Hn Hlog. destruct (Xop o Ho) as (rs & Hrs & Hoff).
  destruct (Xda _ _ Hrs) as (_ & _ & Hmax).
  split; cbn [i_storage i_state i_record_cache i_open_page set_open_page]; try done.
  - intros p x Hp. destruct (Xda p x Hp) as ((bytes & Hd & Hb) & ?). split; [|done]. exists bytes. split; [done|]. rewrite appended_snoc. cbn.
    destruct (Z.eqb_spec (op_page_id o) p) as [<-|]; [|done]. assert (x = rs) as -> by congruence. by rewrite Hb, Hoff, splice_append, app_nil_r.
  - intros a Ha. apply elem_of_app in Ha as [Ha|Ha]; [by apply Xap|]. apply list_elem_of_singleton in Ha as ->. cbn. rewrite Hrs. split; [split; cbn; lia|eauto].
  - rewrite length_app, Nat2Z.inj_add. cbn. lia.
Qed.

(** A new blank page is opened. *)
Lemma open_blank i0 P0 t n written ids A i P :
  Placing i0 P0 t n written ids A i P -> 0 <= n -> n + 1 <= bk_pages (i_storage i) -> 3 * n + blen A + 1 <= bk_log (i_storage i) ->
  i_open_page i = None ->
  exists p b1 b2 lsns, bk_reserve 1 (i_storage i) = (Ok [p], b1) /\ bk_commit_relaxed [mkPageWrite p []] b1 = (Ok lsns, b2) /\
    bk_log (i_storage i) - 1 <= bk_log b2 /\
    Placing i0 P0 t n written ids A (set_open_page (Some (mkOpenPage p 0)) (set_storage b2 i)) (<[p := []]> P).
Proof.
  intros [Xok Xst Xca Xix Xol Xda Xap Xop Xgr Xfr Xun Xre [Xlen Xpl] Xwh Xno Xbu] Hn Hpg Hlg Ho.
  destruct (bk_reserve_ok (i_storage i) Xok ltac:(lia)) as (p & b1 & Hres & Hok1 & Hrv & Hfresh & Hix1 & Hd1 & _ & Hpg1 & Hlg1).
  destruct (bk_blank_ok b1 p Hok1 Hrv ltac:(lia)) as (lsns & b2 & Hbl & Hok2 & Hp2 & Hix2 & Hd2 & Hpg2 & Hlg2).
  assert (P !! p = None) as HP.
  { apply eq_None_not_Some. intros [rs Hrs]. destruct (Xda p rs Hrs) as ((bytes & Hd & _) & _). by apply (Hfresh bytes). }
  assert (forall q bytes, bk_data (i_storage i) q bytes -> bk_data b2 q bytes /\ q <> p) as Hkeep.
  { intros q bytes Hd. assert (q <> p) by (intros ->; by apply (Hfresh bytes)). split; [|done]. apply Hd2; [done|]. by apply Hd1. }
  assert (forall q x, P !! q = Some x -> <[p := []]> P !! q = Some x) as Hq.
  { intros q x Hx. rewrite lookup_insert_ne; [done|]. intros ->. by rewrite HP in Hx. }
  exists p, b1, b2, lsns. split; [done|]. split; [done|]. split; [lia|].
  split; cbn [i_storage i_state i_record_cache i_open_page set_open_page set_storage]; try done.
  - auto.
  - intros q bytes Hd. by apply Hkeep, Xol.
  - intros q x. rewrite lookup_insert_Some. intros [[<- <-]|[Hne Hx]].
    + split; [|split; [constructor|vm_compute; discriminate]]. exists []. split; [done|]. apply appended_other. intros a Ha E.
      destruct (Xap a Ha) as [_ [y Hy]]. by rewrite E, HP in Hy.
    + destruct (Xda q x Hx) as ((bytes & Hd & Hb) & ?). split; [|done]. exists bytes. split; [by apply Hkeep|done].
  - intros a Ha. destruct (Xap a Ha) as [? [x Hx]]. split; [done|]. exists x. by apply Hq.
  - intros o [= <-]. cbn. exists []. by rewrite lookup_insert_eq.
  - intros q x Hx. destruct (Xgr q x Hx) as [extra He]. exists extra. by apply Hq.
  - intros q [<-|Hx]%lookup_insert_is_Some' Hnone bytes Hd.
    + apply Xol in Hd. by apply Hkeep in Hd as [_ Hne].
    + by apply (Xfr q Hx Hnone bytes).
  - intros q x Hx Hnin. apply Hq. by apply Xun.
  - intros q x r. rewrite lookup_insert_Some. intros [[<- <-]|[Hne Hx]] Hr; [by apply not_elem_of_nil in Hr|]. by eapply Xre.
  - split; [done|]. intros j w q Hw Hj. destruct (Xpl j w q Hw Hj) as (x & Hx & ?). exists x. split; [by apply Hq|done].
  - intros o' [= <-]. left. cbn. apply eq_None_not_Some. intros [x Hx]. destruct (Xgr p x Hx). congruence.
  - lia.
Qed.

(** One turn of the loop. *)
Lemma place_record_ok i0 P0 t n written ids A i P w :
  Placing i0 P0 t (n + 1) written ids A i P -> 0 <= n -> 1 <= t <= U64_MAX -> validate_size w.1 w.2 = Ok tt ->
  exists appends p i' P', place_record t w i = (Ok (appends, p), i') /\ appends <> [] /\
    Placing i0 P0 t n (written ++ [w]) (ids ++ [p]) (A ++ appends) i' P'.
Proof.
  intros Hpl Hn Ht Hsize. set (r := mkVersionRecord t w.1 w.2). apply validate_size_inv in Hsize.
  assert (record_ok r) as Hr by done. assert (blen (record_bytes r) <= MAX_PAGE_PAYLOAD) as Hlen by (rewrite length_version_bytes; done).
  pose proof (pl_budget _ _ _ _ _ _ _ _ _ Hpl) as [Hpg Hlg].
  unfold place_record. fold r. rewrite encode_record_bytes by done. st_run.
  destruct (i_open_page i) as [o|] eqn:Ho; [destruct (Z.ltb_spec MAX_PAGE_PAYLOAD (op_offset o + blen (record_bytes r))) as [Hroll|Hfit]|].
  - pose proof (appends_seal _ _ _ _ _ _ _ _ _ _ Hpl Ho n ltac:(lia) ltac:(lia)) as Hseal.
    destruct (open_blank _ _ _ _ _ _ _ _ _ Hseal Hn) as (p & b1 & b2 & lsns & Hres & Hbl & Hlog & Hpl2);
      [cbn; lia|rewrite length_app, Nat2Z.inj_add; cbn; lia|done|].
    cbn in Hres; unfold on_storage. cbn [i_storage set_open_page]. rewrite Hres. cbn. rewrite Hbl. cbn. cbn in Hlog.
    eexists _, _, _, _. split; [reflexivity|]. split; [done|]. assert (forall x y : PageAppend, A ++ [x; y] = (A ++ [x]) ++ [y]) as -> by (intros; by rewrite <- app_assoc).
    apply (place_on_open _ _ _ _ _ _ _ _ _ (mkOpenPage p 0) [] r w Hpl2); try done; cbn; [by rewrite lookup_insert_eq|].
    rewrite length_app, Nat2Z.inj_add. cbn. lia.
  - rewrite Ho. destruct (pl_open _ _ _ _ _ _ _ _ _ Hpl o Ho) as (rs & Hrs & _).
    eexists _, _, _, _. split; [reflexivity|]. split; [done|]. cbn [app]. eapply (place_on_open i0 P0 t (n + 1)); try done; lia.
  - destruct (open_blank i0 P0 t n written ids A i P) as (p & b1 & b2 & lsns & Hres & Hbl & Hlog & Hpl2); try done; [|lia|].
    { destruct Hpl. split; try done. lia. }
    unfold on_storage. cbn [i_storage set_open_page]. rewrite Hres. cbn. rewrite Hbl. cbn. cbn in Hlog.
    eexists _, _, _, _. split; [reflexivity|]. split; [done|].
    apply (place_on_open _ _ _ _ _ _ _ _ _ (mkOpenPage p 0) [] r w Hpl2); try done; cbn; [by rewrite lookup_insert_eq|lia].
Qed.

Lemma place_all_ok i0 P0 t (Ht : 1 <= t <= U64_MAX) ws : forall written ids A i P,
  Placing i0 P0 t (blen ws) written ids A i P -> Forall (fun w => validate_size w.1 w.2 = Ok tt) ws ->
  exists placed i' P', collect ws (place_record t) i = (Ok placed, i') /\ Forall (fun x => x.1 <> []) placed /\
    Placing i0 P0 t 0 (written ++ ws) (ids ++ placed.*2) (A ++ concat placed.*1) i' P'.
Proof.
  induction ws as [|w ws IH]; intros written ids A i P Hpl Hsz.
  - exists [], i, P. cbn. rewrite !app_nil_r. by split_and!.
  - apply Forall_cons in Hsz as [Hw Hsz]. destruct (place_record_ok i0 P0 t (blen ws) written ids A i P w) as (appends & p & i1 & P1 & Hrun & Hne & Hpl1);
      [by replace (blen ws + 1) with (blen (w :: ws)) by (cbn; lia)|lia|done|done|].
    destruct (IH _ _ _ _ _ Hpl1 Hsz) as (placed & i2 & P2 & Hrun2 & Hnes & Hpl2). exists ((appends, p) :: placed), i2, P2. split_and!.
    + cbn [collect]. rewrite (ST_bind_step _ _ _ _ _ Hrun), (ST_bind_step _ _ _ _ _ Hrun2). done.
    + by constructor.
    + cbn. by rewrite <- !app_assoc in Hpl2.
Qed.

Lemma forget_keeps (c : LruInner (list VersionRecord)) ids : forall q v,
  lru_holds (foldl (fun c p => lru_remove p c) c ids) q v -> q ∉ ids /\ lru_holds c q v.
Proof.
  revert c. induction ids as [|p ids IH]; intros c q v Hq; cbn [foldl] in Hq; [split; [apply not_elem_of_nil|done]|].
  apply IH in Hq as [Hnin Hq]. apply lru_remove_keeps in Hq as [Hne Hq]. split; [|done]. by rewrite elem_of_cons; intros [?|?].
Qed.

(** The commit's records are appended, and nothing else changes. *)
Lemma persist_run i P t ws :
  bk_ok (i_storage i) -> 1 <= t <= U64_MAX -> Forall (fun w => validate_size w.1 w.2 = Ok tt) ws ->
  blen ws <= bk_pages (i_storage i) -> 3 * blen ws <= bk_log (i_storage i) ->
  (forall p rs, P !! p = Some rs ->
     bk_data (i_storage i) p (records_bytes rs) /\ Forall record_ok rs /\ blen (records_bytes rs) <= MAX_PAGE_PAYLOAD) ->
  (forall o, i_open_page i = Some o -> exists rs, P !! op_page_id o = Some rs /\ op_offset o = blen (records_bytes rs)) ->
  exists ps A i1 P' b', persist_commit t ws i = (Ok ps, set_record_cache (foldl (fun c p => lru_remove p c) (i_record_cache i) ps) (set_storage b' i1)) /\
    Placing i P t 0 ws ps A i1 P' /\ bk_ok b' /\
    (forall r m, bk_index (i_storage i) r m -> bk_index b' r m) /\
    (forall p bytes, bk_data (i_storage i1) p bytes -> bk_data b' p (appended A p bytes)).
Proof.
  intros Hok Ht Hsz Hpg Hlg Hdata Hopen. destruct (place_all_ok i P t Ht ws [] [] [] i P) as (placed & i1 & P' & Hrun & Hne & Hpl).
  { split; try done. - intros p rs Hp. destruct (Hdata p rs Hp) as (? & ? & ?). split; [|done]. by exists (records_bytes rs).
    - by intros a ?%not_elem_of_nil. - intros p rs Hp. exists []. by rewrite app_nil_r. - intros p [rs Hp] Hn. congruence.
    - intros p rs r Hp Hr. left. by exists rs. - by intros p ?%not_elem_of_nil.
    - intros o Ho. right. exists o. split_and!; [done|done|]. by intros p ?%not_elem_of_nil. - cbn. lia. }
  { done. }
  cbn [app] in Hpl. set (A := concat placed.*1) in *. pose proof Hpl as [Xok Xst Xca Xix Xol Xda Xap Xop Xgr Xfr Xun Xre [Xlen Xpl] Xwh Xno Xbu].
  destruct (bk_append_ok (i_storage i1) A Xok) as (lsns & b' & Hap & Hlsn & Hok' & Hix & Hd).
  { lia. } { apply Forall_forall. intros a Ha. by apply Xap. }
  { intros a Ha. destruct (Xap a Ha) as [_ [rs Hrs]]. destruct (Xda _ _ Hrs) as ((bytes & ? & _) & _). by exists bytes. }
  { intros p bytes Hb. destruct (P' !! p) as [rs|] eqn:Hp.
    - destruct (Xda p rs Hp) as ((bytes' & Hb' & Hrs) & ? & _). rewrite (bk_data_unique _ _ _ _ Xok Hb Hb'), Hrs. by apply records_data.
    - rewrite appended_other; [by eapply bk_data_payload|]. intros a Ha <-. destruct (Xap a Ha) as [_ [rs Hrs]]. congruence. }
  exists placed.*2, A, i1, P', b'. split; [|split_and!; auto].
  unfold persist_commit. rewrite (ST_bind_step _ _ _ _ _ Hrun). fold A. unfold on_storage, forget_records. st_run. rewrite Hap. cbn [map_err].
  replace (blen lsns <? blen ws) with false; [cbn; by rewrite Xca|].
  assert (forall l : list (list PageAppend * PageId), Forall (fun x => x.1 <> []) l -> (length l <= length (concat l.*1))%nat) as Hmany.
  { induction 1 as [|[x q] l Hx _ IH]; [done|]. cbn in *. rewrite length_app. destruct x; [done|cbn; lia]. }
  symmetry. apply Z.ltb_ge. rewrite Hlsn. unfold A. rewrite <- Xlen, length_fmap. by apply inj_le, Hmany.
Qed.

(** Persisting succeeds while there is room, and keeps the invariant. *)
Lemma persist_ok i H F1 f F2 J h P :
  Invariants (mkSys i H (F1 ++ f :: F2) J) h P -> f_pages f = None ->
  blen (f_writes f) <= bk_pages (i_storage i) -> 3 * blen (f_writes f) <= bk_log (i_storage i) ->
  exists ps i' P', persist_commit (f_timestamp f) (f_writes f) i = (Ok ps, i') /\
    Invariants (mkSys i' H (F1 ++ with_pages f ps :: F2) J) h P' /\ i_state i' = i_state i.
Proof.
  intros [Hv Hs Ht Hd Hf Hr Hint Hpc] Hnone Hpg Hlg. cbn [inner history inflight jobs] in *.
  assert (f ∈ F1 ++ f :: F2) as Hff by (apply elem_of_app; right; left). pose proof (Hf f Hff) as Hok.
  pose proof (to_inflight _ _ _ Ht f Hff) as Hft. pose proof (to_range _ _ _ Ht) as Hrange.
  destruct (persist_run i P (f_timestamp f) (f_writes f)) as (ps & A & i1 & P' & b' & Hrun & Hpl & Hok' & Hix & Hdat).
  { apply (po_ok _ _ _ _ _ Hs). } { lia. } { apply (io_sizes _ _ _ _ Hok). } { done. } { done. }
  { apply (po_data _ _ _ _ _ Hs). } { apply (po_open _ _ _ _ _ Hs). }
  pose proof Hpl as [Xok Xst Xca Xix Xol Xda Xap Xop Xgr Xfr Xun Xre [Xlen Xpl] Xwh Xno Xbu].
  exists ps. eexists _, P'. split; [exact Hrun|]. split; [|done].
  assert (forall g, g ∈ F1 ++ f :: F2 -> g = f \/ g ∈ F1 ++ with_pages f ps :: F2) as Hsplit
    by (intros g; rewrite !elem_of_app, !elem_of_cons; tauto).
  assert (with_pages f ps ∈ F1 ++ with_pages f ps :: F2) as Hwf by (apply elem_of_app; right; left).
  assert (forall C (e : Inflight -> C), e (with_pages f ps) = e f -> e <$> (F1 ++ with_pages f ps :: F2) = e <$> (F1 ++ f :: F2)) as Hmap
    by (intros C e He; rewrite !fmap_app, !fmap_cons, He; done).
  split; cbn [inner history inflight jobs i_state set_state set_record_cache set_storage]; rewrite ?Xst.
  - done.
  - destruct Hs as [Ho Hhome Hdata Hrec Hopen Hcache]. split; cbn [i_storage i_open_page i_record_cache set_record_cache set_storage]; try done.
    + intros k t p Hk. destruct (Hhome k t p Hk) as (v & rs & ? & ? & ? & HP & ?). destruct (Xgr p rs HP) as [extra He].
      exists v, (rs ++ extra). split_and!; try done. apply elem_of_app. by left.
    + intros p rs Hp. destruct (Xda p rs Hp) as ((bytes & Hb & Hab) & ? & ?). split_and!; [|done|done]. rewrite <- Hab. by apply Hdat.
    + intros p rs r Hp Hr'. destruct (Xre p rs r Hp Hr') as [(rs0 & Hp0 & Hr0)|(w & Hw & ->)].
      * destruct (Hrec p rs0 r Hp0 Hr0) as [?|(g & Hg & ? & ? & ?)]; [by left|right]. destruct (Hsplit g Hg) as [->|Hg']; [done|]. by exists g.
      * right. exists (with_pages f ps). split_and!; try done. cbn. by destruct w.
    + intros p rs Hh. apply forget_keeps in Hh as [Hnin Hh]. apply Xun; [|done]. by apply Hcache.
  - destruct Ht as [? ? Hin Hdis Hap Hc Hall ? ?]. split; try done; rewrite ?Hmap by done; try done.
    + intros g Hg. rewrite elem_of_app, elem_of_cons in Hg. destruct Hg as [?|[->|?]]; [|done|]; apply Hin; rewrite elem_of_app, elem_of_cons; tauto.
    + intros k v g Hk Hg. rewrite elem_of_app, elem_of_cons in Hg. destruct Hg as [?|[->|?]];
        [|by apply (Hap k v f)|]; apply (Hap k v); try done; rewrite elem_of_app, elem_of_cons; tauto.
  - by rewrite Hmap.
  - assert (forall g, g ∈ F1 ++ f :: F2 -> InflightOk (i_state i) H P' g) as Hf'.
    { intros g Hg. destruct (Hf g Hg) as [? ? ? ? ? Hpp]. split; try done. intros qs Hqs. destruct (Hpp qs Hqs) as [? Hin]. split; [done|].
      intros j w p Hw Hp. destruct (Hin j w p Hw Hp) as (rs & HP & ?). destruct (Xgr p rs HP) as [extra He]. exists (rs ++ extra).
      split; [done|]. apply elem_of_app. by left. }
    intros g Hg. rewrite elem_of_app, elem_of_cons in Hg. destruct Hg as [?|[->|?]]; [apply Hf'; rewrite elem_of_app; tauto| |apply Hf'; rewrite elem_of_app, elem_of_cons; tauto].
    destruct (Hf' f Hff) as [Ia Ik Iz Ii Il _]. split; try done. intros qs [= <-]. split; [done|]. apply Xpl.
  - destruct Hr as [Rr Ri Rc Rb Rd Ro]. split; cbn [i_storage i_state set_record_cache set_storage]; rewrite ?Xst; try done.
    + intros g Hg. destruct (Ri g Hg) as [(m & ? & ?) ?]. split; [|done]. exists m. auto.
    + intros c Hc. destruct (Rc c Hc) as [Hcap ?]. split; [|done]. unfold capture_ok in *. destruct (cp_base c); [|done].
      destruct Hcap as (m & ? & ?). exists m. auto.
    + intros g Hg. destruct (Rb g Hg) as [(m & ? & ?) ?]. split; [|done]. exists m. auto.
    + intros p Hp. destruct (Ro p Hp) as [HP [bytes Hb]]. split; [|eexists; by apply Hdat, Xol].
      apply eq_None_not_Some. intros Hs'. by apply (Xfr p Hs' HP bytes).
  - intros k id Hk. destruct (Hint k id Hk) as (g & Hg & ? & ?). destruct (Hsplit g Hg) as [->|Hg']; [by exists (with_pages f ps)|by exists g].
  - assert (forall k t p, h !! (k, t) = Some p -> P !! p <> None) as Hhome.
    { intros k t p Hk. destruct (po_home _ _ _ _ _ Hs k t p Hk) as (v & rs & _ & _ & _ & HP & _). congruence. }
    assert (forall k t p, h !! (k, t) = Some p -> p ∈ ps -> exists o, i_open_page i = Some o /\ p = op_page_id o) as Hon.
    { intros k t p Hk Hp. destruct (Xwh p Hp) as [?|HN]; [done|]. by apply Hhome in Hk. }
    destruct Hpc as [Po Pn Pi]. split; cbn [i_open_page set_record_cache set_storage].
    + intros o' k t w Eo Hk. destruct (Xno o' Eo) as [HN|(o & E0 & Eq & _)]; [by apply Hhome in Hk|]. rewrite Eq in *. by apply (Po o k t w).
    + intros o' k t g qs j value p Eo Hk Hgin Hqs Hj Hp. destruct (Xno o' Eo) as [HN|(o & E0 & Eq & Hall)]; [by apply Hhome in Hk|]. rewrite Eq in *.
      rewrite elem_of_app, elem_of_cons in Hgin. assert (g = with_pages f ps \/ g ∈ F1 ++ f :: F2) as [->|Hg']
        by (rewrite elem_of_app, elem_of_cons; tauto).
      * injection Hqs as <-. apply Hall. by eapply list_elem_of_lookup_2.
      * by apply (Pn o k t g qs j value p).
    + intros g qs p k t w Hgin Hqs Hp Hk Hw Htw. rewrite elem_of_app, elem_of_cons in Hgin.
      assert (g = with_pages f ps \/ g ∈ F1 ++ f :: F2) as [->|Hg'] by (rewrite elem_of_app, elem_of_cons; tauto).
      * injection Hqs as <-. destruct (Hon k t p Hk Hp) as (o & Eo & ->). apply (Po o k t w); [done|done|done|lia].
      * by apply (Pi g qs p k t w).
Qed.
End Persist.
