(* ===== verification/MvccBuild.v ===== *)
(** * Building an index generation keeps the invariant

    What the first critical section captures is exactly what the newest
    visible versions differ by from the base generation; the pages built from
    it serve the captured timestamp. *)
From S2P Require Import Prelude Page Order Node Record Store ByteLru Tree Backend Mvcc MvccSweep MvccSystem MvccReads MvccCommit.
Local Open Scope Z_scope.

(** ** Applying mutations *)

Definition mutation_key (mutation : IndexMutation) : Key := match mutation with Upsert e => key e | Delete k => k end.

Definition mutation_value (mutation : IndexMutation) : option PageId := match mutation with Upsert e => Some (value e) | Delete _ => None end.

Lemma apply_mutation_lookup m mutation k :
  apply_mutation m mutation !! k = if bool_decide (mutation_key mutation = k) then mutation_value mutation else m !! k.
Proof.
  destruct mutation; cbn [apply_mutation mutation_key mutation_value]; case_bool_decide as E; subst;
    rewrite ?lookup_insert_eq, ?lookup_delete_eq, ?lookup_insert_ne, ?lookup_delete_ne by done; done.
Qed.

(** Mutations of different keys, one per key of a list at most. *)
Lemma apply_captured (f : Key -> option IndexMutation) ks : forall m k,
  (forall k u, f k = Some u -> mutation_key u = k) -> NoDup ks ->
  foldl apply_mutation m (omap f ks) !! k =
  match (if bool_decide (k ∈ ks) then f k else None) with Some u => mutation_value u | None => m !! k end.
Proof.
  induction ks as [|x ks IH]; intros m k Hf Hnd; [done|]. apply NoDup_cons in Hnd as [Hx Hnd]. cbn [omap list_omap].
  assert (bool_decide (k ∈ x :: ks) = bool_decide (k = x) || bool_decide (k ∈ ks)) as ->.
  { rewrite <- bool_decide_or. apply bool_decide_ext. apply elem_of_cons. }
  destruct (f x) as [u|] eqn:E; cbn [foldl]; rewrite IH by done.
  - rewrite apply_mutation_lookup, (Hf x u E). destruct (decide (k = x)) as [->|Hne].
    + rewrite (bool_decide_eq_true_2 (x = x)) by done. rewrite (bool_decide_eq_false_2 (x ∈ ks)) by done. cbn [orb]. by rewrite E.
    + rewrite (bool_decide_eq_false_2 (k = x)), (bool_decide_eq_false_2 (x = k)) by congruence. done.
  - destruct (decide (k = x)) as [->|Hne]; [|by rewrite (bool_decide_eq_false_2 (k = x))].
    rewrite (bool_decide_eq_false_2 (x ∈ ks)), (bool_decide_eq_true_2 (x = x)) by done. cbn [orb]. by rewrite E.
Qed.

Lemma elem_of_set_list (ks : gset Key) k : k ∈ set_list ks <-> k ∈ ks.
Proof.
  unfold set_list. rewrite list_elem_of_fmap. split.
  - intros ([k' []] & -> & Hin%elem_of_bt_list). apply lookup_gset_to_gmap_Some in Hin as [? _]. done.
  - intros Hk. exists (k, tt). split; [done|]. apply elem_of_bt_list. by apply lookup_gset_to_gmap_Some.
Qed.

Lemma NoDup_set_list (ks : gset Key) : NoDup (set_list ks).
Proof. apply keys_sorted_NoDup, bt_list_sorted. Qed.

Lemma captured_mutation_key s t g k u : captured_mutation s t g k = Some u -> mutation_key u = k.
Proof.
  unfold captured_mutation. destruct (versions s !! k) as [vs|]; [|done]. cbn [mbind option_bind].
  destruct (version_at vs t) as [v|]; [|done]. cbn [mbind option_bind]. destruct (_ <=? _); [done|].
  intros [= <-]. by destruct (v_value v).
Qed.

(** ** Capturing *)

Section Capture.
Context {B : Type} {BB : Backend B} {BL : BackendLaws B}.
Context (i : @Inner B) (H : History) (F : list Inflight) (J : list Job) (h : Home) (P : Pages).
Hypothesis Hv : VersionsOk (i_state i) H h.
Hypothesis Hp : PagesOk i H F h P.
Hypothesis Ht : TimesOk (i_state i) H F.
Hypothesis Hg : RingOk i H J P.

Abbreviation s := (i_state i).

Lemma oldest_visible : oldest_active_snapshot s <= visible_through s.
Proof. apply oldest_le_visible. intros id t Hid. apply (to_active _ _ _ Ht id t Hid). Qed.

(** The entry of the index for the newest version at a timestamp. *)
Definition indexed_page (vs : list Version) (t : Timestamp) : option PageId :=
  v ← version_at vs t; _ ← v_value v; Some (v_page_id v).

(** Versions not above the newest generation are the same seen from it. *)
Lemma version_at_below vs g t :
  ascending vs -> g <= t -> (forall v, newest vs t v -> v_timestamp v <= g) -> version_at vs g = version_at vs t.
Proof.
  intros Ha Hle Hn. destruct (version_at vs t) as [v|] eqn:E.
  - apply version_at_newest in E; [|done]. specialize (Hn v E). destruct E as (Hin & _ & Hmax). apply version_at_newest; [done|].
    split_and!; [done|done|]. intros w Hw Hws. apply Hmax; [done|lia].
  - rewrite version_at_None in E |- *. intros v Hin. specialize (E v Hin). lia.
Qed.

(** A key that the map does not decide at the visible timestamp is as the
    newest generation has it. *)
Lemma undecided_key k g :
  latest_generation s = Some g -> version_at (at_key (versions s) k) (visible_through s) = None ->
  version_at (at_key H k) (g_timestamp g) = version_at (at_key H k) (visible_through s).
Proof.
  intros Hl Hn. pose proof oldest_visible as Hov. assert (g_timestamp g <= visible_through s) as Hgv.
  { apply (ro_index _ _ _ _ Hg g). by apply last_Some_elem_of. }
  apply version_at_below; [apply (vo_history _ _ _ Hv)|done|]. intros v (Hin & Hle & Hmax). rewrite version_at_None in Hn.
  destruct (vo_kept _ _ _ Hv k v Hin) as [Hm|[(_ & (g' & Hg' & ?) & _)|(w & Hw & ?)]].
  - specialize (Hn v Hm). lia.
  - pose proof (ring_last _ _ _ (ro_ring _ _ _ _ Hg) Hl Hg'). lia.
  - specialize (Hmax w Hw ltac:(lia)). lia.
Qed.

(** The mutation that is captured for a key, against the base generation. *)
Lemma captured_key k g :
  latest_generation s = Some g ->
  match (if bool_decide (k ∈ dirty_keys s) then captured_mutation s (visible_through s) g k else None) with
  | Some u => mutation_value u = indexed_page (at_key H k) (visible_through s)
  | None => indexed_page (at_key H k) (g_timestamp g) = indexed_page (at_key H k) (visible_through s)
  end.
Proof.
  intros Hl. pose proof oldest_visible as Hov. assert (g_timestamp g <= visible_through s) as Hgv.
  { apply (ro_index _ _ _ _ Hg g). by apply last_Some_elem_of. }
  pose proof (vo_history _ _ _ Hv k) as Ha. unfold indexed_page. case_bool_decide as Hd.
  - unfold captured_mutation. pose proof (undecided_key k g Hl) as Hund. pose proof (map_version i H h Hv k (visible_through s)) as Hmap.
    unfold at_key at 1 in Hund. unfold at_key at 1 in Hmap. destruct (versions s !! k) as [vs|]; cbn [default from_option mbind option_bind Datatypes.id] in *; [|by rewrite Hund].
    destruct (version_at vs (visible_through s)) as [v|]; cbn [mbind option_bind]; [|by rewrite Hund].
    specialize (Hmap v ltac:(lia) eq_refl). rewrite Hmap. destruct (Z.leb_spec (v_timestamp v) (g_timestamp g)) as [Hle|Hgt].
    + rewrite (version_at_below _ (g_timestamp g) (visible_through s)), Hmap; [done|done|done|]. intros w Hw.
      apply version_at_newest in Hmap; [|done]. by rewrite (newest_unique _ _ _ _ Ha Hw Hmap).
    + cbn. by destruct (v_value v).
  - rewrite (version_at_below _ (g_timestamp g) (visible_through s)); [done|done|done|]. intros v (Hin & _).
    destruct (vo_dirty _ _ _ Hv k v Hin) as [?|(g' & Hg' & ?)]; [done|]. unfold latest_generation in Hl. congruence.
Qed.

Lemma map_page_u64 k v : v ∈ at_key (versions s) k -> is_u64 (v_page_id v).
Proof.
  intros Hin. apply (vo_sub _ _ _ Hv) in Hin as [_ Hh]. destruct (po_home _ _ _ _ _ Hp _ _ _ Hh) as (w & rs & _ & _ & _ & HP & _).
  destruct (po_data _ _ _ _ _ Hp _ _ HP) as (Hd & _). by eapply bk_data_range; [apply (po_ok _ _ _ _ _ Hp)|].
Qed.

Lemma version_at_elem vs t v : version_at vs t = Some v -> v ∈ vs.
Proof. intros [? _]%rfind_Some. done. Qed.

(** Without a generation the map holds every version a snapshot can see. *)
Lemma no_generation k : latest_generation s = None -> version_at (at_key (versions s) k) (visible_through s) = version_at (at_key H k) (visible_through s).
Proof.
  intros Hl. pose proof oldest_visible as Hov. unfold latest_generation in Hl. apply last_None in Hl.
  apply version_at_filter; [apply (vo_history _ _ _ Hv)|apply (vo_ascending _ _ _ Hv)| |].
  - intros v (Hin & Hle & Hmax). destruct (vo_kept _ _ _ Hv k v Hin) as [?|[(_ & (g & Hgin & _) & _)|(w & Hw & ?)]]; [done| |].
    + rewrite Hl in Hgin. by apply not_elem_of_nil in Hgin.
    + specialize (Hmax w Hw ltac:(lia)). lia.
  - intros v Hin. by apply (vo_sub _ _ _ Hv).
Qed.

Lemma indexed_page_entry x t e :
  (v ← version_at x.2 t; _ ← v_value v; Some (mkIndexEntry x.1 (v_page_id v))) = Some e <-> key e = x.1 /\ indexed_page x.2 t = Some (value e).
Proof.
  unfold indexed_page. destruct (version_at x.2 t) as [v|]; cbn [mbind option_bind]; [|naive_solver].
  destruct (v_value v); cbn [mbind option_bind]; [|naive_solver]. destruct e as [k p]. cbn. split; [intros [= <- <-]|intros [-> [= ->]]]; done.
Qed.

Lemma elem_of_current (M : gmap Key (list Version)) t e :
  e ∈ current_index_entries M t <-> exists vs, M !! key e = Some vs /\ indexed_page vs t = Some (value e).
Proof.
  unfold current_index_entries. rewrite list_elem_of_omap. split.
  - intros ([k vs] & Hin & He). apply indexed_page_entry in He as [Ek Ep]. cbn in Ek, Ep. exists vs. rewrite Ek. split; [by apply elem_of_bt_list|done].
  - intros (vs & Hk & Hi). exists (key e, vs). split; [by apply elem_of_bt_list|]. by apply indexed_page_entry.
Qed.

Lemma current_entries t :
  let m := omap (fun vs => indexed_page vs t) (versions s) in
  bt_list m = entry_pair <$> current_index_entries (versions s) t.
Proof.
  intros m. apply bt_list_unique.
  - unfold current_index_entries. pose proof (bt_list_sorted (versions s)) as Hs. induction (bt_list (versions s)) as [|[k vs] l IH]; [constructor|].
    apply keys_sorted_cons in Hs as [Hs Hx]. specialize (IH Hs). cbn [omap list_omap fst snd].
    pose proof (indexed_page_entry (k, vs) t) as He. cbn [fst snd] in He.
    destruct (v ← version_at vs t; _ ← v_value v; Some (mkIndexEntry k (v_page_id v))) as [e|]; [|done].
    destruct (proj1 (He e) eq_refl) as [Ek _]. cbn [fmap list_fmap]. apply keys_sorted_cons. split; [done|].
    rewrite Forall_forall in Hx. apply Forall_forall. intros y Hy. apply list_elem_of_fmap in Hy as (e' & -> & He').
    apply list_elem_of_omap in He' as (x & Hin & Ex). apply indexed_page_entry in Ex as [Ex _]. cbn. rewrite Ek, Ex. apply (Hx _ Hin).
  - intros k p. unfold m. rewrite lookup_omap_Some. rewrite list_elem_of_fmap. setoid_rewrite elem_of_current. split.
    + intros ([k' p'] & [= -> ->] & vs & Hk & Hi). by exists vs.
    + intros (vs & Hi & Hk). exists (mkIndexEntry k p). split; [done|]. by exists vs.
Qed.

Lemma captured_ok : capture_ok (i_storage i) H (capture s).
Proof.
  unfold capture_ok, capture. cbn [cp_base cp_mutations cp_live_entries cp_timestamp]. destruct (latest_generation s) as [g|] eqn:Hl.
  - destruct (ro_index _ _ _ _ Hg g) as [(m & Hm & Href) _]; [by apply last_Some_elem_of|]. exists m. split; [done|]. split.
    + intros k. rewrite apply_captured; [|intros; by eapply captured_mutation_key|apply NoDup_set_list].
      rewrite (bool_decide_ext (k ∈ set_list (dirty_keys s)) (k ∈ dirty_keys s)) by apply elem_of_set_list.
      pose proof (captured_key k g Hl) as Hck. destruct (if bool_decide _ then _ else _); [done|]. by rewrite (Href k).
    + intros e (k & _ & He)%list_elem_of_omap. unfold captured_mutation in He. destruct (versions s !! k) as [vs|] eqn:Ev; [|done]. cbn [mbind option_bind] in He.
      destruct (version_at vs (visible_through s)) as [v|] eqn:Eat; [|done]. cbn [mbind option_bind] in He. destruct (_ <=? _); [done|].
      destruct (v_value v); [|done]. injection He as <-. cbn. apply (map_page_u64 k). unfold at_key. rewrite Ev. by eapply version_at_elem.
  - exists (omap (fun vs => indexed_page vs (visible_through s)) (versions s)). split; [apply current_entries|]. split.
    + intros k. rewrite <- (no_generation k Hl). rewrite lookup_omap. unfold at_key. by destruct (versions s !! k).
    + apply Forall_forall. intros e (vs & Hk & Hi)%elem_of_current. unfold indexed_page in Hi.
      destruct (version_at vs (visible_through s)) as [v|] eqn:Eat; [|done]. cbn [mbind option_bind] in Hi. destruct (v_value v); [|done]. injection Hi as <-.
      apply (map_page_u64 (key e)). unfold at_key. rewrite Hk. by eapply version_at_elem.
Qed.
End Capture.

Section Build.
Context {B : Type} {BB : Backend B} {BL : BackendLaws B}.

Lemma elem_of_other_pages gs (J : list Job) p :
  p ∈ other_pages gs J <-> (exists g, g ∈ gs /\ p = manifest_page_id g) \/ exists j, j ∈ J /\ p ∈ job_pages j.
Proof.
  unfold other_pages. rewrite elem_of_app, list_elem_of_fmap, list_elem_of_join. split.
  - intros [(g & -> & ?)|(l & ? & (j & -> & ?)%list_elem_of_fmap)]; [left; by exists g|right; by exists j].
  - intros [(g & ? & ->)|(j & ? & ?)]; [left; by exists g|right]. exists (job_pages j). split; [done|]. by apply list_elem_of_fmap_2.
Qed.

Lemma capture_step_ok i H F J h P :
  Invariants (mkSys i H F J) h P -> Invariants (mkSys i H F (Captured (capture (i_state i)) :: J)) h P.
Proof.
  intros [Hv Hs Ht Hd Hf Hr Hint Hpc]. cbn [inner history inflight jobs] in *. split; try done. cbn [inner history inflight jobs].
  pose proof (captured_ok i H F J h P Hv Hs Ht Hr) as Hcap. destruct Hr as [Rr Ri Rc Rb Rd Ro]. split; try done.
  - intros c [[= ->]|Hc]%elem_of_cons; [|by apply Rc]. split; [done|]. unfold capture. cbn. lia.
  - intros g [?|Hg]%elem_of_cons; [done|]. by apply Rb.
Qed.

Lemma encode_manifest_length g : blen (encode_manifest g) = 48.
Proof.
  assert (blen MANIFEST_MAGIC = 4) as HM by done. unfold encode_manifest, write_u16, write_u64. record_consts.
  destruct (g_root g); buf_len.
Qed.

Lemma manifest_data g : data_payload (encode_manifest g).
Proof.
  assert (blen MANIFEST_MAGIC = 4) as HM by done. unfold data_payload, encode_manifest. record_consts.
  assert (forall x, x = MANIFEST_MAGIC -> x <> NODE_MAGIC) as Hne by (intros x ->; by vm_compute). apply Hne.
  destruct (g_root g); buf_read; done.
Qed.

(** The part of the invariant that only reads storage. *)
Lemma storage_changes (i : @Inner B) H F J h P b' :
  Invariants (mkSys i H F J) h P -> bk_ok b' -> (forall r m, bk_index (i_storage i) r m -> bk_index b' r m) ->
  (forall p bytes, bk_data (i_storage i) p bytes -> bk_data b' p bytes) ->
  Invariants (mkSys (set_storage b' i) H F J) h P.
Proof.
  intros [Hv Hs Ht Hd Hf Hr Hint Hpc] Hok Hix Hdat. cbn [inner history inflight jobs] in *. split; try done; cbn [inner history inflight jobs].
  - destruct Hs as [? ? Hdata ? ? ?]. split; try done. intros p rs Hp. destruct (Hdata p rs Hp) as (? & ?). split; [|done]. by apply Hdat.
  - destruct Hr as [Rr Ri Rc Rb Rd Ro]. split; try done.
    + intros g Hg. destruct (Ri g Hg) as [(m & ? & ?) ?]. split; [|done]. exists m. split; [by apply Hix|done].
    + intros c Hc. destruct (Rc c Hc) as [Hcap ?]. split; [|done]. unfold capture_ok in *. destruct (cp_base c); [|done].
      destruct Hcap as (m & ? & ?). exists m. split; [by apply Hix|done].
    + intros g Hg. destruct (Rb g Hg) as [(m & ? & ?) ?]. split; [|done]. exists m. split; [by apply Hix|done].
    + intros p Hp. destruct (Ro p Hp) as [? [bytes ?]]. split; [done|]. exists bytes. by apply Hdat.
Qed.

(** The plan of a capture holds the captured map. *)
Lemma plan_capture (i : @Inner B) H c :
  bk_ok (i_storage i) -> capture_ok (i_storage i) H c -> can_build (i_storage i) c ->
  exists plan b' m, match cp_base c with
                    | Some generation => on_index (bk_edit_plan (g_root generation) (cp_mutations c))
                    | None => on_index (bk_plan (cp_live_entries c))
                    end i = (Ok plan, set_storage b' i) /\
    bk_ok b' /\ bk_planned b' plan m /\ reflects H m (cp_timestamp c) /\
    (forall r m, bk_index (i_storage i) r m -> bk_index b' r m) /\
    (forall p bytes, bk_data (i_storage i) p bytes -> bk_data b' p bytes) /\
    (forall p bytes, p ∈ plan_pages plan -> ~ bk_data (i_storage i) p bytes) /\ 1 <= bk_pages b' /\ blen (plan_writes plan) + 1 <= bk_log b'.
Proof.
  intros Hok Hcap Hcan. unfold capture_ok, can_build in *. destruct (cp_base c) as [g|].
  - destruct Hcap as (m & Hm & Href & Hu). destruct (bk_edit_ok _ _ _ _ Hok Hcan Hm Hu) as (plan & b' & Hrun & ? & ? & ? & ? & ? & ? & ?).
    exists plan, b', (foldl apply_mutation m (cp_mutations c)). split_and!; try done. unfold on_index. by rewrite Hrun.
  - destruct Hcap as (m & Hm & Href & Hu). destruct (bk_plan_ok _ _ _ Hok Hcan Hm Hu) as (plan & b' & Hrun & ? & ? & ? & ? & ? & ? & ?).
    exists plan, b', m. split_and!; try done. unfold on_index. by rewrite Hrun.
Qed.

(** Building succeeds, and the new generation serves the captured timestamp. *)
Lemma build_ok i H F J1 c J2 h P :
  Invariants (mkSys i H F (J1 ++ Captured c :: J2)) h P -> can_build (i_storage i) c ->
  exists g i', build_generation c i = (Ok g, i') /\ g_timestamp g = cp_timestamp c /\
    Invariants (mkSys i' H F (J1 ++ Built g :: J2)) h P /\ i_state i' = i_state i.
Proof.
  intros Hinv Hcan. pose proof Hinv as [Hv Hs Ht Hd Hf Hr Hint Hpc]. cbn [inner history inflight jobs] in *.
  assert (Captured c ∈ J1 ++ Captured c :: J2) as Hcin by (apply elem_of_app; right; left).
  destruct (ro_captured _ _ _ _ Hr c Hcin) as [Hcap Hle].
  destruct (plan_capture i H c (po_ok _ _ _ _ _ Hs) Hcap Hcan) as (plan & b1 & m & Hplan & Hok1 & Hpl1 & Href & Hix1 & Hd1 & Hpp & Hpg & Hlg).
  destruct (bk_reserve_ok b1 Hok1 Hpg) as (p & b2 & Hres & Hok2 & Hrv & Hfresh & Hix2 & Hd2 & Hpl2 & _ & Hlg2).
  set (g := mkGeneration (cp_timestamp c) (plan_root plan) p). destruct (Hpl2 _ _ Hpl1) as [Hpl3 Hpn].
  destruct (bk_publish_ok b2 plan m p (encode_manifest g) Hok2 Hpl3 Hrv Hpn) as (lsns & b3 & Hpub & Hok3 & Hix & Hman & Hix3 & Hd3).
  { rewrite encode_manifest_length. vm_compute. discriminate. } { apply manifest_data. } { lia. }
  assert (forall q bytes, ~ bk_data (i_storage i) p bytes /\ (bk_data (i_storage i) q bytes -> bk_data b3 q bytes)) as Hdat.
  { intros q bytes. split; [intros Hq; apply Hd1 in Hq; by apply Hfresh in Hq|]. intros Hq. apply Hd3; [| |by apply Hd2, Hd1].
    - intros ->. apply Hd1 in Hq. by apply Hfresh in Hq.
    - intros Hin. by apply (Hpp q bytes). }
  exists g, (set_storage b3 i). split; [|split; [done|split; [|done]]].
  { unfold build_generation. rewrite (ST_bind_step _ _ _ _ _ Hplan). unfold on_storage. st_run. cbn [i_storage set_storage]. rewrite Hres.
    cbn [map_err head ok_or i_storage set_storage]. fold g. by rewrite Hpub. }
  assert (Invariants (mkSys (set_storage b3 i) H F (J1 ++ Captured c :: J2)) h P) as [Hv' Hs' Ht' Hd' Hf' Hr' Hint' Hpc'].
  { apply storage_changes; [done|done|auto|]. intros q bytes. apply (Hdat q bytes). }
  cbn [inner history inflight jobs] in *. split; try done. cbn [inner history inflight jobs].
  assert (p ∉ other_pages (generations (i_state i)) (J1 ++ Captured c :: J2)) as Hnew.
  { intros Hp. destruct (ro_others _ _ _ _ Hr p Hp) as [_ [bytes Hb]]. by apply (Hdat p bytes). }
  assert (other_pages (generations (i_state i)) (J1 ++ Built g :: J2) ≡ₚ p :: other_pages (generations (i_state i)) (J1 ++ Captured c :: J2)) as Hperm.
  { unfold other_pages. rewrite !fmap_app, !fmap_cons, !join_app. cbn [job_pages mjoin list_join app manifest_page_id g]. solve_Permutation. }
  destruct Hr' as [Rr Ri Rc Rb Rd Ro]. split; try done; cbn [i_storage set_storage i_state] in *.
  - intros c'. rewrite elem_of_app, elem_of_cons. intros Hc. apply Rc. rewrite elem_of_app, elem_of_cons. destruct Hc as [?|[?|?]]; [tauto|done|tauto].
  - intros g'. rewrite elem_of_app, elem_of_cons. intros Hg'. assert (g' = g \/ Built g' ∈ J1 ++ Captured c :: J2) as [->|Hin].
    { rewrite elem_of_app, elem_of_cons. destruct Hg' as [?|[[= ->]|?]]; tauto. }
    + split; [|done]. by exists m.
    + by apply Rb.
  - rewrite Hperm. by apply NoDup_cons.
  - intros q. rewrite Hperm. intros [->|Hq]%elem_of_cons; [|by apply Ro]. split; [|by eexists].
    apply eq_None_not_Some. intros [rs Hrs]. destruct (po_data _ _ _ _ _ Hs _ _ Hrs) as (Hb & _). by apply (Hdat p (records_bytes rs)).
Qed.
End Build.
