(* ===== verification/MvccPublish.v ===== *)
(** * Publishing and reclaiming keep the invariant

    Publishing a generation lets reclamation drop the versions that no
    snapshot can ask for, hand covered keys over to the index, and free the
    pages that hold nothing else. *)
From S2P Require Import Prelude Page Order Node Record Store ByteLru Tree Backend Mvcc MvccSweep MvccSystem MvccReads MvccCommit MvccFinish MvccPersist MvccBuild.
Local Open Scope Z_scope.

(** ** Generations *)

Lemma pruned_last oldest gs : last (drop (pruned oldest gs) gs) = last gs.
Proof.
  unfold pruned. pose proof (rposition_spec (fun g => g_timestamp g <=? oldest) gs) as Hp. destruct (rposition _ gs) as [i|]; [|done].
  destruct Hp as (x & Hx & _). rewrite <- (take_drop i gs) at 2. rewrite last_app. rewrite (drop_S _ _ _ Hx). rewrite last_cons. by destruct (last (drop (S i) gs)).
Qed.

Lemma publish_generation_perm g gs :
  (forall g', g' ∈ gs -> manifest_page_id g' <> manifest_page_id g) -> publish_generation g gs ≡ₚ g :: gs.
Proof.
  intros Hnew. rewrite publish_generation_insert by done. unfold vec_insert. by rewrite <- Permutation_middle, take_drop.
Qed.

(** A key leaves the map for a generation that every snapshot may use. *)
Lemma leaves_covered oldest gs st k vs v :
  leaves oldest (cover_of oldest gs) st k vs = true -> v ∈ kept oldest vs ->
  exists c, c ∈ drop (pruned oldest gs) gs /\ v_timestamp v <= g_timestamp c <= oldest.
Proof.
  unfold leaves, cover_of. destruct (rfind _ (drop _ gs)) as [c|] eqn:Er; [|done]. apply rfind_Some in Er as [Hc Hco].
  apply Z.leb_le in Hco. cbn [fmap option_fmap option_map]. destruct (kept oldest vs) as [|x [|]]; try done. intros El Hv.
  apply list_elem_of_singleton in Hv as ->. exists c. split; [done|]. destruct (Z.leb_spec (v_timestamp x) (g_timestamp c)); [done|by cbn in El].
Qed.

(** ** What the second critical section leaves *)

Section Publish.
Context {B : Type} {BB : Backend B} {BL : BackendLaws B}.
Context (i : @Inner B) (H : History) (F : list Inflight) (J1 J2 : list Job) (g : IndexGeneration) (h : Home) (P : Pages).
Hypothesis Hinv : Invariants (mkSys i H F (J1 ++ Built g :: J2)) h P.

Abbreviation s := (i_state i).
Abbreviation protect := (op_page_id <$> i_open_page i).
Abbreviation oldest := (oldest_active_snapshot s).
Abbreviation gs := (publish_generation g (generations s)).

Lemma new_manifest g' : g' ∈ generations s -> manifest_page_id g' <> manifest_page_id g.
Proof.
  intros Hg E. pose proof (ro_distinct _ _ _ _ (inv_ring _ _ _ Hinv)) as Hd. cbn [inner jobs] in Hd. unfold other_pages in Hd.
  apply NoDup_app in Hd as (_ & Hd & _). apply (Hd (manifest_page_id g')); [by apply list_elem_of_fmap_2|].
  apply list_elem_of_join. exists [manifest_page_id g]. split; [rewrite E; by left|]. apply list_elem_of_fmap. exists (Built g).
  split; [done|]. apply elem_of_app. right. left.
Qed.

Lemma gs_ring : ring gs.
Proof. apply publish_generation_ring; [apply new_manifest|]. apply (ro_ring _ _ _ _ (inv_ring _ _ _ Hinv)). Qed.

Lemma elem_of_gs g' : g' ∈ gs <-> g' = g \/ g' ∈ generations s.
Proof. apply elem_of_publish, new_manifest. Qed.

(** The newest published generation is above all of them. *)
Lemma gs_last : exists l, last gs = Some l /\ forall g', g' ∈ gs -> g_timestamp g' <= g_timestamp l.
Proof.
  destruct (last gs) as [l|] eqn:E.
  - exists l. split; [done|]. intros g' Hg'. by apply (ring_last gs l); [apply gs_ring|..].
  - apply last_None in E. assert (g ∈ gs) as Hg by (apply elem_of_gs; by left). rewrite E in Hg. by apply not_elem_of_nil in Hg.
Qed.

(** Where a version is when it is not in the map. *)
Lemma below_generations k v :
  v ∈ at_key H k -> v ∈ at_key (versions s) k \/ (exists g', g' ∈ generations s /\ v_timestamp v <= g_timestamp g') \/
    exists w, w ∈ at_key (versions s) k /\ v_timestamp v <= v_timestamp w.
Proof.
  pose proof (inv_versions _ _ _ Hinv) as Hv. cbn [inner history] in Hv. pose proof (vo_history _ _ _ Hv k) as Ha. intros Hin.
  destruct (vo_kept _ _ _ Hv k v Hin) as [?|[(_ & (g' & ? & ?) & _)|(w & Hw & Hlt)]]; [by left|right; left; exists g'; split; [done|lia]|].
  destruct (version_at (at_key H k) oldest) as [u|] eqn:Eu; [|rewrite version_at_None in Eu; specialize (Eu w Hw); lia].
  apply version_at_newest in Eu as (Hu & Hle & Hmax); [|done]. pose proof (Hmax w Hw ltac:(lia)) as Hwu.
  destruct (vo_kept _ _ _ Hv k u Hu) as [?|[(_ & (g' & ? & ?) & _)|(x & Hx & Hlt')]].
  - right. right. exists u. split; [done|lia].
  - right. left. exists g'. split; [done|lia].
  - specialize (Hmax x Hx ltac:(lia)). lia.
Qed.

Definition clean (k : Key) : bool :=
  match versions s !! k with
  | Some vs => negb (existsb (fun v => g_timestamp g <? v_timestamp v) vs)
  | None => true
  end.

Lemma clean_below k v : clean k = true -> v ∈ at_key (versions s) k -> v_timestamp v <= g_timestamp g.
Proof.
  unfold clean, at_key. destruct (versions s !! k) as [vs|]; cbn; [|by intros _ ?%not_elem_of_nil]. intros Hc Hin.
  apply negb_true_iff in Hc. destruct (Z.le_gt_cases (v_timestamp v) (g_timestamp g)); [done|]. exfalso.
  apply eq_true_false_abs in Hc; [done|]. apply existsb_exists. exists v. split; [by apply list_elem_of_In|lia].
Qed.

Definition published : State :=
  mkState (versions s) (page_refs s) (intents s) (active s) (completed_timestamps s) (next_transaction_id s)
          (next_commit_timestamp s) (visible_through s) gs (filter (fun k => clean k = false) (dirty_keys s)) (reclaimed_versions s).

Abbreviation h' := (drained (all_gone oldest (bt_list (versions s))) h).

(** A version keeps its home unless it is drained. *)
Lemma home_kept k v :
  v ∈ at_key H k -> h !! (k, v_timestamp v) = Some (v_page_id v) ->
  (forall vs, versions s !! k = Some vs -> v ∉ gone oldest vs) -> h' !! (k, v_timestamp v) = Some (v_page_id v).
Proof.
  intros Hin Hh Hgone. rewrite lookup_drained. case_bool_decide as Hd; [|done]. exfalso.
  apply list_elem_of_fmap in Hd as ([k' w] & [= <- Ets] & Hw). apply elem_of_all_gone in Hw as (vs & Hvs & Hw).
  assert (w = v) as ->; [|by apply (Hgone vs)]. pose proof (inv_versions _ _ _ Hinv) as Hv. cbn [inner history] in Hv.
  eapply ascending_unique; [apply (vo_history _ _ _ Hv k)| |done|done]. apply (vo_sub _ _ _ Hv). unfold at_key. rewrite Hvs. cbn.
  apply (gone_or_kept oldest). by left.
Qed.

Lemma home_sub x p : h' !! x = Some p -> h !! x = Some p.
Proof. rewrite lookup_drained. by case_bool_decide. Qed.

Lemma kept_not_gone vs v : ascending vs -> v ∈ kept oldest vs -> v ∉ gone oldest vs.
Proof.
  intros Ha Hk Hgn. unfold ascending, gone, kept in *. rewrite <- (take_drop (drop_to oldest vs) vs) in Ha.
  apply StronglySorted_app in Ha as (Hall & _ & _). specialize (Hall v v Hgn Hk). lia.
Qed.

(** The result of the critical section. *)
Lemma publish_run :
  exists ps n refs' vs', publish g protect s =
      ((manifest_page_id <$> take (pruned oldest gs) gs) ++ ps,
       mkState vs' refs' (intents s) (active s) (completed_timestamps s) (next_transaction_id s) (next_commit_timestamp s)
               (visible_through s) (drop (pruned oldest gs) gs) (dirty_keys published) n) /\
    refs_ok refs' h' /\ NoDup ps /\ (forall p, p ∈ ps -> protect <> Some p /\ count h' p = 0 /\ count h p <> 0) /\
    forall k, vs' !! k =
      match versions s !! k with
      | Some vs => if leaves oldest (cover_of oldest gs) published k vs then None else Some (kept oldest vs)
      | None => None
      end.
Proof.
  pose proof (inv_versions _ _ _ Hinv) as Hv. cbn [inner history] in Hv.
  apply (reclaim_covered_spec protect published h).
  - apply (vo_refs _ _ _ Hv).
  - intros k vs Hvs. pose proof (vo_ascending _ _ _ Hv k) as Ha. unfold at_key in Ha. cbn in Hvs. by rewrite Hvs in Ha.
  - intros k vs v Hvs Hin. apply (vo_sub _ _ _ Hv k). unfold at_key. cbn in Hvs. by rewrite Hvs.
Qed.

Lemma publish_versions vs' refs' n :
  refs_ok refs' h' ->
  (forall k, vs' !! k = match versions s !! k with
                        | Some vs => if leaves oldest (cover_of oldest gs) published k vs then None else Some (kept oldest vs)
                        | None => None
                        end) ->
  VersionsOk (mkState vs' refs' (intents s) (active s) (completed_timestamps s) (next_transaction_id s) (next_commit_timestamp s)
                      (visible_through s) (drop (pruned oldest gs) gs) (dirty_keys published) n) H h'.
Proof.
  intros Hrefs Hvs'. pose proof (inv_versions _ _ _ Hinv) as Hv. cbn [inner history] in Hv. pose proof Hv as [Vh Va Vs Vk Vr Vd].
  assert (forall k v, v ∈ at_key vs' k -> exists vs, versions s !! k = Some vs /\ v ∈ kept oldest vs /\ v ∈ at_key (versions s) k) as Hsub.
  { intros k v. unfold at_key. rewrite Hvs'. destruct (versions s !! k) as [vs|]; [|by intros ?%not_elem_of_nil].
    destruct (leaves _ _ _ _ _); [by intros ?%not_elem_of_nil|]. cbn. intros Hin. exists vs. split_and!; [done|done|]. by eapply kept_sub. }
  set (s' := mkState _ _ _ _ _ _ _ _ _ _ _). assert (oldest_active_snapshot s' = oldest) as Eold by (by apply oldest_same).
  split; cbn [versions page_refs generations s']; rewrite ?Eold; try done.
  - intros k. pose proof (Va k) as Ha. unfold at_key in *. rewrite Hvs'. destruct (versions s !! k) as [vs|]; [|constructor].
    destruct (leaves _ _ _ _ _); [constructor|]. by apply ascending_kept.
  - intros k v Hin. destruct (Hsub k v Hin) as (vs & Evs & Hk & Hm). destruct (Vs k v Hm) as [HH Hh]. split; [done|].
    apply home_kept; [done|done|]. intros vs0 E0. rewrite Evs in E0. injection E0 as <-. apply kept_not_gone; [|done].
    pose proof (Va k) as Ha. unfold at_key in Ha. by rewrite Evs in Ha.
  - intros k v Hin. destruct (Vk k v Hin) as [Hm|[(Hh & (g' & Hg' & Hle) & Hlater)|?]]; [| |right; by right].
    + unfold at_key in Hm. destruct (versions s !! k) as [vs|] eqn:Evs; [|by apply not_elem_of_nil in Hm]. cbn in Hm.
      assert (ascending vs) as Ha by (pose proof (Va k) as Ha; unfold at_key in Ha; by rewrite Evs in Ha).
      apply (gone_or_kept oldest) in Hm as [Hgone|Hkept].
      * destruct (gone_superseded oldest vs v Ha Hgone) as (w & Hw & Hlt). right. right. exists w. split; [|done].
        apply (Vs k w). unfold at_key. rewrite Evs. by eapply kept_sub.
      * unfold at_key. rewrite Hvs', Evs. destruct (leaves oldest (cover_of oldest gs) published k vs) eqn:El; [|by left].
        right. left. assert (v ∈ vs) as Hvs by (by eapply kept_sub). split_and!.
        -- apply home_kept; [done|apply (Vs k v); unfold at_key; by rewrite Evs|].
           intros vs0 E0. rewrite Evs in E0. injection E0 as <-. by apply kept_not_gone.
        -- cbn [generations s']. rewrite Eold. by apply (leaves_covered oldest gs published k vs).
        -- intros w. unfold at_key. cbn [versions s']. rewrite Hvs', Evs, El. by intros ?%not_elem_of_nil.
    + right. left. split_and!.
      * apply home_kept; [done|done|]. intros vs E Hgone. specialize (Hlater v). unfold at_key in Hlater. rewrite E in Hlater.
        specialize (Hlater ltac:(apply (gone_or_kept oldest); by left)). lia.
      * destruct (prune_keeps oldest gs g' gs_ring ltac:(apply elem_of_gs; by right)) as [_ Hpk]. destruct (Hpk ltac:(lia)) as (c & Hc & Hcle).
        exists c. cbn [generations s']. rewrite Eold. split; [done|lia].
      * intros w Hw. cbn [versions s'] in Hw. apply Hlater. by destruct (Hsub k w Hw) as (_ & _ & _ & ?).
  - intros k v Hin. cbn [dirty_keys s' published]. rewrite pruned_last. destruct gs_last as (l & El & Hl).
    assert (forall g', g' ∈ generations s -> g_timestamp g' <= g_timestamp l) as Hold by (intros g' Hg'; apply Hl, elem_of_gs; by right).
    assert (g_timestamp g <= g_timestamp l) as Hnew by (apply Hl, elem_of_gs; by left).
    destruct (Vd k v Hin) as [Hd|(g' & Hg' & Hle)].
    + destruct (clean k) eqn:Ec; [right|left; by apply elem_of_filter]. exists l. split; [done|].
      destruct (below_generations k v Hin) as [Hm|[(g' & Hg' & ?)|(w & Hw & ?)]].
      * pose proof (clean_below k v Ec Hm). lia.
      * specialize (Hold g' Hg'). lia.
      * pose proof (clean_below k w Ec Hw). lia.
    + right. exists l. split; [done|]. apply last_Some_elem_of in Hg'. specialize (Hold g' Hg'). lia.
Qed.

(** The pages that stay. *)
Definition spared (freed : list PageId) : Pages := filter (fun x => x.1 ∉ freed) P.

Lemma spared_Some freed p rs : spared freed !! p = Some rs <-> P !! p = Some rs /\ p ∉ freed.
Proof. unfold spared. rewrite map_lookup_filter_Some. done. Qed.

Lemma counted_page p : count h p <> 0 -> exists rs, P !! p = Some rs.
Proof.
  intros Hc. destruct (map_choose_or_empty (filter (fun x => x.2 = p) h)) as [(x & q & Hx)|He].
  - apply map_lookup_filter_Some in Hx as [Hx Hq]. cbn in Hq. subst q. destruct x as [k t].
    destruct (po_home _ _ _ _ _ (inv_storage _ _ _ Hinv) k t p Hx) as (v & rs & _ & _ & _ & HP & _). by exists rs.
  - unfold count in Hc. rewrite He, map_size_empty in Hc. done.
Qed.

(** Not every version on the page of an unfinished commit is drained. *)
Lemma drained_unfinished f ps p :
  f ∈ F -> f_pages f = Some ps -> p ∈ ps -> count h p <> 0 -> count h' p <> 0.
Proof.
  intros Hf Hps Hp Hc Hc'. pose proof Hinv as [Hv Hs Ht Hd Hio Hr Hin0 Hpc]. cbn [inner history inflight jobs] in *.
  destruct (map_choose_or_empty (filter (fun x => x.2 = p) h)) as [([k t] & q & Hx)|He];
    [|unfold count in Hc; rewrite He, map_size_empty in Hc; done].
  apply map_lookup_filter_Some in Hx as [Hx Hq]. cbn in Hq. subst q.
  assert (h' !! (k, t) = None) as Hgone.
  { destruct (h' !! (k, t)) as [q|] eqn:E; [|done]. pose proof (home_sub _ _ E) as E0. assert (q = p) as -> by congruence.
    by apply (count_zero _ _ (k, t)) in Hc'. }
  rewrite lookup_drained in Hgone. case_bool_decide as Hin; [|congruence]. apply list_elem_of_fmap in Hin as ([k' v] & [= <- ->] & Hin).
  apply elem_of_all_gone in Hin as (vs & Evs & Hgn). assert (ascending vs) as Ha by (pose proof (vo_ascending _ _ _ Hv k) as Ha; unfold at_key in Ha; by rewrite Evs in Ha).
  destruct (gone_superseded oldest vs v Ha Hgn) as (w & Hw & Hlt).
  assert (w ∈ at_key (versions s) k) as Hwm by (unfold at_key; rewrite Evs; by eapply kept_sub).
  destruct (vo_sub _ _ _ Hv k w Hwm) as [HwH Hwh]. pose proof (oldest_le_active s _ _ (io_active _ _ _ _ (Hio f Hf))) as Hold.
  assert (v_page_id w = p) as Ep by (by apply (pc_inflight _ _ _ _ Hpc f ps p k (v_timestamp v) w Hf Hps Hp Hx HwH ltac:(lia))).
  apply (count_zero _ _ (k, v_timestamp w)) in Hc'. apply Hc'. rewrite <- Ep. apply home_kept; [done|done|].
  intros vs0 E0. rewrite Evs in E0. injection E0 as <-. by apply kept_not_gone.
Qed.

Lemma other_not_page p rs : P !! p = Some rs -> p ∉ other_pages (generations s) (J1 ++ Built g :: J2).
Proof. intros HP Hin. destruct (ro_others _ _ _ _ (inv_ring _ _ _ Hinv) p Hin) as [HN _]. congruence. Qed.

Lemma freed_pages ps :
  other_pages (drop (pruned oldest gs) gs) (J1 ++ Freed ((manifest_page_id <$> take (pruned oldest gs) gs) ++ ps) :: J2) ≡ₚ
  ps ++ other_pages (generations s) (J1 ++ Built g :: J2).
Proof.
  assert (manifest_page_id g :: (manifest_page_id <$> generations s) ≡ₚ
    (manifest_page_id <$> take (pruned oldest gs) gs) ++ (manifest_page_id <$> drop (pruned oldest gs) gs)) as Hperm.
  { rewrite <- fmap_app, take_drop. by rewrite (publish_generation_perm g (generations s) new_manifest). }
  unfold other_pages. rewrite !fmap_app, !fmap_cons, !join_app. cbn [job_pages mjoin list_join].
  transitivity (ps ++ (manifest_page_id g :: (manifest_page_id <$> generations s)) ++ mjoin (job_pages <$> J1) ++ mjoin (job_pages <$> J2)).
  - rewrite Hperm. solve_Permutation.
  - cbn [app]. solve_Permutation.
Qed.

Lemma publish_ok freed s' i' :
  publish g protect s = (freed, s') -> forget_records freed (set_state s' i) = (Ok tt, i') ->
  exists h' P', Invariants (mkSys i' H F (J1 ++ Freed freed :: J2)) h' P'.
Proof.
  destruct publish_run as (ps & n & refs' & vs' & Hrun & Hrefs & Hnd & Hps & Hvs'). rewrite Hrun. intros [= <- <-].
  set (freed := _ ++ ps) in *. unfold forget_records, modify. intros [= <-]. pose proof Hinv as [Hv Hs Ht Hd Hf Hr Hint Hpc].
  cbn [inner history inflight jobs] in *. exists h', (spared freed).
  assert (forall q, q ∈ freed -> q ∈ other_pages (generations s) (J1 ++ Built g :: J2) \/ q ∈ ps) as Hfreed.
  { intros q Hq. assert (q ∈ other_pages (drop (pruned oldest gs) gs) (J1 ++ Freed freed :: J2)) as Hin.
    { apply elem_of_other_pages. right. exists (Freed freed). split; [apply elem_of_app; right; left|done]. }
    unfold freed in Hin. rewrite freed_pages, elem_of_app in Hin. tauto. }
  assert (forall p rs, P !! p = Some rs -> p ∉ ps -> spared freed !! p = Some rs) as Hstay.
  { intros p rs HP Hnin. apply spared_Some. split; [done|]. intros [Hq|Hq]%Hfreed; [|done]. by apply (other_not_page p rs). }
  split; cbn [inner history inflight jobs i_state set_state set_record_cache].
  - by apply publish_versions.
  - destruct Hs as [Ho Hhome Hdata Hrec Hopen Hcache]. split; cbn [i_storage i_open_page i_record_cache set_record_cache set_state]; try done.
    + intros k t p Hk. pose proof (home_sub _ _ Hk) as Hk0. destruct (Hhome k t p Hk0) as (v & rs & ? & ? & ? & HP & ?).
      exists v, rs. split_and!; try done. apply Hstay; [done|]. intros Hq. destruct (Hps p Hq) as (_ & Hc & _). by apply (count_zero _ _ (k, t)) in Hc.
    + intros p rs [HP _]%spared_Some. by apply Hdata.
    + intros p rs r [HP _]%spared_Some. by apply (Hrec p).
    + intros o Eo. destruct (Hopen o Eo) as (rs & HP & ?). exists rs. split; [|done]. apply Hstay; [done|].
      intros Hq. destruct (Hps _ Hq) as [Hprot _]. by rewrite Eo in Hprot.
    + intros p rs [Hnin Hh]%forget_keeps. apply spared_Some. split; [by apply Hcache|done].
  - by eapply TimesOk_fields.
  - done.
  - intros f Hin. destruct (Hf f Hin) as [? ? ? ? ? Hpp]. split; try done. intros qs Hqs. destruct (Hpp qs Hqs) as [? Hall]. split; [done|].
    intros j w p Hw Hp. destruct (Hall j w p Hw Hp) as (rs & HP & ?). exists rs. split; [|done]. apply Hstay; [done|].
    intros Hq. destruct (Hps p Hq) as (_ & Hc' & Hc). apply (drained_unfinished f qs p); [done|done|by eapply list_elem_of_lookup_2|done|done].
  - destruct Hr as [Rr Ri Rc Rb Rd Ro]. cbn [i_state i_storage] in *.
    assert (forall j, j ∈ J1 ++ Freed freed :: J2 -> j = Freed freed \/ j ∈ J1 ++ Built g :: J2) as Hjobs
      by (intros j; rewrite !elem_of_app, !elem_of_cons; tauto).
    split; cbn [i_state i_storage set_state set_record_cache generations visible_through].
    + apply StronglySorted_drop, gs_ring.
    + intros g' Hg'. assert (g' ∈ gs) as Hin by (apply (elem_of_take_drop gs (pruned oldest gs)); by right).
      apply elem_of_gs in Hin as [->|Hin]; [|by apply Ri]. apply Rb. apply elem_of_app. right. left.
    + intros c Hc. apply Rc. by destruct (Hjobs _ Hc).
    + intros g' Hg'. apply Rb. by destruct (Hjobs _ Hg').
    + unfold freed. rewrite freed_pages. apply NoDup_app. split_and!; [done| |done]. intros p Hp Hin.
      destruct (Hps p Hp) as (_ & _ & Hc). destruct (counted_page p Hc) as [rs HP]. by apply (other_not_page p rs).
    + intros p. unfold freed. rewrite freed_pages. fold freed. intros [Hp|Hp]%elem_of_app.
      * destruct (Hps p Hp) as (_ & _ & Hc). destruct (counted_page p Hc) as [rs HP]. split.
        -- apply eq_None_not_Some. intros [x [_ Hx]%spared_Some]. apply Hx. unfold freed. apply elem_of_app. by right.
        -- eexists. by apply (po_data _ _ _ _ _ Hs).
      * destruct (Ro p Hp) as [HN Hb]. split; [|done]. apply eq_None_not_Some. intros [x [Hx _]%spared_Some]. congruence.
  - done.
  - eapply PlaceOk_sub; [exact Hpc|by left|apply home_sub].
Qed.
End Publish.

(** The freed pages go back to storage. *)
Lemma release_ok {B : Type} {BB : Backend B} {BL : BackendLaws B} (i : @Inner B) H F J1 ps J2 h P :
  Invariants (mkSys i H F (J1 ++ Freed ps :: J2)) h P ->
  exists b', bk_release ps (i_storage i) = (Ok tt, b') /\ Invariants (mkSys (set_storage b' i) H F (J1 ++ J2)) h P.
Proof.
  intros [Hv Hs Ht Hd Hf Hr Hint Hpc]. cbn [inner history inflight jobs] in *.
  assert (other_pages (generations (i_state i)) (J1 ++ Freed ps :: J2) ≡ₚ ps ++ other_pages (generations (i_state i)) (J1 ++ J2)) as Hperm.
  { unfold other_pages. rewrite !fmap_app, !fmap_cons, !join_app. cbn [job_pages mjoin list_join]. solve_Permutation. }
  destruct Hr as [Rr Ri Rc Rb Rd Ro]. rewrite Hperm in Rd. apply NoDup_app in Rd as (Hnd & Hdis & Rd).
  assert (forall p, p ∈ ps ++ other_pages (generations (i_state i)) (J1 ++ J2) -> P !! p = None /\ exists bytes, bk_data (i_storage i) p bytes) as Ro'
    by (intros p Hp; apply Ro; by rewrite Hperm).
  destruct (bk_release_ok (i_storage i) ps (po_ok _ _ _ _ _ Hs) Hnd) as (b' & Hrun & Hok & Hix & Hdat).
  { intros p Hp. apply Ro'. apply elem_of_app. by left. }
  exists b'. split; [done|]. assert (forall j, j ∈ J1 ++ J2 -> j ∈ J1 ++ Freed ps :: J2) as Hj by (intros j; rewrite !elem_of_app, elem_of_cons; tauto).
  split; try done; cbn [inner history inflight jobs].
  - destruct Hs as [? ? Hdata ? ? ?]. split; try done. intros p rs Hp. destruct (Hdata p rs Hp) as (? & ?). split; [|done]. cbn. apply Hdat; [done|]. intros Hin. destruct (Ro' p ltac:(apply elem_of_app; by left)) as [HN _]. congruence.
  - split; try done; cbn [i_storage set_storage i_state].
    + intros g Hg. destruct (Ri g Hg) as [(m & ? & ?) ?]. split; [|done]. exists m. split; [by apply Hix|done].
    + intros c Hc. destruct (Rc c (Hj _ Hc)) as [Hcap ?]. split; [|done]. unfold capture_ok in *. destruct (cp_base c); [|done].
      destruct Hcap as (m & ? & ?). exists m. split; [by apply Hix|done].
    + intros g Hg. destruct (Rb g (Hj _ Hg)) as [(m & ? & ?) ?]. split; [|done]. exists m. split; [by apply Hix|done].
    + intros p Hp. destruct (Ro' p ltac:(apply elem_of_app; by right)) as [? [bytes ?]]. split; [done|]. exists bytes. apply Hdat; [done|]. intros Hin. by apply (Hdis p Hin).
Qed.
