(* ===== verification/MvccScan.v ===== *)
(** * Scanning a prefix

    [scan_prefix] merges three sources: the version map, the index of the
    snapshot's generation, and the transaction's own writes.  The result is
    the snapshot's keys under the prefix, in order, with the own writes on
    top. *)
From S2P Require Import Prelude Page Order Node Record Store ByteLru Tree Backend Mvcc MvccSweep MvccSystem MvccReads.
Local Open Scope Z_scope.

(** ** Prefix ranges *)

(** The range from the prefix to [prefix_end] is the keys with the prefix. *)
Lemma in_prefix_range_starts prefix : forall k, in_prefix_range prefix k = starts_with k prefix.
Proof.
  unfold in_prefix_range, bytes_leb, bytes_ltb. induction prefix as [|b prefix IH]; intros [|c k]; cbn [bytes_cmp prefix_end starts_with]; try done.
  specialize (IH k). pose proof (byte_to_Z_range b). pose proof (byte_to_Z_range c).
  destruct (Z.compare_spec (byte_to_Z b) (byte_to_Z c)) as [E|Hlt|Hgt].
  - apply byte_to_Z_inj in E as ->. rewrite (bool_decide_eq_true_2 (c = c)) by done. cbn [andb]. rewrite <- IH.
    destruct (prefix_end prefix) as [e|]; cbn [bytes_cmp]; [by rewrite Z.compare_refl|].
    destruct (Z.eqb_spec (byte_to_Z c) 255); [done|]. cbn [bytes_cmp]. rewrite byte_to_of_Z, Z.mod_small by lia.
    destruct (Z.compare_spec (byte_to_Z c) (byte_to_Z c + 1)); [lia|done|lia].
  - rewrite bool_decide_eq_false_2 by (intros ->; lia). cbn [andb].
    destruct (prefix_end prefix) as [e|]; cbn [bytes_cmp].
    + destruct (Z.compare_spec (byte_to_Z c) (byte_to_Z b)); [lia|lia|done].
    + destruct (Z.eqb_spec (byte_to_Z b) 255); [lia|]. cbn [bytes_cmp]. rewrite byte_to_of_Z, Z.mod_small by lia.
      destruct (Z.compare_spec (byte_to_Z c) (byte_to_Z b + 1)); [by destruct k|lia|done].
  - rewrite bool_decide_eq_false_2 by (intros ->; lia). done.
Qed.

(** The index's range test is the same. *)
Lemma in_bounds_starts prefix k : in_bounds (Some prefix) (prefix_end prefix) k = starts_with k prefix.
Proof.
  rewrite <- in_prefix_range_starts. unfold in_bounds, in_prefix_range. rewrite bytes_leb_key. f_equal.
  destruct (prefix_end prefix) as [e|]; [|done]. rewrite bytes_leb_key. unfold key_leb. cbn. by rewrite negb_involutive.
Qed.

Lemma elem_of_version_range (vs : gmap Key (list Version)) prefix k l :
  (k, l) ∈ version_range vs prefix <-> vs !! k = Some l /\ starts_with k prefix = true.
Proof. unfold version_range. rewrite list_elem_of_filter, elem_of_bt_list. cbn. rewrite in_prefix_range_starts. tauto. Qed.

Lemma NoDup_filter_keys {A} (p : Key * A -> Prop) `{forall x, Decision (p x)} (l : list (Key * A)) : NoDup l.*1 -> NoDup (filter p l).*1.
Proof.
  induction l as [|x l IH]; [constructor|]. cbn [fmap list_fmap]. intros [Hx Hnd]%NoDup_cons. rewrite filter_cons.
  destruct (decide _); [|auto]. cbn [fmap list_fmap]. apply NoDup_cons. split; [|auto].
  intros (y & Ey & [_ Hy]%list_elem_of_filter)%list_elem_of_fmap. apply Hx. rewrite Ey. by apply list_elem_of_fmap_2.
Qed.

Lemma NoDup_version_range (vs : gmap Key (list Version)) prefix : NoDup (version_range vs prefix).*1.
Proof. apply NoDup_filter_keys, keys_sorted_NoDup, bt_list_sorted. Qed.

(** ** The map's part *)

Definition map_step (snapshot : Timestamp) (x : gset Key * gmap Key (list byte)) (y : Key * list Version) : gset Key * gmap Key (list byte) :=
  match version_at y.2 snapshot with
  | None => x
  | Some v => ({[y.1]} ∪ fst x, match v_value v with Some value => <[y.1 := value]> (snd x) | None => snd x end)
  end.

Lemma map_fold snapshot l : forall M R,
  NoDup l.*1 -> (forall k, k ∈ l.*1 -> k ∉ M /\ R !! k = None) ->
  let x := foldl (map_step snapshot) (M, R) l in
  (forall k vs, (k, vs) ∈ l -> (k ∈ fst x <-> is_Some (version_at vs snapshot)) /\ snd x !! k = (version_at vs snapshot ≫= v_value)) /\
  (forall k, k ∉ l.*1 -> (k ∈ fst x <-> k ∈ M) /\ snd x !! k = R !! k).
Proof.
  induction l as [|[k0 vs0] l IH]; intros M R Hnd Hfresh; cbn [foldl fmap list_fmap fst] in *.
  { split; [by intros k vs ?%not_elem_of_nil|done]. }
  apply NoDup_cons in Hnd as [Hk0 Hnd]. destruct (Hfresh k0 ltac:(left)) as [HM HR].
  set (x1 := map_step snapshot (M, R) (k0, vs0)). destruct x1 as [M1 R1] eqn:Ex1.
  assert ((k0 ∈ M1 <-> is_Some (version_at vs0 snapshot)) /\ R1 !! k0 = (version_at vs0 snapshot ≫= v_value) /\
    forall k, k <> k0 -> (k ∈ M1 <-> k ∈ M) /\ R1 !! k = R !! k) as (E1 & E2 & E3).
  { unfold x1, map_step in Ex1. cbn [fst snd] in Ex1. destruct (version_at vs0 snapshot) as [v|]; injection Ex1 as <- <-; cbn [mbind option_bind].
    - destruct (v_value v); split_and!; try (by rewrite ?lookup_insert_eq); [set_solver| |set_solver|].
      + intros k Hk. rewrite lookup_insert_ne by done. split; [set_solver|done].
      + intros k Hk. split; [set_solver|done].
    - split_and!; [|done|done]. split; [done|]. by intros [? ?]. }
  destruct (IH M1 R1 Hnd) as [IH1 IH2].
  { intros k Hk. assert (k <> k0) as Hne by (by intros ->). destruct (E3 k Hne) as [-> ->]. apply Hfresh. by right. }
  split.
  - intros k vs [[= -> ->]|Hin]%elem_of_cons; [|by apply IH1]. destruct (IH2 k0 Hk0) as [-> ->]. done.
  - intros k Hk. rewrite elem_of_cons in Hk. destruct (IH2 k ltac:(tauto)) as [-> ->]. apply E3. tauto.
Qed.

(** ** Own writes *)

Lemma own_writes_lookup (prefix : Key) (writes : gmap Key (option (list byte))) (results : gmap Key (list byte)) (k : Key) :
  own_writes prefix writes results !! k =
  if starts_with k prefix then match writes !! k with Some value => value | None => results !! k end else results !! k.
Proof.
  unfold own_writes. set (l := filter _ (bt_list writes)).
  assert (forall k v, (k, v) ∈ l <-> writes !! k = Some v /\ starts_with k prefix = true) as Hl
    by (intros k' v; unfold l; rewrite list_elem_of_filter, elem_of_bt_list; cbn; tauto).
  set (put (m : gmap Key (list byte)) (x : Key * option (list byte)) := match x.2 with Some v => <[x.1 := v]> m | None => delete x.1 m end).
  assert (forall l results, NoDup l.*1 ->
    (forall v, (k, v) ∈ l -> foldl put results l !! k = v) /\ (k ∉ l.*1 -> foldl put results l !! k = results !! k)) as Hfold.
  { clear. induction l as [|[k0 v0] l IH]; intros results Hnd; cbn [foldl fmap list_fmap fst snd] in *; [split; [by intros v ?%not_elem_of_nil|done]|].
    apply NoDup_cons in Hnd as [Hk0 Hnd]. specialize (IH (put results (k0, v0)) Hnd) as [IH1 IH2]. split.
    - intros v [[= -> ->]|Hin]%elem_of_cons; [|by apply IH1]. rewrite IH2 by done. unfold put. cbn [fst snd]. destruct v0; [apply lookup_insert_eq|apply lookup_delete_eq].
    - rewrite elem_of_cons. intros Hk. rewrite IH2 by tauto. unfold put. cbn [fst snd]. destruct v0; [apply lookup_insert_ne|apply lookup_delete_ne]; intros ->; tauto. }
  assert (NoDup l.*1) as Hnd.
  { apply NoDup_filter_keys, keys_sorted_NoDup, bt_list_sorted. }
  destruct (Hfold l results Hnd) as [Hin Hnin]. destruct (starts_with k prefix) eqn:Es; [destruct (writes !! k) as [v|] eqn:Ew|].
  - apply Hin. by apply Hl.
  - apply Hnin. intros ([k' v] & -> & Hx)%list_elem_of_fmap. apply Hl in Hx as [Hx _]. cbn in *. congruence.
  - apply Hnin. intros ([k' v] & -> & Hx)%list_elem_of_fmap. apply Hl in Hx as [_ Hx]. cbn in *. congruence.
Qed.

(** ** The index's part *)

Section Scan.
Context {B : Type} {BB : Backend B} {BL : BackendLaws B} (size_of_record : Z).

Lemma index_results_ok (H : History) (P : Pages) (s : Timestamp) (masked : gset Key) (es : list IndexEntry) : forall (i : @Inner B) (R : gmap Key (list byte)),
  records_ok i P -> NoDup (key <$> es) ->
  (forall e, e ∈ es -> key e ∉ masked -> exists bytes, visible_value H (key e) s = Some bytes /\ page_gives P (value e) (key e) s (Some bytes)) ->
  exists R' i', index_results size_of_record s masked es R i = (Ok R', i') /\ same i i' /\ records_ok i' P /\
    forall k, R' !! k = if bool_decide (k ∈ key <$> es /\ k ∉ masked) then visible_value H k s else R !! k.
Proof.
  induction es as [|e es IH]; intros i R Hrec Hnd Hes; cbn [index_results fmap list_fmap] in *.
  { by exists R, i. }
  apply NoDup_cons in Hnd as [Hk Hnd].
  assert (forall e', e' ∈ es -> key e' ∉ masked -> _) as Hes' by (intros e' He' Hm; exact (Hes e' (list_elem_of_further _ _ _ He') Hm)).
  case_bool_decide as Hm.
  - destruct (IH i R Hrec Hnd Hes') as (R' & i' & Hrun & Hsame & Hrec' & HR). exists R', i'. split_and!; try done. intros k. rewrite HR.
    assert (bool_decide (k ∈ key e :: (key <$> es) /\ k ∉ masked) = bool_decide (k ∈ key <$> es /\ k ∉ masked)) as ->; [|done].
    apply bool_decide_ext. rewrite elem_of_cons. split; [|tauto]. intros [[->|?] ?]; done.
  - destruct (Hes e ltac:(left) Hm) as (bytes & Hval & Hr).
    destruct (read_index_version_ok size_of_record i P _ (key e) s (Some bytes) Hrec Hr) as (i1 & Hrun1 & Hsame1 & Hrec1).
    destruct (IH i1 (<[key e := bytes]> R) Hrec1 Hnd Hes') as (R' & i2 & Hrun2 & Hsame2 & Hrec2 & HR).
    exists R', i2. split_and!; [|by eapply same_trans|done|].
    + by rewrite (ST_bind_step _ _ _ _ _ Hrun1).
    + intros k. rewrite HR. destruct (decide (k = key e)) as [->|Hne].
      * rewrite bool_decide_eq_false_2 by tauto. rewrite lookup_insert_eq, bool_decide_eq_true_2; [done|]. split; [left|done].
      * rewrite lookup_insert_ne by done.
        assert (bool_decide (k ∈ key e :: (key <$> es) /\ k ∉ masked) = bool_decide (k ∈ key <$> es /\ k ∉ masked)) as ->; [|done].
        apply bool_decide_ext. rewrite elem_of_cons. tauto.
Qed.

(** What a transaction sees of a key. *)
Definition seen (H : History) (t : Transaction) (k : Key) : option (list byte) :=
  match t_writes t !! k with Some value => value | None => visible_value H k (t_snapshot t) end.

Section State.
Context (i : @Inner B) (H : History) (F : list Inflight) (J : list Job) (h : Home) (P : Pages).
Hypothesis Hv : VersionsOk (i_state i) H h.
Hypothesis Hp : PagesOk i H F h P.
Hypothesis Ht : TimesOk (i_state i) H F.
Hypothesis Hg : RingOk i H J P.

Lemma map_results_ok (s : Timestamp) (prefix : Key) :
  oldest_active_snapshot (i_state i) <= s ->
  let '(masked, results) := map_results s (version_range (versions (i_state i)) prefix) in
  (forall k, k ∈ masked <-> starts_with k prefix = true /\ is_Some (version_at (at_key (versions (i_state i)) k) s)) /\
  forall k, results !! k = if bool_decide (k ∈ masked) then visible_value H k s else None.
Proof.
  intros Hs. unfold map_results. fold (map_step s). set (l := version_range _ _).
  destruct (map_fold s l ∅ ∅ (NoDup_version_range _ _)) as [Hin Hout]; [intros k _; split; [set_solver|apply lookup_empty]|].
  change (foldl _ (∅, ∅) l) with (foldl (map_step s) (∅, ∅) l). destruct (foldl (map_step s) (∅, ∅) l) as [masked results]. cbn [fst snd] in *.
  assert (forall k, k ∈ masked <-> starts_with k prefix = true /\ is_Some (version_at (at_key (versions (i_state i)) k) s)) as Hmask.
  { intros k. unfold at_key. destruct (versions (i_state i) !! k) as [vs|] eqn:E; [destruct (starts_with k prefix) eqn:Es|].
    - destruct (Hin k vs) as [-> _]; [by apply elem_of_version_range|]. tauto.
    - destruct (Hout k) as [-> _]; [|split; [set_solver|by intros [? _]]].
      intros ([k' vs'] & -> & [_ Hx]%elem_of_version_range)%list_elem_of_fmap. cbn in *. congruence.
    - destruct (Hout k) as [-> _]; [|split; [set_solver|by intros [_ [? ?]]]].
      intros ([k' vs'] & -> & [Hx _]%elem_of_version_range)%list_elem_of_fmap. cbn in *. congruence. }
  split; [done|]. intros k. case_bool_decide as Hk.
  - apply Hmask in Hk as [Hs' [v Hat]]. unfold at_key in Hat. destruct (versions (i_state i) !! k) as [vs|] eqn:E; [|done]. cbn [default from_option Datatypes.id] in Hat.
    destruct (Hin k vs) as [_ ->]; [by apply elem_of_version_range|]. unfold visible_value.
    rewrite (map_version i H h Hv k s v Hs) by (unfold at_key; by rewrite E). by rewrite Hat.
  - destruct (decide (k ∈ l.*1)) as [Hin'|Hnin].
    + apply list_elem_of_fmap in Hin' as ([k' vs] & -> & Hx). cbn in *. destruct (Hin k' vs Hx) as [Hm ->].
      destruct (version_at vs s); [|done]. exfalso. apply Hk, Hm. eauto.
    + destruct (Hout k Hnin) as [_ ->]. apply lookup_empty.
Qed.

(** A key that the map does not decide and the index does not list. *)
Lemma unlisted (k : Key) (s : Timestamp) :
  oldest_active_snapshot (i_state i) <= s <= visible_through (i_state i) ->
  version_at (at_key (versions (i_state i)) k) s = None -> generation_at s (i_state i) ≫= g_root = None -> visible_value H k s = None.
Proof.
  intros Hs Hn Hroot. unfold visible_value. destruct (generation_at s (i_state i)) as [g|] eqn:Eg; cbn in Hroot.
  - destruct (ring_at _ _ _ (ro_ring _ _ _ _ Hg) Eg) as (Hgin & _ & _). destruct (ro_index _ _ _ _ Hg g Hgin) as [(m & Hm & Href) _].
    pose proof (index_serves i H F J h P Hv Hp Ht Hg k s g m Hs Hn Eg Href) as Hserve. rewrite Hroot in Hm.
    apply bk_index_none in Hm as ->. by rewrite lookup_empty in Hserve.
  - pose proof (read_through_generation i H J h P Hv Hg k s Hs Hn) as Hr. destruct (version_at (at_key H k) s); [|done].
    destruct Hr as (_ & g & Eg' & _). congruence.
Qed.

(** The entries of the index under the prefix, where the map does not mask
    them. *)
Lemma scan_index (s : Timestamp) (prefix : Key) (masked : gset Key) (results : gmap Key (list byte)) root :
  oldest_active_snapshot (i_state i) <= s <= visible_through (i_state i) -> generation_at s (i_state i) ≫= g_root = Some root ->
  (forall k, k ∈ masked <-> starts_with k prefix = true /\ is_Some (version_at (at_key (versions (i_state i)) k) s)) ->
  (forall k, results !! k = if bool_decide (k ∈ masked) then visible_value H k s else None) ->
  exists R i', (entries ← on_index (bk_range root (Some prefix) (prefix_end prefix) no_limit);
                index_results size_of_record s masked entries results) i = (Ok R, i') /\
    same i i' /\ records_ok i' P /\ forall k, R !! k = if starts_with k prefix then visible_value H k s else None.
Proof.
  intros Hs Hroot Hmask Hres. destruct (generation_at s (i_state i)) as [g|] eqn:Eg; [|done]. cbn in Hroot.
  destruct (ring_at _ _ _ (ro_ring _ _ _ _ Hg) Eg) as (Hgin & _ & _). destruct (ro_index _ _ _ _ Hg g Hgin) as [(m & Hm & Href) _].
  pose proof Hm as Hm'. rewrite Hroot in Hm'.
  destruct (bk_range_ok _ _ _ (Some prefix) (prefix_end prefix) (po_ok _ _ _ _ _ Hp) Hm') as (es & b' & Hrun & Hok' & Hix & Hdat & Hes).
  destruct (set_storage_ok i H F h P Hp b' Hok' Hix Hdat) as [Hsame Hrec].
  assert (on_index (bk_range root (Some prefix) (prefix_end prefix) no_limit) i = (Ok es, set_storage b' i)) as Hrun1 by (unfold on_index, no_limit; by rewrite Hrun).
  rewrite (ST_bind_step _ _ _ _ _ Hrun1).
  assert (forall k p, (k, p) ∈ entry_pair <$> es <-> m !! k = Some p /\ starts_with k prefix = true) as Hel.
  { intros k p. rewrite Hes, list_elem_of_filter, elem_of_bt_list. cbn [fst]. rewrite in_bounds_starts. tauto. }
  assert (key <$> es = (entry_pair <$> es).*1) as Hkeys by (rewrite <- list_fmap_compose; done).
  assert (forall k, starts_with k prefix = true -> k ∉ masked -> version_at (at_key (versions (i_state i)) k) s = None) as Hundec.
  { intros k Hk Hm0. destruct (version_at _ s) eqn:E; [|done]. exfalso. apply Hm0, Hmask. rewrite E. eauto. }
  pose proof (fun k Hk Hm0 => index_serves i H F J h P Hv Hp Ht Hg k s g m Hs (Hundec k Hk Hm0) Eg Href) as Hserve.
  destruct (index_results_ok H P s masked es (set_storage b' i) results Hrec) as (R & i' & Hrun2 & Hsame2 & Hrec2 & HR).
  { rewrite Hkeys, Hes. apply NoDup_filter_keys, keys_sorted_NoDup, bt_list_sorted. }
  { intros e He Hm0. assert (entry_pair e ∈ entry_pair <$> es) as Hin by (by apply list_elem_of_fmap_2).
    destruct e as [k p]. apply Hel in Hin as [Hk Hst]. cbn [key value] in *. specialize (Hserve k Hst Hm0). by rewrite Hk in Hserve. }
  exists R, i'. split_and!; [done|by eapply same_trans|done|]. intros k. rewrite HR, Hres. repeat case_bool_decide; try tauto.
  - destruct (starts_with k prefix) eqn:Es; [done|]. exfalso. destruct H0 as [Hin _]. rewrite Hkeys in Hin.
    apply list_elem_of_fmap in Hin as ([k' p] & -> & [_ Hx]%Hel). cbn in Es. congruence.
  - rewrite (proj1 (proj1 (Hmask k) H1)). done.
  - destruct (starts_with k prefix) eqn:Es; [|done]. specialize (Hserve k Es H1). destruct (m !! k) as [p|] eqn:Em; [|done].
    exfalso. apply H0. split; [|done]. rewrite Hkeys. apply list_elem_of_fmap. exists (k, p). split; [done|]. by apply Hel.
Qed.

Lemma scan_ok (t : Transaction) (prefix : Key) :
  oldest_active_snapshot (i_state i) <= t_snapshot t <= visible_through (i_state i) -> t_finished t = false ->
  exists m i', scan_prefix size_of_record prefix (mkSession t i) = (Ok (bt_list m), mkSession (track_scan prefix t) i') /\
    same i i' /\ records_ok i' P /\ forall k, m !! k = if starts_with k prefix then seen H t k else None.
Proof.
  intros Hs Hfin. set (s := t_snapshot t) in *. unfold scan_prefix, ensure_active, on_transaction, on_inner. st_run. cbn [s_transaction s_inner].
  rewrite Hfin. cbn [s_transaction s_inner].
  assert (t_snapshot (track_scan prefix t) = s /\ t_writes (track_scan prefix t) = t_writes t) as [-> ->] by (unfold track_scan; by destruct (t_range_protected t)).
  pose proof (map_results_ok s prefix (proj1 Hs)) as Hmap. destruct (map_results s _) as [masked results]. destruct Hmap as [Hmask Hres].
  assert (forall R, (forall k, R !! k = if starts_with k prefix then visible_value H k s else None) ->
    forall k, own_writes prefix (t_writes t) R !! k = if starts_with k prefix then seen H t k else None) as Hown.
  { intros R HR k. rewrite own_writes_lookup, HR. unfold seen. by destruct (starts_with k prefix). }
  destruct (option_bind IndexGeneration IndexRoot g_root (generation_at s (i_state i))) as [root|] eqn:Er.
  - destruct (scan_index s prefix masked results root Hs Er Hmask Hres) as (R & i' & Hrun & Hsame & Hrec & HR).
    exists (own_writes prefix (t_writes t) R), i'. split_and!; [|done|done|by apply Hown].
    unfold mbind, ST_bind in Hrun. cbn [s_inner]. destruct (on_index _ i) as [[es|e] i1]; [|done]. rewrite Hrun. done.
  - exists (own_writes prefix (t_writes t) results), i. split_and!; [done|done|by eapply PagesOk_records|]. apply Hown.
    intros k. rewrite Hres. case_bool_decide as Hk; [apply Hmask in Hk as [-> _]; done|]. destruct (starts_with k prefix) eqn:Es; [|done].
    symmetry. apply unlisted; [done| |done]. destruct (version_at _ s) eqn:E; [|done]. exfalso. apply Hk, Hmask. rewrite E. eauto.
Qed.
End State.
End Scan.
