(* ===== verification/MvccIsolation.v ===== *)
(** * Snapshot isolation

    The invariant holds in every state that a new database can reach, however
    its transactions, index builds and reclamations interleave.  What follows
    from it is what the transactions promise: a snapshot never changes, every
    read succeeds, the first committer wins, and no timestamp stays stuck. *)
From S2P Require Import Prelude Page Order Node Record Store ByteLru Tree Backend Mvcc MvccSweep MvccSystem MvccReads MvccCommit MvccFinish MvccPersist MvccBuild MvccPublish MvccScan.
Local Open Scope Z_scope.

Section Isolation.
Context {B : Type} {BB : Backend B} {BL : BackendLaws B} (size_of_record : Z).

Abbreviation step := (step size_of_record).
Abbreviation transaction_get := (transaction_get size_of_record).
Abbreviation scan_prefix := (scan_prefix size_of_record).
Abbreviation visible y := (visible_through (i_state (inner y))).

(** ** Every step keeps the invariant *)

Lemma reads_keep (i i' : @Inner B) H F J h P :
  Invariants (mkSys i H F J) h P -> same i i' -> records_ok i' P -> Invariants (mkSys i' H F J) h P.
Proof.
  intros [Hv Hs Ht Hd Hf Hr Hint Hpc] (Es & Eo & Hix & Hdat) (Hok & Hrec & Hcache). cbn [inner history inflight jobs] in *.
  split; cbn [inner history inflight jobs]; rewrite ?Es, ?Eo; try done.
  - destruct Hs as [? ? Hdata ? ? ?]. split; rewrite ?Eo; try done. intros p rs HP. destruct (Hdata p rs HP) as (? & ? & ?). split; [by apply Hdat|done].
  - destruct Hr as [Rr Ri Rc Rb Rd Ro]. split; rewrite ?Es; try done.
    + intros g Hg. destruct (Ri g Hg) as [(m & ? & ?) ?]. split; [|done]. exists m. auto.
    + intros c Hc. destruct (Rc c Hc) as [Hcap ?]. split; [|done]. unfold capture_ok in *. destruct (cp_base c); [|done].
      destruct Hcap as (m & ? & ?). exists m. auto.
    + intros g Hg. destruct (Rb g Hg) as [(m & ? & ?) ?]. split; [|done]. exists m. auto.
    + intros p Hp. destruct (Ro p Hp) as [? [bytes ?]]. split; [done|]. exists bytes. auto.
Qed.

Lemma snapshot_range (y : @Sys B) h P id s :
  Invariants y h P -> active (i_state (inner y)) !! id = Some s -> oldest_active_snapshot (i_state (inner y)) <= s <= visible y.
Proof.
  intros Hinv Ha. split; [by eapply oldest_le_active|]. apply (to_active _ _ _ (inv_times _ _ _ Hinv) id s Ha).
Qed.

Lemma get_ok (i : @Inner B) H F J h P t k :
  Invariants (mkSys i H F J) h P -> active (i_state i) !! t_id t = Some (t_snapshot t) -> t_finished t = false ->
  exists i', transaction_get k (mkSession t i) = (Ok (seen H t k), mkSession t i') /\ Invariants (mkSys i' H F J) h P /\ same i i'.
Proof.
  intros Hinv Ha Hfin. pose proof (snapshot_range _ _ _ _ _ Hinv Ha) as Hs. unfold Mvcc.transaction_get, ensure_active, on_inner, seen. st_run.
  cbn [s_transaction s_inner]. rewrite Hfin. cbn [s_transaction s_inner]. destruct (t_writes t !! k) as [value|]; [by exists i|].
  pose proof Hinv as [Hv Hp Ht Hd Hf Hr Hint Hpc]. cbn [inner history inflight jobs] in *.
  destruct (read_ok size_of_record i H F J h P Hv Hp Ht Hr k (t_snapshot t) Hs) as (i' & Hrun & Hsame & Hrec).
  exists i'. cbn [s_inner s_transaction]. rewrite Hrun. split_and!; [done| |done]. by eapply reads_keep.
Qed.

Lemma scan_keeps (i : @Inner B) H F J h P t prefix :
  Invariants (mkSys i H F J) h P -> active (i_state i) !! t_id t = Some (t_snapshot t) -> t_finished t = false ->
  exists m i', scan_prefix prefix (mkSession t i) = (Ok (bt_list m), mkSession (track_scan prefix t) i') /\
    Invariants (mkSys i' H F J) h P /\ same i i' /\ forall k, m !! k = if starts_with k prefix then seen H t k else None.
Proof.
  intros Hinv Ha Hfin. pose proof (snapshot_range _ _ _ _ _ Hinv Ha) as Hs. pose proof Hinv as [Hv Hp Ht Hd Hf Hr Hint Hpc].
  cbn [inner history inflight jobs] in *.
  destruct (scan_ok size_of_record i H F J h P Hv Hp Ht Hr t prefix Hs Hfin) as (m & i' & Hrun & Hsame & Hrec & Hm).
  exists m, i'. split_and!; [done| |done|done]. by eapply reads_keep.
Qed.

Lemma get_active t k (i : @Inner B) v i' : transaction_get k (mkSession t i) = (Ok v, mkSession t i') -> t_finished t = false.
Proof. unfold Mvcc.transaction_get, ensure_active. st_run. cbn [s_transaction]. by destruct (t_finished t). Qed.

Lemma scan_active t prefix (i : @Inner B) r x : scan_prefix prefix (mkSession t i) = (Ok r, x) -> t_finished t = false.
Proof. unfold Mvcc.scan_prefix, ensure_active. st_run. cbn [s_transaction]. by destruct (t_finished t). Qed.

(** What a step does to the past: nothing. *)
Definition keeps_past (y y' : @Sys B) : Prop :=
  visible y <= visible y' /\ forall k s, s <= visible y -> visible_value (history y') k s = visible_value (history y) k s.

Lemma keeps_same (y y' : @Sys B) : visible y <= visible y' -> history y' = history y -> keeps_past y y'.
Proof. intros Hle Eh. split; [done|]. intros k s _. by rewrite Eh. Qed.

Lemma step_ok (y y' : @Sys B) : Inv y -> step y y' -> Inv y' /\ keeps_past y y'.
Proof.
  intros (h & P & Hinv) Hstep. destruct Hstep as [i H F J t k v i' Ha Hrun|i H F J t prefix r t' i' Ha Hrun|i H F J id snapshot s' Hrun
    |i H F J id snapshot writes prefixes t s' Ha Hid Hnd Hsz Hrun|i H F1 f F2 J ps i' Hn Hpg Hlg Hrun|i H F1 f F2 J s' Hn Hrun
    |i H F1 f F2 J ps s' Hps Hrun|i H F J id Hid|i H F J Hneed|i H F J1 c J2 g i' Hcan Hrun|i H F J1 g J2 freed s' i' Hpub Hforget|i H F J1 ps J2 b' Hrun].
  - destruct (get_ok i H F J h P t k Hinv Ha (get_active _ _ _ _ _ Hrun)) as (i1 & Hrun1 & Hinv1 & Es & _).
    rewrite Hrun1 in Hrun. injection Hrun as _ <-. split; [by exists h, P|]. apply keeps_same; [cbn; by rewrite Es|done].
  - destruct (scan_keeps i H F J h P t prefix Hinv Ha (scan_active _ _ _ _ _ Hrun)) as (m & i1 & Hrun1 & Hinv1 & (Es & _) & _).
    rewrite Hrun1 in Hrun. injection Hrun as _ _ <-. split; [by exists h, P|]. apply keeps_same; [cbn; by rewrite Es|done].
  - destruct (begin_ok _ _ _ _ _ _ _ _ _ Hinv Hrun) as [Hinv' _]. split; [by exists h, P|]. apply keeps_same; [|done].
    revert Hrun. unfold begin_transaction. st_run. destruct (ok_or _ _); [|done]. intros [= _ _ <-]. cbn. lia.
  - pose proof (prepare_ok _ _ _ _ _ _ _ _ _ _ _ _ Hinv Ha Hid Hnd Hsz Hrun) as Hinv'. split; [by exists h, P|]. apply keeps_same; [|done].
    apply prepare_commit_spec in Hrun as (_ & _ & _ & _ & ->). cbn. lia.
  - destruct (persist_ok _ _ _ _ _ _ _ _ Hinv Hn Hpg Hlg) as (ps1 & i1 & P1 & Hrun1 & Hinv1 & Es). rewrite Hrun1 in Hrun. injection Hrun as <- <-.
    split; [by exists h, P1|]. apply keeps_same; [cbn; by rewrite Es|done].
  - destruct (abort_ok _ _ _ _ _ _ _ _ _ Hinv Hn Hrun) as [Hinv' Hle]. split; [by exists h, P|]. by apply keeps_same.
  - destruct (finish_commit_ok _ _ _ _ _ _ _ _ _ Hinv Hps) as (s1 & h1 & Hrun1 & Hinv1 & Hle & Hg & _). rewrite Hrun1 in Hrun. injection Hrun as <-.
    split; [by exists h1, P|]. split; [done|]. intros k s Hs. cbn [history inner] in *. unfold visible_value.
    rewrite (version_at_extends _ _ _ _ k s Hg); [done|apply (vo_history _ _ _ (inv_versions _ _ _ Hinv))|apply (vo_history _ _ _ (inv_versions _ _ _ Hinv1))|].
    pose proof (to_inflight _ _ _ (inv_times _ _ _ Hinv) f ltac:(cbn; apply elem_of_app; right; left)) as Hf. cbn in Hf. lia.
  - pose proof (end_ok _ _ _ _ _ _ _ Hinv Hid) as Hinv'. split; [by exists h, P|]. apply keeps_same; [cbn; lia|done].
  - pose proof (capture_step_ok _ _ _ _ _ _ Hinv) as Hinv'. split; [by exists h, P|]. apply keeps_same; [cbn; lia|done].
  - destruct (build_ok _ _ _ _ _ _ _ _ Hinv Hcan) as (g1 & i1 & Hrun1 & _ & Hinv1 & Es). rewrite Hrun1 in Hrun. injection Hrun as <- <-.
    split; [by exists h, P|]. apply keeps_same; [cbn; by rewrite Es|done].
  - destruct (publish_ok _ _ _ _ _ _ _ _ Hinv _ _ _ Hpub Hforget) as (h1 & P1 & Hinv1). split; [by exists h1, P1|]. apply keeps_same; [|done].
    unfold forget_records, modify in Hforget. injection Hforget as <-. unfold publish, reclaim_covered in Hpub. injection Hpub as _ <-. cbn. lia.
  - destruct (release_ok _ _ _ _ _ _ _ _ Hinv) as (b1 & Hrun1 & Hinv1). rewrite Hrun1 in Hrun. injection Hrun as <-.
    split; [by exists h, P|]. apply keeps_same; [cbn; lia|done].
Qed.

Lemma steps_ok (y y' : @Sys B) : Inv y -> rtc step y y' -> Inv y' /\ keeps_past y y'.
Proof.
  intros Hinv Hsteps. induction Hsteps as [y|y1 y2 y3 Hstep Hsteps IH]; [split; [done|]; by apply keeps_same|].
  destruct (step_ok y1 y2 Hinv Hstep) as [Hinv2 [Hle1 Hp1]]. destruct (IH Hinv2) as [Hinv3 [Hle2 Hp2]]. split; [done|]. split; [lia|].
  intros k s Hs. rewrite Hp2 by lia. by apply Hp1.
Qed.

(** ** A new database *)

Definition new_state : State := mkState ∅ ∅ ∅ ∅ ∅ 1 1 0 [] ∅ 0.

Definition new_database (record_cache_bytes : Z) (b : B) : @Sys B :=
  mkSys (mkInner new_state b None (lru_new record_cache_bytes)) ∅ [] [].

(** An empty file opens as a new database. *)
Lemma open_empty record_cache_bytes (b : B) :
  bk_ok b -> exists b', open_database 0 record_cache_bytes b = Ok (inner (new_database record_cache_bytes b')) /\ bk_ok b'.
Proof.
  intros Hok. destruct (bk_release_ok b [] Hok) as (b' & Hrel & Hok' & _); [constructor|by intros p ?%not_elem_of_nil|].
  exists b'. split; [|done]. unfold open_database. assert (open_state 0 (fun p => bk_read_page p b) = Ok new_state) as -> by (vm_compute; reflexivity).
  cbn [mbind result_bind]. change (latest_generation new_state ≫= g_root) with (@None IndexRoot). cbn [map_err mbind result_bind].
  assert (reclaim_covered None new_state = ([], new_state)) as -> by (vm_compute; reflexivity). rewrite Hrel. done.
Qed.

Lemma new_inv record_cache_bytes (b : B) : bk_ok b -> Inv (new_database record_cache_bytes b).
Proof.
  intros Hok. exists ∅, ∅. split; cbn [inner history inflight jobs new_database i_state i_open_page].
  - split; cbn.
    + intros k. unfold at_key. rewrite lookup_empty. constructor.
    + intros k. unfold at_key. rewrite lookup_empty. constructor.
    + intros k v. unfold at_key. rewrite lookup_empty. by intros ?%not_elem_of_nil.
    + intros k v. unfold at_key. rewrite lookup_empty. by intros ?%not_elem_of_nil.
    + intros p. rewrite lookup_empty. unfold count. rewrite map_filter_empty, map_size_empty. done.
    + intros k v. unfold at_key. rewrite lookup_empty. by intros ?%not_elem_of_nil.
  - split; cbn [i_storage i_open_page i_record_cache].
    + exact Hok.
    + intros k t p Hk. by rewrite lookup_empty in Hk.
    + intros p rs Hp. by rewrite lookup_empty in Hp.
    + intros p rs r Hp. by rewrite lookup_empty in Hp.
    + done.
    + intros p rs (e & He & _). cbn in He. by rewrite lookup_empty in He.
  - split; cbn; try (by vm_compute).
    + intros k v. unfold at_key. rewrite lookup_empty. by intros ?%not_elem_of_nil.
    + intros f ?%not_elem_of_nil. done.
    + constructor.
    + intros k v f _ ?%not_elem_of_nil. done.
    + intros t Ht. lia.
  - constructor.
  - intros f ?%not_elem_of_nil. done.
  - split; cbn; try (intros ? ?%not_elem_of_nil; done); [constructor|constructor].
  - intros k id Hk. cbn in Hk. by rewrite lookup_empty in Hk.
  - by split.
Qed.

(** The states that a new database can get into. *)
Definition reachable (record_cache_bytes : Z) (b : B) (y : @Sys B) : Prop := rtc step (new_database record_cache_bytes b) y.

Lemma reachable_inv c b (y : @Sys B) : bk_ok b -> reachable c b y -> Inv y.
Proof. intros Hok Hr. by apply (steps_ok (new_database c b) y (new_inv c b Hok)). Qed.

(** ** Reads *)



(** ** Commits *)

(** C12: The first committer wins: a commit that is under way has seen every
    committed version of the keys it writes, and no other one writes them. *)
Theorem first_committer_wins c b (y : @Sys B) f k :
  bk_ok b -> reachable c b y -> f ∈ inflight y -> k ∈ (f_writes f).*1 ->
  (forall v, v ∈ at_key (history y) k -> v_timestamp v <= f_snapshot f) /\
  (forall g, g ∈ inflight y -> k ∈ (f_writes g).*1 -> f_id g = f_id f).
Proof.
  intros Hok Hr Hf Hk. destruct (reachable_inv c b y Hok Hr) as (h & P & Hinv). pose proof (inv_inflight _ _ _ Hinv) as Hio. split.
  - intros v Hv. by apply (io_latest _ _ _ _ (Hio f Hf) k v).
  - intros g Hg Hkg. pose proof (io_intents _ _ _ _ (Hio f Hf) k Hk) as E1. pose proof (io_intents _ _ _ _ (Hio g Hg) k Hkg) as E2. congruence.
Qed.

(** Nothing under way or committed after the snapshot touches the key. *)
Definition untouched (y : @Sys B) (snapshot : Timestamp) (k : Key) : Prop :=
  (forall v, v ∈ at_key (history y) k -> v_timestamp v <= snapshot) /\ (forall f, f ∈ inflight y -> k ∉ (f_writes f).*1).

(** A version newer than an active snapshot is still in the map. *)
Lemma newer_in_map (y : @Sys B) h P id snapshot k v :
  Invariants y h P -> active (i_state (inner y)) !! id = Some snapshot -> v ∈ at_key (history y) k -> snapshot < v_timestamp v ->
  v ∈ at_key (versions (i_state (inner y))) k.
Proof.
  intros Hinv Ha Hv Hlt. pose proof (oldest_le_active _ _ _ Ha). destruct (vo_kept _ _ _ (inv_versions _ _ _ Hinv) k v Hv) as [?|[(_ & (g & _ & ?) & _)|(w & _ & ?)]]; [done|lia|lia].
Qed.

Lemma newer_than_spec snapshot vs :
  ascending vs -> newer_than snapshot (Some vs) = true <-> exists v, v ∈ vs /\ snapshot < v_timestamp v.
Proof.
  intros Hasc. unfold newer_than. cbn [mbind option_bind]. destruct (last vs) as [v|] eqn:El.
  - split; [intros Hlt; exists v; split; [by apply last_Some_elem_of|lia]|]. intros (w & Hw & Hlt). apply last_Some in El as [l ->].
    apply StronglySorted_app in Hasc as (Hall & _ & _). apply elem_of_app in Hw as [Hw|Hw].
    + specialize (Hall w v Hw ltac:(left)). lia.
    + apply list_elem_of_singleton in Hw as ->. lia.
  - apply last_None in El as ->. split; [done|]. intros (w & Hw & _). by apply not_elem_of_nil in Hw.
Qed.

(** The versions of a key that are newer than an active snapshot. *)
Lemma newer_exact (y : @Sys B) h P id snapshot k :
  Invariants y h P -> active (i_state (inner y)) !! id = Some snapshot ->
  newer_than snapshot (Some (at_key (versions (i_state (inner y))) k)) = false <-> forall v, v ∈ at_key (history y) k -> v_timestamp v <= snapshot.
Proof.
  intros Hinv Ha. pose proof (inv_versions _ _ _ Hinv) as Hv. pose proof (newer_than_spec snapshot _ (vo_ascending _ _ _ Hv k)) as Hspec. split.
  - intros Hn v Hin. destruct (Z.le_gt_cases (v_timestamp v) snapshot); [done|]. rewrite (proj2 Hspec) in Hn; [done|].
    exists v. split; [|lia]. eapply newer_in_map; [done..|lia].
  - intros Hall. apply not_true_is_false. intros (v & Hin & Hlt)%Hspec. specialize (Hall v (proj1 (vo_sub _ _ _ Hv k v Hin))). lia.
Qed.

(** The intents of other transactions. *)
Lemma foreign_exact (y : @Sys B) h P id k :
  Invariants y h P -> (forall f, f ∈ inflight y -> f_id f <> id) ->
  foreign id (intents (i_state (inner y)) !! k) = false <-> forall f, f ∈ inflight y -> k ∉ (f_writes f).*1.
Proof.
  intros Hinv Hid. unfold foreign. destruct (intents _ !! k) as [owner|] eqn:Ek.
  - destruct (inv_intents _ _ _ Hinv k owner Ek) as (f & Hf & <- & Hk). rewrite (proj2 (Z.eqb_neq _ _) (Hid f Hf)). cbn. split; [done|].
    intros Hall. by apply (Hall f Hf) in Hk.
  - split; [|done]. intros _ f Hf Hk. pose proof (io_intents _ _ _ _ (inv_inflight _ _ _ Hinv f Hf) k Hk). congruence.
Qed.

Lemma check_write_exact (y : @Sys B) h P id snapshot k :
  Invariants y h P -> active (i_state (inner y)) !! id = Some snapshot -> (forall f, f ∈ inflight y -> f_id f <> id) ->
  check_write id snapshot (i_state (inner y)) k = Ok tt <-> untouched y snapshot k.
Proof.
  intros Hinv Ha Hid. unfold check_write, untouched. rewrite <- (newer_exact y h P id snapshot k Hinv Ha), <- (foreign_exact y h P id k Hinv Hid).
  assert (newer_than snapshot (versions (i_state (inner y)) !! k) = newer_than snapshot (Some (at_key (versions (i_state (inner y))) k))) as ->
    by (unfold at_key; by destruct (versions (i_state (inner y)) !! k)).
  destruct (foreign _ _), (newer_than _ _); naive_solver.
Qed.

Lemma check_range_exact (y : @Sys B) h P id snapshot prefix :
  Invariants y h P -> active (i_state (inner y)) !! id = Some snapshot -> (forall f, f ∈ inflight y -> f_id f <> id) ->
  check_range id snapshot (i_state (inner y)) prefix = Ok tt <-> forall k, starts_with k prefix = true -> untouched y snapshot k.
Proof.
  intros Hinv Ha Hid. unfold check_range. set (s := i_state (inner y)) in *.
  match goal with |- (if ?a || ?b then _ else _) = _ <-> _ => set (newer := a); set (other := b) end.
  assert (newer = false <-> forall k, starts_with k prefix = true -> forall v, v ∈ at_key (history y) k -> v_timestamp v <= snapshot) as Hn.
  { unfold newer. rewrite <- not_true_iff_false, existsb_exists. split.
    - intros Hno k Hk. apply (newer_exact y h P id snapshot k Hinv Ha). apply not_true_is_false. intros Hnew. apply Hno.
      fold s in Hnew. unfold at_key in Hnew. destruct (versions s !! k) as [vs|] eqn:E; [|done]. exists (k, vs).
      split; [apply list_elem_of_In; by apply elem_of_version_range|done].
    - intros Hall ([k vs] & Hin & Hnew). apply list_elem_of_In, elem_of_version_range in Hin as [Hk Hst]. cbn [snd] in Hnew.
      pose proof (proj2 (newer_exact y h P id snapshot k Hinv Ha) (Hall k Hst)) as Hf. fold s in Hf. unfold at_key in Hf. rewrite Hk in Hf. cbn in Hf, Hnew. congruence. }
  assert (other = false <-> forall k, starts_with k prefix = true -> forall f, f ∈ inflight y -> k ∉ (f_writes f).*1) as Ho.
  { unfold other. rewrite <- not_true_iff_false, existsb_exists. split.
    - intros Hno k Hk. apply (foreign_exact y h P id k Hinv Hid). apply not_true_is_false. intros Hf. apply Hno. fold s in Hf.
      destruct (intents s !! k) as [owner|] eqn:E; [|done]. exists (k, owner). split; [apply list_elem_of_In; by apply elem_of_map_to_list|].
      cbn [fst snd]. by rewrite Hf, Hk.
    - intros Hall ([k owner] & Hin & Hf). apply list_elem_of_In, elem_of_map_to_list in Hin. cbn [fst snd] in Hf. apply andb_true_iff in Hf as [Hf Hst].
      pose proof (proj2 (foreign_exact y h P id k Hinv Hid) (Hall k Hst)) as E. fold s in E. rewrite Hin in E. congruence. }
  transitivity (newer = false /\ other = false); [by destruct newer, other; cbn [orb]; split; try (intros [? ?]); try done|].
  rewrite Hn, Ho. unfold untouched. split; [intros [H1 H2] k Hk; split; [by apply H1|by apply H2]|].
  intros Hall. split; intros k Hk; by apply (Hall k Hk).
Qed.

Lemma try_map_unit {A} (f : A -> TResult unit) l : Forall (fun x => f x = Ok tt) l <-> exists us, try_map f l = Ok us.
Proof.
  induction l as [|x l [IH1 IH2]]; [split; [by exists []|constructor]|]. rewrite Forall_cons. cbn [try_map].
  destruct (f x) as [[]|e]; cbn [mbind result_bind].
  - destruct (try_map f l) as [us|e]; cbn [mbind result_bind].
    + split; [by eexists|]. intros _. split; [done|]. apply IH2. by eexists.
    + split; [intros [_ Hl]; destruct (IH1 Hl) as [? [=]]|by intros [? [=]]].
  - split; [by intros [[=] _]|by intros [? [=]]].
Qed.

Lemma prepare_possible (y : @Sys B) h P id snapshot keys prefixes :
  Invariants y h P -> active (i_state (inner y)) !! id = Some snapshot -> (forall f, f ∈ inflight y -> f_id f <> id) ->
  next_commit_timestamp (i_state (inner y)) < U64_MAX ->
  (exists t s', prepare_commit id snapshot keys prefixes (i_state (inner y)) = (Ok t, s')) <->
  (forall k, k ∈ keys -> untouched y snapshot k) /\
  (forall prefix k, prefix ∈ prefixes -> starts_with k prefix = true -> untouched y snapshot k).
Proof.
  intros Hinv Ha Hid Hmax. set (s := i_state (inner y)) in *.
  assert ((exists t s', prepare_commit id snapshot keys prefixes s = (Ok t, s')) <->
    Forall (fun k => check_write id snapshot s k = Ok tt) keys /\ Forall (fun p => check_range id snapshot s p = Ok tt) prefixes) as ->.
  { rewrite !try_map_unit. unfold prepare_commit. st_run. unfold checked_add. rewrite (proj2 (Z.leb_le _ _)) by lia.
    destruct (try_map (check_write id snapshot s) keys), (try_map (check_range id snapshot s) prefixes); naive_solver. }
  rewrite !Forall_forall. split.
  - intros [Hw Hp]. split; [intros k Hk; by apply (check_write_exact y h P id), Hw|]. intros prefix k Hpre. by apply (check_range_exact y h P id), Hp.
  - intros [Hw Hp]. split; [intros k Hk; by apply (check_write_exact y h P id), Hw|]. intros prefix Hpre. apply (check_range_exact y h P id); [done..|].
    intros k. by apply Hp.
Qed.

(** C10: Conflict detection is exact: preparing a commit succeeds exactly when
    no commit since the snapshot, and none that is under way, touches a key
    that it writes or a key under a prefix that it has scanned. *)
Theorem prepare_exact c b (y : @Sys B) id snapshot keys prefixes :
  bk_ok b -> reachable c b y -> active (i_state (inner y)) !! id = Some snapshot -> (forall f, f ∈ inflight y -> f_id f <> id) ->
  next_commit_timestamp (i_state (inner y)) < U64_MAX ->
  (exists t s', prepare_commit id snapshot keys prefixes (i_state (inner y)) = (Ok t, s')) <->
  (forall k, k ∈ keys -> untouched y snapshot k) /\
  (forall prefix k, prefix ∈ prefixes -> starts_with k prefix = true -> untouched y snapshot k).
Proof.
  intros Hok Hr. destruct (reachable_inv c b y Hok Hr) as (h & P & Hinv). by apply (prepare_possible y h P).
Qed.

(** ** No commit stays stuck *)

(** With no commit under way every timestamp is visible. *)
Lemma quiet_visible (y : @Sys B) h P : Invariants y h P -> inflight y = [] -> visible y + 1 = next_commit_timestamp (i_state (inner y)).
Proof.
  intros Hinv En. pose proof (inv_times _ _ _ Hinv) as Ht. rewrite En in Ht. destruct Ht as [Hrange _ _ _ _ _ Hall Hnx _].
  destruct (decide (visible y + 1 = next_commit_timestamp (i_state (inner y)))) as [|Hne]; [done|].
  destruct (Hall (visible y + 1) ltac:(lia)) as [?|?%not_elem_of_nil]; done.
Qed.

(** C13: From every reachable state the commits under way can be brought to an
    end; then every timestamp that was handed out is visible and no key is
    locked. *)
Theorem commits_drain c b (y : @Sys B) :
  bk_ok b -> reachable c b y ->
  exists y', rtc step y y' /\ inflight y' = [] /\ intents (i_state (inner y')) = ∅ /\
    visible y' + 1 = next_commit_timestamp (i_state (inner y')).
Proof.
  intros Hok Hr. pose proof (reachable_inv c b y Hok Hr) as Hinv. clear Hr.
  remember (length (inflight y)) as n eqn:En. revert y En Hinv. induction n as [|n IH]; intros y En (h & P & Hinv).
  - exists y. symmetry in En. apply nil_length_inv in En. split; [done|]. split; [done|]. split.
    + apply map_eq. intros k. rewrite lookup_empty. apply eq_None_not_Some. intros [id Hk].
      destruct (inv_intents _ _ _ Hinv k id Hk) as (f & Hf & _). rewrite En in Hf. by apply not_elem_of_nil in Hf.
    + by eapply quiet_visible.
  - destruct y as [i H [|f F] J]; [done|]. cbn in En.
    assert (exists y1, step (mkSys i H (f :: F) J) y1 /\ length (inflight y1) = n) as (y1 & Hstep & Hlen).
    { destruct (f_pages f) as [ps|] eqn:Hps.
      - destruct (finish_commit_ok i H [] f F J h P ps Hinv Hps) as (s' & h' & Hrun & _). eexists. split; [by apply (step_finish _ i H [] f F J ps)|]. cbn. lia.
      - eexists. split; [apply (step_abort _ i H [] f F J); [done|rewrite finish_prepared_run; reflexivity]|]. cbn. lia. }
    destruct (step_ok _ _ ltac:(by exists h, P) Hstep) as [Hinv1 _]. destruct (IH y1 ltac:(done) Hinv1) as (y' & Hsteps & Hrest).
    exists y'. split; [by eapply rtc_l|done].
Qed.

(** ** A whole commit *)

(** What the history says at the timestamp of its newest commit. *)
Lemma visible_committed t ws ps H H' k :
  extends t (zip ws ps) H H' -> length ps = length ws -> NoDup ws.*1 -> (forall k, ascending (at_key H k)) -> (forall k, ascending (at_key H' k)) ->
  (forall k v, v ∈ at_key H k -> v_timestamp v < t) ->
  (forall value, (k, value) ∈ ws -> visible_value H' k t = value) /\ (k ∉ ws.*1 -> visible_value H' k t = visible_value H k t).
Proof.
  intros Hg Hlen Hnd Ha Ha' Hlt. unfold visible_value. split.
  - intros value Hk. apply list_elem_of_lookup in Hk as [j Hj]. destruct (lookup_lt_is_Some_2 ps j) as [p Hp]; [rewrite Hlen; by eapply lookup_lt_Some|].
    rewrite (proj2 (version_at_newest _ t (mkVersion t value p) (Ha' k))); [done|]. split_and!; [|done|by intros w _ ?].
    apply Hg. right. exists value, p. split; [|done]. apply list_elem_of_lookup. exists j. by apply lookup_zip_Some.
  - intros Hk. f_equal. symmetry. apply version_at_filter; [done|done| |intros v Hv; apply Hg; by left].
    intros v (Hv & _). apply Hg in Hv as [?|(value & p & Hin & _)]; [done|]. exfalso. apply Hk.
    apply list_elem_of_lookup in Hin as [j Hj]. apply lookup_zip_Some in Hj as [Hj _].
    apply (list_elem_of_fmap_2 fst _ (k, value)). by eapply list_elem_of_lookup_2.
Qed.

Definition write_list (t : Transaction) : list write := bt_list (t_writes t).

Lemma commit_steps (i : @Inner B) H F J h P t :
  Invariants (mkSys i H F J) h P -> active (i_state i) !! t_id t = Some (t_snapshot t) -> (forall f, f ∈ F -> f_id f <> t_id t) ->
  t_writes t <> ∅ -> Forall (fun w => validate_size w.1 w.2 = Ok tt) (write_list t) ->
  blen (write_list t) <= bk_pages (i_storage i) -> 3 * blen (write_list t) <= bk_log (i_storage i) ->
  (exists ts s', prepare_commit (t_id t) (t_snapshot t) (write_list t).*1 (t_scanned_prefixes t) (i_state i) = (Ok ts, s')) ->
  let ts := next_commit_timestamp (i_state i) in
  exists i' H', commit (t_id t) (t_snapshot t) (t_writes t) (t_scanned_prefixes t) i = (Ok (mkCommitResult (Some ts) (blen (write_list t))), i') /\
    rtc step (mkSys i H F J) (mkSys i' H' F J) /\ active (i_state i') = active (i_state i) /\
    next_commit_timestamp (i_state i') = ts + 1 /\
    forall k, visible_value H' k ts = match t_writes t !! k with Some value => value | None => visible_value H k ts end.
Proof.
  intros Hinv Ha Hid Hne Hsz Hpg Hlg (ts & s1 & Hprep) ts0. unfold commit. rewrite bool_decide_eq_false_2 by done. fold (write_list t).
  assert (NoDup (write_list t).*1) as Hnd by apply keys_sorted_NoDup, bt_list_sorted.
  pose proof (prepare_ok _ _ _ _ _ _ _ _ _ _ _ _ Hinv Ha Hid Hnd Hsz Hprep) as Hinv1.
  pose proof (prepare_commit_spec _ _ _ _ _ _ _ Hprep) as (_ & _ & Ets & _ & Es1). fold ts0 in Ets. subst ts.
  set (f := mkInflight (t_id t) (t_snapshot t) ts0 (write_list t) None) in *.
  destruct (persist_ok (set_state s1 i) H [] f F J h P Hinv1 eq_refl Hpg Hlg) as (ps & i2 & P2 & Hper & Hinv2 & Est). cbn [app] in Hinv2.
  destruct (finish_commit_ok i2 H [] (with_pages f ps) F J h P2 ps Hinv2 eq_refl) as (s3 & h3 & Hfin & Hinv3 & _ & Hg & Eact & Enx).
  cbn [f_id f_timestamp f_writes with_pages f app i_state] in *. set (H' := record_commit ts0 (write_list t) ps H) in *.
  exists (set_state s3 i2), H'. split_and!.
  - assert (with_state (prepare_commit (t_id t) (t_snapshot t) (write_list t).*1 (t_scanned_prefixes t)) i = (Ok ts0, set_state s1 i)) as R1
      by (unfold with_state, zoom; by rewrite Hprep).
    rewrite (ST_bind_step _ _ _ _ _ R1). assert (attempt (persist_commit ts0 (write_list t)) (set_state s1 i) = (Ok (Ok ps), i2)) as R2 by (unfold attempt; by rewrite Hper).
    rewrite (ST_bind_step _ _ _ _ _ R2). assert (with_state (finish_prepared (t_id t) ts0 (write_list t) (Some ps)) i2 = (Ok tt, set_state s3 i2)) as R3
      by (unfold with_state, zoom; by rewrite Hfin).
    by rewrite (ST_bind_step _ _ _ _ _ R3).
  - eapply rtc_l; [by apply (step_prepare _ i H F J (t_id t) (t_snapshot t) (write_list t) (t_scanned_prefixes t) ts0 s1)|].
    eapply rtc_l; [by apply (step_persist _ (set_state s1 i) H [] f F J ps i2)|].
    eapply rtc_l; [by apply (step_finish _ i2 H [] (with_pages f ps) F J ps s3)|]. constructor.
  - cbn [i_state set_state]. rewrite Eact, Est. cbn. by rewrite Es1.
  - cbn [i_state set_state]. rewrite Enx, Est. cbn. by rewrite Es1.
  - intros k. pose proof (inv_versions _ _ _ Hinv) as Hv. pose proof (inv_versions _ _ _ Hinv3) as Hv3. cbn [inner history i_state set_state] in *.
    destruct (visible_committed ts0 (write_list t) ps H H' k Hg) as [Hw Ho]; [|done|apply (vo_history _ _ _ Hv)|apply (vo_history _ _ _ Hv3)| |].
    + apply (io_pages _ _ _ _ (inv_inflight _ _ _ Hinv2 (with_pages f ps) ltac:(left)) ps eq_refl).
    + intros k' v Hv'. pose proof (to_history _ _ _ (inv_times _ _ _ Hinv) k' v Hv'). cbn in *. lia.
    + destruct (t_writes t !! k) as [value|] eqn:Ek; [apply Hw; by apply elem_of_bt_list|]. apply Ho.
      intros ([k' v'] & -> & Hx%elem_of_bt_list)%list_elem_of_fmap. cbn in Ek. congruence.
Qed.

(** C9: Committing a transaction whose keys and scanned ranges nothing else
    touches succeeds while there is room: at its timestamp the database holds
    what the transaction wrote and is otherwise unchanged; the transaction is
    over; and with no other commit under way the timestamp is visible. *)
Theorem commit_applies c b (y : @Sys B) t :
  bk_ok b -> reachable c b y -> active (i_state (inner y)) !! t_id t = Some (t_snapshot t) -> t_finished t = false ->
  (forall f, f ∈ inflight y -> f_id f <> t_id t) -> t_writes t <> ∅ ->
  Forall (fun w => validate_size w.1 w.2 = Ok tt) (write_list t) ->
  blen (write_list t) <= bk_pages (i_storage (inner y)) -> 3 * blen (write_list t) <= bk_log (i_storage (inner y)) ->
  next_commit_timestamp (i_state (inner y)) < U64_MAX ->
  (forall k, k ∈ (write_list t).*1 -> untouched y (t_snapshot t) k) ->
  (forall prefix k, prefix ∈ t_scanned_prefixes t -> starts_with k prefix = true -> untouched y (t_snapshot t) k) ->
  let ts := next_commit_timestamp (i_state (inner y)) in
  exists t' y', transaction_commit (mkSession t (inner y)) = (Ok (mkCommitResult (Some ts) (blen (write_list t))), mkSession t' (inner y')) /\
    rtc step y y' /\ t_finished t' = true /\ active (i_state (inner y')) !! t_id t = None /\
    (forall k, visible_value (history y') k ts = match t_writes t !! k with Some value => value | None => visible_value (history y) k ts end) /\
    (inflight y = [] -> visible y' = ts).
Proof.
  intros Hok Hr Ha Hfin Hid Hne Hsz Hpg Hlg Hmax Huk Hup ts. destruct (reachable_inv c b y Hok Hr) as (h & P & Hinv). destruct y as [i H F J].
  cbn [inner history inflight] in *.
  destruct (commit_steps i H F J h P t Hinv Ha Hid Hne Hsz Hpg Hlg) as (i1 & H' & Hrun & Hsteps & Ha1 & Hnx & Hvis).
  { apply (prepare_possible (mkSys i H F J) h P); done. }
  set (i2 := set_state (end_transaction (t_id t) (i_state i1)) i1).
  assert (rtc step (mkSys i H F J) (mkSys i2 H' F J)) as Hsteps2.
  { eapply rtc_r; [exact Hsteps|]. by apply step_end. }
  exists (set_finished (set_writes ∅ (set_scanned [] t))), (mkSys i2 H' F J). split_and!.
  - unfold transaction_commit, ensure_active, on_transaction, on_inner, attempt. st_run. cbn [s_transaction s_inner]. rewrite Hfin. cbn [s_transaction s_inner].
    rewrite Hrun. done.
  - done.
  - done.
  - cbn. apply lookup_delete_eq.
  - done.
  - intros HF. destruct (steps_ok _ _ ltac:(by exists h, P) Hsteps2) as [(h2 & P2 & Hinv2) _].
    pose proof (quiet_visible _ _ _ Hinv2 HF) as Hq. cbn in Hq, Hnx |- *. fold ts in Hnx. lia.
Qed.
End Isolation.
