(* ===== verification/TreeBackend.v ===== *)
(** * The B+ tree over a page store is a backend

    The interface of the transaction layer is implemented by the B+ tree and
    the storage handle it runs on; here the theorems about the tree discharge
    the laws.  [AppendStore] is what the handle offers besides [PageStore]:
    appends to packed pages, and releases. *)
From S2P Require Import Prelude Page Order ByteLru Node Record Store Handle Tree TreeBase TreeEdit TreeApply TreeFinish TreeRange TreeBuild Backend.
Local Open Scope Z_scope.

Class AppendStore (S : Type) `{PageStore S} := {
  ps_append : list PageAppend -> ST S StorageError (list Lsn);
  ps_release : list PageId -> ST S StorageError unit;
}.

Class AppendStoreLaws (S : Type) `{PageStoreLaws S} `{!AppendStore S} := {
  (** How many more writes the log takes. *)
  ps_log : S -> Z;

  ps_log_fits : forall s ws, ps_ok s -> blen ws <= ps_log s ->
    (forall w, w ∈ ws -> is_u64 (w_page_id w) /\ ~ ps_unused s (w_page_id w) /\ blen (w_payload w) <= MAX_PAGE_PAYLOAD) -> ps_fits s ws;
  ps_reserve_log : forall s n ids s', ps_ok s -> ps_reserve n s = (Ok ids, s') -> ps_log s <= ps_log s';
  ps_commit_log : forall s ws lsns s', ps_ok s -> ps_commit ws s = (Ok lsns, s') ->
    ps_log s - blen ws <= ps_log s' /\ ps_room s <= ps_room s' /\
    (forall p, batch_payload ws p = None -> ps_read s' p = ps_read s p);

  ps_append_ok : forall s appends, ps_ok s -> blen appends <= ps_log s -> Forall append_fits appends ->
    (forall a, a ∈ appends -> ~ ps_unused s (a_page_id a) /\ exists bytes, holds s (a_page_id a) bytes) ->
    exists lsns s', ps_append appends s = (Ok lsns, s') /\ length lsns = length appends /\ ps_ok s' /\
      (forall p, ps_unused s' p <-> ps_unused s p) /\
      (forall p bytes, holds s p bytes -> holds s' p (appended appends p bytes)) /\
      (forall p, (forall a, a ∈ appends -> a_page_id a <> p) -> ps_read s' p = ps_read s p);

  ps_release_ok : forall s ps, ps_ok s -> NoDup ps -> (forall p, p ∈ ps -> ~ ps_unused s p /\ exists bytes, holds s p bytes) ->
    exists s', ps_release ps s = (Ok tt, s') /\ ps_ok s' /\
      (forall p, ps_unused s' p -> ps_unused s p \/ p ∈ ps) /\ (forall p, ps_read s' p = ps_read s p);
}.

Section Backend.
Context {St : Type} {SI : PageStore St} {SL : PageStoreLaws St} {AI : AppendStore St} {AL : AppendStoreLaws St}.
Context (size_of_node size_of_entry size_of_separator : Z).

Abbreviation TreeState := (@TreeState St).
Abbreviation tree_get := (tree_get size_of_node size_of_entry size_of_separator).
Abbreviation tree_range := (tree_range size_of_node size_of_entry size_of_separator).
Abbreviation edit_plan := (edit_plan size_of_node size_of_entry size_of_separator).

Definition on_store {A} (m : ST St StorageError A) : ST TreeState StorageError A := zoom t_store set_t_store m.

(** A scan of the leaves takes at most as many turns as the index has entries. *)
Definition tree_backend : Backend TreeState := {|
  bk_read_page p t := ps_read (t_store t) p;
  bk_reserve n := on_store (ps_reserve n);
  bk_commit_relaxed ws := on_store (ps_commit ws);
  bk_append l := on_store (ps_append l);
  bk_release ps := on_store (ps_release ps);
  bk_get := tree_get;
  bk_range root := tree_range (Z.to_nat (root_entries root)) root;
  bk_plan := plan;
  bk_edit_plan := edit_plan;
|}.

(** ** What the store holds for the transaction layer *)

(** Pages up for reservation hold no nodes: only data pages are released. *)
Definition tree_ok (t : TreeState) : Prop :=
  ps_ok (t_store t) /\ cache_ok t /\ forall p n, ps_unused (t_store t) p -> ~ node_at (t_store t) p n.

Definition tree_index (t : TreeState) (r : option IndexRoot) (m : gmap (list byte) PageId) : Prop :=
  index_holds (live (t_store t)) r m /\ map_fits m /\ Z.of_nat (size m) <= U64_MAX.

Definition tree_data (t : TreeState) (p : PageId) (bytes : list byte) : Prop :=
  is_u64 p /\ holds (t_store t) p bytes /\ ~ ps_unused (t_store t) p /\ data_payload bytes.

Definition tree_reserved (t : TreeState) (p : PageId) : Prop :=
  is_u64 p /\ ~ ps_unused (t_store t) p /\ forall n, ~ node_at (t_store t) p n.

(** Once the plan's pages are written and the nodes of before are still there,
    the planned root is an index. *)
Definition tree_planned (t : TreeState) (plan : IndexBuildPlan) (m : gmap (list byte) PageId) : Prop :=
  map_fits m /\ Z.of_nat (size m) <= U64_MAX /\
  (forall w, w ∈ plan_writes plan -> tree_reserved t (w_page_id w) /\ blen (w_payload w) <= MAX_PAGE_PAYLOAD) /\
  forall s, (forall p b, batch_payload (plan_writes plan) p = Some b -> holds s p b) ->
    (forall p n, live (t_store t) p n -> live s p n) -> (forall p, ps_unused s p -> ps_unused (t_store t) p) ->
    index_holds (live s) (plan_root plan) m.

(** The plan leaves room for its manifest. *)
Definition leaves_room (r : result IndexError IndexBuildPlan * TreeState) : Prop :=
  forall plan t', r = (Ok plan, t') -> 1 <= ps_room (t_store t') /\ blen (plan_writes plan) + 1 <= ps_log (t_store t').

Definition tree_can_plan (t : TreeState) (es : list IndexEntry) : Prop :=
  Forall (fun e => key_fits (key e)) es /\ blen es <= U64_MAX /\ build_room (blen es) <= ps_room (t_store t) /\ leaves_room (plan es t).

Definition root_count (r : option IndexRoot) : Z := match r with Some r => root_entries r | None => 0 end.

Definition tree_can_edit (t : TreeState) (root : option IndexRoot) (mutations : list IndexMutation) : Prop :=
  (forall e, Upsert e ∈ mutations -> key_fits (key e)) /\ root_height root + blen mutations <= U16_MAX /\
  root_count root + blen mutations <= U64_MAX /\ edit_room root (blen mutations) <= ps_room (t_store t) /\
  leaves_room (edit_plan root mutations t).

(** ** Changes of the store *)

Lemma batch_payload_written ws p b : batch_payload ws p = Some b -> exists w, w ∈ ws /\ w_page_id w = p.
Proof.
  induction ws as [|w ws IH]; cbn [batch_payload]; [done|]. destruct (batch_payload ws p) as [b'|].
  - intros [= ->]. destruct (IH eq_refl) as (w' & ? & ?). exists w'. split; [by right|done].
  - destruct (Z.eqb_spec (w_page_id w) p); [|done]. intros _. exists w. split; [left|done].
Qed.

Lemma batch_payload_none ws p : p ∉ w_page_id <$> ws -> batch_payload ws p = None.
Proof.
  intros Hp. destruct (batch_payload ws p) as [b|] eqn:E; [|done]. apply batch_payload_written in E as (w & Hw & <-).
  exfalso. apply Hp. by apply list_elem_of_fmap_2.
Qed.

Lemma node_not_data (s : St) p n bytes : node_at s p n -> holds s p bytes -> ~ data_payload bytes.
Proof.
  intros (b & Hb & Hd) Hh Hdp. assert (b = bytes) as -> by (destruct Hb as (x & Hx & <-), Hh as (y & Hy & <-); congruence).
  unfold data_payload in Hdp. unfold decode_node in Hd. destruct (blen bytes <? NODE_HEADER_SIZE); [done|]. by rewrite bool_decide_eq_false_2 in Hd.
Qed.

(** The store changes, but no live node does. *)
Record keeps_nodes (s s' : St) : Prop := {
  kn_ok : ps_ok s';
  kn_live : forall p n, live s p n -> live s' p n;
  kn_unused : forall p n, ps_unused s' p -> ~ node_at s' p n;
}.

Lemma keeps_ok t s' : tree_ok t -> keeps_nodes (t_store t) s' -> tree_ok (set_t_store s' t).
Proof. intros (Hok & Hc & Hn) [Kok Kl Ku]. split; [done|]. split; [|done]. intros c p n Ec Hh. apply Kl. by eapply Hc. Qed.

Lemma keeps_index t s' r m : keeps_nodes (t_store t) s' -> tree_index t r m -> tree_index (set_t_store s' t) r m.
Proof.
  intros [Kok Kl Ku] (Hi & ? & ?). split; [|done]. destruct r as [r|]; [|done]. destruct Hi as (Ht & ? & ?). split; [|done]. by eapply tree_mono.
Qed.

Lemma keeps_same_reads s s' :
  ps_ok s' -> (forall p, ps_read s' p = ps_read s p) -> (forall p n, ps_unused s p -> ~ node_at s p n) ->
  (forall p, ps_unused s' p -> ps_unused s p \/ forall n, ~ node_at s p n) -> keeps_nodes s s'.
Proof.
  intros Hok Hread Hn Hun. assert (forall p n, node_at s' p n <-> node_at s p n) as Hat.
  { intros p n. unfold node_at, holds. by setoid_rewrite Hread. }
  split; [done| |].
  - intros p n [Hp Hu]. split; [by apply Hat|]. intros Hu'. destruct (Hun p Hu') as [?|Hno]; [done|]. by apply (Hno n).
  - intros p n Hu' Hp%Hat. destruct (Hun p Hu') as [Hu|Hno]; [by apply (Hn p n)|by apply (Hno n)].
Qed.

(** A commit that writes no live node. *)
Lemma keeps_commit s ws lsns s' :
  ps_ok s -> ps_ok s' -> ps_commit ws s = (Ok lsns, s') -> (forall p n, ps_unused s p -> ~ node_at s p n) ->
  (forall p, ps_unused s' p <-> ps_unused s p /\ batch_payload ws p = None) ->
  (forall p b, batch_payload ws p = Some b -> forall n, ~ node_at s p n) -> keeps_nodes s s'.
Proof.
  intros Hok Hok' Hrun Hn Hun Hw. destruct (ps_commit_log _ _ _ _ Hok Hrun) as (_ & _ & Hread). split; [done| |].
  - intros p n [(b & Hb & Hd) Hu]. assert (batch_payload ws p = None) as Hnone.
    { destruct (batch_payload ws p) as [b'|] eqn:E; [|done]. exfalso. apply (Hw p b' E n). by exists b. }
    split; [|by intros [? _]%Hun]. exists b. split; [|done]. destruct Hb as (page & Hr & ?). exists page. by rewrite Hread.
  - intros p n [Hu Hnone]%Hun (b & (page & Hr & Hb) & Hd). rewrite Hread in Hr by done. apply (Hn p n Hu). exists b. split; [by exists page|done].
Qed.

Lemma tree_reserve_ok t :
  tree_ok t -> 1 <= ps_room (t_store t) ->
  exists p s', ps_reserve 1 (t_store t) = (Ok [p], s') /\ keeps_nodes (t_store t) s' /\ tree_reserved (set_t_store s' t) p /\
    ps_unused (t_store t) p /\ (forall q, ps_unused s' q <-> ps_unused (t_store t) q /\ q <> p) /\ (forall q, ps_read s' q = ps_read (t_store t) q) /\
    ps_room (t_store t) - 1 <= ps_room s' /\ ps_log (t_store t) <= ps_log s'.
Proof.
  intros (Hok & Hc & Hn) Hroom. destruct (ps_reserve_ok (t_store t) 1 Hok ltac:(lia)) as (ids & s' & Hrun & Hok' & Hlen & Hnd & Hroom' & Hids & Hun & Hread).
  destruct ids as [|p [|q ids]]; try (cbn in Hlen; lia). destruct (Hids p ltac:(left)) as [Hpu Hmax].
  assert (forall q, ps_unused s' q <-> ps_unused (t_store t) q /\ q <> p) as Hun' by (intros q; rewrite Hun, list_elem_of_singleton; done).
  exists p, s'. split_and!; try done.
  - apply keeps_same_reads; [done|done|done|]. intros q Hq. left. by apply Hun'.
  - pose proof (ps_unused_range _ _ Hok Hpu). split_and!; cbn.
    + unfold is_u64. lia.
    + by intros [_ ?]%Hun'.
    + intros n Hp. apply (Hn p n Hpu). unfold node_at, holds in *. by setoid_rewrite Hread in Hp.
  - by eapply ps_reserve_log.
Qed.

Lemma data_reads t s' p bytes :
  (forall q, ps_read s' q = ps_read (t_store t) q) -> (forall q, ps_unused s' q -> ps_unused (t_store t) q) ->
  tree_data t p bytes -> tree_data (set_t_store s' t) p bytes.
Proof.
  intros Hread Hun (Hp & (page & Hr & Hb) & Hu & Hd). split_and!; [done| | |done].
  - exists page. cbn. by rewrite Hread.
  - cbn. by intros ?%Hun.
Qed.

(** A commit of pages that the transaction layer reserved. *)
Lemma tree_commit_ok t ws :
  tree_ok t -> blen ws <= ps_log (t_store t) ->
  (forall w, w ∈ ws -> tree_reserved t (w_page_id w) /\ blen (w_payload w) <= MAX_PAGE_PAYLOAD) ->
  exists lsns s', ps_commit ws (t_store t) = (Ok lsns, s') /\ keeps_nodes (t_store t) s' /\
    (forall p, ps_unused s' p <-> ps_unused (t_store t) p /\ batch_payload ws p = None) /\
    (forall p b, batch_payload ws p = Some b -> holds s' p b) /\
    (forall p, batch_payload ws p = None -> ps_read s' p = ps_read (t_store t) p) /\
    ps_room (t_store t) <= ps_room s' /\ ps_log (t_store t) - blen ws <= ps_log s'.
Proof.
  intros (Hok & Hc & Hn) Hlog Hws. destruct (ps_commit_ok (t_store t) ws Hok) as (lsns & s' & Hrun & Hok' & Hun & Hnew & _).
  { apply ps_log_fits; [done|done|]. intros w Hw. destruct (Hws w Hw) as [(? & ? & _) ?]. done. }
  destruct (ps_commit_log _ _ _ _ Hok Hrun) as (Hl & Hr & Hread). exists lsns, s'. split_and!; try done.
  eapply keeps_commit; try done. intros p b Hb. apply batch_payload_written in Hb as (w & Hw & <-). by apply Hws.
Qed.

Lemma data_commit t ws s' p bytes :
  (forall p, ps_unused s' p <-> ps_unused (t_store t) p /\ batch_payload ws p = None) ->
  (forall p, batch_payload ws p = None -> ps_read s' p = ps_read (t_store t) p) ->
  batch_payload ws p = None -> tree_data t p bytes -> tree_data (set_t_store s' t) p bytes.
Proof.
  intros Hun Hread Hnone (Hp & (page & Hr & Hb) & Hu & Hd). split_and!; [done| | |done].
  - exists page. cbn. by rewrite Hread.
  - cbn. by intros [? _]%Hun.
Qed.

(** ** Plans *)

(** Reserving pages for a plan leaves every index and data page as it is. *)
Lemma reserved_for_plan t t' (pages : list PageId) :
  tree_ok t -> ps_ok (t_store t') -> cache_in (live (t_store t)) t' -> (forall p, ps_read (t_store t') p = ps_read (t_store t) p) ->
  (forall p, ps_unused (t_store t') p -> ps_unused (t_store t) p) -> (forall p, p ∈ pages -> ps_unused (t_store t) p) ->
  tree_ok t' /\ (forall r m, tree_index t r m -> tree_index t' r m) /\ (forall p bytes, tree_data t p bytes -> tree_data t' p bytes) /\
  (forall p bytes, p ∈ pages -> ~ tree_data t p bytes) /\ (forall p n, live (t_store t) p n -> live (t_store t') p n).
Proof.
  intros (Hok & Hc & Hn) Hok' Hc' Hread Hun Hpages.
  assert (keeps_nodes (t_store t) (t_store t')) as Hk by (apply keeps_same_reads; [done|done|done|intros q Hq; left; by apply Hun]).
  destruct Hk as [Kok Kl Ku]. split_and!.
  - split; [done|]. split; [|done]. intros c p n Ec Hh. apply Kl. by eapply Hc'.
  - intros r m (Hi & ? & ?). split; [|done]. destruct r as [r|]; [|done]. destruct Hi as (Ht & ? & ?). split; [|done]. by eapply tree_mono.
  - intros p bytes. apply (data_reads t (t_store t') p bytes Hread Hun).
  - intros p bytes Hp (_ & _ & Hu & _). by apply Hu, Hpages.
  - done.
Qed.

Lemma apply_mutation_map m mutations : foldl apply_map m mutations = foldl apply_mutation m mutations.
Proof. revert m. induction mutations as [|[e|k] l IH]; intros m; cbn [foldl]; [done| |]; apply IH. Qed.

Lemma tree_edit_ok t root m mutations :
  tree_ok t -> tree_can_edit t root mutations -> tree_index t root m -> (forall e, Upsert e ∈ mutations -> is_u64 (value e)) ->
  exists plan t', edit_plan root mutations t = (Ok plan, t') /\ tree_ok t' /\ tree_planned t' plan (foldl apply_mutation m mutations) /\
    (forall r m, tree_index t r m -> tree_index t' r m) /\ (forall p bytes, tree_data t p bytes -> tree_data t' p bytes) /\
    (forall p bytes, p ∈ plan_pages plan -> ~ tree_data t p bytes) /\ 1 <= ps_room (t_store t') /\ blen (plan_writes plan) + 1 <= ps_log (t_store t').
Proof.
  intros Hok (Hkeys & Hh & Hcount & Hroom & Hleft) (Hm & Hf & Hsz) Hu. pose proof Hok as (Hs & Hc & Hn).
  assert (Forall mutation_ok mutations) as Hmut by (apply Forall_forall; intros [e|k] Hin; cbn; auto).
  assert (root_count root = Z.of_nat (size m)) as Ecount.
  { destruct root as [r|]; cbn in Hm |- *; [by destruct Hm as (_ & _ & ->)|by rewrite Hm, map_size_empty]. }
  assert (map_fits (foldl apply_map m mutations) /\ Z.of_nat (size (foldl apply_map m mutations)) <= Z.of_nat (size m) + blen mutations) as [Hf' Hsz'].
  { clear - Hmut Hf. revert m Hf. induction mutations as [|mu l IH]; intros m Hf; cbn [foldl length]; [split; [done|lia]|].
    apply Forall_cons in Hmut as [Hmu Hmut]. destruct (IH Hmut (apply_map m mu)) as [H1 H2].
    - destruct mu as [[k v]|k]; cbn [apply_map put_map key value].
      + intros k' v' [[<- _]|[_ Hx]]%lookup_insert_Some; [apply Hmu|by eapply Hf].
      + intros k' v' [_ Hx]%lookup_delete_Some. by eapply Hf.
    - split; [done|]. assert (Z.of_nat (size (apply_map m mu)) <= Z.of_nat (size m) + 1); [|lia]. destruct mu; apply put_map_size. }
  destruct (edit_plan_ok size_of_node size_of_entry size_of_separator t root m mutations Hm Hc Hs Hf Hmut Hh ltac:(lia) Hroom)
    as (writes & e & Hrun & He & Hme & Hw1 & Hw2 & Hw3 & Htk).
  exists (mkPlan (ed_root e) writes), (ed_tree e). destruct (Hleft _ _ Hrun) as [Hr1 Hl1].
  assert (forall p, p ∈ plan_pages (mkPlan (ed_root e) writes) -> exists n, overlay e !! p = Some n) as Hover.
  { intros p (w & -> & Hw)%list_elem_of_fmap. destruct (Hw3 w Hw) as (n & Hn' & _). by exists n. }
  destruct (reserved_for_plan t (ed_tree e) (plan_pages (mkPlan (ed_root e) writes)) Hok (eo_store _ _ He) (eo_cache _ _ He) (tk_read _ _ _ Htk) (tk_unused _ _ _ Htk))
    as (Hok' & Hix & Hd & Hdis & Hlive).
  { intros p Hp. destruct (Hover p Hp) as [n Hn']. apply (tk_new _ _ _ Htk). congruence. }
  split_and!; try done. split_and!; rewrite <- ?apply_mutation_map; [done|lia| |].
  - intros w Hw. destruct (Hw3 w Hw) as (n & Ho & Hpay). destruct (eo_used _ _ He _ _ Ho) as (Hnu & [Hnok Hnsz] & Hrange). split.
    + split_and!; [unfold NO_PAGE in Hrange; unfold is_u64; lia|done|]. intros n' Hat. apply (Hn (w_page_id w) n').
      * apply (tk_new _ _ _ Htk). congruence.
      * unfold node_at, holds in *. by setoid_rewrite (tk_read _ _ _ Htk) in Hat.
    + rewrite Hpay, length_node_bytes. done.
  - intros s Hnew Hbase Hun. cbn [plan_root plan_writes] in *. eapply plan_index; [exact He|exact Hme|exact Hw2|exact Hnew| |exact Hun].
    intros p n Hp. apply Hbase, Hlive, Hp.
Qed.

Lemma tree_plan_ok t es m :
  tree_ok t -> tree_can_plan t es -> bt_list m = entry_pair <$> es -> Forall (fun e => is_u64 (value e)) es ->
  exists p t', plan es t = (Ok p, t') /\ tree_ok t' /\ tree_planned t' p m /\
    (forall r m, tree_index t r m -> tree_index t' r m) /\ (forall p bytes, tree_data t p bytes -> tree_data t' p bytes) /\
    (forall q bytes, q ∈ plan_pages p -> ~ tree_data t q bytes) /\ 1 <= ps_room (t_store t') /\ blen (plan_writes p) + 1 <= ps_log (t_store t').
Proof.
  intros Hok (Hkeys & Hmax & Hroom & Hleft) Hm Hu. pose proof Hok as (Hs & Hc & Hn).
  assert (map_fits m) as Hf.
  { intros k v Hk%elem_of_bt_list. rewrite Hm in Hk. apply list_elem_of_fmap in Hk as (e & [= -> ->] & He). rewrite Forall_forall in Hkeys. by apply Hkeys. }
  assert (Z.of_nat (size m) = blen es) as Hsize by (by rewrite <- bt_list_length, Hm, length_fmap).
  destruct (plan_planned t es m Hs Hm Hf Hu Hmax Hroom) as (r & ns & t' & Hrun & Hpl & Hroot).
  exists (mkPlan r (node_writes ns)), t'. destruct (Hleft _ _ Hrun) as [Hr1 Hl1].
  assert (plan_pages (mkPlan r (node_writes ns)) = ns.*1) as Hpages by (unfold plan_pages, node_writes; cbn; by rewrite <- list_fmap_compose).
  destruct (reserved_for_plan t t' (plan_pages (mkPlan r (node_writes ns))) Hok (pl_ok _ _ _ Hpl)) as (Hok' & Hix & Hd & Hdis & Hlive).
  { intros c p n Ec Hh. rewrite (pl_cache _ _ _ Hpl) in Ec. by eapply Hc. }
  { apply (pl_read _ _ _ Hpl). } { intros p Hp. by apply (pl_unused _ _ _ Hpl) in Hp as [? _]. }
  { rewrite Hpages. apply (pl_fresh _ _ _ Hpl). }
  split_and!; try done. split_and!; [done|lia| |].
  - intros w ([p n] & -> & Hin)%list_elem_of_fmap. cbn [w_page_id w_payload fst snd].
    assert (p ∈ ns.*1) as Hp by (by apply (list_elem_of_fmap_2 fst _ (p, n))). pose proof (pl_fresh _ _ _ Hpl p Hp) as Hpu.
    pose proof (pl_fits _ _ _ Hpl) as Hfits. rewrite Forall_forall in Hfits. destruct (Hfits _ Hin) as [_ Hnsz]. split.
    + pose proof (pl_range _ _ _ Hpl) as Hrange. rewrite Forall_forall in Hrange. destruct (Hrange p Hp) as [? Hno]. split_and!.
      * unfold NO_PAGE in Hno. unfold is_u64. lia.
      * by intros [_ ?]%(pl_unused _ _ _ Hpl).
      * intros n' Hat. apply (Hn p n' Hpu). unfold node_at, holds in *. by setoid_rewrite (pl_read _ _ _ Hpl) in Hat.
    + by rewrite length_node_bytes.
  - intros s Hnew Hbase Hun. cbn [plan_root plan_writes] in *. by eapply planned_index.
Qed.

(** ** The laws *)

Lemma planned_reserve t s' p pl m :
  tree_ok t -> keeps_nodes (t_store t) s' -> ps_unused (t_store t) p -> (forall q, ps_unused s' q <-> ps_unused (t_store t) q /\ q <> p) ->
  (forall q, ps_read s' q = ps_read (t_store t) q) -> tree_planned t pl m -> tree_planned (set_t_store s' t) pl m /\ p ∉ plan_pages pl.
Proof.
  intros Hok [Kok Kl Ku] Hp Hun Hread (Hf & Hsz & Hw & Hix). split.
  - split_and!; [done|done| |].
    + intros w Hin. destruct (Hw w Hin) as [(? & Hnu & Hno) ?]. split; [|done]. split_and!; cbn; [done|by intros [? _]%Hun|].
      intros n Hat. apply (Hno n). unfold node_at, holds in *. by setoid_rewrite Hread in Hat.
    + intros s Hnew Hbase Hun'. apply Hix; [done|intros q n Hq; apply Hbase; cbn; by apply Kl|]. intros q Hq. apply Hun' in Hq. cbn in Hq. by apply Hun in Hq as [? _].
  - intros (w & -> & Hin)%list_elem_of_fmap. destruct (Hw w Hin) as [(_ & Hnu & _) _]. done.
Qed.

Lemma tree_publish_ok t pl m p bytes :
  tree_ok t -> tree_planned t pl m -> tree_reserved t p -> p ∉ plan_pages pl -> blen bytes <= MAX_PAGE_PAYLOAD -> data_payload bytes ->
  blen (plan_writes pl) + 1 <= ps_log (t_store t) ->
  exists lsns s', ps_commit (plan_writes pl ++ [mkPageWrite p bytes]) (t_store t) = (Ok lsns, s') /\ keeps_nodes (t_store t) s' /\
    tree_index (set_t_store s' t) (plan_root pl) m /\ tree_data (set_t_store s' t) p bytes /\
    (forall q b, q <> p -> q ∉ plan_pages pl -> tree_data t q b -> tree_data (set_t_store s' t) q b).
Proof.
  intros Hok (Hf & Hsz & Hw & Hix) Hres Hp Hlen Hdp Hlog. set (ws := plan_writes pl ++ [mkPageWrite p bytes]).
  destruct (tree_commit_ok t ws Hok) as (lsns & s' & Hrun & Hk & Hun & Hnew & Hread & _).
  { unfold ws. rewrite length_app, Nat2Z.inj_add. cbn. lia. }
  { intros w [Hin|Hin]%elem_of_app; [by apply Hw|]. apply list_elem_of_singleton in Hin as ->. done. }
  assert (forall q, q <> p -> batch_payload ws q = batch_payload (plan_writes pl) q) as Hother.
  { intros q Hq. unfold ws. clear - Hq. induction (plan_writes pl) as [|w l IH]; cbn [app batch_payload w_page_id]; [by rewrite (proj2 (Z.eqb_neq p q))|]. by rewrite IH. }
  assert (batch_payload ws p = Some bytes) as Hpp.
  { unfold ws. clear. induction (plan_writes pl) as [|w l IH]; cbn [app batch_payload w_page_id w_payload]; [by rewrite Z.eqb_refl|]. by rewrite IH. }
  exists lsns, s'. split_and!; [done|done| | |].
  - split; [|done]. cbn. apply Hix; [|apply (kn_live _ _ Hk)|by intros q [? _]%Hun]. intros q b Hb. apply Hnew. rewrite Hother; [done|].
    intros ->. by rewrite batch_payload_none in Hb.
  - destruct Hres as (? & ? & _). split_and!; [done|by apply Hnew|cbn; by intros [? _]%Hun|done].
  - intros q b Hq Hq' Hd. apply (data_commit t ws); [done|done| |done]. rewrite Hother by done. by apply batch_payload_none.
Qed.

Lemma tree_append_ok t appends :
  tree_ok t -> blen appends <= ps_log (t_store t) -> Forall append_fits appends ->
  (forall a, a ∈ appends -> exists bytes, tree_data t (a_page_id a) bytes) ->
  (forall p bytes, tree_data t p bytes -> data_payload (appended appends p bytes)) ->
  exists lsns s', ps_append appends (t_store t) = (Ok lsns, s') /\ length lsns = length appends /\ keeps_nodes (t_store t) s' /\
    (forall p bytes, tree_data t p bytes -> tree_data (set_t_store s' t) p (appended appends p bytes)).
Proof.
  intros (Hok & Hc & Hn) Hlog Hfit Hpages Hdp. destruct (ps_append_ok (t_store t) appends Hok Hlog Hfit) as (lsns & s' & Hrun & Hlen & Hok' & Hun & Hh & Hread).
  { intros a Ha. destruct (Hpages a Ha) as (bytes & _ & ? & ? & _). split; [done|by exists bytes]. }
  assert (forall p n, node_at (t_store t) p n \/ ps_unused (t_store t) p -> forall a, a ∈ appends -> a_page_id a <> p) as Hne.
  { intros p n Hp a Ha <-. destruct (Hpages a Ha) as (bytes & _ & Hb & Hu & Hd). destruct Hp as [Hp|?]; [|done]. by apply (node_not_data _ _ _ _ Hp Hb). }
  exists lsns, s'. split_and!; [done|done| |].
  - split; [done| |].
    + intros p n [Hp Hu]. split; [|by rewrite Hun]. pose proof (Hread p (Hne p n (or_introl Hp))) as E. unfold node_at, holds in *. by rewrite E.
    + intros p n Hu%Hun (b & (page & Hr & Hb) & Hd). rewrite (Hread p (Hne p n (or_intror Hu))) in Hr. apply (Hn p n Hu). exists b. split; [by exists page|done].
  - intros p bytes Hd. pose proof Hd as (? & ? & ? & _). split_and!; [done|by apply Hh|cbn; by rewrite Hun|by apply Hdp].
Qed.

Lemma tree_release_ok t ps :
  tree_ok t -> NoDup ps -> (forall p, p ∈ ps -> exists bytes, tree_data t p bytes) ->
  exists s', ps_release ps (t_store t) = (Ok tt, s') /\ keeps_nodes (t_store t) s' /\
    (forall p bytes, tree_data t p bytes -> p ∉ ps -> tree_data (set_t_store s' t) p bytes).
Proof.
  intros (Hok & Hc & Hn) Hnd Hps. destruct (ps_release_ok (t_store t) ps Hok Hnd) as (s' & Hrun & Hok' & Hun & Hread).
  { intros p Hp. destruct (Hps p Hp) as (bytes & _ & ? & ? & _). split; [done|by exists bytes]. }
  exists s'. split_and!; [done| |].
  - apply keeps_same_reads; [done|done|done|]. intros p Hu. destruct (Hun p Hu) as [?|Hp]; [by left|right]. intros n Hat.
    destruct (Hps p Hp) as (bytes & _ & Hb & _ & Hd). by apply (node_not_data _ _ _ _ Hat Hb).
  - intros p bytes (? & (page & Hr & Hb) & Hu & ?) Hp. split_and!; [done| | |done].
    + exists page. cbn. by rewrite Hread.
    + cbn. intros Hu'. by destruct (Hun p Hu').
Qed.

Lemma tree_range_all t root m start end_ :
  tree_ok t -> tree_index t (Some root) m ->
  exists es t', tree_range (Z.to_nat (root_entries root)) root start end_ U64_MAX t = (Ok es, t') /\ t_store t' = t_store t /\ cache_ok t' /\
    entry_pair <$> es = filter (fun x => in_bounds start end_ x.1 = true) (bt_list m).
Proof.
  intros (Hok & Hc & Hn) (Hm & Hf & Hsz). pose proof Hm as (_ & _ & Hcount).
  destruct (tree_range_ok size_of_node size_of_entry size_of_separator t root m start end_ U64_MAX (Z.to_nat (root_entries root)) Hm Hc)
    as (es & t' & Hrun & Hs & Hc' & Hes); [unfold U64_MAX; lia|lia|].
  exists es, t'. split_and!; [done|done|done|]. rewrite Hes. apply take_ge. unfold selected.
  pose proof (length_filter (fun x => in_range start end_ x.1 = true) (bt_list m)) as Hl. rewrite bt_list_length in Hl. etransitivity; [exact Hl|lia].
Qed.

Lemma get_keeps t t' : t_store t' = t_store t -> cache_ok t' -> tree_ok t ->
  tree_ok t' /\ (forall r m, tree_index t r m -> tree_index t' r m) /\ (forall p bytes, tree_data t p bytes -> tree_data t' p bytes).
Proof. intros Es Hc (Hok & _ & Hn). unfold tree_ok, tree_index, tree_data. by rewrite Es. Qed.

#[local] Instance tree_backend_instance : Backend TreeState := tree_backend.

(** The tree and its store meet the laws of the interface. *)
Definition tree_backend_laws : BackendLaws TreeState.
Proof.
  refine {| bk_ok := tree_ok; bk_index := tree_index; bk_data := tree_data; bk_reserved := tree_reserved; bk_planned := tree_planned;
            bk_pages t := ps_room (t_store t); bk_log t := ps_log (t_store t); bk_can_plan := tree_can_plan; bk_can_edit := tree_can_edit |}.
  - by intros b m (-> & _).
  - by intros b r m (_ & _ & ?).
  - by intros b p bytes _ (? & _).
  - by intros b p bytes (_ & _ & _ & ?).
  - intros b p x y _ (_ & (px & Hx & <-) & _) (_ & (py & Hy & <-) & _). congruence.
  - intros b p bytes _ (_ & (page & ? & ?) & _). by exists page.
  - intros t root m k Hok (Hm & Hf & Hsz). pose proof Hok as (_ & Hc & _).
    destruct (tree_get_ok size_of_node size_of_entry size_of_separator t root m k Hm Hc) as (t' & Hrun & Hs & Hc').
    exists t'. split; [done|]. by apply get_keeps.
  - intros t root m start end_ Hok Hm. destruct (tree_range_all t root m start end_ Hok Hm) as (es & t' & Hrun & Hs & Hc' & Hes).
    exists es, t'. split; [done|]. destruct (get_keeps t t' Hs Hc' Hok) as (? & ? & ?). by split_and!.
  - intros t Hok Hroom. destruct (tree_reserve_ok t Hok Hroom) as (p & s' & Hrun & Hk & Hres & Hpu & Hun & Hread & Hr & Hl).
    exists p, (set_t_store s' t). split; [cbn; unfold on_store, zoom; by rewrite Hrun|]. split_and!; try done.
    + by apply keeps_ok.
    + intros bytes (_ & _ & ? & _). done.
    + intros r m. by apply keeps_index.
    + intros q bytes. apply data_reads; [done|]. by intros x [? _]%Hun.
    + intros pl m. by apply planned_reserve.
  - intros t p Hok Hres Hlog. destruct (tree_commit_ok t [mkPageWrite p []] Hok) as (lsns & s' & Hrun & Hk & Hun & Hnew & Hread & Hr & Hl).
    { cbn. lia. } { intros w Hw. apply list_elem_of_singleton in Hw as ->. split; [done|]. vm_compute. discriminate. }
    exists lsns, (set_t_store s' t). split; [cbn; unfold on_store, zoom; by rewrite Hrun|]. split_and!.
    + by apply keeps_ok.
    + destruct Hres as (? & ? & _). split_and!; [done|apply Hnew; cbn; by rewrite Z.eqb_refl|cbn; by intros [? _]%Hun|by vm_compute].
    + intros r m. by apply keeps_index.
    + intros q bytes Hq. apply (data_commit t [mkPageWrite p []]); [done|done|]. cbn. by rewrite (proj2 (Z.eqb_neq p q)).
    + done.
    + cbn in Hl |- *. lia.
  - intros t appends Hok Hlog Hfit Hp Hdp. destruct (tree_append_ok t appends Hok Hlog Hfit Hp Hdp) as (lsns & s' & Hrun & Hlen & Hk & Hd).
    exists lsns, (set_t_store s' t). split; [cbn; unfold on_store, zoom; by rewrite Hrun|]. split_and!; [done|by apply keeps_ok| |done].
    intros r m. by apply keeps_index.
  - intros t ps Hok Hnd Hps. destruct (tree_release_ok t ps Hok Hnd Hps) as (s' & Hrun & Hk & Hd).
    exists (set_t_store s' t). split; [cbn; unfold on_store, zoom; by rewrite Hrun|]. split_and!; [by apply keeps_ok| |done].
    intros r m. by apply keeps_index.
  - intros t es m Hok Hcan Hm Hu. exact (tree_plan_ok t es m Hok Hcan Hm Hu).
  - intros t root m mutations Hok Hcan Hm Hu. exact (tree_edit_ok t root m mutations Hok Hcan Hm Hu).
  - intros t pl m p bytes Hok Hpl Hres Hp Hlen Hdp Hlog.
    destruct (tree_publish_ok t pl m p bytes Hok Hpl Hres Hp Hlen Hdp Hlog) as (lsns & s' & Hrun & Hk & Hi & Hd & Hother).
    exists lsns, (set_t_store s' t). split; [cbn; unfold on_store, zoom; by rewrite Hrun|]. split_and!; [by apply keeps_ok|done|done| |done].
    intros r m'. by apply keeps_index.
Defined.
End Backend.
