(* ===== verification/MvccExamples.v ===== *)
(** * Transactions on a concrete store

    The in-memory page store with appends and releases, the B+ tree over it
    and the transaction layer over both: the interfaces composed, and the
    theorems of the transaction layer at work on a short run. *)
From S2P Require Import Prelude Page Order ByteLru Node Record Store Handle Tree TreeBase TreeExamples Backend TreeBackend Mvcc MvccSweep MvccSystem MvccReads MvccCommit MvccScan MvccIsolation.
Local Open Scope Z_scope.

(** ** The store *)

Definition mem_append_one (m : gmap PageId (list byte)) (a : PageAppend) : gmap PageId (list byte) :=
  match m !! a_page_id a with Some bytes => <[a_page_id a := splice bytes (a_offset a) (a_payload a)]> m | None => m end.

Definition mem_append (l : list PageAppend) : ST MemStore StorageError (list Lsn) :=
  fun s => (Ok ((fun _ => 1) <$> l), mkMem (foldl mem_append_one (mem_pages s) l) (mem_next s)).

(** Released pages are not handed out again. *)
Definition mem_release (_ : list PageId) : ST MemStore StorageError unit := fun s => (Ok tt, s).

#[export] Instance mem_append_store : AppendStore MemStore := {| ps_append := mem_append; ps_release := mem_release |}.

Lemma mem_append_all l : forall m p, foldl mem_append_one m l !! p = appended l p <$> m !! p.
Proof.
  induction l as [|a l IH]; intros m p; cbn [foldl]; [by destruct (m !! p)|]. rewrite IH. unfold mem_append_one, appended. cbn [foldl].
  destruct (Z.eqb_spec (a_page_id a) p) as [->|Hne].
  - destruct (m !! p) as [bytes|] eqn:E; [by rewrite lookup_insert_eq|by rewrite E].
  - destruct (m !! a_page_id a); [by rewrite lookup_insert_ne|done].
Qed.

#[export] Program Instance mem_append_laws : AppendStoreLaws MemStore := {| ps_log s := 1000 |}.
Next Obligation. cbn. intros s ws Hok Hlen Hws. apply Forall_forall. intros w Hw. destruct (Hws w Hw) as (_ & ? & _). lia. Qed.
Next Obligation. done. Qed.
Next Obligation.
  cbn. intros s ws lsns s' Hok [= _ <-]. split; [lia|]. cbn. split; [lia|]. intros p Hp. unfold mem_read. cbn. by rewrite mem_put_all, Hp.
Qed.
Next Obligation.
  cbn. intros s l Hok Hlen Hfit Hl. eexists _, _. split; [reflexivity|]. cbn. split; [by rewrite length_fmap|]. split; [done|]. split; [done|]. split.
  - intros p bytes Hp%mem_holds. apply mem_holds. cbn. by rewrite mem_append_all, Hp.
  - intros p Hp. unfold mem_read. cbn. rewrite mem_append_all. destruct (mem_pages s !! p) as [bytes|]; [|done]. cbn. do 3 f_equal.
    revert Hp. clear. unfold appended. revert bytes. induction l as [|a l IH]; intros bytes Hp; cbn [foldl]; [done|].
    rewrite (proj2 (Z.eqb_neq (a_page_id a) p)) by (apply Hp; left). apply IH. intros b Hb. apply Hp. by right.
Qed.
Next Obligation. cbn. intros s ps Hok Hnd Hps. eexists. split; [reflexivity|]. split; [done|]. split; [|done]. intros p Hp. by left. Qed.

(** ** The database over it *)

#[export] Instance mem_backend : Backend (TreeState (St := MemStore)) := tree_backend 56 32 32.
#[export] Instance mem_backend_laws : BackendLaws (TreeState (St := MemStore)) := tree_backend_laws 56 32 32.

Abbreviation MemSys := (@Sys (TreeState (St := MemStore))).
Abbreviation MemInner := (@Inner (TreeState (St := MemStore))).
Abbreviation mem_step := (step (B := TreeState (St := MemStore)) 72).

Definition blank_tree : TreeState (St := MemStore) := mkTree (mkMem ∅ 0) None.

Lemma blank_ok : bk_ok blank_tree.
Proof.
  split_and!; [cbn; unfold U64_MAX; lia|by intros c p n [=]|]. intros p n _ (b & (page & Hr & _) & _). cbn in Hr. unfold mem_read in Hr.
  cbn in Hr. rewrite lookup_empty in Hr. done.
Qed.

(** The steps as functions of the state, when they succeed. *)

Definition do_begin (y : MemSys) : option MemSys :=
  match begin_transaction (i_state (inner y)) with
  | (Ok _, s') => Some (mkSys (set_state s' (inner y)) (history y) (inflight y) (jobs y))
  | (Err _, _) => None
  end.

Lemma do_begin_step y y' : do_begin y = Some y' -> mem_step y y'.
Proof.
  unfold do_begin. destruct (begin_transaction _) as [[[id snapshot]|e] s'] eqn:E; [|done]. intros [= <-].
  destruct y as [i H F J]. by apply (step_begin _ i H F J id snapshot s').
Qed.

(** ** A short run

    A reader and a writer begin; the writer commits while the reader goes on
    reading. *)

Definition ex_key : Key := bytes_of_string "k".
Definition ex_value : list byte := bytes_of_string "1".

Definition ex_reader : Transaction := mkTransaction 1 0 ∅ [] false false.
Definition ex_writer : Transaction := mkTransaction 2 0 {[ ex_key := Some ex_value ]} [] false false.

Definition ex_start : MemSys := new_database 1000 blank_tree.
Definition ex_begun : MemSys := default ex_start (do_begin ex_start ≫= do_begin).

Lemma ex_begun_reachable : reachable 72 1000 blank_tree ex_begun.
Proof.
  eapply rtc_l; [apply do_begin_step; vm_compute; reflexivity|].
  eapply rtc_l; [apply do_begin_step; vm_compute; reflexivity|]. apply rtc_refl.
Qed.

Lemma ex_write_list : write_list ex_writer = [(ex_key, Some ex_value)].
Proof.
  unfold write_list. cbn [ex_writer t_writes]. apply bt_list_unique.
  - apply keys_sorted_cons. split; constructor.
  - intros k v. rewrite list_elem_of_singleton, lookup_singleton_Some. naive_solver.
Qed.

Lemma ex_untouched k s : untouched ex_begun s k.
Proof. split; [|by intros f ?%not_elem_of_nil]. intros v Hv. by apply not_elem_of_nil in Hv. Qed.

(** The writer commits. *)
Lemma ex_commits :
  exists i' H', rtc mem_step ex_begun (mkSys i' H' [] []) /\ active (i_state i') = active (i_state (inner ex_begun)) /\
    visible_value H' ex_key 1 = Some ex_value.
Proof.
  destruct (reachable_inv 72 1000 blank_tree ex_begun blank_ok ex_begun_reachable) as (h & P & Hinv).
  destruct (commit_steps 72 (inner ex_begun) (history ex_begun) [] [] h P ex_writer Hinv) as (i' & H' & _ & Hsteps & Hact & _ & Hvis).
  - vm_compute. reflexivity.
  - by intros f ?%not_elem_of_nil.
  - intros E. apply (f_equal (lookup ex_key)) in E. cbn [ex_writer t_writes] in E. by rewrite lookup_singleton_eq, lookup_empty in E.
  - rewrite ex_write_list. repeat constructor.
  - rewrite ex_write_list. vm_compute. discriminate.
  - rewrite ex_write_list. vm_compute. discriminate.
  - apply (prepare_possible ex_begun h P); [done|vm_compute; reflexivity|by intros f ?%not_elem_of_nil|vm_compute; reflexivity|].
    split; intros; apply ex_untouched.
  - exists i', H'. split_and!; [done|done|]. change 1 with (next_commit_timestamp (i_state (inner ex_begun))). rewrite Hvis. cbn [ex_writer t_writes].
    by rewrite lookup_singleton_eq.
Qed.



(** With the writer's commit prepared, it alone writes its key. *)
Lemma first_committer_wins_witness :
  exists y f, reachable 72 1000 blank_tree y /\ f ∈ inflight y /\ ex_key ∈ (f_writes f).*1 /\ f_id f = 2 /\
    (forall v, v ∈ at_key (history y) ex_key -> v_timestamp v <= f_snapshot f) /\
    (forall g, g ∈ inflight y -> ex_key ∈ (f_writes g).*1 -> f_id g = f_id f).
Proof.
  destruct (reachable_inv 72 1000 blank_tree ex_begun blank_ok ex_begun_reachable) as (h & P & Hinv).
  destruct (proj2 (prepare_possible ex_begun h P 2 0 [ex_key] [] Hinv ltac:(vm_compute; reflexivity) ltac:(by intros f ?%not_elem_of_nil) ltac:(vm_compute; reflexivity)))
    as (ts & s' & Hprep); [split; intros; apply ex_untouched|].
  set (f := mkInflight 2 0 ts (write_list ex_writer) None).
  set (y := mkSys (set_state s' (inner ex_begun)) (history ex_begun) [f] []).
  assert (reachable 72 1000 blank_tree y) as Hr.
  { eapply rtc_r; [exact ex_begun_reachable|]. apply (step_prepare _ (inner ex_begun) (history ex_begun) [] [] 2 0 (write_list ex_writer) [] ts s').
    - vm_compute. reflexivity.
    - by intros g ?%not_elem_of_nil.
    - rewrite ex_write_list. repeat constructor. apply not_elem_of_nil.
    - rewrite ex_write_list. repeat constructor.
    - rewrite ex_write_list. exact Hprep. }
  assert (ex_key ∈ (f_writes f).*1) as Hk by (cbn [f f_writes]; rewrite ex_write_list; left).
  exists y, f. split; [exact Hr|]. split; [left|]. split; [exact Hk|]. split; [reflexivity|].
  exact (first_committer_wins 72 1000 blank_tree y f ex_key blank_ok Hr ltac:(left) Hk).
Defined.

Lemma prepare_exact_witness :
  (exists t s', prepare_commit 2 0 [ex_key] [[]] (i_state (inner ex_begun)) = (Ok t, s')) <->
  (forall k, k ∈ [ex_key] -> untouched ex_begun 0 k) /\
  (forall prefix k, prefix ∈ [[]] -> starts_with k prefix = true -> untouched ex_begun 0 k).
Proof.
  apply (prepare_exact 72 1000 blank_tree ex_begun 2 0 [ex_key] [[]] blank_ok ex_begun_reachable).
  - vm_compute. reflexivity.
  - intros f Hf. by apply not_elem_of_nil in Hf.
  - vm_compute. reflexivity.
Defined.

Lemma commits_drain_witness :
  exists y', rtc mem_step ex_begun y' /\ inflight y' = [] /\ intents (i_state (inner y')) = ∅ /\
    visible_through (i_state (inner y')) + 1 = next_commit_timestamp (i_state (inner y')).
Proof. exact (commits_drain 72 1000 blank_tree ex_begun blank_ok ex_begun_reachable). Defined.

Lemma commit_applies_witness :
  exists t' y', transaction_commit (mkSession ex_writer (inner ex_begun)) = (Ok (mkCommitResult (Some 1) 1), mkSession t' (inner y')) /\
    visible_value (history y') ex_key 1 = Some ex_value /\ visible_through (i_state (inner y')) = 1.
Proof.
  destruct (commit_applies 72 1000 blank_tree ex_begun ex_writer blank_ok ex_begun_reachable) as (t' & y' & Hrun & _ & _ & _ & Hvis & Hq).
  - vm_compute. reflexivity.
  - reflexivity.
  - intros f Hf. by apply not_elem_of_nil in Hf.
  - intros E. apply (f_equal (lookup ex_key)) in E. cbn [ex_writer t_writes] in E. by rewrite lookup_singleton_eq, lookup_empty in E.
  - rewrite ex_write_list. repeat constructor.
  - rewrite ex_write_list. vm_compute. discriminate.
  - rewrite ex_write_list. vm_compute. discriminate.
  - vm_compute. reflexivity.
  - intros. apply ex_untouched.
  - intros. apply ex_untouched.
  - exists t', y'. rewrite ex_write_list in Hrun. split; [exact Hrun|]. split; [|exact (Hq eq_refl)].
    change 1 with (next_commit_timestamp (i_state (inner ex_begun))). rewrite Hvis. cbn [ex_writer t_writes]. by rewrite lookup_singleton_eq.
Defined.
