(* ===== verification/Utf8.v ===== *)
(** * UTF-8

    A [&str] as the bytes Rust stores: the encoding of each character, which
    is injective and keeps the order of strings. *)
From S2P Require Import Prelude Order Token.
Local Open Scope Z_scope.

Definition encode_utf8 (c : char) : list byte :=
  if c <? 128 then [byte_of_Z c]
  else if c <? 2048 then [byte_of_Z (192 + c / 64); byte_of_Z (128 + c mod 64)]
  else if c <? 65536 then [byte_of_Z (224 + c / 4096); byte_of_Z (128 + c / 64 mod 64); byte_of_Z (128 + c mod 64)]
  else [byte_of_Z (240 + c / 262144); byte_of_Z (128 + c / 4096 mod 64); byte_of_Z (128 + c / 64 mod 64); byte_of_Z (128 + c mod 64)].

(** [str::as_bytes]. *)
Definition as_bytes (s : str) : list byte := mjoin (encode_utf8 <$> s).

(** [str::cmp]: by the bytes. *)
Definition str_cmp (a b : str) : comparison := bytes_cmp (as_bytes a) (as_bytes b).

Definition is_str (s : str) : Prop := Forall is_char s.

Lemma as_bytes_cons c s : as_bytes (c :: s) = encode_utf8 c ++ as_bytes s.
Proof. done. Qed.

Lemma length_encode_utf8 c : blen (encode_utf8 c) = len_utf8 c.
Proof. unfold encode_utf8, len_utf8. by repeat case_match. Qed.

Lemma length_as_bytes s : blen (as_bytes s) = str_len s.
Proof.
  induction s as [|c s IH]; [done|]. rewrite as_bytes_cons, length_app, Nat2Z.inj_add, length_encode_utf8. cbn [str_len]. by rewrite IH.
Qed.

(** ** Order *)

Lemma bytes_cmp_common p a b : bytes_cmp (p ++ a) (p ++ b) = bytes_cmp a b.
Proof. induction p; simpl; [done|]. by rewrite Z.compare_refl. Qed.

Lemma bytes_cmp_lt_cons x y a b : byte_to_Z x < byte_to_Z y \/ x = y /\ bytes_cmp a b = Lt -> bytes_cmp (x :: a) (y :: b) = Lt.
Proof. intros [Hlt|[-> Hlt]]; simpl; [by rewrite (proj2 (Z.compare_lt_iff _ _) Hlt)|by rewrite Z.compare_refl]. Qed.

Lemma byte_of_Z_small z : 0 <= z < 256 -> byte_to_Z (byte_of_Z z) = z.
Proof. intros. rewrite byte_to_of_Z. by apply Z.mod_small. Qed.

(** One step of a comparison of encodings: the bytes differ, or are equal. *)
Lemma encoded_lt_cons u v a b :
  0 <= u < 256 -> 0 <= v < 256 -> u <= v -> (u = v -> bytes_cmp a b = Lt) -> bytes_cmp (byte_of_Z u :: a) (byte_of_Z v :: b) = Lt.
Proof.
  intros Hu Hv Hle Heq. apply bytes_cmp_lt_cons. destruct (Z.eq_dec u v) as [->|]; [right; auto|].
  left. rewrite !byte_of_Z_small by done. lia.
Qed.

Lemma encode_utf8_lt c d a b : is_char c -> is_char d -> c < d -> bytes_cmp (encode_utf8 c ++ a) (encode_utf8 d ++ b) = Lt.
Proof.
  unfold is_char, encode_utf8. intros Hc Hd Hlt.
  pose proof (Z.div_mod c 64 ltac:(lia)). pose proof (Z.div_mod d 64 ltac:(lia)).
  pose proof (Z.mod_pos_bound c 64 ltac:(lia)). pose proof (Z.mod_pos_bound d 64 ltac:(lia)).
  replace (c / 4096) with (c / 64 / 64) by (rewrite Z.div_div by lia; done).
  replace (d / 4096) with (d / 64 / 64) by (rewrite Z.div_div by lia; done).
  replace (c / 262144) with (c / 64 / 64 / 64) by (rewrite !Z.div_div by lia; done).
  replace (d / 262144) with (d / 64 / 64 / 64) by (rewrite !Z.div_div by lia; done).
  generalize dependent (c / 64). intros c1 ?. generalize dependent (c mod 64). intros c0 ? ?.
  generalize dependent (d / 64). intros d1 ?. generalize dependent (d mod 64). intros d0 ? ?.
  pose proof (Z.div_mod c1 64 ltac:(lia)). pose proof (Z.div_mod d1 64 ltac:(lia)).
  pose proof (Z.mod_pos_bound c1 64 ltac:(lia)). pose proof (Z.mod_pos_bound d1 64 ltac:(lia)).
  generalize dependent (c1 / 64). intros c2 ?. generalize dependent (c1 mod 64). intros m1 ? ?.
  generalize dependent (d1 / 64). intros d2 ?. generalize dependent (d1 mod 64). intros n1 ? ?.
  pose proof (Z.div_mod c2 64 ltac:(lia)). pose proof (Z.div_mod d2 64 ltac:(lia)).
  pose proof (Z.mod_pos_bound c2 64 ltac:(lia)). pose proof (Z.mod_pos_bound d2 64 ltac:(lia)).
  generalize dependent (c2 / 64). intros c3 ?. generalize dependent (c2 mod 64). intros m2 ? ?.
  generalize dependent (d2 / 64). intros d3 ?. generalize dependent (d2 mod 64). intros n2 ? ?.
  repeat case_match; bool_to_prop; cbn [app]; try lia;
    repeat (apply encoded_lt_cons; [lia|lia|lia|intros ?; try (exfalso; lia)]).
Qed.

Lemma encode_utf8_ne_nil c : encode_utf8 c <> [].
Proof. unfold encode_utf8. by repeat case_match. Qed.

(** Strings compare as their characters do. *)
Fixpoint chars_cmp (a b : str) : comparison :=
  match a, b with
  | [], [] => Eq
  | [], _ :: _ => Lt
  | _ :: _, [] => Gt
  | c :: a, d :: b => match c ?= d with Eq => chars_cmp a b | r => r end
  end.

Lemma str_cmp_chars a b : is_str a -> is_str b -> str_cmp a b = chars_cmp a b.
Proof.
  unfold str_cmp. intros Ha. revert b. induction Ha as [|c a Hc Ha IH]; intros b Hb; destruct Hb as [|d b Hd Hb]; rewrite ?as_bytes_cons; cbn [chars_cmp].
  - done.
  - pose proof (encode_utf8_ne_nil d). by destruct (encode_utf8 d).
  - pose proof (encode_utf8_ne_nil c). by destruct (encode_utf8 c).
  - destruct (Z.compare_spec c d) as [->|Hlt|Hlt].
    + rewrite bytes_cmp_common. by apply IH.
    + by apply encode_utf8_lt.
    + rewrite bytes_cmp_antisym, encode_utf8_lt by done. done.
Qed.

Lemma chars_cmp_eq a b : chars_cmp a b = Eq <-> a = b.
Proof.
  revert b. induction a as [|c a IH]; intros [|d b]; cbn [chars_cmp]; [done|done|done|].
  destruct (Z.compare_spec c d) as [->|Hlt|Hlt]; [|split; [done|intros [= ->]; lia]..].
  rewrite IH. split; [by intros ->|by intros [= ->]].
Qed.

Lemma as_bytes_inj a b : is_str a -> is_str b -> as_bytes a = as_bytes b -> a = b.
Proof.
  intros Ha Hb Heq. apply chars_cmp_eq. rewrite <- str_cmp_chars by done. unfold str_cmp. rewrite Heq. apply bytes_cmp_refl.
Qed.
