(* ===== verification/Schema.v ===== *)
(** * Values, schemas and errors of the engine

    [engine/src/value.rs], [engine/src/schema.rs], [engine/src/error.rs] and
    [engine/src/result.rs]: SQL values, the catalog's description of tables
    and indexes, the check of a row against its table, and what a statement
    returns. *)
From S2P Require Import Prelude Token F64 Ast Record.
Local Open Scope Z_scope.

(** ** Values *)

Inductive Value :=
| VNull
| VBoolean (b : bool)
| VInteger (z : Z)
| VFloat (x : f64)
| VText (s : str).

#[export] Instance Value_eq_dec : EqDecision Value.
Proof. solve_decision. Defined.

Definition is_null (v : Value) : bool := match v with VNull => true | _ => false end.

(** The derived [==]: floats compare as numbers, so the zeros are equal. *)
Definition value_eqb (a b : Value) : bool :=
  match a, b with
  | VNull, VNull => true
  | VBoolean x, VBoolean y => Bool.eqb x y
  | VInteger x, VInteger y => x =? y
  | VFloat x, VFloat y => f64_eq x y
  | VText x, VText y => bool_decide (x = y)
  | _, _ => false
  end.

(** ** Schemas *)

Definition SCHEMA_FORMAT_VERSION : Z := 1.

Inductive LogicalType :=
| TUnknown
| TBoolean
| TInt64
| TFloat64
| TText (max_length : option Z).

#[export] Instance LogicalType_eq_dec : EqDecision LogicalType.
Proof. solve_decision. Defined.

Record ColumnSchema := mkColumnSchema {
  c_name : str;
  c_data_type : LogicalType;
  c_nullable : bool;
  c_primary_key : bool;
  c_unique : bool;
}.

Record TableSchema := mkTableSchema {
  t_format_version : Z;
  t_table_id : Z;
  t_name : str;
  t_columns : list ColumnSchema;
  t_primary_key : option nat;
  t_next_row_id : Z;
}.

Record IndexSchema := mkIndexSchema {
  x_format_version : Z;
  x_id : Z;
  x_name : str;
  x_table_id : Z;
  x_columns : list nat;
  x_unique : bool;
}.

#[export] Instance ColumnSchema_eq_dec : EqDecision ColumnSchema.
Proof. solve_decision. Defined.
#[export] Instance TableSchema_eq_dec : EqDecision TableSchema.
Proof. solve_decision. Defined.
#[export] Instance IndexSchema_eq_dec : EqDecision IndexSchema.
Proof. solve_decision. Defined.

(** ** Errors *)

Inductive RowFault :=
| WrongArity (table : str) (expected got : Z)
| CannotBeNull (column : str)
| WrongType (column : str)
| TooManyCharacters (column : str) (maximum : Z)
| NonFiniteFloat (column : str)
| NonFiniteKey
| IndexedValueTooLarge
| RowKeyTooLarge
| RowIdentityTooLarge
| AssignedTwice (column : str)
| ListedTwice (column : str)
| InsertArity (columns values : Z).

Inductive SchemaFault :=
| SeveralPrimaryKeys
| RepeatedColumnName
| RepeatedIndexColumn (column : str)
| TableIdsExhausted
| IndexIdsExhausted
| ColumnPositionTooLarge
| IdentifierTooLarge.

Inductive Constraint :=
| NullKey
| DuplicatePrimaryKey
| DuplicateColumn (column : str)
| DuplicateIndex (index : str)
| RowIdsExhausted.

Inductive ExpressionFault :=
| WhereNotBoolean
| NonFiniteLiteral
| NegationOverflow
| InvalidUnaryOperand
| LogicNotBoolean
| NotComparable
| Unordered
| IntegerFault
| NotNumeric
| DivisionByZero
| NonFiniteResult.

Inductive EngineFault :=
| UnsupportedIndexVersion (version : Z)
| UnsupportedSchemaVersion (version : Z)
| UnsupportedRowVersion (version : Z)
| NotEightBytes (length : Z)
| MissingIndexedRow.

Inductive EngineError :=
| ETransaction (e : TransactionError)
| EEncoding
| ESyntax (fault : syntax_fault) (sp : Span)
| ECorruptRecord (fault : EngineFault)
| TableAlreadyExists (name : str)
| TableNotFound (name : str)
| IndexAlreadyExists (name : str)
| IndexNotFound (name : str)
| InvalidSchema (fault : SchemaFault)
| InvalidRow (fault : RowFault)
| ColumnNotFound (name : str)
| ConstraintViolation (constraint : Constraint)
| EExpression (fault : ExpressionFault)
| Unsupported (statement : Statement)
| TransactionAlreadyActive
| NoActiveTransaction
| TransactionAborted
(** Not an error of the program: an index out of bounds, where Rust panics. *)
| Panicked.

Abbreviation EResult := (result EngineError).

(** [l[i]] and [l[i] = x], which panic out of bounds. *)
Definition index {A} (l : list A) (i : nat) : EResult A := ok_or (l !! i) Panicked.
Definition index_set {A} (l : list A) (i : nat) (x : A) : EResult (list A) :=
  if (i <? length l)%nat then Ok (<[i := x]> l) else Err Panicked.

(** ** What a statement returns *)

Record OutputColumn := mkOutputColumn {
  oc_name : str;
  oc_data_type : LogicalType;
  oc_nullable : bool;
}.

Inductive TransactionOutput := Begun | Committed | RolledBack.

Inductive StatementOutput :=
| OTransaction (output : TransactionOutput)
| OCommand (tag : string) (affected_rows : Z)
| OQuery (columns : list OutputColumn) (rows : list (list Value)).

(** ** Building a schema *)

(** [iter().position(p)]. *)
Fixpoint position {A} (p : A -> bool) (l : list A) : option nat :=
  match l with
  | [] => None
  | x :: l => if p x then Some O else S <$> position p l
  end.

Definition from_definition (column : ColumnDef) : ColumnSchema :=
  mkColumnSchema (id_value (cd_name column))
    match cd_data_type column with
    | DBoolean => TBoolean
    | DInt64 => TInt64
    | DFloat64 => TFloat64
    | DText max_length => TText max_length
    end (cd_nullable column) (cd_primary_key column) (cd_unique column).

(** [any(|x| !seen.insert(x))]. *)
Fixpoint any_repeated (seen : list str) (names : list str) : bool :=
  match names with
  | [] => false
  | n :: names => bool_decide (n ∈ seen) || any_repeated (n :: seen) names
  end.

(** The positions whose column is a primary key. *)
Fixpoint primary_keys (from : nat) (columns : list ColumnSchema) : list nat :=
  match columns with
  | [] => []
  | c :: columns => (if c_primary_key c then [from] else []) ++ primary_keys (S from) columns
  end.

Definition from_create (id : Z) (create : CreateTable) : EResult TableSchema :=
  let columns := from_definition <$> ct_columns create in
  let keys := primary_keys 0 columns in
  if (1 <? length keys)%nat then Err (InvalidSchema SeveralPrimaryKeys)
  else if any_repeated [] (c_name <$> columns) then Err (InvalidSchema RepeatedColumnName)
  else Ok (mkTableSchema SCHEMA_FORMAT_VERSION id (id_value (ct_name create)) columns (head keys) 1).

(** ** Checking a row *)

(** The [matches!] of a type and a value that is not NULL. *)
Definition type_matches (data_type : LogicalType) (v : Value) : bool :=
  match data_type, v with
  | TUnknown, _ | TBoolean, VBoolean _ | TInt64, VInteger _ | TFloat64, VFloat _ | TText _, VText _ => true
  | _, _ => false
  end.

Definition validate (column : ColumnSchema) (v : Value) : EResult unit :=
  if is_null v then
    if c_nullable column then Ok tt else Err (InvalidRow (CannotBeNull (c_name column)))
  else if negb (type_matches (c_data_type column) v) then Err (InvalidRow (WrongType (c_name column)))
  else
    _ ← match c_data_type column, v with
        | TText (Some maximum), VText s =>
            if maximum <? blen s then Err (InvalidRow (TooManyCharacters (c_name column) maximum)) else Ok tt
        | _, _ => Ok tt
        end;
    match v with
    | VFloat x => if is_finite x then Ok tt else Err (InvalidRow (NonFiniteFloat (c_name column)))
    | _ => Ok tt
    end.

Fixpoint validate_columns (columns : list ColumnSchema) (values : list Value) : EResult unit :=
  match columns, values with
  | c :: columns, v :: values => _ ← validate c v; validate_columns columns values
  | _, _ => Ok tt
  end.

Definition validate_row (schema : TableSchema) (values : list Value) : EResult unit :=
  if negb (blen values =? blen (t_columns schema))
  then Err (InvalidRow (WrongArity (t_name schema) (blen (t_columns schema)) (blen values)))
  else validate_columns (t_columns schema) values.
