(* ===== verification/Expression.v ===== *)
(** * Expressions

    [engine/src/expression.rs]: evaluation of an expression on a row, the
    type and nullability inferred for it, and the WHERE predicate.  The
    lemmas relate the two: a value that evaluation returns conforms to the
    type that was inferred. *)
From S2P Require Import Prelude Token F64 Ast Utf8 Schema.
From Stdlib Require Import Floats.SpecFloat.
Local Open Scope Z_scope.

(** ** Values *)

Definition literal (l : Literal) : EResult Value :=
  match l with
  | LNull => Ok VNull
  | LBoolean b => Ok (VBoolean b)
  | LInteger z => Ok (VInteger z)
  | LFloat x => if is_finite x then Ok (VFloat x) else Err (EExpression NonFiniteLiteral)
  | LString s => Ok (VText s)
  end.

(** [i64] arithmetic: the exact result, if it is in range. *)
Definition checked_i64 (z : Z) : option Z := in_range I64_MIN I64_MAX z.
Definition checked_div (a b : Z) : option Z := if b =? 0 then None else checked_i64 (Z.quot a b).
Definition checked_rem (a b : Z) : option Z :=
  if b =? 0 then None else if (a =? I64_MIN) && (b =? -1) then None else Some (Z.rem a b).

Definition unary (operator : UnaryOperator) (v : Value) : EResult Value :=
  if is_null v then Ok VNull else
  match operator, v with
  | Not, VBoolean b => Ok (VBoolean (negb b))
  | Plus, VInteger z => Ok (VInteger z)
  | Plus, VFloat x => Ok (VFloat x)
  | Minus, VInteger z => ok_or (VInteger <$> checked_i64 (- z)) (EExpression NegationOverflow)
  | Minus, VFloat x => Ok (VFloat (f64_neg x))
  | _, _ => Err (EExpression InvalidUnaryOperand)
  end.

Definition logic_operand (v : Value) : EResult (option bool) :=
  match v with
  | VBoolean b => Ok (Some b)
  | VNull => Ok None
  | _ => Err (EExpression LogicNotBoolean)
  end.

Definition and3 (left right : option bool) : Value :=
  match left, right with
  | Some false, _ | _, Some false => VBoolean false
  | Some true, Some true => VBoolean true
  | _, _ => VNull
  end.

Definition or3 (left right : option bool) : Value :=
  match left, right with
  | Some true, _ | _, Some true => VBoolean true
  | Some false, Some false => VBoolean false
  | _, _ => VNull
  end.

(** For [And]; every other operator is [Or]. *)
Definition boolean_logic (is_and : bool) (left right : Value) : EResult Value :=
  l ← logic_operand left;
  r ← logic_operand right;
  Ok (if is_and then and3 l r else or3 l r).

Definition bool_cmp (a b : bool) : comparison :=
  match a, b with false, true => Lt | true, false => Gt | _, _ => Eq end.

(** The operands' order: an error for types that do not compare, nothing for
    a pair of floats without one. *)
Definition compare_values (left right : Value) : EResult (option comparison) :=
  match left, right with
  | VBoolean a, VBoolean b => Ok (Some (bool_cmp a b))
  | VInteger a, VInteger b => Ok (Some (a ?= b))
  | VFloat a, VFloat b => Ok (f64_partial_cmp a b)
  | VInteger a, VFloat b => Ok (f64_partial_cmp (f64_of_Z a) b)
  | VFloat a, VInteger b => Ok (f64_partial_cmp a (f64_of_Z b))
  | VText a, VText b => Ok (Some (str_cmp a b))
  | _, _ => Err (EExpression NotComparable)
  end.

Inductive Comparator := CEqual | CNotEqual | CLess | CLessEqual | CGreater | CGreaterEqual.

Definition accepts (operator : Comparator) (ordering : comparison) : bool :=
  match operator, ordering with
  | CEqual, Eq | CNotEqual, (Lt | Gt) | CLess, Lt | CLessEqual, (Lt | Eq) | CGreater, Gt | CGreaterEqual, (Gt | Eq) => true
  | _, _ => false
  end.

Definition compare (operator : Comparator) (left right : Value) : EResult Value :=
  found ← compare_values left right;
  ordering ← ok_or found (EExpression Unordered);
  Ok (VBoolean (accepts operator ordering)).

Inductive Arithmetic := AAdd | ASubtract | AMultiply | ADivide | AModulo.

Definition integer_result (operator : Arithmetic) (a b : Z) : option Z :=
  match operator with
  | AAdd => checked_i64 (a + b)
  | ASubtract => checked_i64 (a - b)
  | AMultiply => checked_i64 (a * b)
  | ADivide => checked_div a b
  | AModulo => checked_rem a b
  end.

Definition float_result (operator : Arithmetic) (a b : f64) : f64 :=
  match operator with
  | AAdd => f64_add a b
  | ASubtract => f64_sub a b
  | AMultiply => f64_mul a b
  | ADivide => f64_div a b
  | AModulo => f64_rem a b
  end.

Definition number (v : Value) : EResult f64 :=
  match v with
  | VInteger z => Ok (f64_of_Z z)
  | VFloat x => Ok x
  | _ => Err (EExpression NotNumeric)
  end.

Definition divides (operator : Arithmetic) : bool := match operator with ADivide | AModulo => true | _ => false end.

Definition arithmetic (operator : Arithmetic) (left right : Value) : EResult Value :=
  match left, right with
  | VInteger a, VInteger b => ok_or (VInteger <$> integer_result operator a b) (EExpression IntegerFault)
  | _, _ =>
      a ← number left;
      b ← number right;
      if f64_eq b (S754_zero false) && divides operator then Err (EExpression DivisionByZero)
      else
        let result := float_result operator a b in
        if is_finite result then Ok (VFloat result) else Err (EExpression NonFiniteResult)
  end.

(** The three groups of operators that [binary] tells apart. *)
Inductive OperatorKind :=
| KLogic (is_and : bool)
| KCompare (c : Comparator)
| KArithmetic (a : Arithmetic).

Definition operator_kind (operator : BinaryOperator) : OperatorKind :=
  match operator with
  | Or => KLogic false
  | And => KLogic true
  | Equal => KCompare CEqual
  | NotEqual => KCompare CNotEqual
  | LessThan => KCompare CLess
  | LessThanOrEqual => KCompare CLessEqual
  | GreaterThan => KCompare CGreater
  | GreaterThanOrEqual => KCompare CGreaterEqual
  | Add => KArithmetic AAdd
  | Subtract => KArithmetic ASubtract
  | Multiply => KArithmetic AMultiply
  | Divide => KArithmetic ADivide
  | Modulo => KArithmetic AModulo
  end.

Definition binary (operator : BinaryOperator) (left right : Value) : EResult Value :=
  match operator_kind operator with
  | KLogic is_and => boolean_logic is_and left right
  | KCompare c => if is_null left || is_null right then Ok VNull else compare c left right
  | KArithmetic a => if is_null left || is_null right then Ok VNull else arithmetic a left right
  end.

(** ** Evaluation *)

Definition column_position (schema : TableSchema) (name : str) : option nat :=
  position (fun column => bool_decide (c_name column = name)) (t_columns schema).

Fixpoint evaluate (e : Expr) (schema : TableSchema) (row : list Value) : EResult Value :=
  match e with
  | EIdentifier identifier =>
      ok_or (p ← column_position schema (id_value identifier); row !! p) (ColumnNotFound (id_value identifier))
  | ELiteral value _ => literal value
  | EParenthesized expression _ => evaluate expression schema row
  | EIsNull expression negated _ =>
      v ← evaluate expression schema row;
      Ok (VBoolean (xorb (is_null v) negated))
  | EUnary operator expression _ => v ← evaluate expression schema row; unary operator v
  | EBinary el operator er _ =>
      l ← evaluate el schema row;
      r ← evaluate er schema row;
      binary operator l r
  end.

Definition arithmetic_type (left right : LogicalType) : LogicalType :=
  match left, right with
  | TFloat64, _ | _, TFloat64 => TFloat64
  | _, _ => TInt64
  end.

Fixpoint infer_type (e : Expr) (schema : TableSchema) : EResult (LogicalType * bool) :=
  match e with
  | EIdentifier identifier =>
      column ← ok_or (p ← column_position schema (id_value identifier); t_columns schema !! p) (ColumnNotFound (id_value identifier));
      Ok (c_data_type column, c_nullable column)
  | ELiteral value _ =>
      Ok match value with
         | LNull => (TUnknown, true)
         | LBoolean _ => (TBoolean, false)
         | LInteger _ => (TInt64, false)
         | LFloat _ => (TFloat64, false)
         | LString _ => (TText None, false)
         end
  | EIsNull _ _ _ => Ok (TBoolean, false)
  | EParenthesized expression _ | EUnary _ expression _ => infer_type expression schema
  | EBinary el operator er _ =>
      l ← infer_type el schema;
      r ← infer_type er schema;
      Ok (match operator_kind operator with
          | KLogic _ | KCompare _ => TBoolean
          | KArithmetic _ => arithmetic_type l.1 r.1
          end, l.2 || r.2)
  end.

Definition predicate (e : Expr) (schema : TableSchema) (row : list Value) : EResult bool :=
  v ← evaluate e schema row;
  match v with
  | VBoolean b => Ok b
  | VNull => Ok false
  | _ => Err (EExpression WhereNotBoolean)
  end.

(** ** Evaluation and types *)

(** A value that has a type, with its machine width, length and finiteness;
    an expression of unknown type is NULL. *)
Definition has_type (data_type : LogicalType) (v : Value) : Prop :=
  match data_type, v with
  | TBoolean, VBoolean _ => True
  | TInt64, VInteger z => is_i64 z
  | TFloat64, VFloat x => is_finite x = true
  | TText maximum, VText s => forall n, maximum = Some n -> blen s <= n
  | _, _ => False
  end.

Definition conforms (data_type : LogicalType) (nullable : bool) (v : Value) : Prop :=
  (v = VNull /\ nullable = true) \/ has_type data_type v.

(** What Rust's types give: an [i64] is one. *)
Definition value_wf (v : Value) : Prop := match v with VInteger z => is_i64 z | _ => True end.

Definition literal_wf (l : Literal) : Prop := match l with LInteger z => is_i64 z | _ => True end.

Fixpoint expr_wf (e : Expr) : Prop :=
  match e with
  | EIdentifier _ => True
  | ELiteral value _ => literal_wf value
  | EUnary _ e _ | EIsNull e _ _ | EParenthesized e _ => expr_wf e
  | EBinary l _ r _ => expr_wf l /\ expr_wf r
  end.

(** A column of a table has a type. *)
Definition schema_typed (schema : TableSchema) : Prop := Forall (fun c => c_data_type c <> TUnknown) (t_columns schema).

Lemma checked_i64_Some a z : checked_i64 a = Some z <-> z = a /\ is_i64 a.
Proof. unfold checked_i64, in_range, is_i64. case_match; bool_to_prop; split; [intros [= <-]; lia|intros [-> ?]; done|done|intros [-> ?]; lia]. Qed.

Lemma validate_conforms c v : c_data_type c <> TUnknown -> value_wf v -> validate c v = Ok tt -> conforms (c_data_type c) (c_nullable c) v.
Proof.
  intros Ht Hwf. unfold validate, conforms, has_type. destruct v as [|b|z|x|s]; cbn [is_null].
  - destruct (c_nullable c); [by left; eauto|done].
  - by destruct (c_data_type c); cbn; eauto.
  - by destruct (c_data_type c); cbn; eauto.
  - destruct (c_data_type c); cbn; try done; destruct (is_finite x); try done; eauto.
  - destruct (c_data_type c) as [| | | |[n|]]; cbn; try done; [|intros _; by right].
    destruct (n <? blen s) eqn:E; cbn; [done|]. bool_to_prop. intros _. right. by intros m [= <-].
Qed.

Lemma conforms_validate name pk u data_type nullable v :
  conforms data_type nullable v -> validate (mkColumnSchema name data_type nullable pk u) v = Ok tt.
Proof.
  unfold validate, conforms, has_type. cbn. intros [[-> ->]|Ht]; [done|].
  destruct data_type as [| | | |[n|]], v; cbn; try done; [by rewrite Ht|].
  specialize (Ht n eq_refl). by rewrite (proj2 (Z.ltb_ge _ _) Ht).
Qed.

Lemma validate_columns_lookup columns values i c v :
  validate_columns columns values = Ok tt -> columns !! i = Some c -> values !! i = Some v -> validate c v = Ok tt.
Proof.
  revert values i. induction columns as [|d columns IH]; intros [|w values] [|i]; cbn; try done.
  - intros ([] & Hv & _)%bind_Ok. by intros [= <-] [= <-].
  - intros ([] & _ & Hr)%bind_Ok. by apply IH.
Qed.

Lemma validate_row_lookup schema values i c v :
  validate_row schema values = Ok tt -> t_columns schema !! i = Some c -> values !! i = Some v -> validate c v = Ok tt.
Proof. unfold validate_row. case_match; [done|]. apply validate_columns_lookup. Qed.

Lemma validate_row_length schema values : validate_row schema values = Ok tt -> length values = length (t_columns schema).
Proof. unfold validate_row. case_match; [done|]. bool_to_prop. intros. lia. Qed.

Lemma literal_conforms l v : literal_wf l -> literal l = Ok v ->
  forall schema sp, exists t n, infer_type (ELiteral l sp) schema = Ok (t, n) /\ conforms t n v.
Proof.
  intros Hwf Hl schema sp. cbn. destruct l; cbn in Hl; simplify_eq; cbn.
  - by eexists _, _; split; [done|left].
  - by eexists _, _; split; [done|right].
  - by eexists _, _; split; [done|right].
  - destruct (is_finite x) eqn:E; simplify_eq. by eexists _, _; split; [done|right].
  - eexists _, _; split; [done|right]. cbn. done.
Qed.

Lemma unary_conforms op v w t n : conforms t n v -> unary op v = Ok w -> conforms t n w.
Proof.
  unfold unary. intros [[-> ->]|Hc]; [intros [= <-]; by left|].
  destruct t, v as [|b|z|x|s]; try done; destruct op; cbn; try done; intros Hw; simplify_eq; right; try done.
  - destruct (checked_i64 (- z)) as [y|] eqn:E; cbn in Hw; simplify_eq. by apply checked_i64_Some in E as [-> ?].
  - by destruct x.
Qed.

Lemma compare_conforms c v w r n : compare c v w = Ok r -> conforms TBoolean n r.
Proof. unfold compare. intros (f & _ & (o & _ & [= <-])%bind_Ok)%bind_Ok. by right. Qed.

Lemma logic_conforms b t1 t2 n1 n2 v w r :
  conforms t1 n1 v -> conforms t2 n2 w -> boolean_logic b v w = Ok r -> conforms TBoolean (n1 || n2) r.
Proof.
  unfold boolean_logic. intros Hv Hw (l & Hl & (m & Hm & [= <-])%bind_Ok)%bind_Ok.
  assert (l = None -> n1 = true) as H1 by (intros ->; destruct v, Hv as [[? ?]|Hv]; try done; by destruct t1).
  assert (m = None -> n2 = true) as H2 by (intros ->; destruct w, Hw as [[? ?]|Hw]; try done; by destruct t2).
  destruct b, l as [[]|], m as [[]|]; cbn; try (by right); left; rewrite ?H1, ?H2, ?orb_true_r by done; done.
Qed.

Lemma integer_result_range op a b z : is_i64 a -> is_i64 b -> integer_result op a b = Some z -> is_i64 z.
Proof.
  unfold integer_result, checked_div, checked_rem. intros Ha Hb. destruct op.
  1-3: by intros [-> ?]%checked_i64_Some.
  - case_match; [done|]. by intros [-> ?]%checked_i64_Some.
  - case_match; [done|]. case_match; [done|]. intros [= <-]. bool_to_prop. unfold is_i64, I64_MIN, I64_MAX in *.
    pose proof (Z.rem_bound_abs a b ltac:(done)). lia.
Qed.

Lemma arithmetic_conforms op t1 t2 n v w r :
  has_type t1 v -> has_type t2 w -> arithmetic op v w = Ok r -> conforms (arithmetic_type t1 t2) n r.
Proof.
  intros Hv Hw Hr. right. unfold arithmetic in Hr.
  assert (t1 = TInt64 /\ (exists a, v = VInteger a /\ is_i64 a) /\ t2 = TInt64 /\ (exists b, w = VInteger b /\ is_i64 b) \/
          (a ← number v; b ← number w;
           if f64_eq b (S754_zero false) && divides op then Err (EExpression DivisionByZero)
           else if is_finite (float_result op a b) then Ok (VFloat (float_result op a b)) else Err (EExpression NonFiniteResult)) = Ok r /\
          (t1 = TFloat64 \/ t2 = TFloat64 \/ number v = Err (EExpression NotNumeric) \/ number w = Err (EExpression NotNumeric)))
    as [(-> & (a & -> & Ha) & -> & (b & -> & Hb))|[Hf Ht]].
  { destruct t1, v; try done; destruct t2, w; try done; cbn in Hv, Hw; eauto 10. }
  - destruct (integer_result op a b) as [z|] eqn:E; cbn in Hr; simplify_eq. cbn. by apply (integer_result_range op a b).
  - apply bind_Ok in Hf as (a & Ha & (b & Hb & Hf)%bind_Ok). case_match; [done|]. case_match; [|done]. injection Hf as <-.
    destruct Ht as [->|[->|[?|?]]]; try congruence; destruct t1; done.
Qed.

Lemma binary_conforms op t1 t2 n1 n2 v w r :
  conforms t1 n1 v -> conforms t2 n2 w -> binary op v w = Ok r ->
  conforms match operator_kind op with KLogic _ | KCompare _ => TBoolean | KArithmetic _ => arithmetic_type t1 t2 end (n1 || n2) r.
Proof.
  intros Hv Hw. unfold binary. destruct (operator_kind op) as [b|c|a]; [by apply logic_conforms with t1 t2|..].
  all: destruct Hv as [[-> ->]|Hv]; [intros [= <-]; by left|].
  all: destruct Hw as [[-> ->]|Hw]; [rewrite orb_true_r; cbn; rewrite orb_true_r; intros [= <-]; by left|].
  all: replace (is_null v) with false by (by destruct v, t1); replace (is_null w) with false by (by destruct w, t2); cbn [orb].
  - apply compare_conforms.
  - by apply arithmetic_conforms.
Qed.

(** Type soundness of evaluation. *)
Lemma evaluate_conforms schema row e : schema_typed schema -> Forall value_wf row -> validate_row schema row = Ok tt -> expr_wf e ->
  forall t n v, infer_type e schema = Ok (t, n) -> evaluate e schema row = Ok v -> conforms t n v.
Proof.
  intros Hs Hrow Hv. induction e as [i|l sp|op e IH sp|e1 IH1 op e2 IH2 sp|e IH b sp|e IH sp]; intros Hwf t n v Ht He; cbn in Ht, He, Hwf.
  - destruct (column_position schema (id_value i)) as [p|]; cbn in Ht, He; [|done].
    destruct (t_columns schema !! p) as [c|] eqn:Ec; cbn in Ht; simplify_eq. destruct (row !! p) as [w|] eqn:Ew; cbn in He; simplify_eq.
    apply validate_conforms; [by eapply (Forall_lookup_1 _ _ _ _ Hs)|by eapply (Forall_lookup_1 _ _ _ _ Hrow)|by eapply validate_row_lookup].
  - destruct (literal_conforms l v Hwf He schema sp) as (t' & n' & Ht' & Hc). cbn in Ht'. congruence.
  - apply bind_Ok in He as (w & Hw & He). eapply unary_conforms; [|done]. by apply IH.
  - apply bind_Ok in He as (w1 & Hw1 & (w2 & Hw2 & He)%bind_Ok). apply bind_Ok in Ht as ([t1 n1] & Ht1 & ([t2 n2] & Ht2 & [= <- <-])%bind_Ok).
    destruct Hwf. eapply binary_conforms; eauto.
  - apply bind_Ok in He as (w & Hw & [= <-]). injection Ht as <- <-. by right.
  - by apply IH.
Qed.

(** Integers stay in range without any typing. *)
Lemma evaluate_wf schema row e v : Forall value_wf row -> expr_wf e -> evaluate e schema row = Ok v -> value_wf v.
Proof.
  intros Hrow. revert v. induction e as [i|l sp|op e IH sp|e1 IH1 op e2 IH2 sp|e IH b sp|e IH sp]; intros v Hwf He; cbn in He, Hwf.
  - destruct (column_position schema (id_value i)) as [p|]; cbn in He; [|done]. destruct (row !! p) as [w|] eqn:Ew; cbn in He; simplify_eq. by eapply (Forall_lookup_1 _ _ _ _ Hrow).
  - destruct l; cbn in He; simplify_eq; try done. by destruct (is_finite x); simplify_eq.
  - apply bind_Ok in He as (w & Hw & He). specialize (IH w Hwf Hw). unfold unary in He. destruct w, op; cbn in He; simplify_eq; try done.
    destruct (checked_i64 (- z)) as [y|] eqn:E; cbn in He; simplify_eq. by apply checked_i64_Some in E as [-> ?].
  - apply bind_Ok in He as (w1 & Hw1 & (w2 & Hw2 & He)%bind_Ok). destruct Hwf as [Hwf1 Hwf2]. specialize (IH1 w1 Hwf1 Hw1). specialize (IH2 w2 Hwf2 Hw2).
    unfold binary in He. destruct (operator_kind op) as [a|c|a].
    + unfold boolean_logic in He. apply bind_Ok in He as (x & _ & (y & _ & [= <-])%bind_Ok). by destruct a, x as [[]|], y as [[]|].
    + destruct (is_null w1 || is_null w2); [by injection He as <-|]. unfold compare in He. by apply bind_Ok in He as (f & _ & (o & _ & [= <-])%bind_Ok).
    + destruct (is_null w1 || is_null w2); [by injection He as <-|]. unfold arithmetic in He.
      assert ((exists x y, w1 = VInteger x /\ w2 = VInteger y) \/ exists x, v = VFloat x) as [(x & y & -> & ->)|[x ->]]; [| |done].
      { destruct w1, w2; try (by left; eauto); right; apply bind_Ok in He as (f & _ & (g & _ & He)%bind_Ok); case_match; try done; case_match; simplify_eq; eauto. }
      destruct (integer_result a x y) as [z|] eqn:E; cbn in He; simplify_eq. by apply (integer_result_range a x y).
  - by apply bind_Ok in He as (w & _ & [= <-]).
  - by apply IH.
Qed.

(** C26: Evaluation is typed: over a row that fits its table, the value of an
    expression has the type that was inferred for it, and is NULL only where
    the inference allows it. *)
Theorem evaluation_is_typed schema row e t n v : schema_typed schema -> Forall value_wf row -> validate_row schema row = Ok tt -> expr_wf e ->
  infer_type e schema = Ok (t, n) -> evaluate e schema row = Ok v -> conforms t n v.
Proof. intros Hs Hr Hv He. by apply evaluate_conforms. Qed.

(** [a + 1] over a row of one integer. *)
Lemma evaluation_is_typed_witness : conforms TInt64 true (VInteger 42).
Proof.
  set (sp := mkSpan 0 0). set (schema := mkTableSchema 1 1 [116] [mkColumnSchema [97] TInt64 true false false] None 1).
  apply (evaluation_is_typed schema [VInteger 41] (EBinary (EIdentifier (mkIdentifier [97] false sp)) Add (ELiteral (LInteger 1) sp) sp)).
  - repeat constructor; discriminate.
  - repeat constructor; cbv; congruence.
  - reflexivity.
  - cbv. split; [exact I|split; congruence].
  - reflexivity.
  - reflexivity.
Defined.
