(* ===== verification/Codec.v ===== *)
(** * Keys and records of the engine

    [engine/src/codec.rs]: the keys under which the catalog, rows, unique
    values and index entries are stored, the byte identity of a value, and
    the encoded records.  The JSON text of [serde_json] is the class [Serde]:
    what is written parses back to itself, for a row if its floats do. *)
From S2P Require Import Prelude Order Token F64 Ast Utf8 Schema.
From Stdlib Require Import Floats.SpecFloat.
Local Open Scope Z_scope.

Definition quanta_prefix (s : string) : list byte := x00 :: bytes_of_string s.

Definition CATALOG_PREFIX : list byte := quanta_prefix "quanta/catalog/table/".
Definition INDEX_CATALOG_PREFIX : list byte := quanta_prefix "quanta/catalog/index/".
Definition ROW_PREFIX : list byte := quanta_prefix "quanta/row/".
Definition UNIQUE_PREFIX : list byte := quanta_prefix "quanta/unique/".
Definition INDEX_ENTRY_PREFIX : list byte := quanta_prefix "quanta/index/".
Definition TABLE_ID_COUNTER_KEY : list byte := quanta_prefix "quanta/catalog/next_table_id".
Definition INDEX_ID_COUNTER_KEY : list byte := quanta_prefix "quanta/catalog/next_index_id".
Definition ROW_FORMAT_VERSION : Z := 1.

Record RowRecord := mkRowRecord {
  rr_format_version : Z;
  rr_values : list Value;
}.

(** ** JSON *)

Class Serde := {
  schema_to_vec : TableSchema -> option (list byte);
  schema_from_slice : list byte -> option TableSchema;
  index_to_vec : IndexSchema -> option (list byte);
  index_from_slice : list byte -> option IndexSchema;
  row_to_vec : RowRecord -> option (list byte);
  row_from_slice : list byte -> option RowRecord;
  (** The floats whose text parses back to them. *)
  json_exact : f64 -> Prop;
}.

Definition value_exact `{Serde} (v : Value) : Prop := match v with VFloat x => json_exact x | _ => True end.

Class SerdeLaws `{Serde} := {
  schema_json : forall s, exists bytes, schema_to_vec s = Some bytes /\ schema_from_slice bytes = Some s;
  index_json : forall x, exists bytes, index_to_vec x = Some bytes /\ index_from_slice bytes = Some x;
  row_json : forall version values, Forall value_exact values ->
    exists bytes, row_to_vec (mkRowRecord version values) = Some bytes /\ row_from_slice bytes = Some (mkRowRecord version values);
}.

(** ** Keys *)

(** [u32::try_from(length)], then its four bytes. *)
Definition length_prefix (e : EngineError) (bytes : list byte) : EResult (list byte) :=
  if blen bytes <=? U32_MAX then Ok (to_be 4 (blen bytes)) else Err e.

Definition component_key (prefix component : list byte) : EResult (list byte) :=
  length ← length_prefix (InvalidSchema IdentifierTooLarge) component;
  Ok (prefix ++ length ++ component).

Definition table_id_counter_key : list byte := TABLE_ID_COUNTER_KEY.
Definition catalog_key (name : str) : EResult (list byte) := component_key CATALOG_PREFIX (as_bytes name).
Definition index_id_counter_key : list byte := INDEX_ID_COUNTER_KEY.
Definition index_catalog_key (name : str) : EResult (list byte) := component_key INDEX_CATALOG_PREFIX (as_bytes name).
Definition index_catalog_prefix : list byte := INDEX_CATALOG_PREFIX.
Definition index_entry_prefix (index_id : Z) : list byte := INDEX_ENTRY_PREFIX ++ to_be 8 index_id.
Definition row_prefix (table_id : Z) : list byte := ROW_PREFIX ++ to_be 8 table_id.
Definition unique_prefix (table_id : Z) : list byte := UNIQUE_PREFIX ++ to_be 8 table_id.

(** The bits of a float, ordered as its total order: the sign bit is flipped
    if it is clear, every bit if it is set. *)
Definition ordered_bits (bits : Z) : Z :=
  if Z.shiftr bits 63 =? 0 then Z.lxor bits (2 ^ 63) else U64_MAX - bits.

Definition encode_identity (v : Value) : EResult (list byte) :=
  match v with
  | VNull => Err (ConstraintViolation NullKey)
  | VBoolean b => Ok [byte_of_Z 1; byte_of_Z (if b then 1 else 0)]
  | VInteger z => Ok (byte_of_Z 2 :: to_be 8 (Z.lxor (z mod 2 ^ 64) (2 ^ 63)))
  | VFloat x =>
      if is_finite x then Ok (byte_of_Z 3 :: to_be 8 (ordered_bits (f64_to_bits x)))
      else Err (InvalidRow NonFiniteKey)
  | VText s => Ok (byte_of_Z 4 :: as_bytes s)
  end.

Definition identity_part (v : Value) : EResult (list byte) :=
  identity ← encode_identity v;
  length ← length_prefix (InvalidRow IndexedValueTooLarge) identity;
  Ok (length ++ identity).

Definition index_value_prefix (index_id : Z) (values : list Value) : EResult (list byte) :=
  parts ← try_map identity_part values;
  Ok (index_entry_prefix index_id ++ mjoin parts).

Definition index_entry_key (index : IndexSchema) (values : list Value) (row_key : list byte) : EResult (list byte) :=
  key ← index_value_prefix (x_id index) values;
  if x_unique index then Ok key
  else
    length ← length_prefix (InvalidRow RowKeyTooLarge) row_key;
    Ok (key ++ length ++ row_key).

Definition unique_key (table_id : Z) (column : nat) (v : Value) : EResult (list byte) :=
  if U32_MAX <? Z.of_nat column then Err (InvalidSchema ColumnPositionTooLarge)
  else
    identity ← encode_identity v;
    Ok (unique_prefix table_id ++ to_be 4 (Z.of_nat column) ++ to_be 4 (blen identity) ++ identity).

Definition row_key (table_id : Z) (identity : list byte) : EResult (list byte) :=
  length ← length_prefix (InvalidRow RowIdentityTooLarge) identity;
  Ok (row_prefix table_id ++ length ++ identity).

(** ** Records *)

Section Records.
Context {SD : Serde}.

Definition encode_index (index : IndexSchema) : EResult (list byte) := ok_or (index_to_vec index) EEncoding.

Definition decode_index (bytes : list byte) : EResult IndexSchema :=
  index ← ok_or (index_from_slice bytes) EEncoding;
  if negb (x_format_version index =? 1) then Err (ECorruptRecord (UnsupportedIndexVersion (x_format_version index)))
  else Ok index.

Definition encode_schema (schema : TableSchema) : EResult (list byte) := ok_or (schema_to_vec schema) EEncoding.

Definition decode_schema (bytes : list byte) : EResult TableSchema :=
  schema ← ok_or (schema_from_slice bytes) EEncoding;
  if negb (t_format_version schema =? 1) then Err (ECorruptRecord (UnsupportedSchemaVersion (t_format_version schema)))
  else Ok schema.

Definition encode_row (values : list Value) : EResult (list byte) := ok_or (row_to_vec (mkRowRecord ROW_FORMAT_VERSION values)) EEncoding.

Definition decode_row (bytes : list byte) : EResult (list Value) :=
  row ← ok_or (row_from_slice bytes) EEncoding;
  if negb (rr_format_version row =? ROW_FORMAT_VERSION)
  then Err (ECorruptRecord (UnsupportedRowVersion (rr_format_version row)))
  else Ok (rr_values row).
End Records.

Definition encode_u64 (z : Z) : list byte := to_be 8 z.

Definition decode_u64 (bytes : list byte) : EResult Z :=
  if blen bytes =? 8 then Ok (from_be bytes) else Err (ECorruptRecord (NotEightBytes (blen bytes))).
