(* ===== verification/Engine.v ===== *)
(** * Statements

    [engine/src/access.rs] and [engine/src/database.rs]: how a table's rows
    are reached, and what every statement does inside a transaction.  The
    transaction is the interface [Kv]. *)
From S2P Require Import Prelude Order Token F64 Ast Utf8 Record Schema Expression Codec.
Local Open Scope Z_scope.

(** [quantadb_mvcc::Transaction], as far as the engine uses it. *)
Class Kv (T : Type) := {
  kv_get : list byte -> ST T TransactionError (option (list byte));
  kv_put : list byte -> list byte -> ST T TransactionError unit;
  kv_delete : list byte -> ST T TransactionError unit;
  kv_scan_prefix : list byte -> ST T TransactionError (list (list byte * list byte));
}.

(** A loop that carries a value: [for x in l { b = f(b, x)?; }]. *)
Fixpoint for_fold {S E A B} (f : B -> A -> ST S E B) (b : B) (l : list A) : ST S E B :=
  match l with
  | [] => mret b
  | x :: l => b' ← f b x; for_fold f b' l
  end.

(** ** The access path of a selection *)

Inductive AccessPath :=
| Scan
| Point (key : option (list byte))
| IndexPrefix (prefix : list byte).

Fixpoint is_constant (e : Expr) : bool :=
  match e with
  | EIdentifier _ => false
  | ELiteral _ _ => true
  | EUnary _ e _ | EIsNull e _ _ | EParenthesized e _ => is_constant e
  | EBinary l _ r _ => is_constant l && is_constant r
  end.

Definition equality_column_and_constant (e : Expr) : option (str * Expr) :=
  match e with
  | EBinary l Equal r _ =>
      match l, r with
      | EIdentifier identifier, constant =>
          if is_constant constant then Some (id_value identifier, constant)
          else None
      | constant, EIdentifier identifier =>
          if is_constant constant then Some (id_value identifier, constant) else None
      | _, _ => None
      end
  | _ => None
  end.

(** An integer constant for a float column is a float. *)
Definition coerce (v : Value) (data_type : LogicalType) : Value :=
  match v, data_type with
  | VInteger z, TFloat64 => VFloat (f64_of_Z z)
  | _, _ => v
  end.

Section Engine.
Context {T : Type} {KV : Kv T} {SD : Serde}.
Abbreviation TX := (ST T EngineError).

(** The [?] that turns a transaction error into an engine error. *)
Definition on_kv {A} (m : ST T TransactionError A) : TX A := fun t => let '(r, t') := m t in (map_err ETransaction r, t').

Definition load_schema (name : str) : TX TableSchema :=
  key ← lift (catalog_key name);
  found ← on_kv (kv_get key);
  bytes ← lift (ok_or found (TableNotFound name));
  lift (decode_schema bytes).

Definition load_table_indexes (table_id : Z) : TX (list IndexSchema) :=
  found ← on_kv (kv_scan_prefix index_catalog_prefix);
  indexes ← lift (try_map (fun x => decode_index x.2) found);
  mret (filter (fun i => x_table_id i = table_id) indexes).

(** The first index whose leading column is the column. *)
Fixpoint plan_index (column : nat) (v : Value) (indexes : list IndexSchema) : TX AccessPath :=
  match indexes with
  | [] => mret Scan
  | i :: indexes =>
      if negb (bool_decide (head (x_columns i) = Some column)) then plan_index column v indexes
      else
        prefix ← lift (index_value_prefix (x_id i) [v]);
        if x_unique i && (length (x_columns i) =? 1)%nat
        then owner ← on_kv (kv_get prefix); mret (Point owner)
        else mret (IndexPrefix prefix)
  end.

Definition plan_access (schema : TableSchema) (selection : option Expr) : TX AccessPath :=
  match selection ≫= equality_column_and_constant with
  | None => mret Scan
  | Some (column_name, expression) =>
      p ← lift (ok_or (column_position schema column_name) (ColumnNotFound column_name));
      column ← lift (index (t_columns schema) p);
      v ← lift (evaluate expression schema (replicate (length (t_columns schema)) VNull));
      if is_null v then mret (Point None)
      else
        let v := coerce v (c_data_type column) in
        _ ← lift (validate column v);
        if c_primary_key column then
          identity ← lift (encode_identity v);
          key ← lift (row_key (t_table_id schema) identity);
          mret (Point (Some key))
        else if c_unique column then
          key ← lift (unique_key (t_table_id schema) p v);
          owner ← on_kv (kv_get key);
          mret (Point owner)
        else
          indexes ← load_table_indexes (t_table_id schema);
          plan_index p v indexes
  end.

Abbreviation row := (list byte * list Value)%type.

Definition read_indexed_row (entry : list byte * list byte) : TX row :=
  found ← on_kv (kv_get entry.2);
  bytes ← lift (ok_or found (ECorruptRecord MissingIndexedRow));
  values ← lift (decode_row bytes);
  mret (entry.2, values).

Definition decode_entry (x : list byte * list byte) : EResult row :=
  values ← decode_row x.2;
  Ok (x.1, values).

Definition read_rows (schema : TableSchema) (selection : option Expr) : TX (list row) :=
  path ← plan_access schema selection;
  match path with
  | Scan => found ← on_kv (kv_scan_prefix (row_prefix (t_table_id schema))); lift (try_map decode_entry found)
  | Point None => mret []
  | Point (Some key) =>
      found ← on_kv (kv_get key);
      match found with
      | Some bytes => values ← lift (decode_row bytes); mret [(key, values)]
      | None => mret []
      end
  | IndexPrefix prefix =>
      entries ← on_kv (kv_scan_prefix prefix);
      collect entries read_indexed_row
  end.

(** ** Index entries and unique keys *)

Definition indexed_values (i : IndexSchema) (values : list Value) : EResult (option (list Value)) :=
  selected ← try_map (index values) (x_columns i);
  Ok (if existsb is_null selected then None else Some selected).

Definition add_index_entry (values : list Value) (row_key : list byte) (i : IndexSchema) : TX unit :=
  selected ← lift (indexed_values i values);
  match selected with
  | None => mret tt
  | Some selected =>
      entry ← lift (index_entry_key i selected row_key);
      _ ← (if x_unique i then
             owner ← on_kv (kv_get entry);
             lift (match owner with Some _ => Err (ConstraintViolation (DuplicateIndex (x_name i))) | None => Ok tt end)
           else mret tt);
      on_kv (kv_put entry row_key)
  end.

Definition add_index_entries (indexes : list IndexSchema) (values : list Value) (row_key : list byte) : TX unit :=
  for_each indexes (add_index_entry values row_key).

Definition remove_index_entry (values : list Value) (row_key : list byte) (i : IndexSchema) : TX unit :=
  selected ← lift (indexed_values i values);
  match selected with
  | None => mret tt
  | Some selected => entry ← lift (index_entry_key i selected row_key); on_kv (kv_delete entry)
  end.

Definition remove_index_entries (indexes : list IndexSchema) (values : list Value) (row_key : list byte) : TX unit :=
  for_each indexes (remove_index_entry values row_key).

(** [iter().enumerate()]. *)
Definition enumerate {A} (l : list A) : list (nat * A) := zip (seq 0 (length l)) l.

Definition clashes (candidate other : list Value) (x : nat * ColumnSchema) : EResult unit :=
  if c_unique x.2 || c_primary_key x.2 then
    v ← index candidate x.1;
    if is_null v then Ok tt
    else
      w ← index other x.1;
      if value_eqb v w then Err (ConstraintViolation (DuplicateColumn (c_name x.2))) else Ok tt
  else Ok tt.

Definition validate_unique_values (schema : TableSchema) (candidate : list Value) (rows : list (list Value)) : EResult unit :=
  try_fold (fun _ other => try_fold (fun _ => clashes candidate other) tt (enumerate (t_columns schema))) tt rows.

Definition validate_unique_excluding (schema : TableSchema) (candidate : list Value) (rows : list row) (excluded : nat) : EResult unit :=
  validate_unique_values schema candidate ((fun x => x.2.2) <$> filter (fun x => x.1 <> excluded) (enumerate rows)).

(** The column holds unique values under keys of their own. *)
Definition keyed (column : ColumnSchema) : bool := c_unique column && negb (c_primary_key column).

Definition acquire_unique_key (schema : TableSchema) (values : list Value) (row_key : list byte) (x : nat * ColumnSchema) : TX unit :=
  if keyed x.2 then
    v ← lift (index values x.1);
    if is_null v then mret tt
    else
      key ← lift (unique_key (t_table_id schema) x.1 v);
      owner ← on_kv (kv_get key);
      match owner with
      | Some _ => throw (ConstraintViolation (DuplicateColumn (c_name x.2)))
      | None => on_kv (kv_put key row_key)
      end
  else mret tt.

Definition acquire_unique_keys (schema : TableSchema) (values : list Value) (row_key : list byte) : TX unit :=
  for_each (enumerate (t_columns schema)) (acquire_unique_key schema values row_key).

Definition release_unique_key (schema : TableSchema) (values : list Value) (x : nat * ColumnSchema) : TX unit :=
  if keyed x.2 then
    v ← lift (index values x.1);
    if is_null v then mret tt
    else key ← lift (unique_key (t_table_id schema) x.1 v); on_kv (kv_delete key)
  else mret tt.

Definition release_unique_keys (schema : TableSchema) (values : list Value) : TX unit :=
  for_each (enumerate (t_columns schema)) (release_unique_key schema values).

Definition update_unique_key (schema : TableSchema) (old new : list Value) (old_row_key new_row_key : list byte) (x : nat * ColumnSchema) : TX unit :=
  if negb (keyed x.2) then mret tt
  else
    o ← lift (index old x.1);
    n ← lift (index new x.1);
    let value_changed := negb (value_eqb o n) in
    let row_key_changed := negb (bool_decide (old_row_key = new_row_key)) in
    if negb value_changed && negb row_key_changed then mret tt
    else
      _ ← (if is_null n then mret tt
           else
             key ← lift (unique_key (t_table_id schema) x.1 n);
             owner ← on_kv (kv_get key);
             match owner with
             | Some _ => if value_changed then throw (ConstraintViolation (DuplicateColumn (c_name x.2)))
                         else on_kv (kv_put key new_row_key)
             | None => on_kv (kv_put key new_row_key)
             end);
      if value_changed && negb (is_null o)
      then key ← lift (unique_key (t_table_id schema) x.1 o); on_kv (kv_delete key)
      else mret tt.

Definition update_unique_keys (schema : TableSchema) (old new : list Value) (old_row_key new_row_key : list byte) : TX unit :=
  for_each (enumerate (t_columns schema)) (update_unique_key schema old new old_row_key new_row_key).

(** ** Statements that change rows *)

Definition command (tag : string) (affected_rows : Z) : StatementOutput := OCommand tag affected_rows.

Fixpoint resolve_assignments (schema : TableSchema) (seen : list nat) (assignments : list Assignment) : EResult (list (nat * Expr)) :=
  match assignments with
  | [] => Ok []
  | a :: assignments =>
      p ← ok_or (column_position schema (id_value (as_column a))) (ColumnNotFound (id_value (as_column a)));
      if bool_decide (p ∈ seen) then Err (InvalidRow (AssignedTwice (id_value (as_column a))))
      else rest ← resolve_assignments schema (p :: seen) assignments; Ok ((p, as_value a) :: rest)
  end.

Definition is_selected (schema : TableSchema) (selection : option Expr) (values : list Value) : EResult bool :=
  match selection with
  | Some selection => predicate selection schema values
  | None => Ok true
  end.

Definition assign (schema : TableSchema) (original updated : list Value) (x : nat * Expr) : EResult (list Value) :=
  v ← evaluate x.2 schema original;
  column ← index (t_columns schema) x.1;
  index_set updated x.1 (coerce v (c_data_type column)).

Definition updated_key (schema : TableSchema) (updated : list Value) (old_key : list byte) : EResult (list byte) :=
  match t_primary_key schema with
  | Some primary_key =>
      v ← index updated primary_key;
      identity ← encode_identity v;
      row_key (t_table_id schema) identity
  | None => Ok old_key
  end.

Definition update_row (schema : TableSchema) (assignments : list (nat * Expr)) (selection : option Expr) (indexes : list IndexSchema)
    (x : list row * Z) (p : nat) : TX (list row * Z) :=
  let '(rows, affected) := x in
  r ← lift (index rows p);
  let '(old_key, original) := r in
  selected ← lift (is_selected schema selection original);
  if negb selected then mret (rows, affected)
  else
    updated ← lift (try_fold (assign schema original) original assignments);
    _ ← lift (validate_row schema updated);
    _ ← lift (validate_unique_excluding schema updated rows p);
    new_key ← lift (updated_key schema updated old_key);
    _ ← update_unique_keys schema original updated old_key new_key;
    _ ← remove_index_entries indexes original old_key;
    _ ← add_index_entries indexes updated new_key;
    _ ← (if bool_decide (new_key <> old_key) then
           existing ← on_kv (kv_get new_key);
           if match existing with Some _ => true | None => false end ||
              existsb (fun y => negb (y.1 =? p)%nat && bool_decide (y.2.1 = new_key)) (enumerate rows)
           then throw (ConstraintViolation DuplicatePrimaryKey)
           else on_kv (kv_delete old_key)
         else mret tt);
    bytes ← lift (encode_row updated);
    _ ← on_kv (kv_put new_key bytes);
    rows ← lift (index_set rows p (new_key, updated));
    mret (rows, affected + 1).

Definition execute_update (update : Update) : TX StatementOutput :=
  schema ← load_schema (id_value (up_table update));
  assignments ← lift (resolve_assignments schema [] (up_assignments update));
  rows ← read_rows schema (up_selection update);
  indexes ← load_table_indexes (t_table_id schema);
  x ← for_fold (update_row schema assignments (up_selection update) indexes) (rows, 0) (seq 0 (length rows));
  mret (command "UPDATE" x.2).

Definition delete_row (schema : TableSchema) (selection : option Expr) (indexes : list IndexSchema) (affected : Z) (r : row) : TX Z :=
  _ ← lift (validate_row schema r.2);
  selected ← lift (is_selected schema selection r.2);
  if (selected : bool) then
    _ ← release_unique_keys schema r.2;
    _ ← remove_index_entries indexes r.2 r.1;
    _ ← on_kv (kv_delete r.1);
    mret (affected + 1)
  else mret affected.

Definition execute_delete (delete : Delete) : TX StatementOutput :=
  schema ← load_schema (id_value (del_table delete));
  indexes ← load_table_indexes (t_table_id schema);
  rows ← read_rows schema (del_selection delete);
  affected ← for_fold (delete_row schema (del_selection delete) indexes) 0 rows;
  mret (command "DELETE" affected).

Fixpoint resolve_columns (schema : TableSchema) (seen : list str) (columns : list Identifier) : EResult (list nat) :=
  match columns with
  | [] => Ok []
  | c :: columns =>
      if bool_decide (id_value c ∈ seen) then Err (InvalidRow (ListedTwice (id_value c)))
      else
        p ← ok_or (column_position schema (id_value c)) (ColumnNotFound (id_value c));
        rest ← resolve_columns schema (id_value c :: seen) columns;
        Ok (p :: rest)
  end.

Definition insert_positions (schema : TableSchema) (columns : list Identifier) : EResult (list nat) :=
  match columns with
  | [] => Ok (seq 0 (length (t_columns schema)))
  | _ => resolve_columns schema [] columns
  end.

Definition fill (schema : TableSchema) (values : list Value) (x : Expr * nat) : EResult (list Value) :=
  v ← evaluate x.1 schema values;
  column ← index (t_columns schema) x.2;
  index_set values x.2 (coerce v (c_data_type column)).

Definition set_next_row_id (id : Z) (s : TableSchema) : TableSchema :=
  mkTableSchema (t_format_version s) (t_table_id s) (t_name s) (t_columns s) (t_primary_key s) id.

(** The identity of a new row: its primary key, or the next hidden ID. *)
Definition new_identity (schema : TableSchema) (values : list Value) : EResult (list byte * TableSchema) :=
  match t_primary_key schema with
  | Some primary_key =>
      v ← index values primary_key;
      identity ← encode_identity v;
      Ok (identity, schema)
  | None =>
      next ← ok_or (checked_add U64_MAX (t_next_row_id schema) 1) (ConstraintViolation RowIdsExhausted);
      Ok (to_be 8 (t_next_row_id schema), set_next_row_id next schema)
  end.

Definition insert_row (positions : list nat) (existing_rows : list (list Value)) (indexes : list IndexSchema)
    (x : TableSchema * list (list Value)) (expressions : list Expr) : TX (TableSchema * list (list Value)) :=
  let '(schema, new_rows) := x in
  if negb (length expressions =? length positions)%nat
  then throw (InvalidRow (InsertArity (blen positions) (blen expressions)))
  else
    values ← lift (try_fold (fill schema) (replicate (length (t_columns schema)) VNull) (zip expressions positions));
    _ ← lift (validate_row schema values);
    _ ← lift (validate_unique_values schema values (existing_rows ++ new_rows));
    ids ← lift (new_identity schema values);
    let '(identity, schema) := ids in
    key ← lift (row_key (t_table_id schema) identity);
    existing ← on_kv (kv_get key);
    _ ← lift (match existing with Some _ => Err (ConstraintViolation DuplicatePrimaryKey) | None => Ok tt end);
    _ ← acquire_unique_keys schema values key;
    _ ← add_index_entries indexes values key;
    bytes ← lift (encode_row values);
    _ ← on_kv (kv_put key bytes);
    mret (schema, new_rows ++ [values]).

Definition execute_insert (insert : Insert) : TX StatementOutput :=
  schema_key ← lift (catalog_key (id_value (ins_table insert)));
  schema ← load_schema (id_value (ins_table insert));
  positions ← lift (insert_positions schema (ins_columns insert));
  found ← on_kv (kv_scan_prefix (row_prefix (t_table_id schema)));
  existing_rows ← lift (try_map (fun x => decode_row x.2) found);
  indexes ← load_table_indexes (t_table_id schema);
  x ← for_fold (insert_row positions existing_rows indexes) (schema, []) (ins_rows insert);
  let '(schema, new_rows) := x in
  _ ← (match t_primary_key schema with
       | None => bytes ← lift (encode_schema schema); on_kv (kv_put schema_key bytes)
       | Some _ => mret tt
       end : TX unit);
  mret (command "INSERT" (blen new_rows)).

(** ** Queries *)

Definition expression_name (e : Expr) : str :=
  match e with
  | EIdentifier identifier => id_value identifier
  | _ => chars "?column?"
  end.

Definition item_columns (schema : TableSchema) (item : SelectItem) : EResult (list OutputColumn) :=
  match item with
  | Wildcard _ => Ok ((fun c => mkOutputColumn (c_name c) (c_data_type c) (c_nullable c)) <$> t_columns schema)
  | ItemExpression expression alias _ =>
      t ← infer_type expression schema;
      Ok [mkOutputColumn match alias with Some identifier => id_value identifier | None => expression_name expression end t.1 t.2]
  end.

Definition projection_columns (schema : TableSchema) (projection : list SelectItem) : EResult (list OutputColumn) :=
  columns ← try_map (item_columns schema) projection;
  Ok (concat columns).

Definition project_item (schema : TableSchema) (values : list Value) (item : SelectItem) : EResult (list Value) :=
  match item with
  | Wildcard _ => Ok values
  | ItemExpression expression _ _ => v ← evaluate expression schema values; Ok [v]
  end.

Definition project (schema : TableSchema) (projection : list SelectItem) (values : list Value) : EResult (list Value) :=
  items ← try_map (project_item schema values) projection;
  Ok (concat items).

Definition type_rank (v : Value) : Z :=
  match v with VNull => 0 | VBoolean _ => 1 | VInteger _ | VFloat _ => 2 | VText _ => 3 end.

Definition compare_sort_values (a b : Value) : comparison :=
  match a, b with
  | VNull, VNull => Eq
  | VNull, _ => Gt
  | _, VNull => Lt
  | VInteger x, VInteger y => x ?= y
  | VFloat x, VFloat y => f64_total_cmp x y
  | VInteger x, VFloat y => f64_total_cmp (f64_of_Z x) y
  | VFloat x, VInteger y => f64_total_cmp x (f64_of_Z y)
  | VBoolean x, VBoolean y => bool_cmp x y
  | VText x, VText y => str_cmp x y
  | _, _ => type_rank a ?= type_rank b
  end.

(** Both lists hold one value for each key. *)
Fixpoint compare_order_keys (order_by : list OrderKey) (a b : list Value) : comparison :=
  match order_by, a, b with
  | key :: order_by, x :: a, y :: b =>
      let ordering := compare_sort_values x y in
      match (if ok_descending key then CompOpp ordering else ordering) with
      | Eq => compare_order_keys order_by a b
      | ordering => ordering
      end
  | _, _, _ => Eq
  end.

(** [slice::sort_by], which is stable. *)
Fixpoint sort_insert {A} (cmp : A -> A -> comparison) (x : A) (l : list A) : list A :=
  match l with
  | [] => [x]
  | y :: l => match cmp x y with Gt => y :: sort_insert cmp x l | _ => x :: y :: l end
  end.

Definition sort_by {A} (cmp : A -> A -> comparison) (l : list A) : list A := foldr (sort_insert cmp) [] l.

(** The loop over the rows: the projected rows, in order, until the limit,
    or the rows with their sort keys. *)
Fixpoint select_rows (schema : TableSchema) (select : Select) (found : list row) (rows : list (list Value)) (sortable : list (list Value * list Value)) :
    EResult (list (list Value) * list (list Value * list Value)) :=
  match found with
  | [] => Ok (rows, sortable)
  | (_, values) :: found =>
      _ ← validate_row schema values;
      selected ← is_selected schema (sel_selection select) values;
      if negb selected then select_rows schema select found rows sortable
      else
        projected ← project schema (sel_projection select) values;
        match sel_order_by select with
        | [] =>
            let rows := rows ++ [projected] in
            if match sel_limit select with Some limit => limit <=? blen rows | None => false end then Ok (rows, sortable)
            else select_rows schema select found rows sortable
        | order_by =>
            keys ← try_map (fun key => evaluate (ok_expression key) schema values) order_by;
            select_rows schema select found rows (sortable ++ [(keys, projected)])
        end
  end.

Definition execute_select (select : Select) : TX StatementOutput :=
  schema ← load_schema (id_value (sel_from select));
  columns ← lift (projection_columns schema (sel_projection select));
  _ ← lift (try_map (fun key => infer_type (ok_expression key) schema) (sel_order_by select));
  if bool_decide (sel_limit select = Some 0) then mret (OQuery columns [])
  else
    found ← read_rows schema (sel_selection select);
    x ← lift (select_rows schema select found [] []);
    let '(rows, sortable) := x in
    mret (OQuery columns
      match sel_order_by select with
      | [] => rows
      | order_by =>
          let sorted := sort_by (fun a b => compare_order_keys order_by a.1 b.1) sortable in
          (match sel_limit select with Some limit => take (Z.to_nat limit) sorted | None => sorted end).*2
      end).

(** ** Statements on the catalog *)

(** The next ID of a counter, and the one after it. *)
Definition next_id (counter : list byte) (exhausted : SchemaFault) : TX (Z * Z) :=
  found ← on_kv (kv_get counter);
  id ← lift (match found with None => Ok 1 | Some bytes => decode_u64 bytes end);
  following ← lift (ok_or (checked_add U64_MAX id 1) (InvalidSchema exhausted));
  mret (id, following).

Definition execute_create_table (create : CreateTable) : TX StatementOutput :=
  key ← lift (catalog_key (id_value (ct_name create)));
  found ← on_kv (kv_get key);
  match found with
  | Some _ => if ct_if_not_exists create then mret (command "CREATE TABLE" 0) else throw (TableAlreadyExists (id_value (ct_name create)))
  | None =>
      ids ← next_id table_id_counter_key TableIdsExhausted;
      schema ← lift (from_create ids.1 create);
      bytes ← lift (encode_schema schema);
      _ ← on_kv (kv_put key bytes);
      _ ← on_kv (kv_put table_id_counter_key (encode_u64 ids.2));
      mret (command "CREATE TABLE" 0)
  end.

(** [for (key, _) in transaction.scan_prefix(prefix)? { transaction.delete(key)?; }] *)
Definition delete_prefix (prefix : list byte) : TX unit :=
  found ← on_kv (kv_scan_prefix prefix);
  for_each found (fun x => on_kv (kv_delete x.1)).

Definition drop_index_of_table (i : IndexSchema) : TX unit :=
  _ ← delete_prefix (index_entry_prefix (x_id i));
  key ← lift (index_catalog_key (x_name i));
  on_kv (kv_delete key).

Definition execute_drop_table (drop : DropTable) : TX StatementOutput :=
  key ← lift (catalog_key (id_value (dt_name drop)));
  found ← on_kv (kv_get key);
  match found with
  | None => if dt_if_exists drop then mret (command "DROP TABLE" 0) else throw (TableNotFound (id_value (dt_name drop)))
  | Some encoded =>
      schema ← lift (decode_schema encoded);
      _ ← delete_prefix (row_prefix (t_table_id schema));
      _ ← delete_prefix (unique_prefix (t_table_id schema));
      indexes ← load_table_indexes (t_table_id schema);
      _ ← for_each indexes drop_index_of_table;
      _ ← on_kv (kv_delete key);
      mret (command "DROP TABLE" 0)
  end.

Fixpoint index_columns (schema : TableSchema) (columns : list nat) (identifiers : list Identifier) : EResult (list nat) :=
  match identifiers with
  | [] => Ok columns
  | i :: identifiers =>
      p ← ok_or (column_position schema (id_value i)) (ColumnNotFound (id_value i));
      if bool_decide (p ∈ columns) then Err (InvalidSchema (RepeatedIndexColumn (id_value i)))
      else index_columns schema (columns ++ [p]) identifiers
  end.

Definition index_existing_row (i : IndexSchema) (x : list byte * list byte) : TX unit :=
  values ← lift (decode_row x.2);
  add_index_entries [i] values x.1.

Definition execute_create_index (create : CreateIndex) : TX StatementOutput :=
  index_key ← lift (index_catalog_key (id_value (ci_name create)));
  found ← on_kv (kv_get index_key);
  match found with
  | Some _ => if ci_if_not_exists create then mret (command "CREATE INDEX" 0) else throw (IndexAlreadyExists (id_value (ci_name create)))
  | None =>
      schema ← load_schema (id_value (ci_table create));
      columns ← lift (index_columns schema [] (ci_columns create));
      ids ← next_id index_id_counter_key IndexIdsExhausted;
      let i := mkIndexSchema 1 ids.1 (id_value (ci_name create)) (t_table_id schema) columns (ci_unique create) in
      _ ← on_kv (kv_put index_id_counter_key (encode_u64 ids.2));
      bytes ← lift (encode_index i);
      _ ← on_kv (kv_put index_key bytes);
      rows ← on_kv (kv_scan_prefix (row_prefix (t_table_id schema)));
      _ ← for_each rows (index_existing_row i);
      mret (command "CREATE INDEX" 0)
  end.

Definition execute_drop_index (drop : DropIndex) : TX StatementOutput :=
  index_key ← lift (index_catalog_key (id_value (di_name drop)));
  found ← on_kv (kv_get index_key);
  match found with
  | None => if di_if_exists drop then mret (command "DROP INDEX" 0) else throw (IndexNotFound (id_value (di_name drop)))
  | Some bytes =>
      i ← lift (decode_index bytes);
      _ ← delete_prefix (index_entry_prefix (x_id i));
      _ ← on_kv (kv_delete index_key);
      mret (command "DROP INDEX" 0)
  end.

Definition execute_in_transaction (statement : Statement) : TX StatementOutput :=
  match statement with
  | SCreateTable create => execute_create_table create
  | SDropTable drop => execute_drop_table drop
  | SCreateIndex create => execute_create_index create
  | SDropIndex drop => execute_drop_index drop
  | SInsert insert => execute_insert insert
  | SSelect select => execute_select select
  | SUpdate update => execute_update update
  | SDelete delete => execute_delete delete
  | other => throw (Unsupported other)
  end.
End Engine.
