(* ===== verification/CodecFacts.v ===== *)
(** * The keys of the engine

    Keys of different kinds never meet, a key determines what it was made
    from, a scan by a prefix finds exactly what belongs to it, and the
    identity of a value sorts as the value. *)
From S2P Require Import Prelude Order Token F64 Ast Utf8 Schema Expression Codec Engine.
From Stdlib Require Import Floats.SpecFloat.
Local Open Scope Z_scope.

(** ** Big-endian numbers sort as numbers *)

Lemma to_le_snoc n z : to_le (S n) z = to_le n z ++ [byte_of_Z (z / 256 ^ Z.of_nat n)].
Proof.
  revert z. induction n as [|n IH]; intros z; [cbn; by rewrite Z.div_1_r|].
  cbn [to_le]. cbn [to_le] in IH. rewrite IH. cbn [app]. do 3 f_equal.
  rewrite Z.div_div by lia. do 2 f_equal. rewrite Nat2Z.inj_succ, Z.pow_succ_r by lia. lia.
Qed.

Lemma to_be_cons n z : to_be (S n) z = byte_of_Z (z / 256 ^ Z.of_nat n) :: to_be n z.
Proof. unfold to_be. by rewrite to_le_snoc, reverse_app. Qed.

Lemma to_le_mod n z m : (n <= m)%nat -> to_le n (z mod 256 ^ Z.of_nat m) = to_le n z.
Proof.
  revert z m. induction n as [|n IH]; intros z [|m] Hle; cbn [to_le]; try done; [lia|].
  rewrite Nat2Z.inj_succ, Z.pow_succ_r by lia.
  assert (0 < 256 ^ Z.of_nat m) by lia.
  f_equal.
  - apply byte_to_Z_inj. rewrite !byte_to_of_Z. rewrite Z.rem_mul_r by lia. rewrite <- Z.add_mod_idemp_r by lia.
    rewrite (Z.mul_comm 256), Z.mod_mul, Z.add_0_r, Z.mod_mod by lia. done.
  - rewrite Z.rem_mul_r by lia. rewrite (Z.mul_comm 256 (_ mod _)), Z.div_add by lia.
    rewrite (Z.div_small (z mod 256)) by (apply Z.mod_pos_bound; lia). rewrite Z.add_0_l. apply IH. lia.
Qed.

Lemma to_be_mod n z : to_be n (z mod 256 ^ Z.of_nat n) = to_be n z.
Proof. unfold to_be. by rewrite to_le_mod. Qed.

Lemma to_be_cmp n a b x y : 0 <= a < 256 ^ Z.of_nat n -> 0 <= b < 256 ^ Z.of_nat n ->
  bytes_cmp (to_be n a ++ x) (to_be n b ++ y) = match a ?= b with Eq => bytes_cmp x y | c => c end.
Proof.
  revert a b. induction n as [|n IH]; intros a b Ha Hb.
  - change (256 ^ Z.of_nat 0) with 1 in *. assert (a = 0) as -> by lia. by assert (b = 0) as -> by lia.
  - rewrite Nat2Z.inj_succ, Z.pow_succ_r in * by lia. rewrite !to_be_cons. cbn [app bytes_cmp].
    set (p := 256 ^ Z.of_nat n) in *. assert (0 < p) by (subst p; lia).
    assert (0 <= a / p < 256) by (split; [apply Z.div_pos; lia|apply Z.div_lt_upper_bound; lia]).
    assert (0 <= b / p < 256) by (split; [apply Z.div_pos; lia|apply Z.div_lt_upper_bound; lia]).
    rewrite !byte_of_Z_small by done. rewrite <- (to_be_mod n a), <- (to_be_mod n b). fold p.
    pose proof (Z.mod_pos_bound a p ltac:(lia)). pose proof (Z.mod_pos_bound b p ltac:(lia)).
    rewrite IH by done. pose proof (Z.div_mod a p ltac:(lia)). pose proof (Z.div_mod b p ltac:(lia)).
    destruct (Z.compare_spec (a / p) (b / p)), (Z.compare_spec (a mod p) (b mod p)), (Z.compare_spec a b); try done; nia.
Qed.

(** ** Float bits *)

Lemma digits2_pos_bounds m : 2 ^ (Zpos (digits2_pos m) - 1) <= Zpos m < 2 ^ Zpos (digits2_pos m).
Proof.
  induction m as [m IH|m IH|]; cbn [digits2_pos]; rewrite ?Pos2Z.inj_succ; [| |done].
  all: replace (Z.succ (Zpos (digits2_pos m)) - 1) with (Z.succ (Zpos (digits2_pos m) - 1)) by lia; rewrite !Z.pow_succ_r by lia; lia.
Qed.

(** The mantissa and exponent of a finite float that exists. *)
Lemma valid_finite s m e : f64_valid (S754_finite s m e) ->
  Zpos m < 2 ^ 53 /\ -1074 <= e <= 971 /\ (Zpos m < 2 ^ 52 -> e = -1074).
Proof.
  unfold f64_valid, valid_binary, bounded, canonical_mantissa, fexp, SpecFloat.emin, prec, emax. intros Hv. bool_to_prop.
  pose proof (digits2_pos_bounds m) as [Hlo Hhi]. set (d := Zpos (digits2_pos m)) in *.
  assert (d <= 53) as Hd by lia. split; [|split; [lia|]].
  - eapply Z.lt_le_trans; [exact Hhi|]. apply Z.pow_le_mono_r; lia.
  - intros Hm. assert (d <= 52); [|lia]. destruct (Z.le_gt_cases d 52); [done|].
    assert (2 ^ 52 <= 2 ^ (d - 1)) by (apply Z.pow_le_mono_r; lia). lia.
Qed.

(** The bits below the sign bit. *)
Definition magnitude (x : f64) : Z :=
  match x with
  | S754_finite _ m e => if Zpos m <? 2 ^ 52 then Zpos m else (e + 1075) * 2 ^ 52 + (Zpos m - 2 ^ 52)
  | _ => 0
  end.

Definition negative (x : f64) : bool := match x with S754_zero s | S754_finite s _ _ => s | _ => false end.

Lemma bits_parts x : is_finite x = true -> f64_to_bits x = (if negative x then 2 ^ 63 else 0) + magnitude x.
Proof. destruct x as [s| | |s m e]; try done; intros _; cbn [f64_to_bits negative magnitude]; [lia|]. case_match; lia. Qed.

Lemma magnitude_range x : f64_valid x -> 0 <= magnitude x < 2 ^ 63.
Proof.
  destruct x as [| | |s m e]; cbn [magnitude]; [lia..|]. intros (Hm & He & Hs)%valid_finite. case_match; bool_to_prop; lia.
Qed.

Lemma finite_bits_inj x y : is_finite x = true -> is_finite y = true -> f64_valid x -> f64_valid y -> f64_to_bits x = f64_to_bits y -> x = y.
Proof.
  intros Hx Hy Vx Vy. rewrite !bits_parts by done. pose proof (magnitude_range x Vx). pose proof (magnitude_range y Vy). intros Heq.
  assert (negative x = negative y /\ magnitude x = magnitude y) as [Hn Hm] by (destruct (negative x), (negative y); lia || (split; [done|lia])).
  clear Heq. destruct x as [s| | |s m e], y as [s'| | |s' m' e']; try done; cbn [negative magnitude] in *; subst s'.
  - done.
  - apply valid_finite in Vy as (? & ? & ?). case_match; bool_to_prop; lia.
  - apply valid_finite in Vx as (? & ? & ?). case_match; bool_to_prop; lia.
  - apply valid_finite in Vx as (? & ? & Hsx). apply valid_finite in Vy as (? & ? & Hsy).
    assert (e = e' /\ Zpos m = Zpos m') as [-> [= ->]]; [|done].
    destruct (Zpos m <? 2 ^ 52) eqn:E1, (Zpos m' <? 2 ^ 52) eqn:E2; bool_to_prop; lia.
Qed.

(** Flipping the top bit of a number that has it clear. *)
Lemma flip_top a : 0 <= a < 2 ^ 63 -> Z.lxor a (2 ^ 63) = 2 ^ 63 + a.
Proof.
  intros Ha. rewrite <- Z.add_nocarry_lxor; [lia|]. apply Z.bits_inj'. intros i Hi. rewrite Z.land_spec, Z.pow2_bits_eqb, Z.bits_0 by lia.
  destruct (Z.eqb_spec 63 i) as [<-|]; [|by rewrite andb_false_r].
  rewrite andb_true_r. apply Z.testbit_false; [lia|]. by rewrite Z.div_small by lia.
Qed.

Lemma ordered_bits_parts x : is_finite x = true -> f64_valid x ->
  ordered_bits (f64_to_bits x) = if negative x then 2 ^ 63 - 1 - magnitude x else 2 ^ 63 + magnitude x.
Proof.
  intros Hf Hv. pose proof (magnitude_range x Hv). rewrite bits_parts by done. unfold ordered_bits. rewrite Z.shiftr_div_pow2 by lia.
  destruct (negative x).
  - replace ((2 ^ 63 + magnitude x) / 2 ^ 63) with 1; [unfold U64_MAX; cbn [Z.eqb]; lia|].
    apply (Z.div_unique _ _ 1 (magnitude x)); lia.
  - rewrite Z.div_small by lia. cbn [Z.eqb]. rewrite Z.add_0_l. by apply flip_top.
Qed.

Lemma total_key_parts x : is_finite x = true -> f64_valid x ->
  total_key (f64_to_bits x) = if negative x then - magnitude x - 1 else magnitude x.
Proof.
  intros Hf Hv. pose proof (magnitude_range x Hv). rewrite bits_parts by done. unfold total_key. destruct (negative x); case_match; bool_to_prop; lia.
Qed.

(** ** Identities sort as values *)

(** Two values of one type, with the ranges that the machine gives them. *)
Definition same_type (a b : Value) : Prop :=
  match a, b with
  | VBoolean _, VBoolean _ => True
  | VInteger x, VInteger y => is_i64 x /\ is_i64 y
  | VFloat x, VFloat y => f64_valid x /\ f64_valid y
  | VText x, VText y => True
  | _, _ => False
  end.

Lemma flip_i64 z : is_i64 z -> Z.lxor (z mod 2 ^ 64) (2 ^ 63) = z + 2 ^ 63.
Proof.
  unfold is_i64, I64_MIN, I64_MAX. intros Hz. destruct (Z.le_gt_cases 0 z) as [Hp|Hp].
  - rewrite Z.mod_small by lia. rewrite flip_top by lia. lia.
  - replace (z mod 2 ^ 64) with (Z.lxor (z + 2 ^ 63) (2 ^ 63)).
    + rewrite Z.lxor_assoc, Z.lxor_nilpotent, Z.lxor_0_r. done.
    + rewrite flip_top by lia. symmetry. rewrite <- (Z.mod_add z 1) by lia. rewrite Z.mod_small by lia. lia.
Qed.

Lemma bytes_cmp_head x a b : bytes_cmp (x :: a) (x :: b) = bytes_cmp a b.
Proof. cbn. by rewrite Z.compare_refl. Qed.

Lemma to_be_cmp_all n a b : 0 <= a < 256 ^ Z.of_nat n -> 0 <= b < 256 ^ Z.of_nat n -> bytes_cmp (to_be n a) (to_be n b) = (a ?= b).
Proof. intros. rewrite <- (app_nil_r (to_be n a)), <- (app_nil_r (to_be n b)), to_be_cmp by done. by destruct (a ?= b). Qed.

Lemma identity_cmp a b x y : same_type a b -> encode_identity a = Ok x -> encode_identity b = Ok y -> bytes_cmp x y = compare_sort_values a b.
Proof.
  destruct a as [|p|p|p|p], b as [|q|q|q|q]; try done; cbn [same_type encode_identity compare_sort_values].
  - intros _ [= <-] [= <-]. by destruct p, q.
  - intros [Hp Hq] [= <-] [= <-]. rewrite bytes_cmp_head, !flip_i64 by done. unfold is_i64, I64_MIN, I64_MAX in *.
    rewrite to_be_cmp_all by (change (256 ^ Z.of_nat 8) with (2 ^ 64); lia).
    destruct (Z.compare_spec (p + 2 ^ 63) (q + 2 ^ 63)), (Z.compare_spec p q); try done; lia.
  - intros [Vp Vq]. destruct (is_finite p) eqn:Fp; [|done]. destruct (is_finite q) eqn:Fq; [|done]. intros [= <-] [= <-].
    rewrite bytes_cmp_head. unfold f64_total_cmp. rewrite !ordered_bits_parts, !total_key_parts by done.
    pose proof (magnitude_range p Vp). pose proof (magnitude_range q Vq).
    rewrite to_be_cmp_all by (change (256 ^ Z.of_nat 8) with (2 ^ 64); destruct (negative p), (negative q); lia).
    destruct (negative p), (negative q); match goal with |- (?u ?= ?v) = (?u' ?= ?v') => destruct (Z.compare_spec u v), (Z.compare_spec u' v') end; try done; lia.
  - intros _ [= <-] [= <-]. by rewrite bytes_cmp_head.
Qed.

(** What Rust's types give a value: an [i64], a float that exists, text. *)
Definition value_ok (v : Value) : Prop :=
  match v with VInteger z => is_i64 z | VFloat x => f64_valid x | VText s => is_str s | _ => True end.

Lemma encode_identity_inj a b x : value_ok a -> value_ok b -> encode_identity a = Ok x -> encode_identity b = Ok x -> a = b.
Proof.
  intros Ha Hb Ex Ey.
  assert (same_type a b) as Ht.
  { destruct a as [|p|p|p|p], b as [|q|q|q|q]; cbn in *; try done; repeat case_match; try done; simplify_eq; try done;
      exfalso; assert (byte_to_Z (byte_of_Z 1) = 1) by done; assert (byte_to_Z (byte_of_Z 2) = 2) by done; congruence. }
  pose proof (identity_cmp a b x x Ht Ex Ey) as Hc. rewrite bytes_cmp_refl in Hc. symmetry in Hc.
  destruct a as [|p|p|p|p], b as [|q|q|q|q]; try done; cbn [compare_sort_values value_ok] in *.
  - by destruct p, q.
  - apply Z.compare_eq in Hc. by subst.
  - cbn in Ex, Ey. destruct (is_finite p) eqn:Fp; [|done]. destruct (is_finite q) eqn:Fq; [|done].
    f_equal. apply finite_bits_inj; try done. unfold f64_total_cmp in Hc. apply Z.compare_eq in Hc.
    rewrite !total_key_parts in Hc by done. pose proof (magnitude_range p Ha). pose proof (magnitude_range q Hb).
    rewrite !bits_parts by done. destruct (negative p), (negative q); lia.
  - f_equal. apply as_bytes_inj; [done|done|]. by apply bytes_cmp_eq.
Qed.

(** ** Kinds of keys *)

Inductive KeyKind := KTable | KIndex | KRow | KUnique | KEntry | KTableCounter | KIndexCounter.

Definition kind_prefix (k : KeyKind) : list byte :=
  match k with
  | KTable => CATALOG_PREFIX
  | KIndex => INDEX_CATALOG_PREFIX
  | KRow => ROW_PREFIX
  | KUnique => UNIQUE_PREFIX
  | KEntry => INDEX_ENTRY_PREFIX
  | KTableCounter => TABLE_ID_COUNTER_KEY
  | KIndexCounter => INDEX_ID_COUNTER_KEY
  end.

Lemma kinds_apart a b x y : kind_prefix a ++ x = kind_prefix b ++ y -> a = b /\ x = y.
Proof.
  intros Heq. assert (a = b) as ->; [|split; [done|by apply app_inv_head in Heq]].
  destruct a, b; try done; exfalso; vm_compute in Heq; discriminate.
Qed.

Lemma kinds_prefix a b x y : kind_prefix a ++ x `prefix_of` kind_prefix b ++ y -> a = b /\ x `prefix_of` y.
Proof.
  intros [z Hz]. rewrite <- app_assoc in Hz. apply kinds_apart in Hz as [-> ->]. split; [done|]. by exists z.
Qed.

(** ** Numbers and lengths in keys *)

Lemma to_be_8_inj a b : is_u64 a -> is_u64 b -> to_be 8 a = to_be 8 b -> a = b.
Proof. unfold is_u64, U64_MAX. intros. apply (to_be_inj 8); [..|done]; change (256 ^ Z.of_nat 8) with (2 ^ 64); lia. Qed.

Lemma to_be_4_inj a b : is_u32 a -> is_u32 b -> to_be 4 a = to_be 4 b -> a = b.
Proof. unfold is_u32, U32_MAX. intros. apply (to_be_inj 4); [..|done]; change (256 ^ Z.of_nat 4) with (2 ^ 32); lia. Qed.

Lemma id_prefix a b x : is_u64 a -> is_u64 b -> to_be 8 a `prefix_of` to_be 8 b ++ x -> a = b.
Proof.
  intros Ha Hb [z Hz]. apply app_inj_1 in Hz as [Hz _]; [|by rewrite !length_to_be]. by apply to_be_8_inj.
Qed.

Lemma length_prefix_Ok e bytes l : length_prefix e bytes = Ok l -> l = to_be 4 (blen bytes) /\ blen bytes <= U32_MAX.
Proof. unfold length_prefix. case_match; [|done]. bool_to_prop. by intros [= <-]. Qed.

(** Bytes with their length in front end where they say. *)
Lemma delimited_inj a b x y :
  blen a <= U32_MAX -> blen b <= U32_MAX -> (to_be 4 (blen a) ++ a) ++ x = (to_be 4 (blen b) ++ b) ++ y -> a = b /\ x = y.
Proof.
  intros Ha Hb. rewrite <- !app_assoc. intros [Hl Hr]%app_inj_1; [|by rewrite !length_to_be].
  apply to_be_4_inj in Hl; [|unfold is_u32; lia..]. apply app_inj_1 in Hr; [done|lia].
Qed.

Lemma delimited_prefix a b x :
  blen a <= U32_MAX -> blen b <= U32_MAX -> to_be 4 (blen a) ++ a `prefix_of` (to_be 4 (blen b) ++ b) ++ x -> a = b.
Proof. intros Ha Hb [z Hz]. by apply delimited_inj in Hz as [-> _]. Qed.

(** C25: The keys of the engine sort as its values: two values of a type that
    have an identity compare as ORDER BY compares them, and share an identity
    only when they are equal. *)
Theorem identity_preserves_order a b x y : same_type a b -> value_ok a -> value_ok b -> encode_identity a = Ok x -> encode_identity b = Ok y ->
  bytes_cmp x y = compare_sort_values a b /\ (x = y <-> a = b).
Proof.
  intros Ht Ha Hb Hx Hy. split; [by apply identity_cmp|]. split; [|intros ->; congruence]. intros ->. by apply (encode_identity_inj a b y).
Qed.

Lemma identity_preserves_order_witness : exists x y, encode_identity (VInteger (-3)) = Ok x /\ encode_identity (VInteger 5) = Ok y /\ bytes_cmp x y = Lt.
Proof.
  eexists _, _. split; [reflexivity|]. split; [reflexivity|].
  destruct (identity_preserves_order (VInteger (-3)) (VInteger 5) _ _ ltac:(cbv; intuition congruence) ltac:(cbv; split; congruence) ltac:(cbv; split; congruence) eq_refl eq_refl) as [H _]. exact H.
Defined.
