(* ===== verification/KvSim.v ===== *)
(** * Transactions as maps

    What the engine relies on in a transaction: it behaves as a map from
    keys to values, with the size limit of a record.  Over any such
    transaction every statement does what it does over the map itself, so
    that the engine's properties are proved for maps. *)
From S2P Require Import Prelude Order Token F64 Ast Utf8 Record Schema Expression Codec Engine.
Local Open Scope Z_scope.

Abbreviation KvMap := (gmap (list byte) (list byte)).

Definition sized {A} (k : list byte) (value : option (list byte)) (x : A) (m : KvMap) (m' : KvMap) : result TransactionError A * KvMap :=
  match validate_size k value with
  | Ok _ => (Ok x, m')
  | Err e => (Err e, m)
  end.

Definition map_scan (prefix : list byte) (m : KvMap) : list (list byte * list byte) :=
  bt_list (filter (fun x => prefix `prefix_of` x.1) m).

#[export] Instance map_kv : Kv KvMap := {|
  kv_get k := fun m => (Ok (m !! k), m);
  kv_put k v := fun m => sized k (Some v) tt m (<[k := v]> m);
  kv_delete k := fun m => sized k None tt m (delete k m);
  kv_scan_prefix prefix := fun m => (Ok (map_scan prefix m), m);
|}.

Section Sim.
Context {T : Type} (rep : T -> KvMap -> Prop).

(** Started from a map that represents its state, [m1] returns what [m2]
    returns and ends in a state that the map represents again. *)
Definition sim {E A} (m1 : ST T E A) (m2 : ST KvMap E A) : Prop :=
  forall t m, rep t m -> exists t', m1 t = (fst (m2 m), t') /\ rep t' (snd (m2 m)).

Lemma sim_lift {E A} (r : result E A) : sim (lift r) (lift r).
Proof. intros t m Hr. by exists t. Qed.

Lemma sim_bind {E A B} (m1 : ST T E A) m2 (k1 : A -> ST T E B) k2 : sim m1 m2 -> (forall a, sim (k1 a) (k2 a)) -> sim (m1 ≫= k1) (m2 ≫= k2).
Proof.
  intros Hm Hk t m Hr. destruct (Hm t m Hr) as (t1 & E1 & R1). unfold mbind, ST_bind. rewrite E1.
  destruct (m2 m) as [[a|e] m'] eqn:E2; cbn [fst snd] in *; [by apply Hk|by exists t1].
Qed.

Lemma sim_ret {E A} (a : A) : sim (mret (M := ST T E) a) (mret a).
Proof. apply (sim_lift (Ok a)). Qed.

Lemma sim_throw {E A} (e : E) : sim (A := A) (throw e) (throw e).
Proof. apply (sim_lift (Err e)). Qed.

Lemma sim_for_each {E A} (l : list A) (f1 : A -> ST T E unit) f2 : (forall x, sim (f1 x) (f2 x)) -> sim (for_each l f1) (for_each l f2).
Proof. intros Hf. induction l as [|x l IH]; cbn [for_each]; [apply sim_ret|]. by apply sim_bind. Qed.

Lemma sim_collect {E A B} (l : list A) (f1 : A -> ST T E B) f2 : (forall x, sim (f1 x) (f2 x)) -> sim (collect l f1) (collect l f2).
Proof.
  intros Hf. induction l as [|x l IH]; cbn [collect]; [apply sim_ret|]. apply sim_bind; [done|]. intros y. apply sim_bind; [done|]. intros ys. apply sim_ret.
Qed.

Lemma sim_for_fold {E A B} (f1 : B -> A -> ST T E B) f2 (l : list A) : (forall b x, sim (f1 b x) (f2 b x)) -> forall b, sim (for_fold f1 b l) (for_fold f2 b l).
Proof. intros Hf. induction l as [|x l IH]; intros b; cbn [for_fold]; [apply sim_ret|]. apply sim_bind; [done|]. intros b'. apply IH. Qed.

Lemma sim_on_kv {A} (m1 : ST T TransactionError A) m2 : sim m1 m2 -> sim (on_kv m1) (on_kv m2).
Proof. intros Hm t m Hr. destruct (Hm t m Hr) as (t' & E1 & R1). exists t'. unfold on_kv. rewrite E1. by destruct (m2 m). Qed.
End Sim.

(** A transaction that behaves as a map. *)
Class KvLaws (T : Type) `{Kv T} := {
  kv_rep : T -> KvMap -> Prop;
  kv_get_sim : forall k, sim kv_rep (kv_get k) (kv_get k);
  kv_put_sim : forall k v, sim kv_rep (kv_put k v) (kv_put k v);
  kv_delete_sim : forall k, sim kv_rep (kv_delete k) (kv_delete k);
  kv_scan_sim : forall prefix, sim kv_rep (kv_scan_prefix prefix) (kv_scan_prefix prefix);
}.

(** Follows the structure of a statement's code. *)
Ltac sim_step :=
  match goal with
  | |- forall _, _ => intros ?
  | |- sim _ (kv_get _) _ => apply kv_get_sim
  | |- sim _ (kv_put _ _) _ => apply kv_put_sim
  | |- sim _ (kv_delete _) _ => apply kv_delete_sim
  | |- sim _ (kv_scan_prefix _) _ => apply kv_scan_sim
  | |- sim _ (on_kv _) _ => apply sim_on_kv
  | |- sim _ (lift _) _ => apply sim_lift
  | |- sim _ (mret _) _ => apply sim_ret
  | |- sim _ (throw _) _ => apply sim_throw
  | |- sim _ (mbind _ _) _ => apply sim_bind
  | |- sim _ (for_each _ _) _ => apply sim_for_each
  | |- sim _ (for_fold _ _ _) _ => apply sim_for_fold
  | |- sim _ (collect _ _) _ => apply sim_collect
  | |- sim _ (let '(_, _) := ?x in _) _ => destruct x
  | |- sim _ (match ?x with _ => _ end) _ => destruct x
  end.
Ltac sim_solve := repeat (sim_step || solve [eauto with sim]).
Create HintDb sim.

Section Engine.
Context {T : Type} {KV : Kv T} {KL : KvLaws T} {SD : Serde}.
Local Notation "m1 ~ m2" := (sim kv_rep m1 m2) (at level 70).

Lemma load_schema_sim name : load_schema (T := T) name ~ load_schema name.
Proof. unfold load_schema. sim_solve. Qed.

Lemma load_table_indexes_sim id : load_table_indexes (T := T) id ~ load_table_indexes id.
Proof. unfold load_table_indexes. sim_solve. Qed.

Lemma plan_index_sim c v l : plan_index (T := T) c v l ~ plan_index c v l.
Proof. induction l; cbn [plan_index]; sim_solve. Qed.

#[local] Hint Resolve load_schema_sim load_table_indexes_sim plan_index_sim : sim.

Lemma read_rows_sim schema selection : read_rows (T := T) schema selection ~ read_rows schema selection.
Proof. unfold read_rows, plan_access, read_indexed_row. sim_solve. Qed.

Lemma add_index_entries_sim l vs k : add_index_entries (T := T) l vs k ~ add_index_entries l vs k.
Proof. unfold add_index_entries, add_index_entry. sim_solve. Qed.

Lemma remove_index_entries_sim l vs k : remove_index_entries (T := T) l vs k ~ remove_index_entries l vs k.
Proof. unfold remove_index_entries, remove_index_entry. sim_solve. Qed.

Lemma delete_prefix_sim p : delete_prefix (T := T) p ~ delete_prefix p.
Proof. unfold delete_prefix. sim_solve. Qed.

Lemma next_id_sim k e : next_id (T := T) k e ~ next_id k e.
Proof. unfold next_id. sim_solve. Qed.

#[local] Hint Resolve read_rows_sim add_index_entries_sim remove_index_entries_sim delete_prefix_sim next_id_sim : sim.

Lemma execute_update_sim u : execute_update (T := T) u ~ execute_update u.
Proof. unfold execute_update, update_row, update_unique_keys, update_unique_key. sim_solve. Qed.

Lemma execute_delete_sim d : execute_delete (T := T) d ~ execute_delete d.
Proof. unfold execute_delete, delete_row, release_unique_keys, release_unique_key. sim_solve. Qed.

Lemma execute_insert_sim i : execute_insert (T := T) i ~ execute_insert i.
Proof. unfold execute_insert, insert_row, acquire_unique_keys, acquire_unique_key. sim_solve. Qed.

Lemma execute_select_sim s : execute_select (T := T) s ~ execute_select s.
Proof. unfold execute_select. sim_solve. Qed.

Lemma execute_create_table_sim c : execute_create_table (T := T) c ~ execute_create_table c.
Proof. unfold execute_create_table. sim_solve. Qed.

Lemma execute_drop_table_sim d : execute_drop_table (T := T) d ~ execute_drop_table d.
Proof. unfold execute_drop_table, drop_index_of_table. sim_solve. Qed.

Lemma execute_create_index_sim c : execute_create_index (T := T) c ~ execute_create_index c.
Proof. unfold execute_create_index, index_existing_row. sim_solve. Qed.

Lemma execute_drop_index_sim d : execute_drop_index (T := T) d ~ execute_drop_index d.
Proof. unfold execute_drop_index. sim_solve. Qed.

(** Every statement behaves over the transaction as over the map. *)
Lemma execute_sim s : execute_in_transaction (T := T) s ~ execute_in_transaction s.
Proof.
  destruct s; cbn [execute_in_transaction]; try apply sim_throw;
    auto using execute_update_sim, execute_delete_sim, execute_insert_sim, execute_select_sim, execute_create_table_sim,
      execute_drop_table_sim, execute_create_index_sim, execute_drop_index_sim.
Qed.
End Engine.
