(* ===== verification/Database.v ===== *)
(** * The relational state

    What the engine's keys and records stand for: tables, indexes and rows.
    A map of keys represents a database when it holds exactly the entries of
    its catalog and of its rows; a row has an entry of its own and one for
    each slot of its table, a slot being a unique column or an index. *)
From S2P Require Import Prelude Order Token F64 Ast Utf8 Record Schema Expression Codec Engine CodecFacts KvSim.
Local Open Scope Z_scope.

Abbreviation identity := (list byte).
Abbreviation Rows := (gmap identity (list Value)).

Record Db := mkDb {
  d_tables : gmap str TableSchema;
  d_indexes : gmap str IndexSchema;
  d_rows : gmap Z Rows;
  d_table_counter : option Z;
  d_index_counter : option Z;
}.

Definition empty_db : Db := mkDb ∅ ∅ ∅ None None.

Definition rows_of (db : Db) (id : Z) : Rows := default ∅ (d_rows db !! id).

Definition set_rows (id : Z) (rs : Rows) (db : Db) : Db :=
  mkDb (d_tables db) (d_indexes db) (<[id := rs]> (d_rows db)) (d_table_counter db) (d_index_counter db).

Definition set_table (s : TableSchema) (db : Db) : Db :=
  mkDb (<[t_name s := s]> (d_tables db)) (d_indexes db) (d_rows db) (d_table_counter db) (d_index_counter db).

(** Two databases with the same catalog. *)
Definition same_catalog (a b : Db) : Prop :=
  d_tables a = d_tables b /\ d_indexes a = d_indexes b /\ d_table_counter a = d_table_counter b /\ d_index_counter a = d_index_counter b.

(** Only the rows of one table change. *)
Definition rows_become (id : Z) (rs : Rows) (db db' : Db) : Prop :=
  same_catalog db' db /\ rows_of db' id = rs /\ forall id', id' <> id -> rows_of db' id' = rows_of db id'.

(** ** Slots *)

Inductive Slot :=
| SlotUnique (column : nat)
| SlotIndex (i : IndexSchema).

(** The key of a row in a slot; none when a value is NULL. *)
Definition slot_key (id : Z) (values : list Value) (rk : list byte) (sl : Slot) : EResult (option (list byte)) :=
  match sl with
  | SlotUnique p =>
      v ← index values p;
      if is_null v then Ok None else Some <$> unique_key id p v
  | SlotIndex i =>
      selected ← indexed_values i values;
      match selected with
      | None => Ok None
      | Some selected => Some <$> index_entry_key i selected rk
      end
  end.

(** No two rows may share the key. *)
Definition exclusive (sl : Slot) : bool := match sl with SlotUnique _ => true | SlotIndex i => x_unique i end.

Definition table_with (db : Db) (id : Z) (s : TableSchema) : Prop := exists name, d_tables db !! name = Some s /\ t_table_id s = id.

Definition slot_of (db : Db) (id : Z) (sl : Slot) : Prop :=
  match sl with
  | SlotUnique p => exists s c, table_with db id s /\ t_columns s !! p = Some c /\ keyed c = true
  | SlotIndex i => exists name, d_indexes db !! name = Some i /\ x_table_id i = id
  end.

(** ** Representation *)

Section Rep.
Context {SD : Serde}.

Definition slot_entry (db : Db) (id : Z) (ident : identity) (values : list Value) (k b : list byte) : Prop :=
  exists sl, slot_of db id sl /\ row_key id ident = Ok b /\ slot_key id values b sl = Ok (Some k).

Definition row_entry (db : Db) (id : Z) (ident : identity) (values : list Value) (k b : list byte) : Prop :=
  (row_key id ident = Ok k /\ encode_row values = Ok b) \/ slot_entry db id ident values k b.

Definition catalog_entry (db : Db) (k b : list byte) : Prop :=
  (exists name s, d_tables db !! name = Some s /\ catalog_key name = Ok k /\ encode_schema s = Ok b) \/
  (exists name i, d_indexes db !! name = Some i /\ index_catalog_key name = Ok k /\ encode_index i = Ok b) \/
  (k = table_id_counter_key /\ exists n, d_table_counter db = Some n /\ b = encode_u64 n) \/
  (k = index_id_counter_key /\ exists n, d_index_counter db = Some n /\ b = encode_u64 n).

Definition entry (db : Db) (k b : list byte) : Prop :=
  catalog_entry db k b \/ exists id ident values, rows_of db id !! ident = Some values /\ row_entry db id ident values k b.

Definition represents (m : KvMap) (db : Db) : Prop := forall k b, m !! k = Some b <-> entry db k b.
End Rep.

(** ** Well-formed databases *)

Record table_ok (db : Db) (name : str) (s : TableSchema) : Prop := {
  tk_name : t_name s = name /\ is_str name;
  tk_key : is_ok (catalog_key name) = true;
  tk_version : t_format_version s = 1;
  tk_id : is_u64 (t_table_id s) /\ t_table_id s < default 1 (d_table_counter db);
  tk_names : NoDup (c_name <$> t_columns s);
  tk_typed : schema_typed s;
  tk_primary : forall p c, t_columns s !! p = Some c -> c_primary_key c = bool_decide (t_primary_key s = Some p);
  tk_primary_in : forall p, t_primary_key s = Some p -> (p < length (t_columns s))%nat;
  tk_next : 1 <= t_next_row_id s <= U64_MAX;
}.

Record index_ok (db : Db) (name : str) (i : IndexSchema) : Prop := {
  xk_name : x_name i = name /\ is_str name;
  xk_key : is_ok (index_catalog_key name) = true;
  xk_version : x_format_version i = 1;
  xk_id : is_u64 (x_id i) /\ x_id i < default 1 (d_index_counter db);
  xk_table : exists s, table_with db (x_table_id i) s /\ Forall (fun p => (p < length (t_columns s))%nat) (x_columns i);
}.

(** The identity of a row: that of its primary key, or a hidden ID. *)
Definition identity_ok (s : TableSchema) (values : list Value) (ident : identity) : Prop :=
  match t_primary_key s with
  | Some p => exists v, values !! p = Some v /\ encode_identity v = Ok ident
  | None => exists n, ident = to_be 8 n
  end.

Record row_ok `{Serde} (db : Db) (s : TableSchema) (ident : identity) (values : list Value) : Prop := {
  rk_valid : validate_row s values = Ok tt;
  rk_values : Forall value_wf values;
  rk_identity : identity_ok s values ident;
  rk_key : exists k, row_key (t_table_id s) ident = Ok k;
  rk_encoded : exists b, encode_row values = Ok b;
  rk_slots : forall sl k, slot_of db (t_table_id s) sl -> row_key (t_table_id s) ident = Ok k -> is_ok (slot_key (t_table_id s) values k sl) = true;
}.

Record db_ok `{Serde} (db : Db) : Prop := {
  do_tables : forall name s, d_tables db !! name = Some s -> table_ok db name s;
  do_table_ids : forall n1 s1 n2 s2, d_tables db !! n1 = Some s1 -> d_tables db !! n2 = Some s2 -> t_table_id s1 = t_table_id s2 -> n1 = n2;
  do_table_counter : forall n, d_table_counter db = Some n -> 1 <= n <= U64_MAX;
  do_indexes : forall name i, d_indexes db !! name = Some i -> index_ok db name i;
  do_index_ids : forall n1 i1 n2 i2, d_indexes db !! n1 = Some i1 -> d_indexes db !! n2 = Some i2 -> x_id i1 = x_id i2 -> n1 = n2;
  do_index_counter : forall n, d_index_counter db = Some n -> 1 <= n <= U64_MAX;
  do_rows : forall id ident values, rows_of db id !! ident = Some values -> exists s, table_with db id s /\ row_ok db s ident values;
}.
