(* ===== verification/DbRows.v ===== *)
(** * Keys and rows of a database

    Which keys a represented database uses: the keys of rows and slots
    belong to one row, and a key of one kind is never one of another; then
    what adding and removing rows does to a represented database. *)
From S2P Require Import Prelude Order Record Token F64 Ast Utf8 Schema Expression Codec Engine CodecFacts.
From S2P Require Import KvSim Database.
Local Open Scope Z_scope.

Lemma Ok_inj {E A} (a b : A) : Ok (E := E) a = Ok b -> a = b.
Proof. by intros [= ]. Qed.

(** ** The shape of each key *)

Lemma component_key_shape p x k : component_key p x = Ok k -> k = p ++ to_be 4 (blen x) ++ x /\ blen x <= U32_MAX.
Proof. unfold component_key. intros (l & [-> ?]%length_prefix_Ok & <-%Ok_inj)%bind_Ok. done. Qed.

Lemma catalog_key_shape name k : catalog_key name = Ok k -> k = kind_prefix KTable ++ to_be 4 (blen (as_bytes name)) ++ as_bytes name /\ blen (as_bytes name) <= U32_MAX.
Proof. apply component_key_shape. Qed.

Lemma index_catalog_key_shape name k : index_catalog_key name = Ok k -> k = kind_prefix KIndex ++ to_be 4 (blen (as_bytes name)) ++ as_bytes name /\ blen (as_bytes name) <= U32_MAX.
Proof. apply component_key_shape. Qed.

Lemma row_key_shape id ident k : row_key id ident = Ok k -> k = kind_prefix KRow ++ to_be 8 id ++ to_be 4 (blen ident) ++ ident /\ blen ident <= U32_MAX.
Proof. unfold row_key, row_prefix. intros (l & [-> ?]%length_prefix_Ok & <-%Ok_inj)%bind_Ok. by rewrite <- app_assoc. Qed.

(** The delimited identities of the values of an index entry. *)
Definition delimited (x : list byte) : list byte := to_be 4 (blen x) ++ x.

Lemma parts_shape values parts : try_map identity_part values = Ok parts ->
  exists xs, parts = delimited <$> xs /\ Forall2 (fun v x => encode_identity v = Ok x) values xs /\ Forall (fun x => blen x <= U32_MAX) xs.
Proof.
  rewrite try_map_Forall2. induction 1 as [|v part values parts Hp _ (xs & -> & Hv & Hl)]; [by exists []|].
  unfold identity_part in Hp. apply bind_Ok in Hp as (x & Hx & (l & [-> ?]%length_prefix_Ok & [= <-])%bind_Ok). exists (x :: xs).
  split; [done|]. by split; constructor.
Qed.

Definition index_tail (i : IndexSchema) (rk : list byte) : list byte := if x_unique i then [] else delimited rk.

Lemma index_entry_key_shape i selected rk k : index_entry_key i selected rk = Ok k ->
  exists xs, k = kind_prefix KEntry ++ to_be 8 (x_id i) ++ mjoin (delimited <$> xs) ++ index_tail i rk /\
    Forall2 (fun v x => encode_identity v = Ok x) selected xs /\ Forall (fun x => blen x <= U32_MAX) xs /\ (x_unique i = false -> blen rk <= U32_MAX).
Proof.
  unfold index_entry_key, index_value_prefix, index_tail, index_entry_prefix, delimited.
  intros (p & (parts & (xs & -> & Hv & Hl)%parts_shape & <-%Ok_inj)%bind_Ok & Hk)%bind_Ok. exists xs.
  destruct (x_unique i).
  - apply Ok_inj in Hk as <-. by rewrite app_nil_r, <- app_assoc.
  - apply bind_Ok in Hk as (l & [-> ?]%length_prefix_Ok & <-%Ok_inj). by rewrite <- !app_assoc.
Qed.

Lemma unique_key_shape id p v k : unique_key id p v = Ok k ->
  exists x, encode_identity v = Ok x /\ k = kind_prefix KUnique ++ to_be 8 id ++ to_be 4 (Z.of_nat p) ++ to_be 4 (blen x) ++ x /\ Z.of_nat p <= U32_MAX.
Proof.
  unfold unique_key, unique_prefix. case_match; [done|]. bool_to_prop. intros (x & Hx & <-%Ok_inj)%bind_Ok. exists x. by rewrite <- app_assoc.
Qed.

Lemma fmap_Ok {E A B} (f : A -> B) (r : result E A) y : f <$> r = Ok y -> exists x, r = Ok x /\ y = f x.
Proof. destruct r; cbn; [|done]. intros [= <-]. eauto. Qed.

Lemma slot_key_unique id values rk p k : slot_key id values rk (SlotUnique p) = Ok (Some k) ->
  exists v, values !! p = Some v /\ v <> VNull /\ unique_key id p v = Ok k.
Proof.
  cbn. unfold index. destruct (values !! p) as [v|]; cbn; [|done]. destruct (is_null v) eqn:E; [done|].
  intros (k' & Hk & [= ->])%fmap_Ok. exists v. split_and!; [done|by intros ->|done].
Qed.

Lemma slot_key_index id values rk i k : slot_key id values rk (SlotIndex i) = Ok (Some k) ->
  exists selected, indexed_values i values = Ok (Some selected) /\ index_entry_key i selected rk = Ok k.
Proof.
  cbn. intros ([selected|] & Hs & Hk)%bind_Ok; [|done]. apply fmap_Ok in Hk as (k' & Hk & [= ->]). eauto.
Qed.

Lemma indexed_values_length i values selected : indexed_values i values = Ok (Some selected) -> length selected = length (x_columns i).
Proof. unfold indexed_values. intros (l & Hl%try_map_Ok_length & Hs)%bind_Ok. case_match; simplify_eq. done. Qed.

(** ** Injectivity *)

Lemma row_key_inj id1 id2 a b k : is_u64 id1 -> is_u64 id2 -> row_key id1 a = Ok k -> row_key id2 b = Ok k -> id1 = id2 /\ a = b.
Proof.
  intros H1 H2 [-> L1]%row_key_shape [Heq L2]%row_key_shape. apply kinds_apart in Heq as [_ Heq].
  apply app_inj_1 in Heq as [Hi Heq]; [|by rewrite !length_to_be]. split; [by apply to_be_8_inj|].
  apply (delimited_inj a b [] []); [done|done|]. by rewrite !app_nil_r.
Qed.

Lemma catalog_key_inj n1 n2 k : is_str n1 -> is_str n2 -> catalog_key n1 = Ok k -> catalog_key n2 = Ok k -> n1 = n2.
Proof.
  intros H1 H2 [-> L1]%catalog_key_shape [Heq L2]%catalog_key_shape. apply kinds_apart in Heq as [_ Heq]. apply as_bytes_inj; [done|done|].
  apply (delimited_inj _ _ [] []); [done|done|]. by rewrite !app_nil_r.
Qed.

Lemma index_catalog_key_inj n1 n2 k : is_str n1 -> is_str n2 -> index_catalog_key n1 = Ok k -> index_catalog_key n2 = Ok k -> n1 = n2.
Proof.
  intros H1 H2 [-> L1]%index_catalog_key_shape [Heq L2]%index_catalog_key_shape. apply kinds_apart in Heq as [_ Heq]. apply as_bytes_inj; [done|done|].
  apply (delimited_inj _ _ [] []); [done|done|]. by rewrite !app_nil_r.
Qed.

Lemma delimited_all_inj xs ys t u : length xs = length ys -> Forall (fun x => blen x <= U32_MAX) xs -> Forall (fun x => blen x <= U32_MAX) ys ->
  mjoin (delimited <$> xs) ++ t = mjoin (delimited <$> ys) ++ u -> xs = ys /\ t = u.
Proof.
  intros Hlen Hxs. revert ys Hlen. induction Hxs as [|x xs Hx Hxs IH]; intros [|y ys] Hlen Hys; try done; cbn [fmap list_fmap mjoin list_join].
  apply Forall_cons in Hys as [Hy Hys]. rewrite <- !app_assoc. unfold delimited at 1 3. intros Heq.
  apply delimited_inj in Heq as [-> Heq]; [|done|done]. apply IH in Heq as [-> ->]; [done|cbn in Hlen; lia|done].
Qed.

(** ** The owner of a key *)

Section Owner.
Context {SD : Serde} (db : Db) (Hdb : db_ok db).

Lemma table_with_id id s : table_with db id s -> is_u64 id.
Proof. intros (name & Hs & <-). by apply (tk_id _ _ _ (do_tables _ Hdb _ _ Hs)). Qed.

Lemma table_with_unique id s1 s2 : table_with db id s1 -> table_with db id s2 -> s1 = s2.
Proof.
  intros (n1 & H1 & E1) (n2 & H2 & E2). assert (n1 = n2) as -> by (apply (do_table_ids _ Hdb n1 s1 n2 s2); congruence). congruence.
Qed.

Lemma slot_of_id id sl : slot_of db id sl -> is_u64 id.
Proof.
  destruct sl as [p|i]; cbn; [intros (s & c & Hs & _)|intros (name & Hi & <-)]; [by eapply table_with_id|].
  destruct (xk_table _ _ _ (do_indexes _ Hdb _ _ Hi)) as (s & Hs & _). by eapply table_with_id.
Qed.

Lemma rows_id id ident values : rows_of db id !! ident = Some values -> is_u64 id.
Proof. intros Hr. destruct (do_rows _ Hdb _ _ _ Hr) as (s & Hs & _). by eapply table_with_id. Qed.

Lemma index_unique_id n1 i1 n2 i2 : d_indexes db !! n1 = Some i1 -> d_indexes db !! n2 = Some i2 -> x_id i1 = x_id i2 -> i1 = i2.
Proof. intros H1 H2 E. assert (n1 = n2) as -> by (by apply (do_index_ids _ Hdb n1 i1 n2 i2)). congruence. Qed.

(** A slot's key says which slot it is of; unless the slot is exclusive, it
    also says which row. *)
Lemma slot_key_owner id1 id2 v1 v2 rk1 rk2 sl1 sl2 k :
  slot_of db id1 sl1 -> slot_of db id2 sl2 -> slot_key id1 v1 rk1 sl1 = Ok (Some k) -> slot_key id2 v2 rk2 sl2 = Ok (Some k) ->
  id1 = id2 /\ sl1 = sl2 /\ (exclusive sl1 = false -> rk1 = rk2).
Proof.
  intros S1 S2 K1 K2. pose proof (slot_of_id _ _ S1) as U1. pose proof (slot_of_id _ _ S2) as U2. destruct sl1 as [p|i], sl2 as [q|j].
  - apply slot_key_unique in K1 as (v & _ & _ & (x & _ & -> & Hp)%unique_key_shape).
    apply slot_key_unique in K2 as (w & _ & _ & (y & _ & Heq & Hq)%unique_key_shape). apply kinds_apart in Heq as [_ Heq].
    apply app_inj_1 in Heq as [H1 Heq]; [|by rewrite !length_to_be]. apply to_be_8_inj in H1; [|done|done].
    apply app_inj_1 in Heq as [H2 _]; [|by rewrite !length_to_be]. apply to_be_4_inj in H2; [|unfold is_u32; lia..]. apply Nat2Z.inj in H2 as ->. done.
  - apply slot_key_unique in K1 as (v & _ & _ & (x & _ & -> & _)%unique_key_shape).
    apply slot_key_index in K2 as (sel & _ & (xs & Heq & _)%index_entry_key_shape). by apply kinds_apart in Heq as [? _].
  - apply slot_key_unique in K2 as (v & _ & _ & (x & _ & -> & _)%unique_key_shape).
    apply slot_key_index in K1 as (sel & _ & (xs & Heq & _)%index_entry_key_shape). by apply kinds_apart in Heq as [? _].
  - apply slot_key_index in K1 as (sel & Hs & (xs & -> & F1 & L1 & R1)%index_entry_key_shape).
    apply slot_key_index in K2 as (sel' & Hs' & (ys & Heq & F2 & L2 & R2)%index_entry_key_shape). apply kinds_apart in Heq as [_ Heq].
    destruct S1 as (n1 & I1 & <-), S2 as (n2 & I2 & <-).
    apply app_inj_1 in Heq as [H1 Heq]; [|by rewrite !length_to_be].
    apply to_be_8_inj in H1; [|by apply (xk_id _ _ _ (do_indexes _ Hdb _ _ I1))|by apply (xk_id _ _ _ (do_indexes _ Hdb _ _ I2))].
    pose proof (index_unique_id _ _ _ _ I1 I2 H1) as ->. split_and!; [done|done|]. cbn. intros Hu.
    apply indexed_values_length in Hs, Hs'. apply Forall2_length in F1, F2.
    apply delimited_all_inj in Heq as [_ Heq]; [|congruence|done|done]. unfold index_tail in Heq. rewrite Hu in Heq.
    apply (delimited_inj _ _ [] []); [auto|auto|]. rewrite !app_nil_r. exact Heq.
Qed.

(** The kind of a key of each sort. *)
Lemma slot_key_kind id values rk sl k : slot_key id values rk sl = Ok (Some k) -> exists x, k = kind_prefix (match sl with SlotUnique _ => KUnique | SlotIndex _ => KEntry end) ++ x.
Proof.
  destruct sl; intros Hk.
  - apply slot_key_unique in Hk as (v & _ & _ & (x & _ & -> & _)%unique_key_shape). eauto.
  - apply slot_key_index in Hk as (sel & _ & (xs & -> & _)%index_entry_key_shape). eauto.
Qed.

Lemma row_entry_kind id ident values k b : row_entry db id ident values k b -> exists kind x, k = kind_prefix kind ++ x /\ (kind = KRow \/ kind = KUnique \/ kind = KEntry).
Proof.
  intros [[[-> _]%row_key_shape _]|(sl & _ & _ & (x & ->)%slot_key_kind)]; [by eexists _, _; eauto|]. destruct sl; eexists _, _; eauto.
Qed.

Lemma catalog_entry_kind k b : catalog_entry db k b -> exists kind x, k = kind_prefix kind ++ x /\ (kind = KTable \/ kind = KIndex \/ kind = KTableCounter \/ kind = KIndexCounter).
Proof.
  intros [(n & s & _ & [-> _]%catalog_key_shape & _)|[(n & i & _ & [-> _]%index_catalog_key_shape & _)|[[-> _]|[-> _]]]].
  - eexists KTable, _. eauto.
  - eexists KIndex, _. eauto.
  - exists KTableCounter, []. rewrite app_nil_r. eauto.
  - exists KIndexCounter, []. rewrite app_nil_r. eauto.
Qed.

Lemma catalog_row_apart id ident values k b b' : catalog_entry db k b -> row_entry db id ident values k b' -> False.
Proof.
  intros (k1 & x1 & -> & H1)%catalog_entry_kind (k2 & x2 & Heq & H2)%row_entry_kind. apply kinds_apart in Heq as [-> _].
  destruct H1 as [?|[?|[?|?]]], H2 as [?|[?|?]]; congruence.
Qed.

Lemma row_entry_owner m id1 id2 a1 a2 v1 v2 k b1 b2 : represents m db ->
  rows_of db id1 !! a1 = Some v1 -> rows_of db id2 !! a2 = Some v2 ->
  row_entry db id1 a1 v1 k b1 -> row_entry db id2 a2 v2 k b2 -> id1 = id2 /\ a1 = a2.
Proof.
  intros Hrep R1 R2 E1 E2. pose proof (rows_id _ _ _ R1) as U1. pose proof (rows_id _ _ _ R2) as U2.
  assert (m !! k = Some b1) as M1 by (apply Hrep; right; eauto 6). assert (m !! k = Some b2) as M2 by (apply Hrep; right; eauto 6).
  assert (b1 = b2) as <- by congruence. destruct E1 as [[K1 _]|(s1 & _ & B1 & K1)], E2 as [[K2 _]|(s2 & _ & B2 & K2)].
  - by apply (row_key_inj _ _ _ _ k).
  - apply row_key_shape in K1 as [-> _]. apply slot_key_kind in K2 as [x Heq]. destruct s2; by apply kinds_apart in Heq as [? _].
  - apply row_key_shape in K2 as [-> _]. apply slot_key_kind in K1 as [x Heq]. destruct s1; by apply kinds_apart in Heq as [? _].
  - by apply (row_key_inj _ _ _ _ b1).
Qed.
End Owner.

(** ** Rows come and go

    How the entries of a represented database change when a row is added or
    removed, and what the loops over unique columns and indexes do to
    them. *)

Lemma rows_of_set id rs db id' : rows_of (set_rows id rs db) id' = if decide (id' = id) then rs else rows_of db id'.
Proof.
  unfold rows_of, set_rows. cbn. case_decide as H; [subst; by rewrite lookup_insert_eq|by rewrite lookup_insert_ne by congruence].
Qed.

Section Rows.
Context {SD : Serde}.

Lemma row_entry_set_rows id0 rs db id ident values k b : row_entry (set_rows id0 rs db) id ident values k b <-> row_entry db id ident values k b.
Proof. done. Qed.

(** The keys of a row. *)
Definition row_uses (db : Db) (id : Z) (ident : identity) (values : list Value) (k : list byte) : Prop := exists b, row_entry db id ident values k b.

Lemma rep_insert (m m' : KvMap) (db : Db) (id : Z) (ident : identity) (values : list Value) : represents m db -> rows_of db id !! ident = None ->
  (forall k, row_uses db id ident values k -> m !! k = None) ->
  (forall k b, m' !! k = Some b <-> row_entry db id ident values k b \/ (m !! k = Some b /\ ~ row_uses db id ident values k)) ->
  represents m' (set_rows id (<[ident := values]> (rows_of db id)) db).
Proof.
  intros Hrep Hnew Hfree Hm' k b. rewrite Hm', (Hrep k b). unfold entry. split.
  - intros [He|[[Hc|(id' & ident' & values' & Hr & He)] _]].
    + right. exists id, ident, values. rewrite rows_of_set, decide_True by done. by rewrite lookup_insert_eq.
    + by left.
    + right. exists id', ident', values'. split; [|done]. rewrite rows_of_set. case_decide as Hid; [|done]. subst id'.
      rewrite lookup_insert_ne; [done|]. intros ->. congruence.
  - intros [Hc|(id' & ident' & values' & Hr & He)].
    + right. split; [by left|]. intros Hu. assert (m !! k = Some b) by (apply Hrep; by left). pose proof (Hfree k Hu). congruence.
    + rewrite row_entry_set_rows in He. rewrite rows_of_set in Hr. case_decide as Hid.
      * subst id'. destruct (decide (ident' = ident)) as [->|Hne].
        -- rewrite lookup_insert_eq in Hr. injection Hr as <-. by left.
        -- rewrite lookup_insert_ne in Hr by done. right. split; [right; eauto 6|]. intros Hu.
           assert (m !! k = Some b) by (apply Hrep; right; eauto 6). pose proof (Hfree k Hu). congruence.
      * right. split; [right; eauto 6|]. intros Hu. assert (m !! k = Some b) by (apply Hrep; right; eauto 6). pose proof (Hfree k Hu). congruence.
Qed.

Lemma rep_delete (m m' : KvMap) (db : Db) (id : Z) (ident : identity) (values : list Value) : db_ok db -> represents m db -> rows_of db id !! ident = Some values ->
  (forall k b, m' !! k = Some b <-> m !! k = Some b /\ ~ row_uses db id ident values k) ->
  represents m' (set_rows id (delete ident (rows_of db id)) db).
Proof.
  intros Hdb Hrep Hold Hm' k b. rewrite Hm', (Hrep k b). unfold entry. split.
  - intros [[Hc|(id' & ident' & values' & Hr & He)] Hn]; [by left|]. right. exists id', ident', values'. split; [|done].
    rewrite rows_of_set. case_decide as Hid; [|done]. subst id'. rewrite lookup_delete_ne; [done|].
    intros ->. apply Hn. assert (values' = values) as -> by congruence. by exists b.
  - intros [Hc|(id' & ident' & values' & Hr & He)].
    + split; [by left|]. intros [b' He]. by eapply catalog_row_apart.
    + rewrite row_entry_set_rows in He. rewrite rows_of_set in Hr.
      assert (rows_of db id' !! ident' = Some values' /\ (id' = id -> ident' <> ident)) as [Hr' Hne].
      { case_decide as Hid; [|done]. subst id'. apply lookup_delete_Some in Hr as [? ?]. done. }
      split; [right; eauto 6|]. intros [b' He']. destruct (row_entry_owner db Hdb m _ _ _ _ _ _ k _ _ Hrep Hr' Hold He He') as [-> ->]. by apply Hne.
Qed.

(** ** Running over a map *)

Lemma run_get {A} (k : list byte) (f : option (list byte) -> ST KvMap EngineError A) (m : KvMap) : (on_kv (kv_get k) ≫= f) m = f (m !! k) m.
Proof. done. Qed.

Lemma run_scan {A} (p : list byte) (f : list (list byte * list byte) -> ST KvMap EngineError A) (m : KvMap) : (on_kv (kv_scan_prefix p) ≫= f) m = f (map_scan p m) m.
Proof. done. Qed.

Lemma run_lift {A B} (r : EResult A) (f : A -> ST KvMap EngineError B) (m : KvMap) (y : B) (m' : KvMap) : (lift r ≫= f) m = (Ok y, m') -> exists a, r = Ok a /\ f a m = (Ok y, m').
Proof. destruct r; [eauto|done]. Qed.

Lemma run_lift_bind {A B} (r : EResult A) (f : A -> ST KvMap EngineError B) (m : KvMap) : (lift r ≫= f) m = match r with Ok a => f a m | Err e => (Err e, m) end.
Proof. by destruct r. Qed.

Lemma run_put (k v : list byte) (m : KvMap) (r : unit) (m' : KvMap) : on_kv (kv_put k v) m = (Ok r, m') -> m' = <[k := v]> m.
Proof. cbn. unfold on_kv, sized. destruct (validate_size k (Some v)); cbn; [by intros [= _ <-]|done]. Qed.

Lemma run_delete (k : list byte) (m : KvMap) (r : unit) (m' : KvMap) : on_kv (kv_delete k) m = (Ok r, m') -> m' = delete k m.
Proof. cbn. unfold on_kv, sized. destruct (validate_size k None); cbn; [by intros [= _ <-]|done]. Qed.

(** ** Claiming and releasing slots *)

Section Slots.
Context (id : Z) (values : list Value) (rk : list byte).

(** Each slot's key is put into the map, an exclusive one when it is free. *)
Fixpoint claims (sls : list Slot) (m m' : KvMap) : Prop :=
  match sls with
  | [] => m' = m
  | sl :: sls =>
      exists ok, slot_key id values rk sl = Ok ok /\
        match ok with
        | None => claims sls m m'
        | Some k => (exclusive sl = true -> m !! k = None) /\ claims sls (<[k := rk]> m) m'
        end
  end.

Fixpoint releases (sls : list Slot) (m m' : KvMap) : Prop :=
  match sls with
  | [] => m' = m
  | sl :: sls =>
      exists ok, slot_key id values rk sl = Ok ok /\
        match ok with
        | None => releases sls m m'
        | Some k => releases sls (delete k m) m'
        end
  end.

Definition slots_use (sls : list Slot) (k : list byte) : Prop := exists sl, sl ∈ sls /\ slot_key id values rk sl = Ok (Some k).

Lemma slots_use_cons sl sls k : slots_use (sl :: sls) k <-> slot_key id values rk sl = Ok (Some k) \/ slots_use sls k.
Proof.
  unfold slots_use. split.
  - intros (sl' & [->|H]%elem_of_cons & Hk); eauto.
  - intros [Hk|(sl' & H & Hk)]; [exists sl|exists sl']; (split; [apply elem_of_cons; eauto|done]).
Qed.

Lemma slots_use_nil k : ~ slots_use [] k.
Proof. intros (sl & H & _). by apply not_elem_of_nil in H. Qed.

#[export] Instance slots_use_dec sls k : Decision (slots_use sls k).
Proof.
  induction sls as [|sl sls IH]; [right; apply slots_use_nil|]. destruct IH as [IH|IH]; [left; apply slots_use_cons; by right|].
  destruct (slot_key id values rk sl) as [[k'|]|] eqn:E; [destruct (decide (k' = k)) as [->|Hne]|..];
    [left; apply slots_use_cons; by left|right; intros [?|?]%slots_use_cons; congruence..].
Defined.

Lemma claims_spec (sls : list Slot) (m m' : KvMap) : claims sls m m' ->
  (forall sl, sl ∈ sls -> is_ok (slot_key id values rk sl) = true) /\
  (forall k b, m' !! k = Some b <-> (slots_use sls k /\ b = rk) \/ (m !! k = Some b /\ ~ slots_use sls k)) /\
  (forall sl k, sl ∈ sls -> exclusive sl = true -> slot_key id values rk sl = Ok (Some k) -> m !! k = None).
Proof.
  revert m. induction sls as [|sl sls IH]; intros m; cbn [claims].
  - intros ->. split_and!; [by intros sl H%not_elem_of_nil| |by intros sl k H%not_elem_of_nil].
    intros k b. pose proof (slots_use_nil k). tauto.
  - intros ([k0|] & Hk0 & Hrest).
    + destruct Hrest as [Hfree Hrest]. destruct (IH _ Hrest) as (Hok & Hm' & Hex). split_and!.
      * intros sl' [->|H]%elem_of_cons; [by rewrite Hk0|auto].
      * intros k b. rewrite Hm', slots_use_cons, Hk0. destruct (decide (k0 = k)) as [->|Hne].
        -- rewrite lookup_insert_eq. split.
           ++ intros [[? ->]|[[= <-] ?]]; left; eauto.
           ++ intros [[_ ->]|[_ Hu]]; [|by destruct Hu; left]. destruct (decide (slots_use sls k)); [by left|by right].
        -- rewrite lookup_insert_ne by done. split; intros [[Hu ->]|[? Hu]]; [left; eauto|right; split; [done|]; intros [[= ?]|?]; by auto| |right; split; [done|]; tauto].
           destruct Hu as [[= ?]|Hu]; [done|]. by left.
      * intros sl' k [->|H]%elem_of_cons Hx Hk; [rewrite Hk0 in Hk; injection Hk as ->; auto|].
        specialize (Hex sl' k H Hx Hk). by apply lookup_insert_None in Hex as [? _].
    + destruct (IH _ Hrest) as (Hok & Hm' & Hex). split_and!.
      * intros sl' [->|H]%elem_of_cons; [by rewrite Hk0|auto].
      * intros k b. rewrite Hm', slots_use_cons, Hk0. assert (Ok None <> Ok (E := EngineError) (Some k)) by done. tauto.
      * intros sl' k [->|H]%elem_of_cons Hx Hk; [congruence|eauto].
Qed.

Lemma claims_app sls1 sls2 m m1 m' : claims sls1 m m1 -> claims sls2 m1 m' -> claims (sls1 ++ sls2) m m'.
Proof.
  revert m. induction sls1 as [|sl sls IH]; intros m; cbn [claims app]; [by intros ->|].
  intros ([k|] & Hk & Hc) H2; (eexists; split; [done|]); [destruct Hc; split; [done|by apply IH]|by apply IH].
Qed.

Lemma releases_spec (sls : list Slot) (m m' : KvMap) : releases sls m m' ->
  (forall sl, sl ∈ sls -> is_ok (slot_key id values rk sl) = true) /\
  (forall k b, m' !! k = Some b <-> m !! k = Some b /\ ~ slots_use sls k).
Proof.
  revert m. induction sls as [|sl sls IH]; intros m; cbn [releases].
  - intros ->. split; [by intros sl H%not_elem_of_nil|]. intros k b. pose proof (slots_use_nil k). tauto.
  - intros ([k0|] & Hk0 & Hrest); destruct (IH _ Hrest) as (Hok & Hm').
    + split; [intros sl' [->|H]%elem_of_cons; [by rewrite Hk0|auto]|].
      intros k b. rewrite Hm', slots_use_cons, Hk0, lookup_delete_Some. split; [intros [[Hne ?] ?]; split; [done|]; intros [[= ?]|?]; done|].
      intros [? Hu]. split; [|tauto]. split; [|done]. intros ->. apply Hu. by left.
    + split; [intros sl' [->|H]%elem_of_cons; [by rewrite Hk0|auto]|]. intros k b. rewrite Hm', slots_use_cons, Hk0.
      assert (Ok None <> Ok (E := EngineError) (Some k)) by done. tauto.
Qed.

Lemma releases_app sls1 sls2 m m1 m' : releases sls1 m m1 -> releases sls2 m1 m' -> releases (sls1 ++ sls2) m m'.
Proof.
  revert m. induction sls1 as [|sl sls IH]; intros m; cbn [releases app]; [by intros ->|].
  intros ([k|] & Hk & Hc) H2; (eexists; split; [done|]); by apply IH.
Qed.
End Slots.
End Rows.
