(* ===== verification/DbOps.v ===== *)
(** * The engine's loops over slots

    The code that keeps unique keys and index entries claims and releases
    the slots of a row; the catalog and the rows of a table are read back
    from a represented map. *)
From S2P Require Import Prelude Order Record Token F64 Ast Utf8 Schema Expression Codec Engine CodecFacts.
From S2P Require Import KvSim Database DbRows.
Local Open Scope Z_scope.

Definition keyed_slots (l : list (nat * ColumnSchema)) : list Slot := (fun x => SlotUnique x.1) <$> filter (fun x => keyed x.2 = true) l.

Definition unique_slots (s : TableSchema) : list Slot := keyed_slots (enumerate (t_columns s)).

Definition table_slots (s : TableSchema) (indexes : list IndexSchema) : list Slot := unique_slots s ++ (SlotIndex <$> indexes).

Lemma elem_of_enumerate {A} (l : list A) p x : (p, x) ∈ enumerate l <-> l !! p = Some x.
Proof.
  unfold enumerate. rewrite list_elem_of_lookup. split.
  - intros [j Hj]. apply lookup_zip_with_Some in Hj as (a & b & [= <- <-] & Ha & Hb). apply lookup_seq in Ha as [-> _]. done.
  - intros Hp. exists p. apply lookup_zip_with_Some. exists p, x. split_and!; [done| |done]. apply lookup_seq. apply lookup_lt_Some in Hp. lia.
Qed.

Lemma enumerate_fst {A} (l : list A) : (enumerate l).*1 = seq 0 (length l).
Proof. unfold enumerate. apply fst_zip. by rewrite length_seq. Qed.

Lemma elem_of_keyed_slots sl l : sl ∈ keyed_slots l <-> exists p c, sl = SlotUnique p /\ (p, c) ∈ l /\ keyed c = true.
Proof.
  unfold keyed_slots. rewrite list_elem_of_fmap. split.
  - intros ([p c] & -> & [Hk Hin]%list_elem_of_filter). exists p, c. done.
  - intros (p & c & -> & Hin & Hk). exists (p, c). split; [done|]. by apply list_elem_of_filter.
Qed.

Lemma keyed_slots_cons x l : keyed_slots (x :: l) = (if keyed x.2 then [SlotUnique x.1] else []) ++ keyed_slots l.
Proof. unfold keyed_slots. rewrite filter_cons. case_decide as H; [by rewrite H|]. by destruct (keyed x.2). Qed.

(** [slots_use] over a concatenation. *)
Lemma slots_use_app id values rk sls1 sls2 k : slots_use id values rk (sls1 ++ sls2) k <-> slots_use id values rk sls1 k \/ slots_use id values rk sls2 k.
Proof. unfold slots_use. setoid_rewrite elem_of_app. naive_solver. Qed.

Section Loops.
Context {SD : Serde}.
Implicit Types (m : KvMap) (k b rk : list byte) (values : list Value) (s : TableSchema) (i : IndexSchema) (id : Z) (p : nat) (c : ColumnSchema) (db : Db).

Lemma acquire_claims s values rk (l : list (nat * ColumnSchema)) m m' :
  for_each l (acquire_unique_key s values rk) m = (Ok tt, m') -> claims (t_table_id s) values rk (keyed_slots l) m m'.
Proof.
  revert m. induction l as [|[p c] l IH]; intros m; [by intros [= <-]|]. rewrite keyed_slots_cons. cbn [for_each fst snd].
  intros ([] & m1 & H1 & H2)%ST_bind_Ok. unfold acquire_unique_key in H1. cbn [fst snd] in H1. destruct (keyed c); [|injection H1 as <-; by apply IH].
  apply run_lift in H1 as (v & Hv & H1). cbn [app claims slot_key]. rewrite Hv. cbn [mbind result_bind].
  destruct (is_null v); [injection H1 as <-; eexists; split; [done|]; by apply IH|].
  apply run_lift in H1 as (k & Hk & H1). rewrite run_get in H1. rewrite Hk. eexists. split; [done|].
  destruct (m !! k) as [b|] eqn:E; [done|]. apply run_put in H1 as ->. split; [done|]. by apply IH.
Qed.

Lemma release_releases s values rk (l : list (nat * ColumnSchema)) m m' :
  for_each l (release_unique_key s values) m = (Ok tt, m') -> releases (t_table_id s) values rk (keyed_slots l) m m'.
Proof.
  revert m. induction l as [|[p c] l IH]; intros m; [by intros [= <-]|]. rewrite keyed_slots_cons. cbn [for_each fst snd].
  intros ([] & m1 & H1 & H2)%ST_bind_Ok. unfold release_unique_key in H1. cbn [fst snd] in H1. destruct (keyed c); [|injection H1 as <-; by apply IH].
  apply run_lift in H1 as (v & Hv & H1). cbn [app releases slot_key]. rewrite Hv. cbn [mbind result_bind].
  destruct (is_null v); [injection H1 as <-; eexists; split; [done|]; by apply IH|].
  apply run_lift in H1 as (k & Hk & H1). rewrite Hk. eexists. split; [done|]. apply run_delete in H1 as ->. by apply IH.
Qed.

Lemma add_claims id values rk (l : list IndexSchema) m m' : add_index_entries l values rk m = (Ok tt, m') -> claims id values rk (SlotIndex <$> l) m m'.
Proof.
  unfold add_index_entries. revert m. induction l as [|i l IH]; intros m; [by intros [= <-]|]. cbn [for_each fmap list_fmap claims slot_key].
  intros ([] & m1 & H1 & H2)%ST_bind_Ok. unfold add_index_entry in H1. apply run_lift in H1 as (sel & Hs & H1). rewrite Hs. cbn [mbind result_bind].
  destruct sel as [sel|]; [|injection H1 as <-; eexists; split; [done|]; by apply IH].
  apply run_lift in H1 as (k & Hk & H1). rewrite Hk. eexists. split; [done|]. cbn [exclusive].
  apply ST_bind_Ok in H1 as ([] & m2 & H1 & H3). apply run_put in H3 as ->.
  destruct (x_unique i).
  - rewrite run_get in H1. destruct (m !! k) eqn:E; [done|]. injection H1 as <-. split; [done|]. by apply IH.
  - injection H1 as <-. split; [done|]. by apply IH.
Qed.

Lemma remove_releases id values rk (l : list IndexSchema) m m' : remove_index_entries l values rk m = (Ok tt, m') -> releases id values rk (SlotIndex <$> l) m m'.
Proof.
  unfold remove_index_entries. revert m. induction l as [|i l IH]; intros m; [by intros [= <-]|]. cbn [for_each fmap list_fmap releases slot_key].
  intros ([] & m1 & H1 & H2)%ST_bind_Ok. unfold remove_index_entry in H1. apply run_lift in H1 as (sel & Hs & H1). rewrite Hs. cbn [mbind result_bind].
  destruct sel as [sel|]; [|injection H1 as <-; eexists; split; [done|]; by apply IH].
  apply run_lift in H1 as (k & Hk & H1). rewrite Hk. eexists. split; [done|]. apply run_delete in H1 as ->. by apply IH.
Qed.

(** ** Moving unique keys *)

Lemma unique_slot_column id v1 v2 rk1 rk2 p q k :
  slot_key id v1 rk1 (SlotUnique p) = Ok (Some k) -> slot_key id v2 rk2 (SlotUnique q) = Ok (Some k) -> p = q.
Proof.
  intros (v & _ & _ & (x & _ & -> & Hp)%unique_key_shape)%slot_key_unique (w & _ & _ & (y & _ & Heq & Hq)%unique_key_shape)%slot_key_unique.
  apply kinds_apart in Heq as [_ Heq]. apply app_inj_1 in Heq as [_ Heq]; [|by rewrite !length_to_be].
  apply app_inj_1 in Heq as [H _]; [|by rewrite !length_to_be]. apply to_be_4_inj in H; [|unfold is_u32; lia..]. by apply Nat2Z.inj.
Qed.

Section Move.
Context (s : TableSchema) (old new : list Value) (rk rk' : list byte).
Let id := t_table_id s.

(** What changes at the keys [O] of the old row and [N] of the new one. *)
Definition moved (O N : list byte -> Prop) (m m' : KvMap) : Prop :=
  (forall k b, m' !! k = Some b <-> (N k /\ b = rk') \/ (m !! k = Some b /\ ~ N k /\ ~ O k)) /\
  (forall k, N k -> m !! k = None \/ O k).

Definition old_key (p : nat) (k : list byte) : Prop := slot_key id old rk (SlotUnique p) = Ok (Some k).
Definition new_key (p : nat) (k : list byte) : Prop := slot_key id new rk' (SlotUnique p) = Ok (Some k).

Lemma slot_key_unique_eq values r p v : values !! p = Some v -> slot_key id values r (SlotUnique p) = if is_null v then Ok None else Some <$> unique_key id p v.
Proof. intros Hv. cbn. unfold index. by rewrite Hv. Qed.

(** The map with the old key gone and the new one put in. *)
Definition move_key (o n : option (list byte)) (m : KvMap) : KvMap :=
  let m := match o with Some k => delete k m | None => m end in
  match n with Some k => <[k := rk']> m | None => m end.

Lemma move_key_moved o n m : (forall k, n = Some k -> m !! k = None \/ o = Some k) -> moved (fun k => o = Some k) (fun k => n = Some k) m (move_key o n m).
Proof.
  intros Hfree. split; [|done]. intros k b. unfold move_key.
  assert (match o with Some k0 => delete k0 m | None => m end !! k = Some b <-> m !! k = Some b /\ o <> Some k) as Hdel.
  { destruct o as [ko|]; [|naive_solver]. rewrite lookup_delete_Some. naive_solver. }
  destruct n as [kn|]; [|rewrite Hdel; naive_solver]. destruct (decide (kn = k)) as [->|Hne].
  - rewrite lookup_insert_eq. naive_solver.
  - rewrite lookup_insert_ne, Hdel by done. naive_solver.
Qed.

Lemma update_key_moved p c m m' : keyed c = true -> is_ok (slot_key id old rk (SlotUnique p)) = true ->
  (forall k, old_key p k -> m !! k = Some rk) ->
  (forall o n, old !! p = Some o -> new !! p = Some n -> value_eqb o n = true -> o = n) ->
  update_unique_key s old new rk rk' (p, c) m = (Ok tt, m') ->
  exists ko kn, slot_key id old rk (SlotUnique p) = Ok ko /\ slot_key id new rk' (SlotUnique p) = Ok kn /\
    m' = move_key ko kn m /\ (forall k, kn = Some k -> m !! k = None \/ ko = Some k).
Proof.
  intros Hc Hok Hheld Heq. unfold update_unique_key. cbn [fst snd]. rewrite Hc. cbn [negb].
  intros (o & Ho & H)%run_lift. apply run_lift in H as (n & Hn & H). unfold index in Ho, Hn.
  destruct (old !! p) as [o'|] eqn:Eo; [|done]. injection Ho as ->. destruct (new !! p) as [n'|] eqn:En; [|done]. injection Hn as ->.
  pose proof (slot_key_unique_eq old rk p o Eo) as Ko. pose proof (slot_key_unique_eq new rk' p n En) as Kn.
  unfold old_key in Hheld. rewrite Kn. rewrite Ko in *. specialize (Heq o n eq_refl eq_refl). destruct (value_eqb o n).
  - specialize (Heq eq_refl) as <-. cbn [negb andb] in H. destruct (bool_decide_reflect (rk = rk')) as [Er|Er]; cbn [negb] in H.
    + injection H as <-. destruct (is_null o); [by eexists None, None|]. destruct (unique_key id p o) as [k|]; [|done].
      exists (Some k), (Some k). split_and!; [done|done| |by right]. cbn [move_key]. rewrite insert_delete_eq, <- Er. symmetry. apply insert_id. by apply Hheld.
    + apply ST_bind_Ok in H as ([] & m1 & H1 & [= <-]). destruct (is_null o); [injection H1 as <-; by eexists None, None|].
      apply run_lift in H1 as (k & Hk & H1). rewrite run_get in H1. fold id in Hk. rewrite Hk in *. exists (Some k), (Some k). split_and!; [done|done| |by right].
      cbn [move_key]. rewrite insert_delete_eq. by destruct (m !! k); apply run_put in H1 as ->.
  - cbn [negb andb] in H. rewrite ?andb_true_l in H. apply ST_bind_Ok in H as ([] & m1 & H1 & H2).
    assert (exists kn, (if is_null n then Ok None else Some <$> unique_key id p n) = Ok kn /\ m1 = move_key None kn m /\ (forall k, kn = Some k -> m !! k = None)) as (kn & -> & -> & Hfree).
    { destruct (is_null n); [injection H1 as <-; by exists None|]. apply run_lift in H1 as (k & Hk & H1). rewrite run_get in H1. fold id in Hk. rewrite Hk.
      exists (Some k). destruct (m !! k) eqn:E; [done|]. apply run_put in H1 as ->. split_and!; [done|done|]. by intros ? [= <-]. }
    destruct (is_null o); cbn [negb] in H2; [injection H2 as <-; exists None, kn; split_and!; [done..|]; intros; left; auto|].
    apply run_lift in H2 as (k & Hk & H2). fold id in Hk. rewrite Hk in *. apply run_delete in H2 as ->. exists (Some k), kn.
    split_and!; [done|done| |intros; left; auto]. destruct kn as [kn|]; [|done]. cbn [move_key]. rewrite delete_insert_ne; [done|].
    intros ->. specialize (Hheld kn eq_refl). specialize (Hfree kn eq_refl). congruence.
Qed.
End Move.

(** Moving one key after another. *)
Lemma moved_trans rk' (O1 N1 O2 N2 : list byte -> Prop) m m1 m' :
  (forall k, Decision (N1 k)) -> (forall k, Decision (N2 k)) -> (forall k, Decision (O1 k)) ->
  (forall k, N1 k -> ~ O2 k) -> (forall k, N1 k -> ~ N2 k) ->
  moved rk' O1 N1 m m1 -> moved rk' O2 N2 m1 m' -> moved rk' (fun k => O1 k \/ O2 k) (fun k => N1 k \/ N2 k) m m'.
Proof.
  intros D1 D2 D3 Hno Hnn [H1 F1] [H2 F2]. split.
  - intros k b. rewrite H2, H1. pose proof (Hno k). pose proof (Hnn k). destruct (D1 k), (D2 k); tauto.
  - intros k [Hk|Hk]; [destruct (F1 k Hk); tauto|]. destruct (F2 k Hk) as [HN|]; [|tauto].
    destruct (m !! k) as [b|] eqn:E; [|tauto]. destruct (D3 k); [tauto|]. assert (~ N1 k) as Hn by (intros Hn; by apply (Hnn k)).
    assert (m1 !! k = Some b) as Hb by (apply H1; right; done). congruence.
Qed.

Lemma moved_ext rk' (O N O' N' : list byte -> Prop) m m' : (forall k, O k <-> O' k) -> (forall k, N k <-> N' k) -> moved rk' O N m m' -> moved rk' O' N' m m'.
Proof. intros HO HN [H1 H2]. split; [intros k b; by rewrite H1, HO, HN|]. intros k. rewrite <- HN, <- HO. auto. Qed.

Lemma update_keys_moved s old new rk rk' (l : list (nat * ColumnSchema)) m m' : NoDup l.*1 ->
  (forall p c, (p, c) ∈ l -> keyed c = true ->
    is_ok (slot_key (t_table_id s) old rk (SlotUnique p)) = true /\
    (forall k, old_key s old rk p k -> m !! k = Some rk) /\
    (forall o n, old !! p = Some o -> new !! p = Some n -> value_eqb o n = true -> o = n)) ->
  for_each l (update_unique_key s old new rk rk') m = (Ok tt, m') ->
  (forall sl, sl ∈ keyed_slots l -> is_ok (slot_key (t_table_id s) new rk' sl) = true) /\
  moved rk' (slots_use (t_table_id s) old rk (keyed_slots l)) (slots_use (t_table_id s) new rk' (keyed_slots l)) m m'.
Proof.
  revert m. induction l as [|[p c] l IH]; intros m Hnd Hl.
  { intros [= <-]. split; [by intros sl H%not_elem_of_nil|]. split; [|intros k H; by apply slots_use_nil in H].
    intros k b. pose proof (slots_use_nil (t_table_id s) old rk k). pose proof (slots_use_nil (t_table_id s) new rk' k). cbn. tauto. }
  cbn [for_each]. intros ([] & m1 & H1 & H2)%ST_bind_Ok. rewrite keyed_slots_cons. cbn [fmap list_fmap fst snd] in *. apply NoDup_cons in Hnd as [Hp Hnd].
  destruct (keyed c) eqn:Hc.
  - destruct (Hl p c ltac:(by left) Hc) as (Hok & Hheld & Heq).
    destruct (update_key_moved s old new rk rk' p c m m1 Hc Hok Hheld Heq H1) as (ko & kn & Ko & Kn & -> & Hfree).
    pose proof (move_key_moved rk' ko kn m Hfree) as Hmv.
    assert (forall q d k, (q, d) ∈ l -> old_key s old rk q k -> ko <> Some k /\ kn <> Some k) as Hap.
    { intros q d k Hq Hk. split; intros ->; (assert (p = q) as -> by (by eapply unique_slot_column)); apply Hp; by apply (list_elem_of_fmap_2 fst _ (q, d)). }
    destruct (IH (move_key rk' ko kn m)) as [Hoks Hrest]; [done| |done|].
    { intros q d Hq Hd. destruct (Hl q d ltac:(by right) Hd) as (? & Hheld' & ?). split_and!; [done| |done].
      intros k Hk. apply Hmv. right. destruct (Hap q d k Hq Hk). split; [by apply Hheld'|done]. }
    split.
    + cbn [app]. intros sl [->|Hin]%elem_of_cons; [by rewrite Kn|auto].
    + refine (moved_ext _ _ _ _ _ _ _ _ _ (moved_trans rk' (fun k => ko = Some k) (fun k => kn = Some k) _ _ _ _ _ _ _ _ _ _ Hmv Hrest)).
      * intros k. cbn [app]. rewrite slots_use_cons, Ko. split; (intros [?|?]; [left; congruence|by right]).
      * intros k. cbn [app]. rewrite slots_use_cons, Kn. split; (intros [?|?]; [left; congruence|by right]).
      * intros k Ekn (sl & (q & d & -> & Hq & Hd)%elem_of_keyed_slots & Hk). by destruct (Hap q d k Hq Hk).
      * intros k -> (sl & (q & d & -> & Hq & Hd)%elem_of_keyed_slots & Hk). assert (p = q) as -> by (by eapply unique_slot_column).
        apply Hp. by apply (list_elem_of_fmap_2 fst _ (q, d)).
  - unfold update_unique_key in H1. cbn [fst snd] in H1. rewrite Hc in H1. injection H1 as <-. apply IH; [done| |done].
    intros q d Hq Hd. apply (Hl q d); [by right|done].
Qed.

(** ** Reading the catalog back *)

Context {SL : SerdeLaws}.

Lemma decode_schema_encoded s b' : t_format_version s = 1 -> encode_schema s = Ok b' -> decode_schema b' = Ok s.
Proof.
  intros Hv. unfold encode_schema, decode_schema. destruct (schema_json s) as (b & -> & Hb). cbn. intros [= <-]. rewrite Hb. cbn. by rewrite Hv.
Qed.

Lemma decode_index_encoded i b' : x_format_version i = 1 -> encode_index i = Ok b' -> decode_index b' = Ok i.
Proof.
  intros Hv. unfold encode_index, decode_index. destruct (index_json i) as (b & -> & Hb). cbn. intros [= <-]. rewrite Hb. cbn. by rewrite Hv.
Qed.

Lemma decode_row_encoded values b' : Forall value_exact values -> encode_row values = Ok b' -> decode_row b' = Ok values.
Proof.
  intros Hv. unfold encode_row, decode_row. destruct (row_json ROW_FORMAT_VERSION values Hv) as (b & -> & Hb). cbn. intros [= <-]. rewrite Hb. done.
Qed.

Lemma encode_schema_ok s : exists b, encode_schema s = Ok b.
Proof. unfold encode_schema. destruct (schema_json s) as (b & -> & _). by exists b. Qed.

Lemma encode_index_ok i : exists b, encode_index i = Ok b.
Proof. unfold encode_index. destruct (index_json i) as (b & -> & _). by exists b. Qed.

(** What a represented map holds under a key of the catalog. *)
Lemma lookup_table db m name k : db_ok db -> represents m db -> is_str name -> catalog_key name = Ok k ->
  match d_tables db !! name with Some s => exists b, encode_schema s = Ok b /\ m !! k = Some b | None => m !! k = None end.
Proof.
  intros Hdb Hrep Hstr Hk. destruct (d_tables db !! name) as [s|] eqn:Es.
  - destruct (encode_schema_ok s) as [b Hb]. exists b. split; [done|]. apply Hrep. left. left. eauto.
  - destruct (m !! k) as [b|] eqn:E; [|done]. apply Hrep in E. exfalso. pose proof (catalog_key_shape _ _ Hk) as [-> _].
    destruct E as [[(n & s & Hs & Hn & _)|[(n & i & _ & [Hn _]%index_catalog_key_shape & _)|[[Hn _]|[Hn _]]]]|(id & ident & values & _ & (kind & x & Hn & Hkind)%row_entry_kind)].
    + destruct (tk_name _ _ _ (do_tables _ Hdb _ _ Hs)) as [_ ?]. assert (n = name) as -> by (by eapply catalog_key_inj). congruence.
    + by apply kinds_apart in Hn as [? _].
    + rewrite <- (app_nil_r table_id_counter_key) in Hn. by apply (kinds_apart KTable KTableCounter) in Hn as [? _].
    + rewrite <- (app_nil_r index_id_counter_key) in Hn. by apply (kinds_apart KTable KIndexCounter) in Hn as [? _].
    + apply kinds_apart in Hn as [<- _]. by destruct Hkind as [?|[?|?]].
Qed.

Lemma load_schema_rep db m name : db_ok db -> represents m db -> is_str name -> is_ok (catalog_key name) = true ->
  load_schema name m = (ok_or (d_tables db !! name) (TableNotFound name), m).
Proof.
  intros Hdb Hrep Hstr Hok. unfold load_schema. destruct (catalog_key name) as [k|] eqn:Hk; [|done].
  pose proof (lookup_table db m name k Hdb Hrep Hstr Hk) as Hl. st_run. cbn. destruct (d_tables db !! name) as [s|] eqn:Es.
  - destruct Hl as (b & Hb & ->). cbn. by rewrite (decode_schema_encoded s b (tk_version _ _ _ (do_tables _ Hdb _ _ Es)) Hb).
  - by rewrite Hl.
Qed.
End Loops.

(** ** Reading a represented database

    The indexes of a table and its rows, as the scans of the engine find
    them. *)

(** The floats of every row survive JSON. *)
Definition rows_exact `{Serde} (db : Db) : Prop :=
  forall id ident values, rows_of db id !! ident = Some values -> Forall value_exact values.

Lemma elem_of_map_scan (p : list byte) (m : KvMap) (k b : list byte) : (k, b) ∈ map_scan p m <-> m !! k = Some b /\ p `prefix_of` k.
Proof. unfold map_scan. rewrite elem_of_bt_list, map_lookup_filter_Some. done. Qed.

Lemma map_scan_NoDup (p : list byte) (m : KvMap) : NoDup (map_scan p m).*1.
Proof. unfold map_scan. rewrite (Permutation_map fst (bt_list_perm _)). apply NoDup_fst_map_to_list. Qed.

Lemma try_map_all {E A B} (f : A -> result E B) l : (forall x, x ∈ l -> exists y, f x = Ok y) -> exists ys, try_map f l = Ok ys.
Proof.
  induction l as [|x l IH]; intros Hl; [by exists []|]. destruct (Hl x ltac:(by left)) as [y Hy]. destruct IH as [ys Hys]; [intros z Hz; apply Hl; by right|].
  exists (y :: ys). cbn. rewrite Hy. cbn. by rewrite Hys.
Qed.

Lemma try_map_elem {E A B} (f : A -> result E B) l ys y : try_map f l = Ok ys -> y ∈ ys <-> exists x, x ∈ l /\ f x = Ok y.
Proof.
  rewrite try_map_Forall2. intros HF. split.
  - intros [j Hj]%list_elem_of_lookup. destruct (Forall2_lookup_r _ _ _ _ _ HF Hj) as (x & Hx & Hf). exists x. split; [by eapply list_elem_of_lookup_2|done].
  - intros (x & [j Hj]%list_elem_of_lookup & Hf). destruct (Forall2_lookup_l _ _ _ _ _ HF Hj) as (y' & Hy' & Hf'). assert (y' = y) as -> by congruence. by eapply list_elem_of_lookup_2.
Qed.

Section Scan.
Context {SD : Serde} {SL : SerdeLaws} (db : Db) (m : KvMap) (Hdb : db_ok db) (Hrep : represents m db).
Implicit Types (k b rk : list byte) (values : list Value) (s : TableSchema) (i : IndexSchema) (id : Z) (p : nat) (c : ColumnSchema).

(** What is stored under a kind of key. *)
Lemma entry_index k b : m !! k = Some b -> INDEX_CATALOG_PREFIX `prefix_of` k ->
  exists name i, d_indexes db !! name = Some i /\ index_catalog_key name = Ok k /\ encode_index i = Ok b.
Proof.
  intros E%Hrep [x Hx]. change INDEX_CATALOG_PREFIX with (kind_prefix KIndex) in Hx. subst k.
  destruct E as [[(n & s & _ & [Hn _]%catalog_key_shape & _)|[(n & i & Hi & Hn & Hb)|[[Hn _]|[Hn _]]]]|(id & ident & values & _ & (kind & y & Hn & Hkind)%row_entry_kind)].
  - by apply kinds_apart in Hn as [? _].
  - eauto.
  - rewrite <- (app_nil_r table_id_counter_key) in Hn. by apply (kinds_apart KIndex KTableCounter) in Hn as [? _].
  - rewrite <- (app_nil_r index_id_counter_key) in Hn. by apply (kinds_apart KIndex KIndexCounter) in Hn as [? _].
  - apply kinds_apart in Hn as [<- _]. by destruct Hkind as [?|[?|?]].
Qed.

Lemma load_table_indexes_rep id : exists l, load_table_indexes id m = (Ok l, m) /\ forall i, i ∈ l <-> exists name, d_indexes db !! name = Some i /\ x_table_id i = id.
Proof.
  unfold load_table_indexes. rewrite run_scan. set (found := map_scan index_catalog_prefix m).
  assert (forall x, x ∈ found -> exists i, decode_index x.2 = Ok i) as Hall.
  { intros [k b] [Hm Hp]%elem_of_map_scan. destruct (entry_index k b Hm Hp) as (n & i & Hi & _ & Hb). exists i.
    apply decode_index_encoded; [|done]. apply (xk_version _ _ _ (do_indexes _ Hdb _ _ Hi)). }
  destruct (try_map_all _ _ Hall) as [l Hl]. unfold lift, mbind, ST_bind. rewrite Hl. eexists. split; [done|]. intros i.
  rewrite list_elem_of_filter, (try_map_elem _ _ _ i Hl). split.
  - intros [Hid ([k b] & [Hm Hp]%elem_of_map_scan & Hd)]. destruct (entry_index k b Hm Hp) as (n & j & Hj & _ & Hb). exists n. split; [|done].
    cbn in Hd. rewrite (decode_index_encoded j b) in Hd; [congruence| |done]. apply (xk_version _ _ _ (do_indexes _ Hdb _ _ Hj)).
  - intros (n & Hi & Hid). split; [done|]. pose proof (do_indexes _ Hdb _ _ Hi) as Hok. destruct (encode_index_ok i) as [b Hb].
    destruct (index_catalog_key n) as [k|] eqn:Hk; [|by pose proof (xk_key _ _ _ Hok) as Hk'; rewrite Hk in Hk'].
    exists (k, b). split; [|cbn; apply decode_index_encoded; [apply (xk_version _ _ _ Hok)|done]].
    apply elem_of_map_scan. split; [apply Hrep; left; right; left; eauto|]. destruct (index_catalog_key_shape _ _ Hk) as [-> _]. by eexists.
Qed.

(** The slots of a table, as the engine goes through them. *)
Lemma elem_of_table_slots s (l : list IndexSchema) sl : table_with db (t_table_id s) s ->
  (forall i, i ∈ l <-> exists name, d_indexes db !! name = Some i /\ x_table_id i = t_table_id s) -> sl ∈ table_slots s l <-> slot_of db (t_table_id s) sl.
Proof.
  intros Hs Hl. unfold table_slots, unique_slots. rewrite elem_of_app, elem_of_keyed_slots, list_elem_of_fmap. destruct sl as [p|i]; cbn [slot_of].
  - split.
    + intros [(q & c & [= <-] & Hc%elem_of_enumerate & Hk)|(i & ? & _)]; [|done]. by exists s, c.
    + intros (s' & c & Hs' & Hc & Hk). assert (s' = s) as -> by (by eapply table_with_unique). left. exists p, c. by rewrite elem_of_enumerate.
  - split.
    + intros [(q & c & ? & _)|(j & [= <-] & Hj)]; [done|]. by apply Hl.
    + intros Hi%Hl. right. by exists i.
Qed.

(** ** Rows *)

Lemma entry_row id k b : is_u64 id -> m !! k = Some b -> row_prefix id `prefix_of` k ->
  exists ident values, rows_of db id !! ident = Some values /\ row_key id ident = Ok k /\ encode_row values = Ok b.
Proof.
  intros Hid E%Hrep [x Hx]. unfold row_prefix in Hx. rewrite <- app_assoc in Hx. change ROW_PREFIX with (kind_prefix KRow) in Hx. subst k.
  destruct E as [(kind & y & Hn & Hkind)%catalog_entry_kind|(id' & ident & values & Hr & [[Hk Hb]|(sl & _ & _ & [y Hn]%slot_key_kind)])].
  - apply kinds_apart in Hn as [<- _]. by destruct Hkind as [?|[?|[?|?]]].
  - pose proof (rows_id db Hdb _ _ _ Hr) as Hid'. pose proof (row_key_shape _ _ _ Hk) as [Heq _]. apply kinds_apart in Heq as [_ Heq].
    assert (id = id') as <- by (apply (id_prefix id id' (to_be 4 (blen ident) ++ ident)); [done|done|]; rewrite <- Heq; by eexists). eauto 10.
  - destruct sl; by apply kinds_apart in Hn as [? _].
Qed.

Lemma row_lookup id ident values k b : rows_of db id !! ident = Some values -> row_key id ident = Ok k -> encode_row values = Ok b -> m !! k = Some b.
Proof. intros. apply Hrep. right. exists id, ident, values. split; [done|]. by left. Qed.

Lemma row_absent id ident k : is_u64 id -> rows_of db id !! ident = None -> row_key id ident = Ok k -> m !! k = None.
Proof.
  intros Hid Hr Hk. destruct (m !! k) as [b|] eqn:E; [|done]. exfalso. pose proof (row_key_shape _ _ _ Hk) as [-> _].
  destruct (entry_row id _ b Hid E) as (ident' & values & Hr' & Hk' & _).
  - unfold row_prefix. rewrite app_assoc. by eexists.
  - destruct (row_key_inj id id ident ident' _ Hid Hid Hk Hk') as [_ ->]. congruence.
Qed.

(** A list of a table's rows, each with its key. *)
Definition lists_rows id (rows : list (list byte * list Value)) : Prop :=
  NoDup rows.*1 /\ forall k values, (k, values) ∈ rows <-> exists ident, rows_of db id !! ident = Some values /\ row_key id ident = Ok k.

Lemma try_map_keys (l : list (list byte * list byte)) rows : try_map decode_entry l = Ok rows -> rows.*1 = l.*1.
Proof.
  rewrite try_map_Forall2. induction 1 as [|[k b] [k' v] l rows Hx _ IH]; [done|]. cbn. f_equal; [|done].
  unfold decode_entry in Hx. cbn in Hx. by apply bind_Ok in Hx as (? & _ & [= <- <-]).
Qed.

Lemma scan_rows id : is_u64 id -> rows_exact db ->
  exists rows, try_map decode_entry (map_scan (row_prefix id) m) = Ok rows /\ lists_rows id rows.
Proof.
  intros Hid Hex. set (found := map_scan (row_prefix id) m).
  assert (forall k b, (k, b) ∈ found -> exists ident values, rows_of db id !! ident = Some values /\ row_key id ident = Ok k /\ decode_entry (k, b) = Ok (k, values)) as Hall.
  { intros k b [Hm Hp]%elem_of_map_scan. destruct (entry_row id k b Hid Hm Hp) as (ident & values & Hr & Hk & Hb). exists ident, values. split_and!; [done|done|].
    unfold decode_entry. cbn. by rewrite (decode_row_encoded values b (Hex _ _ _ Hr) Hb). }
  destruct (try_map_all decode_entry found) as [rows Hrows].
  { intros [k b] Hin. destruct (Hall k b Hin) as (ident & values & _ & _ & Hd). eauto. }
  exists rows. split; [done|]. split; [rewrite (try_map_keys _ _ Hrows); apply map_scan_NoDup|]. intros k values.
  rewrite (try_map_elem _ _ _ _ Hrows). split.
  - intros ([k' b] & Hin & Hd). destruct (Hall k' b Hin) as (ident & values' & Hr & Hk & Hd'). rewrite Hd' in Hd. injection Hd as -> ->. eauto.
  - intros (ident & Hr & Hk). destruct (do_rows _ Hdb _ _ _ Hr) as (s & (n & Hs & <-) & Hrow). destruct (rk_encoded _ _ _ _ Hrow) as [b Hb].
    exists (k, b). split.
    + apply elem_of_map_scan. split; [by eapply row_lookup|]. destruct (row_key_shape _ _ _ Hk) as [-> _]. unfold row_prefix. rewrite app_assoc. by eexists.
    + unfold decode_entry. cbn. by rewrite (decode_row_encoded values b (Hex _ _ _ Hr) Hb).
Qed.
End Scan.
