(* ===== verification/DbWrite.v ===== *)
(** * Adding, removing and replacing one row *)
From S2P Require Import Prelude Order Token F64 Ast Utf8 Record Schema Expression Codec Engine CodecFacts KvSim Database DbRows DbOps.
Local Open Scope Z_scope.

Definition put_row (id : Z) (ident : identity) (values : list Value) (db : Db) : Db := set_rows id (<[ident := values]> (rows_of db id)) db.
Definition drop_row (id : Z) (ident : identity) (db : Db) : Db := set_rows id (delete ident (rows_of db id)) db.

Section Write.
Context {SD : Serde} {SL : SerdeLaws}.
Implicit Types (m : KvMap) (k b rk : list byte) (values : list Value) (s : TableSchema) (i : IndexSchema) (id : Z) (p : nat) (c : ColumnSchema) (db : Db)
  (ident : identity) (sls : list Slot).

(** The catalog of a database says what is well-formed, not its rows. *)
Lemma row_ok_set_rows id rs db s ident values : row_ok db s ident values <-> row_ok (set_rows id rs db) s ident values.
Proof. split; intros [? ? ? ? ? ?]; by split. Qed.

Lemma db_ok_set_rows id rs db : db_ok db -> (forall ident values, rs !! ident = Some values -> exists s, table_with db id s /\ row_ok db s ident values) ->
  db_ok (set_rows id rs db).
Proof.
  intros [Ht ? ? Hx ? ? Hrows] Hrs. split; try done.
  - intros name s Hs. destruct (Ht name s Hs). by split.
  - intros name i Hi. destruct (Hx name i Hi). by split.
  - intros id' ident values. rewrite rows_of_set. case_decide as Hid; intros Hr.
    + subst id'. destruct (Hrs _ _ Hr) as (s & Hs & Hok). exists s. split; [done|]. by apply row_ok_set_rows.
    + destruct (Hrows _ _ _ Hr) as (s & Hs & Hok). exists s. split; [done|]. by apply row_ok_set_rows.
Qed.

Lemma db_ok_put id ident values db s : db_ok db -> table_with db id s -> row_ok db s ident values -> db_ok (put_row id ident values db).
Proof.
  intros Hdb Hs Hrow. apply db_ok_set_rows; [done|]. intros ident' values' [[-> <-]|[_ Hr]]%lookup_insert_Some; [by exists s|]. by apply (do_rows _ Hdb).
Qed.

Lemma db_ok_drop id ident db : db_ok db -> db_ok (drop_row id ident db).
Proof. intros Hdb. apply db_ok_set_rows; [done|]. intros ident' values' [_ Hr]%lookup_delete_Some. by apply (do_rows _ Hdb). Qed.

Lemma row_entry_iff db id ident values rk bytes sls k b : (forall sl, sl ∈ sls <-> slot_of db id sl) ->
  row_key id ident = Ok rk -> encode_row values = Ok bytes ->
  row_entry db id ident values k b <-> (k = rk /\ b = bytes) \/ (slots_use id values rk sls k /\ b = rk).
Proof.
  intros Hsls Hrk Hb. unfold row_entry, slot_entry, slots_use. rewrite Hrk, Hb. setoid_rewrite Hsls. split.
  - intros [[[= <-] [= <-]]|(sl & Hsl & [= <-] & Hk)]; [by left|right; eauto].
  - intros [[-> ->]|[(sl & Hsl & Hk) ->]]; [by left|right; eauto].
Qed.

Lemma row_uses_iff db id ident values rk bytes sls k : (forall sl, sl ∈ sls <-> slot_of db id sl) ->
  row_key id ident = Ok rk -> encode_row values = Ok bytes ->
  row_uses db id ident values k <-> k = rk \/ slots_use id values rk sls k.
Proof.
  intros Hsls Hrk Hb. unfold row_uses. setoid_rewrite (row_entry_iff db id ident values rk bytes sls k _ Hsls Hrk Hb). split.
  - intros (b & [[-> _]|[? _]]); eauto.
  - intros [->|?]; eauto.
Qed.

(** A new row, once its keys are free. *)
Lemma rep_put_row m m' db id ident values rk bytes sls : db_ok db -> represents m db -> is_u64 id -> rows_of db id !! ident = None ->
  (forall sl, sl ∈ sls <-> slot_of db id sl) -> row_key id ident = Ok rk -> encode_row values = Ok bytes ->
  (forall sl k, sl ∈ sls -> exclusive sl = true -> slot_key id values rk sl = Ok (Some k) -> m !! k = None) ->
  (forall k b, m' !! k = Some b <-> ((k = rk /\ b = bytes) \/ (slots_use id values rk sls k /\ b = rk)) \/ (m !! k = Some b /\ ~ (k = rk \/ slots_use id values rk sls k))) ->
  represents m' (put_row id ident values db).
Proof.
  intros Hdb Hrep Hid Hnew Hsls Hrk Hb Hfree Hm'. apply (rep_insert m); [done|done| |].
  - intros k. rewrite (row_uses_iff db id ident values rk bytes sls k Hsls Hrk Hb). intros [->|(sl & Hsl & Hk)]; [by eapply row_absent|].
    destruct (exclusive sl) eqn:Hx; [by eapply Hfree|]. destruct (m !! k) as [b|] eqn:E; [|done]. exfalso. apply Hrep in E. apply Hsls in Hsl.
    destruct E as [Hc|(id' & ident' & values' & Hr & He)].
    + eapply (catalog_row_apart db id ident values k b); [done|]. right. exists sl. eauto.
    + destruct He as [[[-> _]%row_key_shape _]|(sl' & Hsl' & Hrk' & Hk')].
      * apply slot_key_kind in Hk as [x Hn]. destruct sl; by apply kinds_apart in Hn as [? _].
      * destruct (slot_key_owner db Hdb id id' values values' rk b sl sl' k Hsl Hsl' Hk Hk') as (<- & <- & Heq). rewrite <- Heq in Hrk' by done.
        destruct (row_key_inj id id ident ident' rk Hid Hid Hrk Hrk') as [_ <-]. congruence.
  - intros k b. by rewrite Hm', (row_entry_iff db id ident values rk bytes sls k b Hsls Hrk Hb), (row_uses_iff db id ident values rk bytes sls k Hsls Hrk Hb).
Qed.

(** What the engine does for a new row. *)
Lemma claims_put m m1 db id ident values rk bytes sls : db_ok db -> represents m db -> is_u64 id -> rows_of db id !! ident = None ->
  (forall sl, sl ∈ sls <-> slot_of db id sl) -> row_key id ident = Ok rk -> encode_row values = Ok bytes ->
  claims id values rk sls m m1 -> represents (<[rk := bytes]> m1) (put_row id ident values db) /\ (forall sl, slot_of db id sl -> is_ok (slot_key id values rk sl) = true).
Proof.
  intros Hdb Hrep Hid Hnew Hsls Hrk Hb (Hok & Hm1 & Hex)%claims_spec. split; [|intros sl Hsl; apply Hok; by apply Hsls].
  eapply (rep_put_row m); try done. intros k b.
  assert (~ slots_use id values rk sls rk) as Hno.
  { intros (sl & Hsl & Hk). apply slot_key_kind in Hk as [x Hn]. destruct (row_key_shape _ _ _ Hrk) as [Hs _]. rewrite Hs in Hn. destruct sl; by apply kinds_apart in Hn as [? _]. }
  destruct (decide (rk = k)) as [<-|Hne].
  - rewrite lookup_insert_eq. split; [intros [= <-]; by left; left|]. intros [[[_ ->]|[? _]]|[_ Hn]]; [done|done|]. by destruct Hn; left.
  - rewrite lookup_insert_ne, Hm1 by done. split.
    + intros [[? ->]|[? ?]]; [by left; right|]. right. split; [done|]. intros [->|?]; done.
    + intros [[[-> _]|[? ->]]|[? Hn]]; [done|by left|]. right. split; [done|]. tauto.
Qed.

(** What the engine does for a row that goes. *)
Lemma releases_drop m m1 db id ident values rk sls : db_ok db -> represents m db -> rows_of db id !! ident = Some values ->
  (forall sl, sl ∈ sls <-> slot_of db id sl) -> row_key id ident = Ok rk ->
  releases id values rk sls m m1 -> represents (delete rk m1) (drop_row id ident db).
Proof.
  intros Hdb Hrep Hold Hsls Hrk [_ Hm1]%releases_spec. destruct (do_rows _ Hdb _ _ _ Hold) as (s & (n & Hs & <-) & Hrow).
  destruct (rk_encoded _ _ _ _ Hrow) as [bytes Hb]. eapply (rep_delete m); [done|done|done|]. intros k b.
  rewrite lookup_delete_Some, Hm1, (row_uses_iff db _ ident values rk bytes sls k Hsls Hrk Hb). split.
  - intros (? & ? & ?). split; [done|]. intros [->|?]; done.
  - intros [? Hn]. split; [|split; [done|tauto]]. intros ->. by destruct Hn; left.
Qed.

(** ** Replacing a row *)

Lemma unique_use_kind id values rk s k : slots_use id values rk (unique_slots s) k -> exists x, k = kind_prefix KUnique ++ x.
Proof. intros (sl & (p & c & -> & _)%elem_of_keyed_slots & Hk). by apply slot_key_kind in Hk. Qed.

Lemma index_use_kind id values rk (l : list IndexSchema) k : slots_use id values rk (SlotIndex <$> l) k -> exists x, k = kind_prefix KEntry ++ x.
Proof. intros (sl & (i & -> & _)%list_elem_of_fmap & Hk). by apply slot_key_kind in Hk. Qed.

(** The map without the entries of a row. *)
Definition without_row id values rk sls m : KvMap := filter (fun x => ~ (x.1 = rk \/ slots_use id values rk sls x.1)) m.

Lemma lookup_without_row id values rk sls m k b : without_row id values rk sls m !! k = Some b <-> m !! k = Some b /\ ~ (k = rk \/ slots_use id values rk sls k).
Proof. unfold without_row. by rewrite map_lookup_filter_Some. Qed.

Lemma rep_without_row m db id ident values rk sls : db_ok db -> represents m db -> rows_of db id !! ident = Some values ->
  (forall sl, sl ∈ sls <-> slot_of db id sl) -> row_key id ident = Ok rk -> represents (without_row id values rk sls m) (drop_row id ident db).
Proof.
  intros Hdb Hrep Hold Hsls Hrk. destruct (do_rows _ Hdb _ _ _ Hold) as (s & (n & Hs & <-) & Hrow). destruct (rk_encoded _ _ _ _ Hrow) as [bytes Hb].
  eapply (rep_delete m); [done|done|done|]. intros k b. by rewrite lookup_without_row, (row_uses_iff db _ ident values rk bytes sls k Hsls Hrk Hb).
Qed.

Section Replace.
Context (db : Db) (m : KvMap) (Hdb : db_ok db) (Hrep : represents m db) (s : TableSchema) (Hs : table_with db (t_table_id s) s) (l : list IndexSchema)
  (Hl : forall i, i ∈ l <-> exists name, d_indexes db !! name = Some i /\ x_table_id i = t_table_id s)
  (ident ident' : identity) (original updated : list Value) (rk rk' bytes : list byte)
  (Hold : rows_of db (t_table_id s) !! ident = Some original) (Hrk : row_key (t_table_id s) ident = Ok rk)
  (Hrk' : row_key (t_table_id s) ident' = Ok rk') (Hb : encode_row updated = Ok bytes)
  (Hexact : forall p c o n, t_columns s !! p = Some c -> keyed c = true -> original !! p = Some o -> updated !! p = Some n -> value_eqb o n = true -> o = n)
  (m1 m2 m3 m4 : KvMap)
  (H1 : update_unique_keys s original updated rk rk' m = (Ok tt, m1))
  (H2 : remove_index_entries l original rk m1 = (Ok tt, m2))
  (H3 : add_index_entries l updated rk' m2 = (Ok tt, m3))
  (H4 : (rk' = rk /\ m4 = m3) \/ (rk' <> rk /\ m3 !! rk' = None /\ m4 = delete rk m3)).
Let id := t_table_id s.
Let sls := table_slots s l.
Let m0 := without_row id original rk sls m.

Lemma replace_slots sl : sl ∈ sls <-> slot_of db id sl.
Proof. by apply elem_of_table_slots. Qed.

Lemma replace_unique :
  (forall sl, sl ∈ unique_slots s -> is_ok (slot_key id updated rk' sl) = true) /\
  moved rk' (slots_use id original rk (unique_slots s)) (slots_use id updated rk' (unique_slots s)) m m1.
Proof.
  eapply (update_keys_moved s original updated rk rk' (enumerate (t_columns s))); [rewrite enumerate_fst; apply NoDup_seq| |done].
  intros p c Hpc%elem_of_enumerate Hc. assert (slot_of db id (SlotUnique p)) as Hsl by (by exists s, c).
  destruct (do_rows _ Hdb _ _ _ Hold) as (s' & Hs' & Hrow). assert (s' = s) as -> by (by eapply table_with_unique). split_and!.
  - by apply (rk_slots _ _ _ _ Hrow).
  - intros k Hk. apply Hrep. right. exists id, ident, original. split; [done|]. right. exists (SlotUnique p). done.
  - intros o n. by apply (Hexact p c).
Qed.

Lemma replace_ident : rows_of (drop_row id ident db) id !! ident' = None.
Proof.
  unfold drop_row. rewrite rows_of_set, decide_True by done. destruct (decide (ident = ident')) as [<-|Hne]; [apply lookup_delete_eq|].
  rewrite lookup_delete_ne by done. destruct (rows_of db id !! ident') as [v|] eqn:Ev; [|done]. exfalso.
  pose proof (table_with_id db Hdb _ _ Hs) as Hid. destruct H4 as [[-> _]|(_ & Hno & _)].
  { by destruct (row_key_inj id id ident ident' rk Hid Hid Hrk Hrk') as [_ ?]. }
  destruct (do_rows _ Hdb _ _ _ Ev) as (s' & (n & _ & Es') & Hrow). destruct (rk_encoded _ _ _ _ Hrow) as [b' Hb'].
  pose proof (row_lookup db m Hrep id ident' v rk' b' Ev Hrk' Hb') as Hm.
  destruct (row_key_shape _ _ _ Hrk') as [Hshape _]. destruct replace_unique as [_ [Hm1 _]].
  apply (remove_releases id) in H2 as [_ Hm2]%releases_spec. apply (add_claims id) in H3 as (_ & Hm3 & _)%claims_spec.
  assert (m3 !! rk' = Some b'); [|congruence]. apply Hm3. right. split.
  - apply Hm2. split; [apply Hm1; right; split_and!; [done|..]|]; intros Hu; rewrite Hshape in Hu;
      [apply unique_use_kind in Hu as [x Hx]|apply unique_use_kind in Hu as [x Hx]|apply index_use_kind in Hu as [x Hx]]; by apply kinds_apart in Hx as [? _].
  - intros Hu. rewrite Hshape in Hu. apply index_use_kind in Hu as [x Hx]. by apply kinds_apart in Hx as [? _].
Qed.

Lemma replace_row : represents (<[rk' := bytes]> m4) (put_row id ident' updated (drop_row id ident db)) /\
  (forall sl, slot_of db id sl -> is_ok (slot_key id updated rk' sl) = true).
Proof.
  pose proof (table_with_id db Hdb _ _ Hs) as Hid. pose proof replace_ident as Hnew.
  destruct replace_unique as [Hok1 [Hm1 Hf1]]. apply (remove_releases id) in H2 as [_ Hm2]%releases_spec. apply (add_claims id) in H3 as (Hok3 & Hm3 & Hf3)%claims_spec.
  set (Uo := slots_use id original rk (unique_slots s)) in *. set (Un := slots_use id updated rk' (unique_slots s)) in *.
  set (Xo := slots_use id original rk (SlotIndex <$> l)) in *. set (Xn := slots_use id updated rk' (SlotIndex <$> l)) in *.
  assert (forall k, k = rk \/ k = rk' -> ~ Uo k /\ ~ Un k /\ ~ Xo k /\ ~ Xn k) as Hrow.
  { intros k Hk. assert (exists y, k = kind_prefix KRow ++ y) as [y ->] by (destruct Hk as [->| ->]; [destruct (row_key_shape _ _ _ Hrk) as [-> _]|destruct (row_key_shape _ _ _ Hrk') as [-> _]]; eauto).
    split_and!; intros Hu; first [apply unique_use_kind in Hu as [x Hx]|apply index_use_kind in Hu as [x Hx]]; by apply kinds_apart in Hx as [? _]. }
  assert (forall k, Uo k \/ Un k -> ~ Xo k /\ ~ Xn k) as Hkind.
  { intros k Hk. assert (exists y, k = kind_prefix KUnique ++ y) as [y ->] by (destruct Hk as [Hk|Hk]; by apply unique_use_kind in Hk).
    split; intros Hu; apply index_use_kind in Hu as [x Hx]; by apply kinds_apart in Hx as [? _]. }
  assert (forall k b, m0 !! k = Some b <-> m !! k = Some b /\ ~ (k = rk \/ Uo k \/ Xo k)) as Hm0.
  { intros k b. unfold m0. rewrite lookup_without_row. unfold sls, table_slots. by rewrite slots_use_app. }
  assert (forall k b, m4 !! k = Some b <-> m3 !! k = Some b /\ (k = rk -> rk' = rk)) as Hm4.
  { intros k b. destruct H4 as [[-> ->]|(Hne & _ & ->)]; [tauto|]. rewrite lookup_delete_Some. split; [intros [? ?]; split; [done|]; congruence|].
    intros [? Hn]. split; [|done]. intros <-. by apply Hne, Hn. }
  split; [|intros sl Hsl%replace_slots; unfold sls, table_slots in Hsl; apply elem_of_app in Hsl as [?|?]; auto].
  eapply (rep_put_row m0 _ (drop_row id ident db) id ident' updated rk' bytes sls); [by apply db_ok_drop|eapply rep_without_row; try done; apply replace_slots|done|done| |done|done| |].
  - intros sl. apply replace_slots.
  - intros sl k Hsl Hx Hk. destruct (m0 !! k) as [b|] eqn:E; [|done]. exfalso. apply Hm0 in E as [E Hn].
    unfold sls, table_slots in Hsl. apply elem_of_app in Hsl as [Hsl|Hsl].
    + destruct (Hf1 k) as [?|?]; [by exists sl|congruence|tauto].
    + assert (Xn k) as HX by (by exists sl). assert (~ Un k) as HU by (intros HU; by apply (Hkind k); [right|]).
      assert (m2 !! k = Some b) as Hc by (apply Hm2; split; [apply Hm1; right; tauto|tauto]). rewrite (Hf3 sl k Hsl Hx Hk) in Hc. done.
  - intros k b. assert (slots_use id updated rk' sls k <-> Un k \/ Xn k) as Hu by (unfold sls, table_slots; apply slots_use_app).
    rewrite Hu, Hm0. destruct (decide (rk' = k)) as [<-|Hne].
    + rewrite lookup_insert_eq. destruct (Hrow rk') as (? & ? & ? & ?); [by right|]. split; [intros [= <-]; tauto|]. intros [[[_ ->]|?]|?]; [done|tauto|tauto].
    + rewrite lookup_insert_ne, Hm4, Hm3, Hm2, Hm1 by done. pose proof (Hkind k). pose proof (Hrow k). assert (k = rk -> rk' <> rk) by congruence.
      assert (k <> rk') by congruence. tauto.
Qed.
End Replace.
End Write.
