(* ===== verification/DbAccess.v ===== *)
(** * Access paths

    A selection reads the rows of a table through a key or an index when it
    compares a column with a constant.  Every row that the selection accepts
    is among the rows that are read, and each of them is read once. *)
From S2P Require Import Prelude Order Token F64 Ast Utf8 Record Schema Expression Codec Engine CodecFacts KvSim Database DbRows DbOps DbWrite.
Local Open Scope Z_scope.

(** The tables whose keys and indexes decide equality: no key column holds
    floats (the two zeros are equal and have different keys), and beyond its
    first column an index has no column that may be NULL (a row with a NULL
    is not in the index). *)
Record keys_exact (db : Db) : Prop := {
  ke_tables : forall name s p c, d_tables db !! name = Some s -> t_columns s !! p = Some c -> c_unique c || c_primary_key c = true -> c_data_type c <> TFloat64;
  ke_indexes : forall name i s p c, d_indexes db !! name = Some i -> table_with db (x_table_id i) s -> p ∈ x_columns i -> t_columns s !! p = Some c -> c_data_type c <> TFloat64;
  ke_tails : forall name i s p c, d_indexes db !! name = Some i -> table_with db (x_table_id i) s -> p ∈ tail (x_columns i) -> t_columns s !! p = Some c -> c_nullable c = false;
}.

(** ** Constants *)

Lemma constant_evaluate e s r1 r2 : is_constant e = true -> evaluate e s r1 = evaluate e s r2.
Proof.
  induction e as [i|l sp|op e IH sp|e1 IH1 op e2 IH2 sp|e IH b sp|e IH sp]; cbn; intros Hc; try done.
  - by rewrite IH.
  - apply andb_true_iff in Hc as [? ?]. by rewrite IH1, IH2.
  - by rewrite IH.
  - by apply IH.
Qed.

(** The two forms of an equality of a column and a constant. *)
Lemma equality_forms e name constant : equality_column_and_constant e = Some (name, constant) ->
  is_constant constant = true /\ exists i sp, id_value i = name /\ (e = EBinary (EIdentifier i) Equal constant sp \/ e = EBinary constant Equal (EIdentifier i) sp).
Proof.
  destruct e as [| | |l op r sp| |]; try done. destruct op; try done. intros H.
  assert ((exists i, l = EIdentifier i /\ is_constant r = true /\ name = id_value i /\ constant = r) \/
          (exists i, r = EIdentifier i /\ is_constant l = true /\ name = id_value i /\ constant = l)) as [(i & -> & Hc & -> & ->)|(i & -> & Hc & -> & ->)].
  { cbn in H. destruct l; try (destruct r; try done; match type of H with context [if ?b then _ else _] => destruct b eqn:E end; try done; injection H as <- <-; right; by eexists).
    destruct (is_constant r) eqn:E; [|done]. injection H as <- <-. left. by eexists. }
  - split; [done|]. exists i, sp. eauto.
  - split; [done|]. exists i, sp. eauto.
Qed.

(** ** Equal values have equal identities *)

Lemma compare_equal_identity data_type a b : data_type <> TFloat64 -> has_type data_type a -> type_matches data_type b = true -> is_null b = false ->
  compare_values a b = Ok (Some Eq) -> encode_identity a = encode_identity b.
Proof.
  destruct data_type, a, b; cbn; try done; intros _ _ _ _ [= H].
  - by destruct b0, b.
  - by apply Z.compare_eq in H as ->.
  - unfold str_cmp in H. by apply bytes_cmp_eq in H as ->.
Qed.

Lemma compare_values_swap a b : compare_values a b = Ok (Some Eq) -> match a, b with VFloat _, _ | _, VFloat _ => True | _, _ => compare_values b a = Ok (Some Eq) end.
Proof.
  destruct a, b; cbn; try done; intros [= H]; f_equal; f_equal.
  - by destruct b0, b.
  - apply Z.compare_eq in H as ->. apply Z.compare_refl.
  - unfold str_cmp in *. apply bytes_cmp_eq in H as ->. apply bytes_cmp_refl.
Qed.

Lemma binary_equal_true a b : binary Equal a b = Ok (VBoolean true) -> is_null a = false /\ is_null b = false /\ compare_values a b = Ok (Some Eq).
Proof.
  unfold binary. cbn [operator_kind]. destruct (is_null a), (is_null b); cbn; try done. unfold compare.
  intros ([o|] & Hc & H)%bind_Ok; [|done]. cbn in H. destruct o; try done.
Qed.

Lemma predicate_true e s row : predicate e s row = Ok true -> evaluate e s row = Ok (VBoolean true).
Proof. unfold predicate. intros (v & -> & H)%bind_Ok. by destruct v; simplify_eq. Qed.

(** A row that an equality selects has the constant in its column. *)
Lemma equality_selects e name constant s p c row v : equality_column_and_constant e = Some (name, constant) ->
  column_position s name = Some p -> t_columns s !! p = Some c -> c_data_type c <> TFloat64 -> schema_typed s ->
  validate_row s row = Ok tt -> Forall value_wf row ->
  evaluate constant s (replicate (length (t_columns s)) VNull) = Ok v -> validate c (coerce v (c_data_type c)) = Ok tt ->
  predicate e s row = Ok true ->
  is_null v = false /\ exists w, row !! p = Some w /\ is_null w = false /\ encode_identity w = encode_identity (coerce v (c_data_type c)).
Proof.
  intros (Hconst & i & sp & <- & He)%equality_forms Hp Hc Hf Hty Hrow Hwf Hv Hval Hsel%predicate_true.
  rewrite (constant_evaluate constant s _ row Hconst) in Hv.
  assert (coerce v (c_data_type c) = v) as Hco by (destruct v, (c_data_type c); done). rewrite Hco in *.
  assert (exists w, row !! p = Some w /\ (binary Equal w v = Ok (VBoolean true) \/ binary Equal v w = Ok (VBoolean true))) as (w & Hw & Hb).
  { destruct He as [->| ->]; cbn [evaluate] in Hsel; [apply bind_Ok in Hsel as (a & Ha & (b & Hb & Hsel)%bind_Ok)|apply bind_Ok in Hsel as (b & Hb & (a & Ha & Hsel)%bind_Ok)];
      unfold column_position in Hp; unfold column_position in Ha; rewrite Hp in Ha; cbn in Ha; destruct (row !! p) as [w|]; [|done|  |done];
      injection Ha as <-; rewrite Hv in Hb; injection Hb as <-; eauto. }
  assert (is_null v = false /\ is_null w = false) as [Hnv Hnw] by (destruct Hb as [(? & ? & _)%binary_equal_true|(? & ? & _)%binary_equal_true]; done).
  split; [done|]. exists w. split_and!; [done|done|].
  assert (has_type (c_data_type c) w) as Htw.
  { destruct (validate_conforms c w) as [[-> _]|?]; [by eapply (Forall_lookup_1 _ _ _ _ Hty)|by eapply (Forall_lookup_1 _ _ _ _ Hwf)|by eapply validate_row_lookup|done|done]. }
  assert (type_matches (c_data_type c) v = true) as Htv by (unfold validate in Hval; rewrite Hnv in Hval; by destruct (type_matches (c_data_type c) v)).
  assert (compare_values w v = Ok (Some Eq)) as Hcmp.
  { destruct Hb as [(_ & _ & ?)%binary_equal_true|(_ & _ & Hvw)%binary_equal_true]; [done|]. apply compare_values_swap in Hvw.
    destruct (c_data_type c), v, w; done. }
  by eapply compare_equal_identity.
Qed.

Lemma null_selects_none e name constant s row : equality_column_and_constant e = Some (name, constant) ->
  evaluate constant s (replicate (length (t_columns s)) VNull) = Ok VNull -> predicate e s row = Ok true -> False.
Proof.
  intros (Hconst & i & sp & <- & He)%equality_forms Hv Hsel%predicate_true. rewrite (constant_evaluate constant s _ row Hconst) in Hv.
  destruct He as [->| ->]; cbn [evaluate] in Hsel; [apply bind_Ok in Hsel as (a & Ha & (b & Hb & Hsel)%bind_Ok)|apply bind_Ok in Hsel as (b & Hb & (a & Ha & Hsel)%bind_Ok)];
    rewrite Hv in Hb; injection Hb as <-; apply binary_equal_true in Hsel as (? & ? & _); done.
Qed.

Lemma index_Some {A} (l : list A) p x : l !! p = Some x -> index l p = Ok x.
Proof. unfold index. by intros ->. Qed.

(** The values at positions where none is NULL. *)
Lemma values_present (values : list Value) (ps : list nat) : (forall q, q ∈ ps -> exists x, values !! q = Some x /\ is_null x = false) ->
  exists rest, try_map (index values) ps = Ok rest /\ existsb is_null rest = false.
Proof.
  induction ps as [|q ps IH]; intros Hps; [by exists []|]. destruct IH as (rest & Hrest & Hnn); [intros; apply Hps; by right|].
  destruct (Hps q) as (x & Hx & Hnx); [by left|]. exists (x :: rest). cbn. rewrite (index_Some _ _ _ Hx). cbn. rewrite Hrest. cbn. by rewrite Hnx.
Qed.

Section Access.
Context {SD : Serde} {SL : SerdeLaws} (db : Db) (m : KvMap) (Hdb : db_ok db) (Hrep : represents m db) (Hex : rows_exact db) (Hke : keys_exact db)
  (s : TableSchema) (Hs : table_with db (t_table_id s) s) (selection : option Expr).
Implicit Types (k b rk : list byte) (values : list Value) (i : IndexSchema) (p : nat) (c : ColumnSchema) (ident : identity).
Let id := t_table_id s.

Definition selected_row ident values k : Prop :=
  rows_of db id !! ident = Some values /\ row_key id ident = Ok k /\ is_selected s selection values = Ok true.

(** The rows that were read: rows of the table, each once, and all that the
    selection accepts. *)
Definition reads_selected (found : list (list byte * list Value)) : Prop :=
  NoDup found.*1 /\
  (forall k values, (k, values) ∈ found -> exists ident, rows_of db id !! ident = Some values /\ row_key id ident = Ok k) /\
  (forall ident values k, selected_row ident values k -> (k, values) ∈ found).

(** A path that leads to every selected row. *)
Definition path_ok (path : AccessPath) : Prop :=
  match path with
  | Scan => True
  | Point None => forall ident values k, ~ selected_row ident values k
  | Point (Some key) =>
      (forall b, m !! key = Some b -> exists ident values, rows_of db id !! ident = Some values /\ row_key id ident = Ok key /\ encode_row values = Ok b) /\
      (forall ident values k, selected_row ident values k -> k = key)
  | IndexPrefix prefix =>
      exists i, (forall k b, m !! k = Some b -> prefix `prefix_of` k ->
        exists ident values, rows_of db id !! ident = Some values /\ row_key id ident = Ok b /\ slot_key id values b (SlotIndex i) = Ok (Some k)) /\
      (forall ident values k, selected_row ident values k -> exists key, m !! key = Some k /\ prefix `prefix_of` key)
  end.

Lemma id_ok : is_u64 id.
Proof. by eapply table_with_id. Qed.

Lemma row_of_table ident values : rows_of db id !! ident = Some values -> row_ok db s ident values.
Proof. intros Hr. destruct (do_rows _ Hdb _ _ _ Hr) as (s' & Hs' & Hrow). by assert (s' = s) as -> by (by eapply table_with_unique). Qed.

Lemma decode_stored ident values b : rows_of db id !! ident = Some values -> encode_row values = Ok b -> decode_row b = Ok values.
Proof. intros Hr Hb. apply decode_row_encoded; [by eapply Hex|done]. Qed.

(** A row's key determines the row. *)
Lemma row_key_row ident1 ident2 v1 v2 k : rows_of db id !! ident1 = Some v1 -> rows_of db id !! ident2 = Some v2 ->
  row_key id ident1 = Ok k -> row_key id ident2 = Ok k -> ident1 = ident2 /\ v1 = v2.
Proof. intros R1 R2 K1 K2. destruct (row_key_inj id id ident1 ident2 k id_ok id_ok K1 K2) as [_ ->]. split; [done|congruence]. Qed.

Lemma read_indexed_row_run key ident values rk : rows_of db id !! ident = Some values -> row_key id ident = Ok rk -> read_indexed_row (key, rk) m = (Ok (rk, values), m).
Proof.
  intros Hr Hk. destruct (rk_encoded _ _ _ _ (row_of_table _ _ Hr)) as [b Hb]. unfold read_indexed_row. rewrite run_get. cbn [snd].
  rewrite (row_lookup db m Hrep id ident values rk b Hr Hk Hb). unfold lift, mbind, ST_bind. cbn. by rewrite (decode_stored ident values b Hr Hb).
Qed.

(** Following the entries of an index to their rows. *)
Lemma collect_rows i (l : list (list byte * list byte)) : NoDup l.*1 ->
  (forall key rk, (key, rk) ∈ l -> exists ident values, rows_of db id !! ident = Some values /\ row_key id ident = Ok rk /\ slot_key id values rk (SlotIndex i) = Ok (Some key)) ->
  exists found, collect l read_indexed_row m = (Ok found, m) /\ found.*1 = l.*2 /\ NoDup found.*1 /\
    (forall k values, (k, values) ∈ found <-> exists key ident, (key, k) ∈ l /\ rows_of db id !! ident = Some values /\ row_key id ident = Ok k).
Proof.
  induction l as [|[key rk] l IH]; intros Hnd Hl.
  { exists []. split; [done|]. split; [done|]. split; [constructor|]. intros k v. split; [by intros ?%not_elem_of_nil|]. intros (? & ? & H & _). by apply not_elem_of_nil in H. }
  cbn in Hnd. apply NoDup_cons in Hnd as [Hno Hnd]. destruct IH as (found & Hrun & Hkeys & Hnd' & Hin); [done|intros; apply Hl; by right|].
  destruct (Hl key rk) as (ident & values & Hr & Hk & Hslot); [by left|].
  exists ((rk, values) :: found). split; [|split; [|split]].
  - cbn [collect]. rewrite (ST_bind_step _ _ _ _ _ (read_indexed_row_run key ident values rk Hr Hk)). by rewrite (ST_bind_step _ _ _ _ _ Hrun).
  - cbn. by rewrite Hkeys.
  - cbn. apply NoDup_cons. split; [|done]. rewrite Hkeys. intros Hrk. apply list_elem_of_fmap in Hrk as ([key' rk'] & -> & Hin'). cbn in *.
    destruct (Hl key' rk') as (ident' & values' & Hr' & Hk' & Hslot'); [by right|].
    destruct (row_key_row ident ident' values values' rk') as [_ <-]; try done. assert (key = key') as -> by congruence.
    apply Hno. by apply (list_elem_of_fmap_2 fst _ (key', rk')).
  - intros k v. rewrite elem_of_cons, Hin. split.
    + intros [[= -> ->]|(key' & ident' & Hin' & ?)]; [exists key, ident; split; [by left|done]|exists key', ident'; split; [by right|done]].
    + intros (key' & ident' & Hkr & Hr' & Hk'). apply elem_of_cons in Hkr as [[= -> ->]|Hin']; [|right; eauto].
      destruct (row_key_row ident ident' values v rk) as [_ <-]; try done. by left.
Qed.

Lemma read_path path : path_ok path -> plan_access s selection m = (Ok path, m) ->
  exists found, read_rows s selection m = (Ok found, m) /\ reads_selected found.
Proof.
  intros Hok Hplan. unfold read_rows. rewrite (ST_bind_step _ _ _ _ _ Hplan). destruct path as [|[key|]|prefix]; cbn in Hok.
  - rewrite run_scan. destruct (scan_rows db m Hdb Hrep id id_ok Hex) as (rows & Hrows & Hnd & Hin). exists rows. unfold lift. fold id. rewrite Hrows. split; [done|]. split_and!; [done|by intros ? ? ?%Hin|].
    intros ident values k (Hr & Hk & _). apply Hin. eauto.
  - rewrite run_get. destruct Hok as [Hkey Hsel]. destruct (m !! key) as [b|] eqn:E.
    + destruct (Hkey b eq_refl) as (ident & values & Hr & Hk & Hb). exists [(key, values)]. rewrite (decode_stored ident values b Hr Hb).
      split; [done|]. split_and!; [apply NoDup_singleton|intros k v H; apply list_elem_of_singleton in H as [= -> ->]; eauto|].
      intros ident' values' k Hrow. pose proof (Hsel _ _ _ Hrow) as ->. destruct Hrow as (Hr' & Hk' & _).
      destruct (row_key_row ident ident' values values' key) as [_ <-]; try done. by left.
    + exists []. split; [done|]. split_and!; [constructor|by intros k v ?%not_elem_of_nil|]. intros ident values k Hrow. exfalso.
      pose proof (Hsel _ _ _ Hrow) as ->. destruct Hrow as (Hr & Hk & _). destruct (rk_encoded _ _ _ _ (row_of_table _ _ Hr)) as [b Hb].
      pose proof (row_lookup db m Hrep id ident values key b Hr Hk Hb). congruence.
  - exists []. split; [done|]. split_and!; [constructor|by intros k v ?%not_elem_of_nil|]. intros ident values k Hrow. by apply Hok in Hrow.
  - destruct Hok as (i & Hent & Hsel). rewrite run_scan. set (entries := map_scan prefix m).
    destruct (collect_rows i entries) as (found & Hrun & _ & Hnd & Hin); [apply map_scan_NoDup|intros key rk [Hm Hp]%elem_of_map_scan; by apply Hent|]. exists found. split; [done|]. split_and!; [done|intros k v H; apply Hin in H as (? & ident & _ & ? & ?); eauto|].
    intros ident values k Hrow. destruct (Hsel _ _ _ Hrow) as (key & Hm & Hp). destruct Hrow as (Hr & Hk & _). apply Hin. exists key, ident. split; [|done]. by apply elem_of_map_scan.
Qed.

(** ** Planning *)

(** An entry of a unique column or of an index is that of a row. *)
Lemma entry_slot k b kind x : m !! k = Some b -> k = kind_prefix kind ++ x -> kind = KUnique \/ kind = KEntry ->
  exists id' ident values sl, rows_of db id' !! ident = Some values /\ slot_of db id' sl /\ row_key id' ident = Ok b /\ slot_key id' values b sl = Ok (Some k).
Proof.
  intros E%Hrep -> Hkind. destruct E as [(kind' & y & Hn & Hk)%catalog_entry_kind|(id' & ident & values & Hr & [[[Hn _]%row_key_shape _]|(sl & Hsl & Hrk & Hk)])].
  - apply kinds_apart in Hn as [-> _]. destruct Hkind as [->| ->], Hk as [?|[?|[?|?]]]; done.
  - apply kinds_apart in Hn as [-> _]. by destruct Hkind.
  - eauto 10.
Qed.

Lemma unique_owner p v k b : unique_key id p v = Ok k -> m !! k = Some b -> exists ident values, rows_of db id !! ident = Some values /\ row_key id ident = Ok b.
Proof.
  intros (x & _ & Hk & Hp)%unique_key_shape Hm. destruct (entry_slot k b KUnique _ Hm Hk) as (id' & ident & values & sl & Hr & Hsl & Hrk & Hkey); [by left|].
  destruct sl as [q|i]; [|apply slot_key_kind in Hkey as [y Hy]; rewrite Hk in Hy; by apply kinds_apart in Hy as [? _]].
  apply slot_key_unique in Hkey as (w & _ & _ & (y & _ & Hy & _)%unique_key_shape). rewrite Hk in Hy. apply kinds_apart in Hy as [_ Hy].
  apply app_inj_1 in Hy as [Hy _]; [|by rewrite !length_to_be]. apply to_be_8_inj in Hy; [|apply id_ok|by eapply slot_of_id]. subst id'. eauto.
Qed.

Lemma index_owner name i k b x : d_indexes db !! name = Some i -> x_table_id i = id -> k = kind_prefix KEntry ++ to_be 8 (x_id i) ++ x -> m !! k = Some b ->
  exists ident values, rows_of db id !! ident = Some values /\ row_key id ident = Ok b /\ slot_key id values b (SlotIndex i) = Ok (Some k).
Proof.
  intros Hi Hid Hk Hm. destruct (entry_slot k b KEntry _ Hm Hk) as (id' & ident & values & sl & Hr & Hsl & Hrk & Hkey); [by right|].
  destruct sl as [q|j]; [apply slot_key_kind in Hkey as [y Hy]; rewrite Hk in Hy; by apply kinds_apart in Hy as [? _]|].
  destruct Hsl as (n & Hj & <-). pose proof Hkey as (sel & _ & (xs & Hy & _)%index_entry_key_shape)%slot_key_index. rewrite Hk in Hy. apply kinds_apart in Hy as [_ Hy].
  apply app_inj_1 in Hy as [Hy _]; [|by rewrite !length_to_be].
  apply to_be_8_inj in Hy; [|by apply (xk_id _ _ _ (do_indexes _ Hdb _ _ Hi))|by apply (xk_id _ _ _ (do_indexes _ Hdb _ _ Hj))].
  pose proof (index_unique_id db Hdb _ _ _ _ Hi Hj Hy) as <-. rewrite Hid in *. eauto.
Qed.

(** The point that a key leads to. *)
Lemma point_ok key : (forall ident values k, selected_row ident values k -> m !! key = Some k) ->
  (forall b, m !! key = Some b -> exists ident values, rows_of db id !! ident = Some values /\ row_key id ident = Ok b) -> path_ok (Point (m !! key)).
Proof.
  intros Hsel Howner. destruct (m !! key) as [rk|] eqn:E; cbn.
  - split; [|intros ident values k Hrow; by apply Hsel in Hrow as [= <-]]. intros b Hb. destruct (Howner rk eq_refl) as (ident & values & Hr & Hk).
    exists ident, values. split_and!; [done|done|]. destruct (rk_encoded _ _ _ _ (row_of_table _ _ Hr)) as [b' Hb'].
    pose proof (row_lookup db m Hrep id ident values rk b' Hr Hk Hb'). congruence.
  - intros ident values k Hrow. by apply Hsel in Hrow.
Qed.

Section Equality.
Context (e constant : Expr) (name : str) (p : nat) (c : ColumnSchema) (v : Value)
  (Hsel : selection = Some e) (Heq : equality_column_and_constant e = Some (name, constant)) (Hp : column_position s name = Some p) (Hc : t_columns s !! p = Some c)
  (Hv : evaluate constant s (replicate (length (t_columns s)) VNull) = Ok v) (Hval : validate c (coerce v (c_data_type c)) = Ok tt).
Let w := coerce v (c_data_type c).

Lemma selected_value ident values k : c_data_type c <> TFloat64 -> selected_row ident values k ->
  exists u, values !! p = Some u /\ is_null u = false /\ encode_identity u = encode_identity w.
Proof.
  intros Hf (Hr & Hk & Hs'). rewrite Hsel in Hs'. cbn in Hs'. pose proof (row_of_table _ _ Hr) as Hrow.
  destruct Hs as (n & Hn & _). eapply (equality_selects e name constant s p c values v); try done; [apply (tk_typed _ _ _ (do_tables _ Hdb _ _ Hn))|apply Hrow|apply Hrow].
Qed.

Lemma plan_primary key identity : c_primary_key c = true -> encode_identity w = Ok identity -> row_key id identity = Ok key -> path_ok (Point (Some key)).
Proof.
  intros Hpk Hid Hkey. destruct Hs as (n & Hn & _). split.
  - intros b Hb. destruct (entry_row db m Hdb Hrep id key b id_ok Hb) as (ident & values & Hr & Hk & He); [|eauto].
    destruct (row_key_shape _ _ _ Hkey) as [-> _]. unfold row_prefix. rewrite app_assoc. by eexists.
  - intros ident values k Hrow. destruct (selected_value ident values k) as (u & Hu & _ & Hiu); [|done|].
    { eapply (ke_tables _ Hke n s p c); try done. rewrite Hpk. apply orb_true_r. }
    destruct Hrow as (Hr & Hk & _). pose proof (rk_identity _ _ _ _ (row_of_table _ _ Hr)) as Hident. unfold identity_ok in Hident.
    pose proof (tk_primary _ _ _ (do_tables _ Hdb _ _ Hn) p c Hc) as Hprim. rewrite Hpk in Hprim. symmetry in Hprim. apply bool_decide_eq_true in Hprim. rewrite Hprim in Hident.
    destruct Hident as (u' & Hu' & Hiu'). assert (u' = u) as -> by congruence. congruence.
Qed.

Lemma plan_unique key : c_unique c = true -> c_primary_key c = false -> unique_key id p w = Ok key -> path_ok (Point (m !! key)).
Proof.
  intros Hu Hpk Hkey. destruct Hs as (n & Hn & _). apply point_ok; [|intros b; by apply (unique_owner p w)].
  intros ident values k Hrow. destruct (selected_value ident values k) as (u & Hup & Hnu & Hiu); [|done|].
  { eapply (ke_tables _ Hke n s p c); try done. by rewrite Hu. }
  destruct Hrow as (Hr & Hk & _). apply Hrep. right. exists id, ident, values. split; [done|]. right. exists (SlotUnique p). split_and!; [|done|].
  - exists s, c. split_and!; [done|done|]. unfold keyed. by rewrite Hu, Hpk.
  - cbn. unfold index. rewrite Hup. cbn. rewrite Hnu. unfold unique_key in *. by rewrite Hiu, Hkey.
Qed.

Lemma selected_indexed n i ident values k : d_indexes db !! n = Some i -> x_table_id i = id -> head (x_columns i) = Some p -> selected_row ident values k ->
  exists u rest key, indexed_values i values = Ok (Some (u :: rest)) /\ length (u :: rest) = length (x_columns i) /\ encode_identity u = encode_identity w /\ index_entry_key i (u :: rest) k = Ok key /\ m !! key = Some k.
Proof.
  intros Hi Hid Hhd Hrow. destruct (x_columns i) as [|p' ps] eqn:Ecols; [done|]. injection Hhd as ->.
  assert (table_with db (x_table_id i) s) as Hs' by (by rewrite Hid).
  destruct (selected_value ident values k) as (u & Hup & Hnu & Hiu); [|done|].
  { eapply (ke_indexes _ Hke n i s p c); try done. rewrite Ecols. by left. }
  destruct Hrow as (Hr & Hk & _). pose proof (row_of_table _ _ Hr) as Hrow. pose proof (validate_row_length _ _ (rk_valid _ _ _ _ Hrow)) as Hlen.
  destruct (xk_table _ _ _ (do_indexes _ Hdb _ _ Hi)) as (s' & Hs'' & Hcols). assert (s' = s) as -> by (by eapply table_with_unique). rewrite Ecols in Hcols.
  apply Forall_cons in Hcols as [_ Hcols].
  destruct (values_present values ps) as (rest & Hrest & Hnn).
  { intros q Hq. pose proof (proj1 (Forall_forall _ _) Hcols q Hq) as Hlt. cbn in Hlt. destruct (lookup_lt_is_Some_2 values q) as [x Hx]; [lia|].
    exists x. split; [done|]. destruct (lookup_lt_is_Some_2 (t_columns s) q Hlt) as [d Hd].
    pose proof (validate_row_lookup s values q d x (rk_valid _ _ _ _ Hrow) Hd Hx) as Hvx. unfold validate in Hvx.
    rewrite (ke_tails _ Hke n i s q d) in Hvx; [by destruct (is_null x)|done|done|by rewrite Ecols|done]. }
  assert (indexed_values i values = Ok (Some (u :: rest))) as Hiv.
  { unfold indexed_values. rewrite Ecols. cbn [try_map]. rewrite (index_Some _ _ _ Hup). cbn. rewrite Hrest. cbn. by rewrite Hnu, Hnn. }
  assert (slot_of db id (SlotIndex i)) as Hslot by (exists n; split; done). pose proof (rk_slots _ _ _ _ Hrow (SlotIndex i) k Hslot Hk) as Hok. cbn [slot_key] in Hok. rewrite Hiv in Hok. cbn [mbind result_bind] in Hok.
  destruct (index_entry_key i (u :: rest) k) as [key|] eqn:Hkey; [|done]. exists u, rest, key. split_and!; [done| |done|done|].
  - apply try_map_Ok_length in Hrest. cbn. by rewrite Hrest.
  - apply Hrep. right. exists id, ident, values. split; [done|]. right. exists (SlotIndex i). split_and!; [done|done|]. cbn [slot_key]. rewrite Hiv. cbn [mbind result_bind]. by rewrite Hkey.
Qed.

Lemma plan_index_ok (l : list IndexSchema) : (forall i, i ∈ l -> exists n, d_indexes db !! n = Some i /\ x_table_id i = id) ->
  exists r, plan_index p w l m = (r, m) /\ forall path, r = Ok path -> path_ok path.
Proof.
  induction l as [|i l IH]; intros Hl; [eexists; split; [done|]; by intros path [= <-]|]. cbn [plan_index].
  destruct (bool_decide_reflect (head (x_columns i) = Some p)) as [Hhd|Hhd]; cbn [negb]; [|apply IH; intros; apply Hl; by right].
  destruct (Hl i) as (n & Hi & Hid); [by left|]. rewrite run_lift_bind. destruct (index_value_prefix (x_id i) [w]) as [prefix|err] eqn:Hpre; [|by eexists; split].
  pose proof Hpre as Hpre'. unfold index_value_prefix in Hpre'. apply bind_Ok in Hpre' as (parts & Hparts & Hprefix%Ok_inj).
  cbn [try_map] in Hparts. apply bind_Ok in Hparts as (part & Hpart & Hnil). cbn in Hnil. injection Hnil as <-.
  assert (forall ident values k, selected_row ident values k -> exists key, m !! key = Some k /\ prefix `prefix_of` key /\ (x_unique i = true -> length (x_columns i) = 1%nat -> key = prefix)) as Hreach.
  { intros ident values k Hrow. destruct (selected_indexed n i ident values k Hi Hid Hhd Hrow) as (u & rest & key & _ & Hlen & Hiu & Hkey & Hm).
    exists key. split; [done|]. unfold index_entry_key, index_value_prefix in Hkey. apply bind_Ok in Hkey as (pre & (parts & Hps & Hpre'%Ok_inj)%bind_Ok & Hkey).
    cbn [try_map] in Hps. apply bind_Ok in Hps as (part' & Hpart' & (parts' & Hparts' & [= <-])%bind_Ok).
    assert (part' = part) as -> by (unfold identity_part in Hpart, Hpart'; rewrite Hiu, Hpart in Hpart'; congruence).
    assert (prefix `prefix_of` pre) as Hpp.
    { rewrite <- Hprefix, <- Hpre'. apply prefix_app. cbn. rewrite app_nil_r. by eexists. }
    split.
    - destruct (x_unique i); [apply Ok_inj in Hkey as <-; done|]. apply bind_Ok in Hkey as (l' & _ & <-%Ok_inj). by apply prefix_app_r.
    - intros Hu H1. rewrite Hu in Hkey. apply Ok_inj in Hkey as <-. rewrite H1 in Hlen. destruct rest; [|done]. cbn in Hparts'. injection Hparts' as <-. congruence. }
  assert (exists x, prefix = kind_prefix KEntry ++ to_be 8 (x_id i) ++ x) as (x & Hx) by (exists (mjoin [part]); rewrite <- Hprefix; unfold index_entry_prefix; by rewrite <- app_assoc).
  destruct (x_unique i && (length (x_columns i) =? 1)%nat) eqn:Hu.
  - rewrite run_get. eexists. split; [done|]. intros path [= <-]. apply andb_true_iff in Hu as [Hu H1%Nat.eqb_eq]. apply point_ok.
    + intros ident values k Hrow. destruct (Hreach _ _ _ Hrow) as (key & Hm & _ & Heqk). by rewrite <- Heqk.
    + intros b Hm. destruct (index_owner n i prefix b x Hi Hid Hx Hm) as (ident & values & ? & ? & _). eauto.
  - eexists. split; [done|]. intros path [= <-]. exists i. split.
    + intros k b Hm [y Hy]. eapply (index_owner n i k b (x ++ y)); [done|done| |done]. rewrite Hy, Hx. by rewrite <- !app_assoc.
    + intros ident values k Hrow. destruct (Hreach _ _ _ Hrow) as (key & Hm & Hpk & _). eauto.
Qed.
End Equality.

Lemma plan_access_ok : exists r, plan_access s selection m = (r, m) /\ forall path, r = Ok path -> path_ok path.
Proof.
  unfold plan_access. destruct (selection ≫= equality_column_and_constant) as [[name constant]|] eqn:Esel; [|eexists; split; [done|]; by intros path [= <-]].
  apply bind_Some in Esel as (e & Hsel & Heq).
  rewrite run_lift_bind. destruct (column_position s name) as [p|] eqn:Hp; [|by eexists; split].
  cbn [ok_or]. rewrite run_lift_bind. destruct (index (t_columns s) p) as [c|] eqn:Hc; [|by eexists; split].
  assert (t_columns s !! p = Some c) as Hc' by (unfold index in Hc; destruct (t_columns s !! p); simplify_eq/=; done).
  rewrite run_lift_bind. destruct (evaluate constant s (replicate (length (t_columns s)) VNull)) as [v|] eqn:Hv; [|by eexists; split].
  destruct (is_null v) eqn:Hn.
  { eexists. split; [done|]. intros path [= <-] ident values k (_ & _ & Hs'). rewrite Hsel in Hs'. destruct v; try done. by eapply (null_selects_none e name constant s values). }
  set (w := coerce v (c_data_type c)). rewrite run_lift_bind. fold w. destruct (validate c w) as [[]|] eqn:Hval; [|by eexists; split].
  destruct (c_primary_key c) eqn:Hpk.
  { rewrite run_lift_bind. destruct (encode_identity w) as [identity|] eqn:Hid; [|by eexists; split]. fold id.
    rewrite run_lift_bind. destruct (row_key id identity) as [key|] eqn:Hkey; [|by eexists; split].
    eexists. split; [done|]. intros path [= <-]. by eapply plan_primary. }
  destruct (c_unique c) eqn:Hu.
  { fold id. rewrite run_lift_bind. destruct (unique_key id p w) as [key|] eqn:Hkey; [|by eexists; split]. rewrite run_get.
    eexists. split; [done|]. intros path [= <-]. by eapply plan_unique. }
  destruct (load_table_indexes_rep db m Hdb Hrep id) as (l & Hload & Hl). rewrite (ST_bind_step _ _ _ _ _ Hload).
  eapply plan_index_ok; try done. intros i Hi. by apply Hl.
Qed.

(** Reading for a selection fails only where planning does, and otherwise
    reads the rows that the selection accepts. *)
Lemma read_rows_ok : exists r, read_rows s selection m = (r, m) /\ forall found, r = Ok found -> reads_selected found.
Proof.
  destruct plan_access_ok as (r & Hplan & Hpath). destruct r as [path|err].
  - destruct (read_path path (Hpath path eq_refl) Hplan) as (found & Hrun & Hread). eexists. split; [done|]. by intros found' [= <-].
  - exists (Err err). split; [|done]. unfold read_rows, mbind, ST_bind. by rewrite Hplan.
Qed.
End Access.
