(* ===== verification/DbDelete.v ===== *)
(** * DELETE

    Deleting removes exactly the rows that the selection accepts. *)
From S2P Require Import Prelude Order Token F64 Ast Utf8 Record Schema Expression Codec Engine CodecFacts KvSim Database DbRows DbOps DbWrite DbAccess.
Local Open Scope Z_scope.

(** The selection accepts the row. *)
Definition selects (s : TableSchema) (selection : option Expr) (values : list Value) : bool :=
  match is_selected s selection values with Ok b => b | Err _ => false end.

(** What DELETE does to a table. *)
Definition deleted (s : TableSchema) (selection : option Expr) (rs : Rows) : Rows := filter (fun x => selects s selection x.2 = false) rs.

Section Delete.
Context {SD : Serde} {SL : SerdeLaws} (s : TableSchema) (selection : option Expr) (l : list IndexSchema).
Implicit Types (m : KvMap) (k b rk : list byte) (values : list Value) (p : nat) (c : ColumnSchema) (ident : identity) (db : Db).
Let id := t_table_id s.

Lemma same_catalog_table db db' id0 s0 : same_catalog db' db -> table_with db id0 s0 -> table_with db' id0 s0.
Proof. intros (E & _) (n & Hn & Hi). exists n. by rewrite E. Qed.

Lemma same_catalog_drop db db' ident : same_catalog db db' -> same_catalog (drop_row id ident db) db'.
Proof. done. Qed.

(** Removing a row that is there. *)
Lemma drop_step db m m1 m2 m3 ident values rk r : db_ok db -> represents m db -> table_with db id s ->
  (forall i, i ∈ l <-> exists name, d_indexes db !! name = Some i /\ x_table_id i = id) ->
  rows_of db id !! ident = Some values -> row_key id ident = Ok rk ->
  release_unique_keys s values m = (Ok tt, m1) -> remove_index_entries l values rk m1 = (Ok tt, m2) -> on_kv (kv_delete rk) m2 = (Ok r, m3) ->
  represents m3 (drop_row id ident db).
Proof.
  intros Hdb Hrep Hs Hl Hr Hk H1 H2 H3. apply run_delete in H3 as ->.
  eapply (releases_drop m); [done|done|done| |done|eapply releases_app; [by apply release_releases|by apply remove_releases]].
  intros sl. by apply (elem_of_table_slots db Hdb s l).
Qed.

Lemma delete_loop (found : list (list byte * list Value)) : forall db m m' n n',
  db_ok db -> represents m db -> table_with db id s -> (forall i, i ∈ l <-> exists name, d_indexes db !! name = Some i /\ x_table_id i = id) ->
  NoDup found.*1 -> (forall k values, (k, values) ∈ found -> exists ident, rows_of db id !! ident = Some values /\ row_key id ident = Ok k) ->
  for_fold (delete_row s selection l) n found m = (Ok n', m') ->
  exists db', db_ok db' /\ represents m' db' /\ same_catalog db' db /\ (forall id', id' <> id -> rows_of db' id' = rows_of db id') /\
    (forall ident values, rows_of db' id !! ident = Some values <->
      rows_of db id !! ident = Some values /\ ~ (exists k, (k, values) ∈ found /\ row_key id ident = Ok k /\ selects s selection values = true)) /\
    n' = n + blen (filter (fun x => selects s selection x.2 = true) found).
Proof.
  induction found as [|[k values] found IH]; intros db m m' n n' Hdb Hrep Hs Hl Hnd Hf; cbn [for_fold].
  { intros [= <- <-]. exists db. split_and!; try done; [|cbn; lia]. intros ident v. split; [|tauto]. intros Hr. split; [done|]. intros (k & H & _). by apply not_elem_of_nil in H. }
  cbn [fmap list_fmap fst] in Hnd. apply NoDup_cons in Hnd as [Hk Hnd]. destruct (Hf k values) as (ident & Hr & Hrk); [by left|].
  assert (is_u64 id) as Hid by (by eapply table_with_id).
  intros (n1 & m1 & H1 & H2)%ST_bind_Ok. unfold delete_row in H1. cbn [fst snd] in H1. apply run_lift in H1 as (? & _ & H1). apply run_lift in H1 as (b & Hb & H1).
  assert (selects s selection values = b) as Hsv by (unfold selects; by rewrite Hb). rewrite filter_cons. cbn [snd]. destruct b.
  - apply ST_bind_Ok in H1 as ([] & ma & Ha & H1). apply ST_bind_Ok in H1 as ([] & mb & Hb' & H1). apply ST_bind_Ok in H1 as ([] & mc & Hc & [= <- <-]).
    pose proof (drop_step db m ma mb mc ident values k tt Hdb Hrep Hs Hl Hr Hrk Ha Hb' Hc) as Hrep1.
    destruct (IH (drop_row id ident db) mc m' (n + 1) n') as (db' & Hdb' & Hrep' & Hcat & Hoth & Hrows & Hn); try done; [by apply db_ok_drop| |].
    { intros k' v' Hin. destruct (Hf k' v') as (ident' & Hr' & Hk'); [by right|]. exists ident'. split; [|done]. unfold drop_row. rewrite rows_of_set, decide_True by done.
      rewrite lookup_delete_ne; [done|]. intros ->. assert (k' = k) as -> by congruence. apply Hk. by apply (list_elem_of_fmap_2 fst _ (k, v')). }
    exists db'. split_and!; try done.
    + intros id' Hne. rewrite Hoth by done. unfold drop_row. by rewrite rows_of_set, decide_False.
    + intros ident' v'. rewrite Hrows. unfold drop_row. rewrite rows_of_set, decide_True, lookup_delete_Some by done. split.
      * intros [[Hne Hr'] Hn']. split; [done|]. intros (k' & [[= -> ->]|Hin]%elem_of_cons & Hk' & Hsel); [|apply Hn'; eauto].
        apply Hne. by destruct (row_key_inj id id ident ident' k Hid Hid Hrk Hk').
      * intros [Hr' Hn']. split; [split; [|done]|intros (k' & Hin & ?); apply Hn'; exists k'; split; [by right|done]].
        intros <-. apply Hn'. exists k. assert (v' = values) as -> by congruence. by split_and!; [left|..].
    + rewrite decide_True by done. cbn [length]. lia.
  - injection H1 as <- <-. destruct (IH db m m' n n') as (db' & Hdb' & Hrep' & Hcat & Hoth & Hrows & Hn); try done; [intros; apply Hf; by right|].
    exists db'. split_and!; try done; [|rewrite decide_False by (cbn; congruence); done]. intros ident' v'. rewrite Hrows. split; intros [Hr' Hn']; (split; [done|]).
    + intros (k' & [[= -> ->]|Hin]%elem_of_cons & Hk' & Hsel); [|apply Hn'; eauto]. congruence.
    + intros (k' & Hin & ?). apply Hn'. exists k'. split; [by right|done].
Qed.
End Delete.

(** ** The rows that a selection accepts *)

Section Selected.
Context {SD : Serde} {SL : SerdeLaws} (db : Db) (m : KvMap) (Hdb : db_ok db) (Hrep : represents m db) (s : TableSchema) (Hs : table_with db (t_table_id s) s) (selection : option Expr).
Let id := t_table_id s.

Definition selected_rows : Rows := filter (fun x => selects s selection x.2 = true) (rows_of db id).

(** A row with its key. *)
Definition keyed_row (x : identity * list Value) : list byte * list Value := (match row_key id x.1 with Ok k => k | Err _ => [] end, x.2).

Lemma keyed_row_ok ident values : rows_of db id !! ident = Some values -> exists k, row_key id ident = Ok k /\ keyed_row (ident, values) = (k, values).
Proof.
  intros Hr. pose proof (row_of_table db Hdb s Hs ident values Hr) as Hrow. destruct (rk_key _ _ _ _ Hrow) as [k Hk]. exists k. split; [done|].
  unfold keyed_row. cbn. unfold id. by rewrite Hk.
Qed.

Lemma selects_true values : selects s selection values = true <-> is_selected s selection values = Ok true.
Proof. unfold selects. destruct (is_selected s selection values) as [[]|]; split; congruence. Qed.

Lemma found_selected found : reads_selected db s selection found ->
  filter (fun x => selects s selection x.2 = true) found ≡ₚ keyed_row <$> map_to_list selected_rows.
Proof.
  intros (Hnd & Hin & Hall). assert (is_u64 id) as Hid by (by eapply table_with_id).
  assert (forall x, x ∈ map_to_list selected_rows <-> rows_of db id !! x.1 = Some x.2 /\ selects s selection x.2 = true) as Hsel.
  { intros [ident values]. rewrite elem_of_map_to_list. unfold selected_rows. by rewrite map_lookup_filter_Some. }
  apply NoDup_Permutation.
  - apply NoDup_filter. by apply NoDup_fmap_1 in Hnd.
  - apply NoDup_fmap_2_strong; [|apply NoDup_map_to_list]. intros [i1 v1] [i2 v2] [H1 _]%Hsel [H2 _]%Hsel. cbn in H1, H2.
    destruct (keyed_row_ok i1 v1 H1) as (k1 & K1 & ->), (keyed_row_ok i2 v2 H2) as (k2 & K2 & ->). intros [= <- <-].
    by destruct (row_key_inj id id i1 i2 k1 Hid Hid K1 K2) as [_ ->].
  - intros [k values]. rewrite list_elem_of_filter, list_elem_of_fmap. split.
    + intros [Hs' Hf]. destruct (Hin k values Hf) as (ident & Hr & Hk). exists (ident, values). rewrite Hsel. split; [|done].
      destruct (keyed_row_ok ident values Hr) as (k' & Hk' & ->). unfold id in *. congruence.
    + intros ([ident v] & Heq & [Hr Hs']%Hsel). cbn in *. destruct (keyed_row_ok ident v Hr) as (k' & Hk' & E). rewrite E in Heq. injection Heq as -> ->.
      split; [done|]. apply (Hall ident). split_and!; [done|done|by apply selects_true].
Qed.

Lemma found_count found : reads_selected db s selection found -> blen (filter (fun x => selects s selection x.2 = true) found) = Z.of_nat (size selected_rows).
Proof. intros Hf. rewrite (Permutation_length (found_selected found Hf)), length_fmap. by rewrite length_map_to_list. Qed.
End Selected.

Section Statement.
Context {SD : Serde} {SL : SerdeLaws} (db : Db) (m : KvMap) (Hdb : db_ok db) (Hrep : represents m db).

Lemma load_schema_inv (name : str) (s : TableSchema) (m' : KvMap) : is_str name -> load_schema name m = (Ok s, m') -> m' = m /\ d_tables db !! name = Some s /\ table_with db (t_table_id s) s.
Proof.
  intros Hstr Hload. destruct (is_ok (catalog_key name)) eqn:Hok.
  - rewrite (load_schema_rep db m name Hdb Hrep Hstr Hok) in Hload. destruct (d_tables db !! name) as [s'|] eqn:E; [|done]. injection Hload as -> <-. split_and!; [done|done|by exists name].
  - unfold load_schema in Hload. by destruct (catalog_key name).
Qed.

Lemma execute_delete_ok (d : Delete) (out : StatementOutput) (m' : KvMap) : rows_exact db -> keys_exact db -> is_str (id_value (del_table d)) -> execute_delete d m = (Ok out, m') ->
  exists s db', d_tables db !! id_value (del_table d) = Some s /\ db_ok db' /\ represents m' db' /\
    rows_become (t_table_id s) (deleted s (del_selection d) (rows_of db (t_table_id s))) db db' /\
    out = OCommand "DELETE" (Z.of_nat (size (selected_rows db s (del_selection d)))).
Proof.
  intros Hex Hke Hstr. unfold execute_delete. intros (s & m1 & Hload & H)%ST_bind_Ok. destruct (load_schema_inv _ _ _ Hstr Hload) as (-> & Hn & Hs).
  destruct (load_table_indexes_rep db m Hdb Hrep (t_table_id s)) as (l & Hl & Hin). rewrite (ST_bind_step _ _ _ _ _ Hl) in H.
  destruct (read_rows_ok db m Hdb Hrep Hex Hke s Hs (del_selection d)) as (r & Hr & Hread). apply ST_bind_Ok in H as (found & m2 & Hf & H).
  rewrite Hr in Hf. injection Hf as -> <-. specialize (Hread found eq_refl). pose proof Hread as (Hnd & Hrows & Hall).
  apply ST_bind_Ok in H as (n & m3 & Hloop & [= <- <-]).
  destruct (delete_loop s (del_selection d) l found db m m3 0 n Hdb Hrep Hs Hin Hnd Hrows Hloop) as (db' & Hdb' & Hrep' & Hcat & Hoth & Hrows' & Hcount).
  exists s, db'. split_and!; try done.
  - split; [done|]. split; [|done]. apply map_eq. intros ident. apply option_eq. intros values. rewrite Hrows'. unfold deleted. rewrite map_lookup_filter_Some. cbn. split.
    + intros [Hr' Hno]. split; [done|]. apply not_true_iff_false. intros Hsel. apply Hno.
      destruct (keyed_row_ok db Hdb s Hs ident values Hr') as (k & Hk & _). exists k. split_and!; [|done|done]. apply (Hall ident). split_and!; [done|done|by apply selects_true].
    + intros [Hr' Hsel]. split; [done|]. intros (k & _ & _ & Hsel'). congruence.
  - unfold command. rewrite Hcount, (found_count db Hdb s Hs _ found Hread). done.
Qed.

End Statement.
