(* ===== verification/DbUpdate.v ===== *)
(** * UPDATE and INSERT

    Updating replaces each row that the selection accepts by its changed
    values, and leaves every other row; inserting adds the rows of the
    statement. *)
From S2P Require Import Prelude Order Record Token F64 Ast Utf8 Schema Expression Codec Engine CodecFacts.
From S2P Require Import KvSim Database DbRows DbOps DbWrite DbAccess DbDelete.
Local Open Scope Z_scope.

(** A row after the assignments: its new identity and values. *)
Definition changed (s : TableSchema) (assignments : list (nat * Expr)) (x : identity * list Value) : EResult (identity * list Value) :=
  updated ← try_fold (assign s x.2) x.2 assignments;
  _ ← validate_row s updated;
  ident ← match t_primary_key s with
          | Some p => v ← index updated p; encode_identity v
          | None => Ok x.1
          end;
  Ok (ident, updated).

(** What UPDATE does to a table: a row afterwards is a changed row or one
    that was not selected. *)
Definition updated (s : TableSchema) (assignments : list (nat * Expr)) (selection : option Expr) (rs rs' : Rows) : Prop :=
  size rs' = size rs /\
  (forall ident values, rs !! ident = Some values -> selects s selection values = true -> is_ok (changed s assignments (ident, values)) = true) /\
  (forall ident' values', rs' !! ident' = Some values' <->
    (exists ident values, rs !! ident = Some values /\ selects s selection values = true /\ changed s assignments (ident, values) = Ok (ident', values')) \/
    (rs !! ident' = Some values' /\ selects s selection values' = false)).

Lemma keys_exact_catalog db db' : same_catalog db' db -> keys_exact db -> keys_exact db'.
Proof.
  intros (Et & Ex & _) [H1 H2 H3]. assert (forall id s, table_with db' id s <-> table_with db id s) as Ht by (intros; unfold table_with; by rewrite Et).
  split; intros *; rewrite ?Et, ?Ex, ?Ht; eauto.
Qed.

Lemma value_eqb_exact a b : value_eqb a b = true -> (forall x, a <> VFloat x) -> a = b.
Proof.
  destruct a, b; cbn; intros H Hf; try done.
  - by apply eqb_prop in H as ->.
  - by apply Z.eqb_eq in H as ->.
  - by destruct (Hf x).
  - by apply bool_decide_eq_true in H as ->.
Qed.

Section Update.
Context {SD : Serde} {SL : SerdeLaws} (s : TableSchema) (selection : option Expr) (l : list IndexSchema) (assignments : list (nat * Expr)) (Hasg : Forall (fun x => expr_wf x.2) assignments).
Implicit Types (m : KvMap) (k b rk : list byte) (values : list Value) (p : nat) (c : ColumnSchema) (ident : identity) (db : Db).
Let id := t_table_id s.

Lemma assign_wf values upd upd' x : Forall value_wf values -> Forall value_wf upd -> expr_wf x.2 -> assign s values upd x = Ok upd' -> Forall value_wf upd'.
Proof.
  intros Hv Hu He. unfold assign. intros (v & Hev & (c & _ & Hset)%bind_Ok)%bind_Ok. unfold index_set in Hset. case_match; [|done]. injection Hset as <-.
  apply Forall_insert; [done|]. pose proof (evaluate_wf s values x.2 v Hv He Hev). by destruct v, (c_data_type c).
Qed.

Lemma assigned_wf (asg : list (nat * Expr)) values upd upd' : Forall (fun x => expr_wf x.2) asg -> Forall value_wf values -> Forall value_wf upd ->
  try_fold (assign s values) upd asg = Ok upd' -> Forall value_wf upd'.
Proof.
  intros Ha Hv. revert upd. induction Ha as [|x asg Hx _ IH]; intros upd Hu; cbn; [by intros [= <-]|].
  intros (upd1 & H1 & H2)%bind_Ok. apply (IH upd1); [|done]. by apply (assign_wf values upd upd1 x).
Qed.

(** The key that the code computes is that of the changed identity. *)
Lemma updated_key_changed ident original upd k nk : row_key id ident = Ok k -> try_fold (assign s original) original assignments = Ok upd -> validate_row s upd = Ok tt ->
  updated_key s upd k = Ok nk -> exists ident', changed s assignments (ident, original) = Ok (ident', upd) /\ row_key id ident' = Ok nk.
Proof.
  intros Hk Hupd Hval Hnk. unfold changed. cbn [fst snd]. rewrite Hupd. cbn [mbind result_bind]. rewrite Hval. cbn [mbind result_bind]. unfold updated_key in Hnk.
  destruct (t_primary_key s) as [p|].
  - apply bind_Ok in Hnk as (v & -> & (x & Hx & Hnk)%bind_Ok). cbn [mbind result_bind]. rewrite Hx. cbn [mbind result_bind]. eauto.
  - injection Hnk as <-. cbn [mbind result_bind]. eauto.
Qed.

Lemma changed_identity_ok ident original ident' upd : identity_ok s original ident -> changed s assignments (ident, original) = Ok (ident', upd) -> identity_ok s upd ident'.
Proof.
  unfold changed, identity_ok. cbn [fst snd]. intros Hid (u & _ & (? & _ & (x & Hx & [= -> ->])%bind_Ok)%bind_Ok)%bind_Ok.
  destruct (t_primary_key s) as [p|]; [|by injection Hx as ->]. apply bind_Ok in Hx as (v & Hv & Hx). exists v. split; [|done].
  unfold index in Hv. by destruct (upd !! p); simplify_eq/=.
Qed.

Section Step.
Context (db : Db) (m : KvMap) (Hdb : db_ok db) (Hrep : represents m db) (Hke : keys_exact db) (Hs : table_with db id s)
  (Hl : forall i, i ∈ l <-> exists name, d_indexes db !! name = Some i /\ x_table_id i = id).

Lemma update_step rows n rows' n' p m' k original ident : rows !! p = Some (k, original) -> rows_of db id !! ident = Some original -> row_key id ident = Ok k ->
  update_row s assignments selection l (rows, n) p m = (Ok (rows', n'), m') ->
  (selects s selection original = false /\ rows' = rows /\ n' = n /\ m' = m) \/
  (selects s selection original = true /\ exists ident' upd k', changed s assignments (ident, original) = Ok (ident', upd) /\ row_key id ident' = Ok k' /\
    rows' = <[p := (k', upd)]> rows /\ n' = n + 1 /\ rows_of (drop_row id ident db) id !! ident' = None /\
    db_ok (put_row id ident' upd (drop_row id ident db)) /\ represents m' (put_row id ident' upd (drop_row id ident db))).
Proof.
  intros Hp Hr Hk. unfold update_row. intros (r & Hidx & H)%run_lift. unfold index in Hidx. rewrite Hp in Hidx. injection Hidx as <-.
  apply run_lift in H as (b & Hsel & H). assert (selects s selection original = b) as Hsel' by (unfold selects; by rewrite Hsel).
  destruct b; cbn [negb] in H; [right; split; [done|]|left; by injection H as <- <- <-].
  apply run_lift in H as (upd & Hupd & H). apply run_lift in H as ([] & Hval & H). apply run_lift in H as (? & _ & H).
  apply run_lift in H as (nk & Hnk & H). apply ST_bind_Ok in H as ([] & m1 & H1 & H). apply ST_bind_Ok in H as ([] & m2 & H2 & H).
  apply ST_bind_Ok in H as ([] & m3 & H3 & H). apply ST_bind_Ok in H as ([] & m4 & H4 & H). apply run_lift in H as (bytes & Hb & H).
  apply ST_bind_Ok in H as ([] & m5 & H5%run_put & H). apply run_lift in H as (rows1 & Hset & [= -> -> ->]).
  destruct (updated_key_changed ident original upd k nk Hk Hupd Hval Hnk) as (ident' & Hch & Hk'). exists ident', upd, nk.
  assert ((nk = k /\ m4 = m3) \/ (nk <> k /\ m3 !! nk = None /\ m4 = delete k m3)) as Hcase.
  { destruct (bool_decide_reflect (nk <> k)) as [Hne|Heq].
    - right. rewrite run_get in H4. destruct (m3 !! nk) as [?|] eqn:E; [by cbn in H4|]. split; [done|]. split; [done|].
      cbn [orb] in H4. destruct (existsb _ _) in H4; [done|]. by apply run_delete in H4.
    - left. injection H4 as <-. split; [|done]. by destruct (decide (nk = k)). }
  pose proof (row_of_table db Hdb s Hs ident original Hr) as Hrow. destruct Hs as (name & Hname & Hidn).
  assert (forall q c o w, t_columns s !! q = Some c -> keyed c = true -> original !! q = Some o -> upd !! q = Some w -> value_eqb o w = true -> o = w) as Hexact.
  { intros q c o w Hc Hkc Ho Hw Heq. apply value_eqb_exact; [done|]. intros y ->.
    pose proof (validate_row_lookup s original q c _ (rk_valid _ _ _ _ Hrow) Hc Ho) as Hv. unfold validate in Hv. cbn in Hv.
    assert (c_data_type c <> TFloat64) by (eapply (ke_tables _ Hke name s q c); try done; unfold keyed in Hkc; apply andb_true_iff in Hkc as [-> _]; done).
    pose proof (proj1 (Forall_lookup _ _) (tk_typed _ _ _ (do_tables _ Hdb _ _ Hname)) q c Hc). cbn in *. by destruct (c_data_type c). }
  destruct (replace_row db m Hdb Hrep s ltac:(by exists name) l Hl ident ident' original upd k nk bytes Hr Hk Hk' Hb Hexact m1 m2 m3 m4 H1 H2 H3 Hcase) as [Hrep' Hslots].
  split; [done|]. split; [done|]. split; [unfold index_set in Hset; case_match; by simplify_eq|]. split; [done|]. split; [|split].
  - eapply replace_ident; eassumption.
  - eapply db_ok_put; [by apply db_ok_drop|by exists name|]. apply row_ok_set_rows. split; [done| | | | |].
    + eapply assigned_wf; [done|apply Hrow|apply Hrow|done].
    + eapply changed_identity_ok; [apply Hrow|done].
    + by exists nk.
    + by exists bytes.
    + intros sl k0 Hsl Hk0. assert (k0 = nk) as -> by (unfold id in *; congruence). by apply Hslots.
  - by rewrite H5.
Qed.
End Step.

(** ** The loop *)

Section Loop.
Context (db0 : Db) (found : list (list byte * list Value)) (Hdb0 : db_ok db0) (Hs0 : table_with db0 id s) (Hke0 : keys_exact db0)
  (Hl0 : forall i, i ∈ l <-> exists name, d_indexes db0 !! name = Some i /\ x_table_id i = id)
  (Hnd : NoDup found.*1) (Hfound : forall k values, (k, values) ∈ found -> exists ident, rows_of db0 id !! ident = Some values /\ row_key id ident = Ok k).

(** The selected rows among the first [j]. *)
Definition processed (j : nat) ident values : Prop :=
  exists q k, (q < j)%nat /\ found !! q = Some (k, values) /\ row_key id ident = Ok k /\ rows_of db0 id !! ident = Some values /\ selects s selection values = true.

(** The database after the first [j] rows. *)
Record update_inv (j : nat) (rows : list (list byte * list Value)) (n : Z) db m : Prop := {
  ui_db : db_ok db;
  ui_rep : represents m db;
  ui_catalog : same_catalog db db0;
  ui_others : forall id', id' <> id -> rows_of db id' = rows_of db0 id';
  ui_rest : forall q, (j <= q)%nat -> rows !! q = found !! q;
  ui_held : forall q k values, (j <= q)%nat -> found !! q = Some (k, values) -> exists ident, rows_of db id !! ident = Some values /\ row_key id ident = Ok k;
  ui_size : size (rows_of db id) = size (rows_of db0 id);
  ui_changed : forall ident values, processed j ident values -> is_ok (changed s assignments (ident, values)) = true;
  ui_rows : forall ident' values', rows_of db id !! ident' = Some values' <->
    (exists ident values, processed j ident values /\ changed s assignments (ident, values) = Ok (ident', values')) \/
    (rows_of db0 id !! ident' = Some values' /\ ~ processed j ident' values');
  ui_apart : forall q k values ident ident1 values1 values', (j <= q)%nat -> found !! q = Some (k, values) -> row_key id ident = Ok k ->
    processed j ident1 values1 -> changed s assignments (ident1, values1) <> Ok (ident, values');
  ui_count : n = blen (filter (fun x => selects s selection x.2 = true) (take j found));
}.

Lemma id0_ok : is_u64 id.
Proof. by eapply (table_with_id db0). Qed.

Lemma processed_S j k original ident : found !! j = Some (k, original) -> rows_of db0 id !! ident = Some original -> row_key id ident = Ok k ->
  forall i v, processed (S j) i v <-> processed j i v \/ (i = ident /\ v = original /\ selects s selection original = true).
Proof.
  intros Hj Hr Hk i v. split.
  - intros (q & k' & Hlt & Hq & Hk' & Hr' & Hsel). destruct (decide (q = j)) as [->|Hne]; [right|left; exists q, k'; split_and!; [lia|done..]].
    rewrite Hj in Hq. injection Hq as <- <-. destruct (row_key_inj id id ident i k id0_ok id0_ok Hk Hk') as [_ <-]. done.
  - intros [(q & k' & ? & ?)|(-> & -> & Hsel)]; [exists q, k'; split; [lia|done]|]. exists j, k. split_and!; [lia|done..].
Qed.

Lemma found_key_inj q1 q2 k v1 v2 : found !! q1 = Some (k, v1) -> found !! q2 = Some (k, v2) -> q1 = q2.
Proof.
  intros H1 H2. eapply (NoDup_lookup found.*1 _ _ k); [done|..]; rewrite list_lookup_fmap; [by rewrite H1|by rewrite H2].
Qed.

Lemma update_inv_skip j rows n db m k original ident : found !! j = Some (k, original) -> rows_of db0 id !! ident = Some original -> row_key id ident = Ok k ->
  selects s selection original = false -> update_inv j rows n db m -> update_inv (S j) rows n db m.
Proof.
  intros Hj Hr Hk Hsel [? ? ? ? Hrest Hheld ? Hch Hrows Hap Hn]. pose proof (processed_S j k original ident Hj Hr Hk) as HP.
  assert (forall i v, processed (S j) i v <-> processed j i v) as HP' by (intros; rewrite HP; intuition congruence). split; try done.
  - intros q Hq. apply Hrest. lia.
  - intros q k' v Hq. apply Hheld. lia.
  - intros i v. rewrite HP'. apply Hch.
  - intros i v. rewrite Hrows. setoid_rewrite HP'. done.
  - intros q k' v i i1 v1 v' Hq. rewrite HP'. apply (Hap q k' v). lia.
  - rewrite (take_S_r _ _ _ Hj), filter_app, filter_cons, decide_False, app_nil_r; [done|]. cbn. congruence.
Qed.

Lemma update_inv_change j rows n db m m' k original ident ident' upd k' : found !! j = Some (k, original) -> rows_of db0 id !! ident = Some original -> row_key id ident = Ok k ->
  rows_of db id !! ident = Some original -> selects s selection original = true ->
  changed s assignments (ident, original) = Ok (ident', upd) -> rows_of (drop_row id ident db) id !! ident' = None ->
  db_ok (put_row id ident' upd (drop_row id ident db)) -> represents m' (put_row id ident' upd (drop_row id ident db)) ->
  update_inv j rows n db m -> update_inv (S j) (<[j := (k', upd)]> rows) (n + 1) (put_row id ident' upd (drop_row id ident db)) m'.
Proof.
  intros Hj Hr0 Hk Hr Hsel Hc Hnew Hdb' Hrep' [? ? ? Hoth Hrest Hheld Hsz Hch Hrows Hap Hn]. pose proof (processed_S j k original ident Hj Hr0 Hk) as HP.
  set (db1 := put_row id ident' upd (drop_row id ident db)) in *.
  assert (rows_of db1 id = <[ident' := upd]> (delete ident (rows_of db id))) as E1.
  { unfold db1, put_row, drop_row. rewrite !rows_of_set. by rewrite !decide_True by done. }
  assert (rows_of (drop_row id ident db) id = delete ident (rows_of db id)) as E0 by (unfold drop_row; rewrite rows_of_set; by rewrite decide_True).
  rewrite E0 in Hnew. assert (forall i v, rows_of db id !! i = Some v -> i <> ident -> i <> ident') as Hfresh.
  { intros i v Hi Hne ->. rewrite lookup_delete_ne in Hnew by done. congruence. }
  split; try done.
  - intros i Hne. rewrite <- Hoth by done. unfold db1, put_row, drop_row. by rewrite !rows_of_set, !decide_False by done.
  - intros q Hq. rewrite list_lookup_insert_ne by lia. apply Hrest. lia.
  - intros q kq v Hq Hf. destruct (Hheld q kq v) as (i & Hi & Hki); [lia|done|]. exists i. split; [|done]. rewrite E1.
    assert (i <> ident) as Hne by (intros ->; assert (kq = k) as -> by congruence; pose proof (found_key_inj q j k v original Hf Hj); lia).
    rewrite lookup_insert_ne by (by symmetry; eapply Hfresh). by rewrite lookup_delete_ne.
  - rewrite E1, map_size_insert_None, map_size_delete_Some by (done || by eexists). rewrite <- Hsz.
    assert (size (rows_of db id) <> 0%nat) by (intros Hz; apply map_size_empty_inv in Hz; rewrite Hz in Hr; by rewrite lookup_empty in Hr). lia.
  - intros i v [?|(-> & -> & _)]%HP; [by apply Hch|by rewrite Hc].
  - intros i v. setoid_rewrite HP. rewrite E1, lookup_insert_Some, lookup_delete_Some, Hrows. split.
    + intros [[<- <-]|(Hne' & Hne & [(i0 & v0 & ? & ?)|[? ?]])]; [left; exists ident, original; eauto|left; exists i0, v0; eauto|right; split; [done|]; intros [?|(? & ? & _)]; [done|congruence]].
    + intros [(i0 & v0 & [HPj|(-> & -> & _)] & Hc0)|[Hi Hnp]].
      * assert (rows_of db id !! i = Some v) as Hiv by (apply Hrows; left; eauto).
        assert (i <> ident) as Hne by (intros ->; by apply (Hap j k original ident i0 v0 v)). right. split; [intros Heq; by apply (Hfresh i v Hiv Hne)|]. split; [done|]. left. eauto.
      * left. rewrite Hc in Hc0. by injection Hc0.
      * assert (i <> ident) as Hne by (intros ->; apply Hnp; right; split_and!; [done|congruence|done]).
        assert (rows_of db id !! i = Some v) as Hiv by (apply Hrows; right; tauto). right. split; [intros Heq; by apply (Hfresh i v Hiv Hne)|]. split; [done|]. right. tauto.
  - intros q kq v i i1 v1 v' Hq Hf Hki [HPj|(-> & -> & _)]%HP; [apply (Hap q kq v); [lia|done..]|].
    rewrite Hc. intros [= <- <-]. destruct (Hheld q kq v) as (i & Hi & Hki'); [lia|done|]. destruct (row_key_inj id id i ident' kq id0_ok id0_ok Hki' Hki) as [_ ->].
    assert (ident' <> ident) as Hne by (intros ->; assert (kq = k) as -> by congruence; pose proof (found_key_inj q j k v original Hf Hj); lia). by apply (Hfresh ident' v Hi Hne).
  - rewrite (take_S_r _ _ _ Hj), filter_app, filter_cons, decide_True, length_app by done. cbn [length filter list_filter]. lia.
Qed.

Lemma update_loop (count : nat) : forall j rows n db m rows' n' m', (j + count)%nat = length found -> update_inv j rows n db m ->
  for_fold (update_row s assignments selection l) (rows, n) (seq j count) m = (Ok (rows', n'), m') ->
  exists db', update_inv (length found) rows' n' db' m'.
Proof.
  induction count as [|count IH]; intros j rows n db m rows' n' m' Hlen Hinv; cbn [seq for_fold].
  { intros [= <- <- <-]. exists db. by replace (length found) with j by lia. }
  intros ([rows1 n1] & m1 & H1 & H2)%ST_bind_Ok. destruct (lookup_lt_is_Some_2 found j) as [[k original] Hj]; [lia|].
  destruct (Hfound k original) as (ident & Hr0 & Hk); [by eapply list_elem_of_lookup_2|].
  pose proof Hinv as [Hdb Hrep Hcat _ Hrest Hheld _ _ _ _ _]. destruct (Hheld j k original) as (i & Hr & Hki); [lia|done|].
  destruct (row_key_inj id id ident i k id0_ok id0_ok Hk Hki) as [_ <-].
  assert (table_with db id s) as Hs by (by eapply same_catalog_table).
  assert (forall x, x ∈ l <-> exists name, d_indexes db !! name = Some x /\ x_table_id x = id) as Hl by (destruct Hcat as (_ & -> & _); done).
  destruct (update_step db m Hdb Hrep (keys_exact_catalog _ _ Hcat Hke0) Hs Hl rows n rows1 n1 j m1 k original ident) as [(Hsel & -> & -> & ->)|(Hsel & ident' & upd & k' & Hc & Hk' & -> & -> & Hnew & Hdb' & Hrep')]; [by rewrite Hrest|done|done|done| |].
  - eapply (IH (S j)); [lia| |exact H2]. by eapply update_inv_skip.
  - eapply (IH (S j)); [lia| |exact H2]. by eapply update_inv_change.
Qed.
End Loop.
End Update.

Lemma resolved_wf s (seen : list nat) (assignments : list Assignment) asg : Forall (fun a => expr_wf (as_value a)) assignments ->
  resolve_assignments s seen assignments = Ok asg -> Forall (fun x => expr_wf x.2) asg.
Proof.
  intros Hwf. revert seen asg. induction Hwf as [|a assignments Ha _ IH]; intros seen asg; cbn; [intros [= <-]; constructor|].
  intros (p & _ & H)%bind_Ok. case_bool_decide; [done|]. apply bind_Ok in H as (rest & Hrest & [= <-]). constructor; [done|by eapply IH].
Qed.

Section Statement.
Context {SD : Serde} {SL : SerdeLaws} (db : Db) (m : KvMap) (Hdb : db_ok db) (Hrep : represents m db).

Lemma execute_update_ok (u : Update) (out : StatementOutput) (m' : KvMap) : rows_exact db -> keys_exact db -> is_str (id_value (up_table u)) ->
  Forall (fun a => expr_wf (as_value a)) (up_assignments u) -> execute_update u m = (Ok out, m') ->
  exists s asg rs' db', d_tables db !! id_value (up_table u) = Some s /\ resolve_assignments s [] (up_assignments u) = Ok asg /\ db_ok db' /\ represents m' db' /\
    updated s asg (up_selection u) (rows_of db (t_table_id s)) rs' /\ rows_become (t_table_id s) rs' db db' /\
    out = OCommand "UPDATE" (Z.of_nat (size (selected_rows db s (up_selection u)))).
Proof.
  intros Hex Hke Hstr Hwf. unfold execute_update. intros (s & m1 & Hload & H)%ST_bind_Ok. destruct (load_schema_inv db m Hdb Hrep _ _ _ Hstr Hload) as (-> & Hn & Hs).
  apply run_lift in H as (asg & Hasg & H).
  destruct (read_rows_ok db m Hdb Hrep Hex Hke s Hs (up_selection u)) as (r & Hr & Hread). apply ST_bind_Ok in H as (found & m2 & Hf & H).
  rewrite Hr in Hf. injection Hf as -> <-. specialize (Hread found eq_refl). pose proof Hread as (Hnd & Hrows & Hall).
  destruct (load_table_indexes_rep db m Hdb Hrep (t_table_id s)) as (l & Hl & Hin). rewrite (ST_bind_step _ _ _ _ _ Hl) in H.
  apply ST_bind_Ok in H as ([rows' n] & m3 & Hloop & [= <- <-]). pose proof (resolved_wf _ _ _ _ Hwf Hasg) as Hasgwf.
  assert (forall ident values, ~ processed s (up_selection u) db found 0 ident values) as Hnone by (intros ident values (q & k & Hq & _); lia).
  destruct (update_loop s (up_selection u) l asg Hasgwf db found Hdb Hs Hke Hin Hnd Hrows (length found) 0 found 0 db m rows' n m3) as (db' & [Hdb' Hrep' Hcat Hoth _ _ Hsz Hch Hrw _ Hcount]); [done| |done|].
  { split; try done.
    - intros q k values _ Hq. apply Hrows. by eapply list_elem_of_lookup_2.
    - intros ident values Hp. by apply Hnone in Hp.
    - intros ident values. split; [intros Hv; right; split; [done|apply Hnone]|]. intros [(i & v & Hp & _)|[? _]]; [by apply Hnone in Hp|done].
    - intros q k v i i1 v1 v' _ _ _ Hp. by apply Hnone in Hp. }
  assert (forall ident values, processed s (up_selection u) db found (length found) ident values <-> rows_of db (t_table_id s) !! ident = Some values /\ selects s (up_selection u) values = true) as HP.
  { intros ident values. split; [by intros (q & k & _ & _ & _ & ? & ?)|]. intros [Hv Hsel]. destruct (keyed_row_ok db Hdb s Hs ident values Hv) as (k & Hk & _).
    assert ((k, values) ∈ found) as [q Hq]%list_elem_of_lookup by (apply (Hall ident); split_and!; [done|done|by apply selects_true]).
    exists q, k. split_and!; try done. by eapply lookup_lt_Some. }
  exists s, asg, (rows_of db' (t_table_id s)), db'. split_and!; try done.
  - split; [done|]. split; [intros ident values Hv Hsel; apply Hch; by apply HP|]. intros ident' values'. rewrite Hrw. setoid_rewrite HP. split.
    + intros [(i & v & [? ?] & ?)|[? Hno]]; [left; eauto|right; split; [done|]]. apply not_true_iff_false. tauto.
    + intros [(i & v & ? & ? & ?)|[? Hno]]; [left; eauto|right; split; [done|]]. intros [_ ?]. congruence.
  - unfold command. cbn [snd]. by rewrite Hcount, take_ge, (found_count db Hdb s Hs _ found Hread) by done.
Qed.
End Statement.

(** ** INSERT

    Inserting adds the rows of the statement under identities that were
    free, and takes hidden row IDs from the table's counter. *)

(** The values of a row of the statement. *)
Definition inserted_values (s : TableSchema) (positions : list nat) (expressions : list Expr) : EResult (list Value) :=
  if negb (length expressions =? length positions)%nat then Err (InvalidRow (InsertArity (blen positions) (blen expressions)))
  else
    values ← try_fold (fill s) (replicate (length (t_columns s)) VNull) (zip expressions positions);
    _ ← validate_row s values;
    Ok values.

(** The rows of the statement with their identities, and the schema with its
    counter moved on. *)
Fixpoint inserted (s : TableSchema) (positions : list nat) (rows : list (list Expr)) : EResult (list (identity * list Value) * TableSchema) :=
  match rows with
  | [] => Ok ([], s)
  | expressions :: rows =>
      values ← inserted_values s positions expressions;
      x ← new_identity s values;
      rest ← inserted x.2 positions rows;
      Ok ((x.1, values) :: rest.1, rest.2)
  end.

(** Two schemas that differ in the counter only. *)
Definition same_table (a b : TableSchema) : Prop := exists n, a = set_next_row_id n b /\ 1 <= n <= U64_MAX.

Section Insert.
Context {SD : Serde} {SL : SerdeLaws} (s : TableSchema) (l : list IndexSchema) (positions : list nat) (existing : list (list Value)).
Implicit Types (m : KvMap) (k b rk : list byte) (values : list Value) (p : nat) (c : ColumnSchema) (ident : identity) (db : Db).
Let id := t_table_id s.

Lemma fill_wf (x : Expr * nat) values values' t : Forall value_wf values -> expr_wf x.1 -> fill t values x = Ok values' -> Forall value_wf values'.
Proof.
  intros Hv He. unfold fill. intros (v & Hev & (c & _ & Hset)%bind_Ok)%bind_Ok. unfold index_set in Hset. case_match; [|done]. injection Hset as <-.
  apply Forall_insert; [done|]. pose proof (evaluate_wf t values x.1 v Hv He Hev). by destruct v, (c_data_type c).
Qed.

Lemma filled_wf t (xs : list (Expr * nat)) values values' : Forall (fun x => expr_wf x.1) xs -> Forall value_wf values -> try_fold (fill t) values xs = Ok values' -> Forall value_wf values'.
Proof.
  intros Hx. revert values. induction Hx as [|x xs He _ IH]; intros values Hv; cbn; [by intros [= <-]|].
  intros (v1 & H1 & H2)%bind_Ok. apply (IH v1); [|done]. by apply (fill_wf x values v1 t).
Qed.

Lemma new_identity_ok t values ident t' : same_table t s -> new_identity t values = Ok (ident, t') -> same_table t' s /\ identity_ok s values ident.
Proof.
  intros (n & -> & Hn). unfold new_identity, identity_ok. cbn [t_primary_key set_next_row_id t_next_row_id]. destruct (t_primary_key s) as [p|].
  - intros (v & Hv & (x & Hx & [= <- <-])%bind_Ok)%bind_Ok. split; [by exists n|]. exists v. split; [|done]. unfold index in Hv. by destruct (values !! p); simplify_eq/=.
  - destruct (checked_add U64_MAX n 1) as [n'|] eqn:E; cbn; [|done]. apply checked_add_Some in E as [-> ?]. intros [= <- <-]. split; [|by exists n]. exists (n + 1). split; [done|lia].
Qed.

Lemma insert_step db m m' t t' news news' expressions : db_ok db -> represents m db -> table_with db id s -> same_table t s ->
  (forall i, i ∈ l <-> exists name, d_indexes db !! name = Some i /\ x_table_id i = id) -> Forall expr_wf expressions ->
  insert_row positions existing l (t, news) expressions m = (Ok (t', news'), m') ->
  exists ident values, inserted_values t positions expressions = Ok values /\ new_identity t values = Ok (ident, t') /\ news' = news ++ [values] /\ same_table t' s /\
    rows_of db id !! ident = None /\ db_ok (put_row id ident values db) /\ represents m' (put_row id ident values db).
Proof.
  intros Hdb Hrep Hs Ht Hl Hwf. unfold insert_row, inserted_values. destruct (length expressions =? length positions)%nat; cbn [negb]; [|done].
  intros (values & Hvals & H)%run_lift. apply run_lift in H as ([] & Hval & H). apply run_lift in H as (? & _ & H). apply run_lift in H as ([ident t1] & Hid & H).
  apply run_lift in H as (rk & Hrk & H). rewrite run_get in H. apply run_lift in H as (? & Hfree & H). destruct (m !! rk) as [b|] eqn:Hm; [done|]. clear Hfree.
  apply ST_bind_Ok in H as ([] & m1 & H1 & H). apply ST_bind_Ok in H as ([] & m2 & H2 & H). apply run_lift in H as (bytes & Hb & H).
  apply ST_bind_Ok in H as ([] & m3 & H3%run_put & [= -> <- <-]). exists ident, values. rewrite Hvals. cbn [mbind result_bind]. rewrite Hval.
  destruct (new_identity_ok t values ident t' Ht Hid) as [Ht' Hident]. destruct Ht' as (n' & -> & Hn'). destruct Ht as (n & -> & Hn).
  cbn [t_table_id set_next_row_id] in Hrk. fold id in Hrk. unfold acquire_unique_keys in H1. apply (acquire_claims (set_next_row_id n' s)) in H1. cbn [t_table_id set_next_row_id t_columns] in H1. fold id in H1.
  apply (add_claims id) in H2. pose proof (table_with_id db Hdb _ _ Hs) as Hidok.
  assert (rows_of db id !! ident = None) as Hnew.
  { destruct (rows_of db id !! ident) as [v|] eqn:E; [|done]. destruct (do_rows _ Hdb _ _ _ E) as (s' & Hs' & Hrow). destruct (rk_encoded _ _ _ _ Hrow) as [b' Hb'].
    pose proof (row_lookup db m Hrep id ident v rk b' E Hrk Hb'). congruence. }
  destruct (claims_put m m2 db id ident values rk bytes (table_slots s l) Hdb Hrep Hidok Hnew) as [Hrep' Hslots]; [intros sl; by apply elem_of_table_slots|done|done|by eapply claims_app|].
  split; [done|]. split; [done|]. split; [done|]. split; [by exists n'|]. split; [done|]. split; [|by rewrite H3].
  eapply db_ok_put; [done|done|]. split; [done| |done|by exists rk|by exists bytes|].
  - eapply (filled_wf (set_next_row_id n s) (zip expressions positions) _ values); [| |exact Hvals]; [|by apply Forall_replicate].
    apply Forall_forall. intros [e p] Hin. apply elem_of_zip_l in Hin. by eapply (proj1 (Forall_forall _ _) Hwf).
  - intros sl k0 Hsl Hk0. fold id in Hk0. assert (k0 = rk) as -> by congruence. by apply Hslots.
Qed.

Lemma insert_loop (rows : list (list Expr)) : forall db m m' t t' news news', db_ok db -> represents m db -> table_with db id s -> same_table t s ->
  (forall i, i ∈ l <-> exists name, d_indexes db !! name = Some i /\ x_table_id i = id) -> Forall (Forall expr_wf) rows ->
  for_fold (insert_row positions existing l) (t, news) rows m = (Ok (t', news'), m') ->
  exists new db', inserted t positions rows = Ok (new, t') /\ news' = news ++ new.*2 /\ same_table t' s /\ NoDup new.*1 /\ (forall i, i ∈ new.*1 -> rows_of db id !! i = None) /\
    db_ok db' /\ represents m' db' /\ rows_become id (list_to_map new ∪ rows_of db id) db db'.
Proof.
  induction rows as [|expressions rows IH]; intros db m m' t t' news news' Hdb Hrep Hs Ht Hl Hwf; cbn [for_fold inserted].
  { intros [= <- <- <-]. exists [], db. rewrite app_nil_r. split_and!; try done; [constructor|intros i H; by apply not_elem_of_nil in H|]. split; [done|]. split; [|done]. symmetry. apply (left_id_L ∅ (∪)). }
  apply Forall_cons in Hwf as [He Hwf]. intros ([t1 news1] & m1 & H1 & H2)%ST_bind_Ok.
  destruct (insert_step db m m1 t t1 news news1 expressions Hdb Hrep Hs Ht Hl He H1) as (ident & values & Hv & Hid & -> & Ht1 & Hnew & Hdb1 & Hrep1).
  destruct (IH (put_row id ident values db) m1 m' t1 t' (news ++ [values]) news') as (new & db' & Hins & -> & Ht' & Hnd & Hfree & Hdb' & Hrep' & Hcat & Hrows & Hoth); try done.
  assert (rows_of (put_row id ident values db) id = <[ident := values]> (rows_of db id)) as E by (unfold put_row; rewrite rows_of_set; by rewrite decide_True).
  rewrite E in *. assert (ident ∉ new.*1) as Hni by (intros Hin%Hfree; by rewrite lookup_insert_eq in Hin).
  exists ((ident, values) :: new), db'. rewrite Hv. cbn [mbind result_bind]. rewrite Hid. cbn [mbind result_bind snd fst]. rewrite Hins. split_and!; try done.
  - by rewrite <- app_assoc.
  - cbn. by constructor.
  - cbn. intros i [->|Hin]%elem_of_cons; [done|]. apply Hfree in Hin. by apply lookup_insert_None in Hin as [? _].
  - split; [done|]. split.
    + rewrite Hrows, list_to_map_cons, <- insert_union_r; [by rewrite insert_union_l|]. by apply not_elem_of_list_to_map_1.
    + intros id' Hne. rewrite Hoth by done. unfold put_row. by rewrite rows_of_set, decide_False.
Qed.
End Insert.

(** ** Storing the counter *)

Section Counter.
Context {SD : Serde} {SL : SerdeLaws} (db : Db) (Hdb : db_ok db) (s t : TableSchema) (Hs : d_tables db !! t_name s = Some s) (Ht : same_table t s).
Implicit Types (m : KvMap) (k b rk : list byte) (values : list Value) (ident : identity).

Lemma same_table_fields : t_name t = t_name s /\ t_table_id t = t_table_id s /\ t_columns t = t_columns s /\ t_primary_key t = t_primary_key s /\ t_format_version t = t_format_version s.
Proof. destruct Ht as (n & -> & _). done. Qed.

Lemma lookup_set_table name : d_tables (set_table t db) !! name = if decide (name = t_name s) then Some t else d_tables db !! name.
Proof.
  destruct same_table_fields as (En & _). cbn. rewrite En. case_decide as H; [subst; by rewrite lookup_insert_eq|by rewrite lookup_insert_ne by congruence].
Qed.

Lemma slot_of_set_table id sl : slot_of (set_table t db) id sl <-> slot_of db id sl.
Proof.
  destruct sl as [p|i]; [|done]. destruct same_table_fields as (_ & Ei & Ec & _). cbn [slot_of]. unfold table_with. setoid_rewrite lookup_set_table. split.
  - intros (s' & c & (name & Hn & Hi) & Hc & Hk). case_decide as Hd.
    + injection Hn as <-. exists s, c. split; [exists (t_name s); by rewrite <- Ei|]. by rewrite <- Ec.
    + exists s', c. split; [by exists name|done].
  - intros (s' & c & (name & Hn & Hi) & Hc & Hk). destruct (decide (name = t_name s)) as [->|Hne].
    + assert (s' = s) as -> by congruence. exists t, c. split; [|by rewrite Ec]. exists (t_name s). by rewrite decide_True, Ei.
    + exists s', c. split; [|done]. exists name. by rewrite decide_False.
Qed.

Lemma row_entry_set_table id ident values k b : row_entry (set_table t db) id ident values k b <-> row_entry db id ident values k b.
Proof. unfold row_entry, slot_entry. by setoid_rewrite slot_of_set_table. Qed.

Lemma db_ok_set_table : db_ok (set_table t db).
Proof.
  destruct same_table_fields as (En & Ei & Ec & Ep & Ev). pose proof (do_tables _ Hdb _ _ Hs) as Hok. destruct Ht as (n & Etn & Hn). split.
  - intros name s'. rewrite lookup_set_table. case_decide as Hd; [intros [= <-]; subst name|intros Hs'; destruct (do_tables _ Hdb _ _ Hs'); by split].
    destruct Hok as [[? ?] ? ? ? ? Hty ? ? ?]. rewrite Etn. split; try done.
  - intros n1 s1 n2 s2. rewrite !lookup_set_table. repeat case_decide; intros H1 H2 Hid; simplify_eq; try done.
    + apply (do_table_ids _ Hdb _ s _ s2); [done|done|congruence].
    + apply (do_table_ids _ Hdb _ s1 _ s); [done|done|congruence].
    + by apply (do_table_ids _ Hdb _ s1 _ s2).
  - apply (do_table_counter _ Hdb).
  - intros name i Hi. destruct (do_indexes _ Hdb _ _ Hi) as [? ? ? ? (s' & (nm & Hn' & Hid) & Hcols)]. split; try done.
    destruct (decide (nm = t_name s)) as [->|Hne].
    + assert (s' = s) as -> by congruence. exists t. split; [exists (t_name s); by rewrite lookup_set_table, decide_True, Ei|by rewrite Ec].
    + exists s'. split; [|done]. exists nm. by rewrite lookup_set_table, decide_False.
  - apply (do_index_ids _ Hdb).
  - apply (do_index_counter _ Hdb).
  - intros id ident values Hr. destruct (do_rows _ Hdb _ _ _ Hr) as (s' & (nm & Hn' & Hid) & Hrow).
    assert (exists s2, table_with (set_table t db) id s2 /\ t_table_id s2 = t_table_id s' /\ row_ok db s2 ident values) as (s2 & Hs2 & Hid2 & Hrow2).
    { destruct (decide (nm = t_name s)) as [->|Hne].
      - assert (s' = s) as -> by congruence. exists t. split; [exists (t_name s); by rewrite lookup_set_table, decide_True, Ei|]. split; [done|].
        rewrite Etn in *. destruct Hrow; by split.
      - exists s'. split; [exists nm; by rewrite lookup_set_table, decide_False|done]. }
    exists s2. split; [done|]. destruct Hrow2 as [? ? ? ? ? Hsl]. split; try done. intros sl k Hsl2%slot_of_set_table. by apply Hsl.
Qed.

Lemma rep_set_table m k b : represents m db -> catalog_key (t_name s) = Ok k -> encode_schema t = Ok b -> represents (<[k := b]> m) (set_table t db).
Proof.
  intros Hrep Hk Hb k' b'. unfold entry. setoid_rewrite row_entry_set_table. change (rows_of (set_table t db)) with (rows_of db).
  unfold catalog_entry. setoid_rewrite lookup_set_table. change (d_indexes (set_table t db)) with (d_indexes db).
  change (d_table_counter (set_table t db)) with (d_table_counter db). change (d_index_counter (set_table t db)) with (d_index_counter db).
  pose proof (tk_name _ _ _ (do_tables _ Hdb _ _ Hs)) as [_ Hstr]. destruct (decide (k = k')) as [<-|Hne].
  - rewrite lookup_insert_eq. split.
    + intros [= <-]. left. left. exists (t_name s), t. by rewrite decide_True.
    + intros Hent. pose proof (catalog_key_shape _ _ Hk) as [Hshape _]. f_equal.
      destruct Hent as [[(n & s' & Hn & Hkn & Hbn)|[(n & i & _ & [Hn _]%index_catalog_key_shape & _)|[[Hn _]|[Hn _]]]]|(id & ident & values & _ & (kind & x & Hn & Hkind)%row_entry_kind)].
      * case_decide as Hd; [congruence|]. exfalso. apply Hd. eapply catalog_key_inj; [by apply (tk_name _ _ _ (do_tables _ Hdb _ _ Hn))|done|done|done].
      * rewrite Hshape in Hn. by apply kinds_apart in Hn as [? _].
      * rewrite Hshape, <- (app_nil_r table_id_counter_key) in Hn. by apply (kinds_apart KTable KTableCounter) in Hn as [? _].
      * rewrite Hshape, <- (app_nil_r index_id_counter_key) in Hn. by apply (kinds_apart KTable KIndexCounter) in Hn as [? _].
      * rewrite Hshape in Hn. apply kinds_apart in Hn as [<- _]. by destruct Hkind as [?|[?|?]].
  - rewrite lookup_insert_ne, (Hrep k' b') by done. unfold entry, catalog_entry. split.
    + intros [[(n & s' & Hn & Hkn & Hbn)|Hrest]|Hrow]; [|left; by right|by right]. left. left. exists n, s'. split; [|done]. rewrite decide_False; [done|]. intros ->. congruence.
    + intros [[(n & s' & Hn & Hkn & Hbn)|Hrest]|Hrow]; [|left; by right|by right]. left. left. exists n, s'. split; [|done]. case_decide as Hd; [subst; congruence|done].
Qed.
End Counter.

Section Statement.
Context {SD : Serde} {SL : SerdeLaws} (db : Db) (m : KvMap) (Hdb : db_ok db) (Hrep : represents m db).

Lemma execute_insert_ok (i : Insert) (out : StatementOutput) (m' : KvMap) : is_str (id_value (ins_table i)) -> Forall (Forall expr_wf) (ins_rows i) ->
  execute_insert i m = (Ok out, m') ->
  exists s positions new t db', d_tables db !! id_value (ins_table i) = Some s /\ insert_positions s (ins_columns i) = Ok positions /\
    inserted s positions (ins_rows i) = Ok (new, t) /\ NoDup new.*1 /\ (forall ident, ident ∈ new.*1 -> rows_of db (t_table_id s) !! ident = None) /\
    db_ok db' /\ represents m' db' /\ rows_become (t_table_id s) (list_to_map new ∪ rows_of db (t_table_id s)) (set_table t db) db' /\ out = OCommand "INSERT" (blen new).
Proof.
  intros Hstr Hwf. unfold execute_insert. intros (sk & Hsk & H)%run_lift. apply ST_bind_Ok in H as (s & m1 & Hload & H).
  destruct (load_schema_inv db m Hdb Hrep _ _ _ Hstr Hload) as (-> & Hn & Hs). apply run_lift in H as (positions & Hpos & H). rewrite run_scan in H.
  apply run_lift in H as (existing & _ & H). destruct (load_table_indexes_rep db m Hdb Hrep (t_table_id s)) as (l & Hl & Hin). rewrite (ST_bind_step _ _ _ _ _ Hl) in H.
  apply ST_bind_Ok in H as ([t news] & m2 & Hloop & H). pose proof (do_tables _ Hdb _ _ Hn) as Htok. destruct (tk_name _ _ _ Htok) as [Hname _].
  assert (same_table s s) as Hss by (exists (t_next_row_id s); split; [by destruct s|apply Htok]).
  destruct (insert_loop s l positions existing (ins_rows i) db m m2 s t [] news Hdb Hrep Hs Hss Hin Hwf Hloop) as (new & db1 & Hins & -> & Ht & Hnd & Hfree & Hdb1 & Hrep1 & Hcat & Hrows & Hoth).
  assert (d_tables db1 !! t_name s = Some s) as Hn1 by (destruct Hcat as (-> & _); by rewrite Hname).
  apply ST_bind_Ok in H as ([] & m3 & H3 & [= <- <-]).
  assert (represents m3 (set_table t db1)) as Hrep3.
  { destruct Ht as (n & -> & Hnn). cbn [t_primary_key set_next_row_id] in H3. destruct (t_primary_key s) as [p|] eqn:Hp.
    - injection H3 as <-. assert (set_next_row_id n s = s) as Es.
      { clear -Hins Hp. assert (forall rows u new u', t_primary_key u = Some p -> inserted u positions rows = Ok (new, u') -> u' = u) as Hsame.
        { induction rows as [|e rows IH]; intros u nw u' Hu; cbn [inserted]; [by intros [= _ <-]|]. intros (v & _ & ([x u1] & Hx & ([rest u2] & Hrest & [= _ <-])%bind_Ok)%bind_Ok)%bind_Ok.
          unfold new_identity in Hx. rewrite Hu in Hx. apply bind_Ok in Hx as (w & _ & (y & _ & [= _ <-])%bind_Ok). by apply (IH u rest u2). }
        symmetry. by apply (Hsame (ins_rows i) s new) in Hins. }
      rewrite Es. unfold set_table. rewrite insert_id by done. by destruct db1.
    - apply run_lift in H3 as (b & Hb & H3%run_put). subst m3. eapply rep_set_table; [done|done|by exists n|done| |done]. by rewrite Hname. }
  exists s, positions, new, t, (set_table t db1). split_and!; try done.
  - by apply db_ok_set_table with s.
  - split; [|done]. destruct Hcat as (E1 & E2 & E3 & E4). unfold same_catalog, set_table. cbn. by rewrite E1, E2, E3, E4.
  - unfold command. by rewrite length_fmap.
Qed.
End Statement.
