(* ===== verification/DbCatalog.v ===== *)
(** * CREATE and DROP

    The statements on the catalog: a table or an index comes with a fresh ID,
    an index with an entry for every row that has one, and both go with
    everything that belongs to them. *)
From S2P Require Import Prelude Order Record Token F64 Ast Utf8 Schema Expression Codec Engine CodecFacts.
From S2P Require Import KvSim Database DbRows DbOps DbWrite DbAccess DbDelete.
Local Open Scope Z_scope.

Implicit Types (m : KvMap) (k b rk : list byte) (values : list Value) (s : TableSchema) (i : IndexSchema) (id : Z) (p : nat) (c : ColumnSchema) (ident : identity) (db : Db).

(** ** Deleting what a prefix covers *)

Lemma delete_all_run (found : list (list byte * list byte)) m m' : for_each found (fun x => on_kv (kv_delete x.1)) m = (Ok tt, m') ->
  forall k b, m' !! k = Some b <-> m !! k = Some b /\ k ∉ found.*1.
Proof.
  revert m. induction found as [|[k0 b0] found IH]; intros m; cbn [for_each].
  { intros [= <-] k b. split; [intros; split; [done|apply not_elem_of_nil]|tauto]. }
  intros ([] & m1 & H1%run_delete & H2)%ST_bind_Ok k b. cbn in H1. subst m1. rewrite (IH _ H2), lookup_delete_Some. cbn. rewrite not_elem_of_cons. intuition congruence.
Qed.

Lemma delete_prefix_run (prefix : list byte) m m' : delete_prefix prefix m = (Ok tt, m') -> forall k b, m' !! k = Some b <-> m !! k = Some b /\ ~ prefix `prefix_of` k.
Proof.
  unfold delete_prefix. rewrite run_scan. intros Hrun k b. rewrite (delete_all_run _ _ _ Hrun). split; intros [Hm Hn]; (split; [done|]).
  - intros Hp. apply Hn. apply (list_elem_of_fmap_2 fst _ (k, b)). by apply elem_of_map_scan.
  - intros Hin. apply list_elem_of_fmap in Hin as ([k' b'] & -> & [_ Hp]%elem_of_map_scan). by apply Hn.
Qed.

(** A scan sees what is under its prefix only. *)
Lemma map_scan_ext (prefix : list byte) m m' : (forall k b, prefix `prefix_of` k -> m' !! k = Some b <-> m !! k = Some b) -> map_scan prefix m' = map_scan prefix m.
Proof.
  intros Heq. unfold map_scan. f_equal. apply map_eq. intros k. apply option_eq. intros b. rewrite !map_lookup_filter_Some. cbn. split; intros [Hm Hp]; (split; [|done]); by apply Heq.
Qed.

(** ** Entries by the kind of their key *)

Section Kinds.
Context {SD : Serde}.

Definition entry_at db (kind : KeyKind) k b : Prop :=
  match kind with
  | KTable => exists name s, d_tables db !! name = Some s /\ catalog_key name = Ok k /\ encode_schema s = Ok b
  | KIndex => exists name i, d_indexes db !! name = Some i /\ index_catalog_key name = Ok k /\ encode_index i = Ok b
  | KTableCounter => k = table_id_counter_key /\ exists n, d_table_counter db = Some n /\ b = encode_u64 n
  | KIndexCounter => k = index_id_counter_key /\ exists n, d_index_counter db = Some n /\ b = encode_u64 n
  | KRow => exists id ident values, rows_of db id !! ident = Some values /\ row_key id ident = Ok k /\ encode_row values = Ok b
  | KUnique => exists id ident values p, rows_of db id !! ident = Some values /\ slot_of db id (SlotUnique p) /\ row_key id ident = Ok b /\ slot_key id values b (SlotUnique p) = Ok (Some k)
  | KEntry => exists id ident values i, rows_of db id !! ident = Some values /\ slot_of db id (SlotIndex i) /\ row_key id ident = Ok b /\ slot_key id values b (SlotIndex i) = Ok (Some k)
  end.

Lemma entry_at_shape db kind k b : entry_at db kind k b -> exists x, k = kind_prefix kind ++ x.
Proof.
  destruct kind; cbn [entry_at].
  - intros (n & s & _ & [-> _]%catalog_key_shape & _). by eexists.
  - intros (n & i & _ & [-> _]%index_catalog_key_shape & _). by eexists.
  - intros (id & ident & values & _ & [-> _]%row_key_shape & _). by eexists.
  - intros (id & ident & values & p & _ & _ & _ & [x ->]%slot_key_kind). by eexists.
  - intros (id & ident & values & i & _ & _ & _ & [x ->]%slot_key_kind). by eexists.
  - intros [-> _]. exists []. by rewrite app_nil_r.
  - intros [-> _]. exists []. by rewrite app_nil_r.
Qed.

Lemma entry_kinds db k b : entry db k b <-> exists kind, entry_at db kind k b.
Proof.
  split.
  - intros [[H|[H|[H|H]]]|(id & ident & values & Hr & [[Hk Hb]|([p|i] & Hsl & Hk & Hs)])];
      [exists KTable|exists KIndex|exists KTableCounter|exists KIndexCounter|exists KRow|exists KUnique|exists KEntry]; cbn; eauto 10.
  - intros [[| | | | | |] H]; cbn in H; [left; by left|left; right; by left|right..|left; do 2 right; by left|left; do 3 right; done].
    + destruct H as (id & ident & values & Hr & Hk & Hb). exists id, ident, values. split; [done|]. by left.
    + destruct H as (id & ident & values & p & Hr & Hsl & Hk & Hs). exists id, ident, values. split; [done|]. right. by exists (SlotUnique p).
    + destruct H as (id & ident & values & i & Hr & Hsl & Hk & Hs). exists id, ident, values. split; [done|]. right. by exists (SlotIndex i).
Qed.

Lemma rep_at m db kind k b x : represents m db -> k = kind_prefix kind ++ x -> m !! k = Some b <-> entry_at db kind k b.
Proof.
  intros Hrep ->. rewrite (Hrep _ b), entry_kinds. split; [|eauto]. intros [kind' H]. destruct (entry_at_shape _ _ _ _ H) as [y Hy].
  by apply kinds_apart in Hy as [-> _].
Qed.

Lemma rep_kind m db k b : represents m db -> m !! k = Some b -> exists kind x, k = kind_prefix kind ++ x.
Proof. intros Hrep [kind H]%Hrep%entry_kinds. destruct (entry_at_shape _ _ _ _ H) as [x ->]. eauto. Qed.

Lemma rep_by_kind m db : (forall k b, m !! k = Some b -> exists kind x, k = kind_prefix kind ++ x) ->
  (forall kind k b x, k = kind_prefix kind ++ x -> m !! k = Some b <-> entry_at db kind k b) -> represents m db.
Proof.
  intros Hkind Hat k b. rewrite entry_kinds. split.
  - intros Hm. destruct (Hkind _ _ Hm) as (kind & x & ->). exists kind. by eapply Hat.
  - intros [kind H]. destruct (entry_at_shape _ _ _ _ H) as [x ->]. by eapply Hat.
Qed.

(** Rows and their entries, when the slots of a table stay. *)
Lemma row_ok_slots db db' s ident values : (forall sl, slot_of db' (t_table_id s) sl -> slot_of db (t_table_id s) sl) -> row_ok db s ident values -> row_ok db' s ident values.
Proof. intros Hsl [? ? ? ? ? Hk]. split; try done. intros sl k Hs. apply Hk. by apply Hsl. Qed.

Lemma entry_at_slots db db' kind k b : (kind = KRow \/ kind = KUnique \/ kind = KEntry) ->
  (forall id ident values, rows_of db' id !! ident = Some values <-> rows_of db id !! ident = Some values) ->
  (forall id ident values sl, rows_of db id !! ident = Some values -> slot_of db' id sl <-> slot_of db id sl) ->
  entry_at db' kind k b <-> entry_at db kind k b.
Proof.
  intros Hkind Hrows Hsl. destruct Hkind as [->|[->| ->]]; cbn [entry_at]; setoid_rewrite Hrows; [done|..];
    split; intros (id & ident & values & x & Hr & Hs & H); exists id, ident, values, x; (split_and!; [done| |apply H..]); by eapply Hsl.
Qed.
End Kinds.

(** ** CREATE TABLE *)

Definition add_table (s : TableSchema) (following : Z) (db : Db) : Db :=
  mkDb (<[t_name s := s]> (d_tables db)) (d_indexes db) (d_rows db) (Some following) (d_index_counter db).

Lemma any_repeated_NoDup (names seen : list str) : any_repeated seen names = false -> NoDup names /\ forall n, n ∈ names -> n ∉ seen.
Proof.
  revert seen. induction names as [|n names IH]; intros seen; cbn; [intros _; split; [constructor|by intros n ?%not_elem_of_nil]|].
  intros [Hn%bool_decide_eq_false Hrest]%orb_false_iff. destruct (IH _ Hrest) as [Hnd Hout]. split.
  - constructor; [|done]. intros Hin. apply (Hout n Hin). by left.
  - intros n' [->|Hin]%elem_of_cons; [done|]. intros Hs. apply (Hout n' Hin). by right.
Qed.

Lemma elem_of_primary_keys (columns : list ColumnSchema) from p : p ∈ primary_keys from columns <-> exists c, columns !! (p - from)%nat = Some c /\ (from <= p)%nat /\ c_primary_key c = true.
Proof.
  revert from. induction columns as [|c columns IH]; intros from; cbn [primary_keys]; [split; [by intros ?%not_elem_of_nil|by intros (? & ? & _)]|].
  rewrite elem_of_app, IH. split.
  - intros [H|(d & Hd & Hle & Hk)].
    + destruct (c_primary_key c) eqn:E; [|by apply not_elem_of_nil in H]. apply list_elem_of_singleton in H as ->. exists c. by rewrite Nat.sub_diag.
    + exists d. replace (p - from)%nat with (S (p - S from)) by lia. split_and!; [done|lia|done].
  - intros (d & Hd & Hle & Hk). destruct (decide (p = from)) as [->|Hne].
    + rewrite Nat.sub_diag in Hd. injection Hd as <-. left. rewrite Hk. by apply list_elem_of_singleton.
    + right. exists d. replace (p - from)%nat with (S (p - S from)) in Hd by lia. split_and!; [done|lia|done].
Qed.

Lemma from_create_ok (n : Z) (create : CreateTable) s db : is_str (id_value (ct_name create)) -> is_ok (catalog_key (id_value (ct_name create))) = true -> 1 <= n < U64_MAX ->
  from_create n create = Ok s -> t_table_id s = n /\ table_ok (add_table s (n + 1) db) (id_value (ct_name create)) s.
Proof.
  intros Hstr Hkey Hn. unfold from_create. case_match eqn:Hlen; [done|]. apply Nat.ltb_ge in Hlen. case_match eqn:Hrep; [done|]. intros [= <-]. split; [done|].
  set (columns := from_definition <$> ct_columns create) in *. pose proof (elem_of_primary_keys columns 0) as Hel. setoid_rewrite Nat.sub_0_r in Hel. split; try done.
  - cbn. unfold is_u64. split; lia.
  - by apply any_repeated_NoDup in Hrep as [? _].
  - unfold schema_typed. cbn. apply Forall_fmap, Forall_forall. intros d _. cbn. by destruct (cd_data_type d).
  - cbn. intros p c Hc. assert (c_primary_key c = true <-> p ∈ primary_keys 0 columns) as Hiff.
    { rewrite Hel. split; [intros Hk; exists c; split_and!; [done|lia|done]|]. intros (c' & Hc' & _ & Hk). congruence. }
    destruct (primary_keys 0 columns) as [|q qs]; cbn in *.
    + destruct (c_primary_key c); [|done]. by pose proof (proj1 Hiff eq_refl) as ?%not_elem_of_nil.
    + destruct qs; [|cbn in Hlen; lia]. rewrite list_elem_of_singleton in Hiff. destruct (c_primary_key c); symmetry.
      * apply bool_decide_eq_true. f_equal. symmetry. by apply Hiff.
      * apply bool_decide_eq_false. intros [= ->]. by apply diff_false_true, Hiff.
  - cbn. intros p Hp. assert (p ∈ primary_keys 0 columns) as (c & Hc & _)%Hel by (destruct (primary_keys 0 columns); [done|injection Hp as ->; by left]). by eapply lookup_lt_Some.
Qed.

Section CreateTable.
Context {SD : Serde} {SL : SerdeLaws} (db : Db) (m : KvMap) (Hdb : db_ok db) (Hrep : represents m db).

Lemma decode_u64_encoded (n : Z) : is_u64 n -> decode_u64 (encode_u64 n) = Ok n.
Proof.
  intros Hn. unfold decode_u64, encode_u64. rewrite from_to_be_small; [by rewrite length_to_be|]. unfold is_u64, U64_MAX in Hn. change (256 ^ Z.of_nat 8) with (2 ^ 64). lia.
Qed.

(** The IDs handed out are above those in use. *)
Lemma next_id_run (kind : KeyKind) (counter : option Z) e (x : Z * Z) m' :
  (forall b, m !! kind_prefix kind = Some b <-> exists n, counter = Some n /\ b = encode_u64 n) -> (forall n, counter = Some n -> 1 <= n <= U64_MAX) ->
  next_id (kind_prefix kind) e m = (Ok x, m') -> m' = m /\ x = (default 1 counter, default 1 counter + 1) /\ 1 <= default 1 counter < U64_MAX.
Proof.
  intros Hm Hc. unfold next_id. rewrite run_get. intros (n & Hn & H)%run_lift. assert (n = default 1 counter /\ 1 <= n) as [-> Hle].
  { destruct (m !! kind_prefix kind) as [b|] eqn:E.
    - destruct (proj1 (Hm b) eq_refl) as (c & -> & ->). specialize (Hc c eq_refl). rewrite decode_u64_encoded in Hn by (unfold is_u64; lia).
      injection Hn as <-. split; [done|lia].
    - injection Hn as <-. destruct counter as [c|]; [|done]. assert (None = Some (encode_u64 c)) by (apply Hm; eauto). done. }
  apply run_lift in H as (f & Hf & [= <- <-]). destruct (checked_add _ _ _) as [c|] eqn:Hadd in Hf; [|done].
  injection Hf as <-. apply checked_add_Some in Hadd as [-> ?]. split_and!; [done|done|done|lia].
Qed.

Lemma fresh_table_rows id : default 1 (d_table_counter db) <= id -> rows_of db id = ∅.
Proof.
  intros Hid. apply map_eq. intros ident. rewrite lookup_empty. destruct (rows_of db id !! ident) as [values|] eqn:E; [|done].
  destruct (do_rows _ Hdb _ _ _ E) as (s & (n & Hn & Hs) & _). pose proof (tk_id _ _ _ (do_tables _ Hdb _ _ Hn)). lia.
Qed.

Section Add.
Context (s : TableSchema) (Hfree : d_tables db !! t_name s = None) (Hid : t_table_id s = default 1 (d_table_counter db)) (Hmax : 1 <= t_table_id s < U64_MAX).
Let db' := add_table s (t_table_id s + 1) db.

Lemma lookup_add n t : d_tables db' !! n = Some t <-> (t_name s = n /\ s = t) \/ (t_name s <> n /\ d_tables db !! n = Some t).
Proof. unfold db', add_table. cbn. by rewrite lookup_insert_Some. Qed.

Lemma table_with_add id t : table_with db' id t <-> table_with db id t \/ (t = s /\ id = t_table_id s).
Proof.
  unfold table_with, db', add_table. cbn. split.
  - intros (n & [[<- <-]|[Hne Hn]]%lookup_insert_Some & <-); [by right|left; eauto].
  - intros [(n & Hn & <-)|[-> ->]]; [|exists (t_name s); by rewrite lookup_insert_eq]. exists n. split; [|done].
    rewrite lookup_insert_ne; [done|congruence].
Qed.

Lemma slot_of_add id sl : id <> t_table_id s -> slot_of db' id sl <-> slot_of db id sl.
Proof.
  intros Hne. destruct sl as [p|i]; cbn [slot_of]; [|done]. split; intros (t & c & Ht & H); exists t, c; (split; [|done]); [|apply table_with_add; by left].
  by apply table_with_add in Ht as [?|[_ ?]].
Qed.

Lemma old_row id ident values : rows_of db id !! ident = Some values -> id <> t_table_id s.
Proof. intros Hr ->. rewrite fresh_table_rows in Hr by lia. by rewrite lookup_empty in Hr. Qed.

Lemma db_ok_add_table : table_ok db' (t_name s) s -> db_ok db'.
Proof.
  intros Htok. split.
  - intros n t [[<- <-]|[Hne Ht]]%lookup_add; [done|]. destruct (do_tables _ Hdb _ _ Ht) as [? ? ? [? ?] ? ? ? ? ?]. split; try done. cbn. split; [done|lia].
  - assert (forall n t, d_tables db !! n = Some t -> t_table_id t <> t_table_id s) as Hlt.
    { intros n t Ht ?. pose proof (tk_id _ _ _ (do_tables _ Hdb _ _ Ht)). lia. }
    intros n1 s1 n2 s2 [[<- <-]|[_ H1]]%lookup_add [[<- <-]|[_ H2]]%lookup_add E; [done|by apply Hlt in H2|by apply Hlt in H1|].
    by apply (do_table_ids _ Hdb n1 s1 n2 s2).
  - intros n [= <-]. lia.
  - intros n i Hi. destruct (do_indexes _ Hdb _ _ Hi) as [? ? ? ? (t & Ht & Hcols)]. split; try done. exists t. split; [|done]. apply table_with_add. by left.
  - apply (do_index_ids _ Hdb).
  - apply (do_index_counter _ Hdb).
  - intros id ident values Hr. destruct (do_rows _ Hdb _ _ _ Hr) as (t & Ht & Hrow). exists t. split; [apply table_with_add; by left|].
    pose proof Ht as (_ & _ & E). apply (row_ok_slots db); [|done]. intros sl. rewrite E. by apply slot_of_add, (old_row _ ident values).
Qed.

Lemma rep_add_table k b : is_str (t_name s) -> catalog_key (t_name s) = Ok k -> encode_schema s = Ok b ->
  represents (<[table_id_counter_key := encode_u64 (t_table_id s + 1)]> (<[k := b]> m)) db'.
Proof.
  intros Hstr Hk Hb. destruct (catalog_key_shape _ _ Hk) as [Hshape _]. apply rep_by_kind.
  - intros k' b' [[<- _]|[_ [[<- _]|[_ H]]%lookup_insert_Some]]%lookup_insert_Some; [exists KTableCounter, []; by rewrite app_nil_r|eauto|by eapply rep_kind].
  - intros kind k' b' x Hx. assert (kind <> KTableCounter -> k' <> table_id_counter_key) as Hc.
    { intros Hne ->. rewrite <- (app_nil_r table_id_counter_key) in Hx. by apply (kinds_apart KTableCounter kind) in Hx as [? _]. }
    assert (kind <> KTable -> k' <> k) as Ht.
    { intros Hne ->. rewrite Hshape in Hx. by apply kinds_apart in Hx as [? _]. }
    pose proof (rep_at m db kind k' b' x Hrep Hx) as Hold. destruct kind;
      [rewrite lookup_insert_ne by (symmetry; by apply Hc)| | | | | |];
      try (rewrite !lookup_insert_ne by (symmetry; by auto); rewrite Hold); try done; cbn [entry_at].
    + split.
      * intros [[<- <-]|[Hne (n & t & Hn & Hkn & Hbn)%Hold]]%lookup_insert_Some; [exists (t_name s), s; split; [apply lookup_add; by left|done]|].
        exists n, t. split; [apply lookup_add; right; split; [congruence|done]|done].
      * intros (n & t & [[<- <-]|[Hne Hn]]%lookup_add & Hkn & Hbn); apply lookup_insert_Some; [left; split; congruence|right].
        split; [|apply Hold; cbn; eauto]. intros <-. apply Hne. apply (catalog_key_inj _ _ k); [done|by apply (tk_name _ _ _ (do_tables _ Hdb _ _ Hn))|done|done].
    + symmetry. apply (entry_at_slots db db' KUnique); [tauto|done|]. intros id ident values sl Hr. by eapply slot_of_add, old_row.
    + rewrite lookup_insert_Some. split.
      * intros [[<- <-]|[Hne H]]; [split; [done|]; by eexists|]. exfalso. apply Hne. symmetry. rewrite lookup_insert_ne in H by (symmetry; by apply Ht). apply Hold in H. by destruct H.
      * intros [-> (n & [= <-] & ->)]. by left.
Qed.
End Add.

Lemma counter_at (kind : KeyKind) (counter : option Z) :
  (forall k b, entry_at db kind k b <-> k = kind_prefix kind /\ exists n, counter = Some n /\ b = encode_u64 n) ->
  forall b, m !! kind_prefix kind = Some b <-> exists n, counter = Some n /\ b = encode_u64 n.
Proof. intros He b. rewrite (rep_at m db kind (kind_prefix kind) b [] Hrep) by (by rewrite app_nil_r). rewrite He. tauto. Qed.

(** CREATE TABLE adds the table with a fresh ID and no rows; with IF NOT
    EXISTS an existing table stays as it is. *)
Lemma execute_create_table_ok (c : CreateTable) (out : StatementOutput) (m' : KvMap) : is_str (id_value (ct_name c)) -> execute_create_table c m = (Ok out, m') ->
  out = OCommand "CREATE TABLE" 0 /\
  match d_tables db !! id_value (ct_name c) with
  | Some _ => ct_if_not_exists c = true /\ m' = m
  | None => exists s db', from_create (default 1 (d_table_counter db)) c = Ok s /\ db' = add_table s (t_table_id s + 1) db /\ db_ok db' /\ represents m' db' /\
      (forall id, default 1 (d_table_counter db) <= id -> rows_of db id = ∅)
  end.
Proof.
  intros Hstr. unfold execute_create_table. intros (key & Hkey & H)%run_lift. rewrite run_get in H.
  pose proof (lookup_table db m _ key Hdb Hrep Hstr Hkey) as Hlook. destruct (d_tables db !! id_value (ct_name c)) as [s0|] eqn:Es.
  { destruct Hlook as (b & _ & Hm). rewrite Hm in H. destruct (ct_if_not_exists c); [|done]. by injection H as <- <-. }
  rewrite Hlook in H. apply ST_bind_Ok in H as (ids & m1 & Hnext & H).
  destruct (next_id_run KTableCounter (d_table_counter db) _ _ _ (counter_at KTableCounter (d_table_counter db) (fun k b => iff_refl _)) (do_table_counter _ Hdb) Hnext) as (-> & -> & Hn).
  cbn [fst snd] in H. apply run_lift in H as (s & Hs & H). apply run_lift in H as (b & Hb & H).
  destruct (from_create_ok _ c s db Hstr ltac:(by rewrite Hkey) Hn Hs) as [Hid Htok]. pose proof (tk_name _ _ _ Htok) as [Hname _].
  apply ST_bind_Ok in H as ([] & m2 & H2%run_put & H). apply ST_bind_Ok in H as ([] & m3 & H3%run_put & [= <- <-]). subst m2 m3. split; [done|].
  rewrite <- Hid in *. rewrite <- Hname in *. exists s, (add_table s (t_table_id s + 1) db). split_and!; [done|done| | |intros; apply fresh_table_rows; lia].
  - by apply db_ok_add_table.
  - by apply rep_add_table.
Qed.
End CreateTable.

(** ** DROP TABLE and DROP INDEX

    Dropping a table removes its rows, its indexes and their entries, and
    nothing of any other table; dropping an index removes its entries. *)

Definition remove_table (name : str) (id : Z) (db : Db) : Db :=
  mkDb (delete name (d_tables db)) (filter (fun x => x_table_id x.2 <> id) (d_indexes db)) (delete id (d_rows db)) (d_table_counter db) (d_index_counter db).

Definition remove_index (name : str) (db : Db) : Db :=
  mkDb (d_tables db) (delete name (d_indexes db)) (d_rows db) (d_table_counter db) (d_index_counter db).

(** ** Which keys a prefix covers *)

Lemma row_prefix_covers id id' ident k : is_u64 id -> is_u64 id' -> row_key id' ident = Ok k -> row_prefix id `prefix_of` k <-> id' = id.
Proof.
  intros Hid Hid' [-> _]%row_key_shape. unfold row_prefix. change ROW_PREFIX with (kind_prefix KRow). split.
  - intros [_ H]%kinds_prefix. symmetry. by eapply id_prefix.
  - intros ->. rewrite app_assoc. by eexists.
Qed.

Lemma unique_prefix_covers id id' values rk p k : is_u64 id -> is_u64 id' -> slot_key id' values rk (SlotUnique p) = Ok (Some k) -> unique_prefix id `prefix_of` k <-> id' = id.
Proof.
  intros Hid Hid' (v & _ & _ & (x & _ & -> & _)%unique_key_shape)%slot_key_unique. unfold unique_prefix. change UNIQUE_PREFIX with (kind_prefix KUnique). split.
  - intros [_ H]%kinds_prefix. symmetry. by eapply id_prefix.
  - intros ->. rewrite app_assoc. by eexists.
Qed.

Lemma entry_prefix_covers (n : Z) id values rk i k : is_u64 n -> is_u64 (x_id i) -> slot_key id values rk (SlotIndex i) = Ok (Some k) -> index_entry_prefix n `prefix_of` k <-> x_id i = n.
Proof.
  intros Hn Hi (sel & _ & (xs & -> & _)%index_entry_key_shape)%slot_key_index. unfold index_entry_prefix. change INDEX_ENTRY_PREFIX with (kind_prefix KEntry). split.
  - intros [_ H]%kinds_prefix. symmetry. by eapply id_prefix.
  - intros <-. rewrite app_assoc. by eexists.
Qed.

(** ** The maps after the loops *)

Lemma drop_indexes_run (l : list IndexSchema) m m' : for_each l drop_index_of_table m = (Ok tt, m') ->
  forall k b, m' !! k = Some b <-> m !! k = Some b /\ forall i, i ∈ l -> ~ index_entry_prefix (x_id i) `prefix_of` k /\ index_catalog_key (x_name i) <> Ok k.
Proof.
  revert m. induction l as [|i l IH]; intros m; cbn [for_each].
  { intros [= <-] k b. split; [|tauto]. intros Hm. split; [done|]. intros i Hi. by apply not_elem_of_nil in Hi. }
  intros ([] & m1 & H1 & H2)%ST_bind_Ok k b. rewrite (IH _ H2). unfold drop_index_of_table in H1. apply ST_bind_Ok in H1 as ([] & m2 & Hp & H1).
  apply run_lift in H1 as (key & Hkey & H1%run_delete). subst m1. rewrite lookup_delete_Some, (delete_prefix_run _ _ _ Hp). setoid_rewrite elem_of_cons. split.
  - intros [[Hne [Hm Hpre]] Hrest]. split; [done|]. intros j [->|Hj]; [split; [done|congruence]|by apply Hrest].
  - intros [Hm Hall]. destruct (Hall i (or_introl eq_refl)) as [Hpre Hne]. split; [split; [congruence|done]|]. intros j Hj. apply Hall. by right.
Qed.

Section DropTable.
Context {SD : Serde} {SL : SerdeLaws} (db : Db) (m : KvMap) (Hdb : db_ok db) (Hrep : represents m db) (s : TableSchema) (Hs : d_tables db !! t_name s = Some s).
Let id := t_table_id s.
Let db' := remove_table (t_name s) id db.

Lemma lookup_remove n t : d_tables db' !! n = Some t <-> t_name s <> n /\ d_tables db !! n = Some t.
Proof. unfold db', remove_table. cbn. by rewrite lookup_delete_Some. Qed.

Lemma index_remove n i : d_indexes db' !! n = Some i <-> d_indexes db !! n = Some i /\ x_table_id i <> id.
Proof. unfold db', remove_table. cbn. by rewrite map_lookup_filter_Some. Qed.

Lemma rows_remove id' : rows_of db' id' = if decide (id' = id) then ∅ else rows_of db id'.
Proof. unfold db', rows_of, remove_table. cbn. case_decide as Hd; [subst; by rewrite lookup_delete_eq|by rewrite lookup_delete_ne]. Qed.

Lemma table_with_remove id' t : table_with db' id' t <-> table_with db id' t /\ id' <> id.
Proof.
  unfold table_with. setoid_rewrite lookup_remove. split.
  - intros (n & [Hne Hn] & <-). split; [eauto|]. intros E. apply Hne. by apply (do_table_ids _ Hdb (t_name s) s n t).
  - intros [(n & Hn & <-) Hne]. exists n. split_and!; [|done|done]. intros <-. unfold id in Hne. congruence.
Qed.

Lemma slot_of_remove id' sl : id' <> id -> slot_of db' id' sl <-> slot_of db id' sl.
Proof.
  intros Hne. destruct sl as [p|i]; cbn [slot_of].
  - split; intros (t & c & Ht & H); exists t, c; (split; [|done]); [by apply table_with_remove in Ht as [? _]|by apply table_with_remove].
  - setoid_rewrite index_remove. split; [naive_solver|]. intros (n & Hi & <-). by exists n.
Qed.

Lemma table_id_u64 : is_u64 id.
Proof. apply (tk_id _ _ _ (do_tables _ Hdb _ _ Hs)). Qed.

Lemma db_ok_remove_table : db_ok db'.
Proof.
  split.
  - intros n t [_ Ht]%lookup_remove. destruct (do_tables _ Hdb _ _ Ht). by split.
  - intros n1 s1 n2 s2 [_ H1]%lookup_remove [_ H2]%lookup_remove. by apply (do_table_ids _ Hdb).
  - apply (do_table_counter _ Hdb).
  - intros n i [Hi Hne]%index_remove. destruct (do_indexes _ Hdb _ _ Hi) as [? ? ? ? (t & Ht & Hcols)]. split; try done. exists t. split; [|done]. by apply table_with_remove.
  - intros n1 i1 n2 i2 [H1 _]%index_remove [H2 _]%index_remove. by apply (do_index_ids _ Hdb).
  - apply (do_index_counter _ Hdb).
  - intros id' ident values. rewrite rows_remove. case_decide as Hd; [by rewrite lookup_empty|]. intros Hr. destruct (do_rows _ Hdb _ _ _ Hr) as (t & Ht & Hrow).
    exists t. split; [by apply table_with_remove|]. pose proof Ht as (_ & _ & E). apply (row_ok_slots db); [|done]. intros sl. rewrite E. by apply slot_of_remove.
Qed.

(** What is deleted, given the table's indexes. *)
Definition covered (l : list IndexSchema) k : Prop :=
  row_prefix id `prefix_of` k \/ unique_prefix id `prefix_of` k \/ catalog_key (t_name s) = Ok k \/
  exists i, i ∈ l /\ (index_entry_prefix (x_id i) `prefix_of` k \/ index_catalog_key (x_name i) = Ok k).

Section Covered.
Context (l : list IndexSchema) (Hl : forall i, i ∈ l <-> exists n, d_indexes db !! n = Some i /\ x_table_id i = id).

(** The kind of a covered key says what covers it. *)
Lemma covered_kind kind k x : k = kind_prefix kind ++ x -> covered l k <->
  match kind with
  | KTable => catalog_key (t_name s) = Ok k
  | KIndex => exists i, i ∈ l /\ index_catalog_key (x_name i) = Ok k
  | KRow => row_prefix id `prefix_of` k
  | KUnique => unique_prefix id `prefix_of` k
  | KEntry => exists i, i ∈ l /\ index_entry_prefix (x_id i) `prefix_of` k
  | KTableCounter | KIndexCounter => False
  end.
Proof.
  intros Hk. assert (row_prefix id `prefix_of` k -> kind = KRow) as H1 by (subst k; by intros [<- _]%(kinds_prefix KRow)).
  assert (unique_prefix id `prefix_of` k -> kind = KUnique) as H2 by (subst k; by intros [<- _]%(kinds_prefix KUnique)).
  assert (catalog_key (t_name s) = Ok k -> kind = KTable) as H3 by (intros [E _]%catalog_key_shape; rewrite Hk in E; by apply kinds_apart in E as [-> _]).
  assert (forall i, index_entry_prefix (x_id i) `prefix_of` k -> kind = KEntry) as H4 by (intros i; subst k; by intros [<- _]%(kinds_prefix KEntry)).
  assert (forall i, index_catalog_key (x_name i) = Ok k -> kind = KIndex) as H5 by (intros i [E _]%index_catalog_key_shape; rewrite Hk in E; by apply kinds_apart in E as [-> _]).
  unfold covered. destruct kind; split; try (intros [H|[H|[H|(i & Hi & [H|H])]]]; first [by specialize (H1 H)|by specialize (H2 H)|by specialize (H3 H)|by specialize (H4 i H)|by specialize (H5 i H)|by eauto]);
    try tauto; intros (i & Hi & H); do 3 right; eauto.
Qed.

Lemma entry_at_remove kind k b : entry_at db' kind k b <-> entry_at db kind k b /\ ~ covered l k.
Proof.
  pose proof table_id_u64 as Hid. split.
  - intros H. destruct (entry_at_shape _ _ _ _ H) as [x Hx]. rewrite (covered_kind _ _ _ Hx). destruct kind; cbn [entry_at] in *.
    + destruct H as (n & t & [Hne Hn]%lookup_remove & Hk & Hb). split; [eauto|]. intros Hk'. apply Hne.
      apply (catalog_key_inj _ _ k); [by apply (tk_name _ _ _ (do_tables _ Hdb _ _ Hs))|by apply (tk_name _ _ _ (do_tables _ Hdb _ _ Hn))|done|done].
    + destruct H as (n & i & [Hn Hne]%index_remove & Hk & Hb). split; [eauto|]. intros (j & (n' & Hj & Ej)%Hl & Hk').
      destruct (xk_name _ _ _ (do_indexes _ Hdb _ _ Hn)) as [_ S1]. destruct (xk_name _ _ _ (do_indexes _ Hdb _ _ Hj)) as [N2 S2]. rewrite N2 in Hk'.
      assert (n = n') as -> by (by apply (index_catalog_key_inj _ _ k)). congruence.
    + destruct H as (id' & ident & values & Hr & Hk & Hb). rewrite rows_remove in Hr. case_decide; [by rewrite lookup_empty in Hr|].
      split; [eauto 10|]. by rewrite (row_prefix_covers id id' ident) by (done || by eapply rows_id).
    + destruct H as (id' & ident & values & p & Hr & Hsl & Hk & Hb). rewrite rows_remove in Hr. case_decide; [by rewrite lookup_empty in Hr|].
      split; [exists id', ident, values, p; by rewrite <- slot_of_remove|]. by rewrite (unique_prefix_covers id id' values b p) by (done || by eapply rows_id).
    + destruct H as (id' & ident & values & i & Hr & Hsl & Hk & Hb). rewrite rows_remove in Hr. case_decide; [by rewrite lookup_empty in Hr|].
      apply slot_of_remove in Hsl; [|done]. split; [by exists id', ident, values, i|]. intros (j & (n & Hj & Ej)%Hl & Hp). destruct Hsl as (n' & Hi & Ei).
      rewrite (entry_prefix_covers (x_id j) id' values b i) in Hp; [|by apply (xk_id _ _ _ (do_indexes _ Hdb _ _ Hj))|by apply (xk_id _ _ _ (do_indexes _ Hdb _ _ Hi))|done].
      rewrite (index_unique_id db Hdb _ _ _ _ Hi Hj Hp) in Ei. congruence.
    + by split; [|tauto].
    + by split; [|tauto].
  - intros [H Hc]. destruct (entry_at_shape _ _ _ _ H) as [x Hx]. rewrite (covered_kind _ _ _ Hx) in Hc. destruct kind; cbn [entry_at] in *.
    + destruct H as (n & t & Hn & Hk & Hb). exists n, t. split; [|done]. apply lookup_remove. split; [|done]. intros E. apply Hc. by rewrite E.
    + destruct H as (n & i & Hn & Hk & Hb). exists n, i. split; [|done]. apply index_remove. split; [done|]. intros E. apply Hc. exists i. split; [apply Hl; eauto|].
      by destruct (xk_name _ _ _ (do_indexes _ Hdb _ _ Hn)) as [-> _].
    + destruct H as (id' & ident & values & Hr & Hk & Hb). rewrite (row_prefix_covers id id' ident) in Hc by (done || by eapply rows_id).
      exists id', ident, values. split; [|done]. by rewrite rows_remove, decide_False.
    + destruct H as (id' & ident & values & p & Hr & Hsl & Hk & Hb). rewrite (unique_prefix_covers id id' values b p) in Hc by (done || by eapply rows_id).
      exists id', ident, values, p. rewrite rows_remove, decide_False by done. split_and!; try done. by apply slot_of_remove.
    + destruct H as (id' & ident & values & i & Hr & Hsl & Hk & Hb). assert (id' <> id) as Hne.
      { intros ->. destruct Hsl as (n & Hi & Ei). apply Hc. exists i. split; [apply Hl; eauto|]. pose proof (xk_id _ _ _ (do_indexes _ Hdb _ _ Hi)) as [? _].
        by rewrite (entry_prefix_covers (x_id i) id values b i). }
      exists id', ident, values, i. rewrite rows_remove, decide_False by done. split_and!; try done. by apply slot_of_remove.
    + done.
    + done.
Qed.

Lemma rep_remove_table m' : (forall k b, m' !! k = Some b <-> m !! k = Some b /\ ~ covered l k) -> represents m' db'.
Proof. intros Hm k b. rewrite Hm, (Hrep k b), !entry_kinds. setoid_rewrite entry_at_remove. naive_solver. Qed.
End Covered.
End DropTable.

Section Statements.
Context {SD : Serde} {SL : SerdeLaws} (db : Db) (m : KvMap) (Hdb : db_ok db) (Hrep : represents m db).

(** Loading indexes depends on the index catalog only. *)
Lemma load_table_indexes_ext id m' : (forall k b, index_catalog_prefix `prefix_of` k -> m' !! k = Some b <-> m !! k = Some b) ->
  exists l, load_table_indexes id m' = (Ok l, m') /\ forall i, i ∈ l <-> exists n, d_indexes db !! n = Some i /\ x_table_id i = id.
Proof.
  intros Hext. destruct (load_table_indexes_rep db m Hdb Hrep id) as (l & Hrun & Hl). exists l. split; [|done]. revert Hrun. unfold load_table_indexes.
  rewrite !run_scan, (map_scan_ext _ _ _ Hext), !run_lift_bind. by case_match; [intros [= <-]|].
Qed.

(** DROP TABLE removes the table with its rows and its indexes. *)
Lemma execute_drop_table_ok (d : DropTable) (out : StatementOutput) (m' : KvMap) : is_str (id_value (dt_name d)) -> execute_drop_table d m = (Ok out, m') ->
  out = OCommand "DROP TABLE" 0 /\
  match d_tables db !! id_value (dt_name d) with
  | None => dt_if_exists d = true /\ m' = m
  | Some s => let db' := remove_table (id_value (dt_name d)) (t_table_id s) db in db_ok db' /\ represents m' db'
  end.
Proof.
  intros Hstr. unfold execute_drop_table. intros (key & Hkey & H)%run_lift. rewrite run_get in H.
  pose proof (lookup_table db m _ key Hdb Hrep Hstr Hkey) as Hlook. destruct (d_tables db !! id_value (dt_name d)) as [s|] eqn:Es.
  2: { rewrite Hlook in H. destruct (dt_if_exists d); [|done]. by injection H as <- <-. }
  destruct Hlook as (b & Hb & Hm). rewrite Hm in H. apply run_lift in H as (s' & Hs' & H).
  pose proof (do_tables _ Hdb _ _ Es) as Htok. rewrite (decode_schema_encoded s b (tk_version _ _ _ Htok) Hb) in Hs'. injection Hs' as <-.
  destruct (tk_name _ _ _ Htok) as [Hname _]. rewrite <- Hname in *.
  apply ST_bind_Ok in H as ([] & m1 & H1 & H). pose proof (delete_prefix_run _ _ _ H1) as L1.
  apply ST_bind_Ok in H as ([] & m2 & H2 & H). pose proof (delete_prefix_run _ _ _ H2) as L2.
  destruct (load_table_indexes_ext (t_table_id s) m2) as (l & Hrun & Hl).
  { intros k v [x ->]. rewrite L2, L1. split; [tauto|]. intros Hk. split; [split; [done|]|]; intros Hp; [by apply (kinds_prefix KRow KIndex) in Hp as [? _]|by apply (kinds_prefix KUnique KIndex) in Hp as [? _]]. }
  rewrite (ST_bind_step _ _ _ _ _ Hrun) in H. apply ST_bind_Ok in H as ([] & m3 & H3 & H). pose proof (drop_indexes_run _ _ _ H3) as L3.
  apply ST_bind_Ok in H as ([] & m4 & H4%run_delete & [= <- <-]). subst m4. split; [done|]. cbn zeta. split; [by apply db_ok_remove_table|].
  apply (rep_remove_table db m Hdb Hrep s Es l Hl). intros k v. rewrite lookup_delete_Some, L3, L2, L1. unfold covered. split.
  - intros [Hne [[[Hk Hr] Hu] Hall]]. split; [done|]. intros [?|[?|[?|(i & Hi & [?|?])]]]; try done; [congruence|destruct (Hall i Hi); tauto..].
  - intros [Hk Hc]. split_and!; [|done|tauto|tauto|]; [intros ->; tauto|]. intros i Hi. split; intros ?; apply Hc; do 3 right; eauto.
Qed.

(** ** DROP INDEX *)

Section DropIndex.
Context (i : IndexSchema) (Hi : d_indexes db !! x_name i = Some i).
Let db' := remove_index (x_name i) db.

Lemma index_gone n j : d_indexes db' !! n = Some j <-> x_name i <> n /\ d_indexes db !! n = Some j.
Proof. unfold db', remove_index. cbn. by rewrite lookup_delete_Some. Qed.

Lemma slot_of_gone id sl : slot_of db' id sl <-> slot_of db id sl /\ sl <> SlotIndex i.
Proof.
  destruct sl as [p|j]; cbn [slot_of]; [split; [by intros H|by intros [H _]]|]. setoid_rewrite index_gone. split.
  - intros (n & [Hne Hn] & <-). split; [eauto|]. intros [= ->]. by destruct (xk_name _ _ _ (do_indexes _ Hdb _ _ Hn)) as [? _].
  - intros [(n & Hn & <-) Hne]. exists n. split_and!; [|done|done]. intros <-. congruence.
Qed.

Lemma db_ok_remove_index : db_ok db'.
Proof.
  split; [|apply Hdb..| | |apply Hdb|].
  - intros n s Hs. destruct (do_tables _ Hdb _ _ Hs). by split.
  - intros n j [_ Hj]%index_gone. destruct (do_indexes _ Hdb _ _ Hj). by split.
  - intros n1 i1 n2 i2 [_ H1]%index_gone [_ H2]%index_gone. by apply (do_index_ids _ Hdb).
  - intros id ident values Hr. destruct (do_rows _ Hdb _ _ _ Hr) as (t & Ht & Hrow). exists t. split; [done|]. apply (row_ok_slots db); [|done]. by intros sl [? _]%slot_of_gone.
Qed.

Lemma rep_remove_index key m' : index_catalog_key (x_name i) = Ok key ->
  (forall k b, m' !! k = Some b <-> m !! k = Some b /\ ~ index_entry_prefix (x_id i) `prefix_of` k /\ k <> key) -> represents m' db'.
Proof.
  intros Hkey Hm. destruct (index_catalog_key_shape _ _ Hkey) as [Hshape _]. pose proof (do_indexes _ Hdb _ _ Hi) as Hiok. apply rep_by_kind.
  { intros k b [Hk _]%Hm. by eapply rep_kind. }
  intros kind k b x Hx. rewrite Hm, (rep_at m db kind k b x Hrep Hx).
  assert (kind <> KEntry -> ~ index_entry_prefix (x_id i) `prefix_of` k) as H1 by (intros Hne Hp; subst k; by apply (kinds_prefix KEntry) in Hp as [<- _]).
  assert (kind <> KIndex -> k <> key) as H2 by (intros Hne ->; rewrite Hshape in Hx; by apply kinds_apart in Hx as [<- _]).
  destruct kind; cbn [entry_at]; try (split; [by intros [? _]|intros H; split; [done|split; by auto]]).
  - split.
    + intros [(n & j & Hj & Hk & Hb) [_ Hne]]. exists n, j. split; [|done]. apply index_gone. split; [|done]. intros <-. congruence.
    + intros (n & j & [Hne Hj]%index_gone & Hk & Hb). split; [eauto|]. split; [by auto|]. intros ->. apply Hne.
      apply (index_catalog_key_inj _ _ key); [by apply (xk_name _ _ _ Hiok)|by apply (xk_name _ _ _ (do_indexes _ Hdb _ _ Hj))|done|done].
  - assert (forall id ident values j, slot_of db id (SlotIndex j) -> slot_key id values b (SlotIndex j) = Ok (Some k) -> index_entry_prefix (x_id i) `prefix_of` k <-> j = i) as Hcov.
    { intros id ident values j (n & Hj & _) Hk. pose proof (xk_id _ _ _ Hiok) as [? _]. pose proof (xk_id _ _ _ (do_indexes _ Hdb _ _ Hj)) as [? _].
      rewrite (entry_prefix_covers (x_id i) id values b j) by done. split; [by apply (index_unique_id db Hdb _ _ _ _ Hj Hi)|by intros ->]. }
    split.
    + intros [(id & ident & values & j & Hr & Hsl & Hk & Hb) [Hp _]]. exists id, ident, values, j. split_and!; try done. apply slot_of_gone. split; [done|]. intros [= ->]. apply Hp. by eapply Hcov.
    + intros (id & ident & values & j & Hr & [Hsl Hne]%slot_of_gone & Hk & Hb). split; [by exists id, ident, values, j|]. split; [|by auto].
      rewrite (Hcov id ident values j) by done. congruence.
Qed.
End DropIndex.

(** What a represented map holds under an index's key. *)
Lemma lookup_index name k : is_str name -> index_catalog_key name = Ok k ->
  match d_indexes db !! name with Some i => exists b, encode_index i = Ok b /\ m !! k = Some b | None => m !! k = None end.
Proof.
  intros Hstr Hk. destruct (index_catalog_key_shape _ _ Hk) as [Hshape _]. destruct (d_indexes db !! name) as [i|] eqn:Ei.
  - destruct (encode_index_ok i) as [b Hb]. exists b. split; [done|]. eapply (rep_at _ _ KIndex _ _ _ Hrep Hshape). cbn. eauto.
  - destruct (m !! k) as [b|] eqn:E; [|done]. apply (rep_at _ _ KIndex _ _ _ Hrep Hshape) in E as (n & i & Hi & Hn & _).
    assert (n = name) as -> by (apply (index_catalog_key_inj _ _ k); [by apply (xk_name _ _ _ (do_indexes _ Hdb _ _ Hi))|done..]). congruence.
Qed.

Lemma execute_drop_index_ok (d : DropIndex) (out : StatementOutput) (m' : KvMap) : is_str (id_value (di_name d)) -> execute_drop_index d m = (Ok out, m') ->
  out = OCommand "DROP INDEX" 0 /\
  match d_indexes db !! id_value (di_name d) with
  | None => di_if_exists d = true /\ m' = m
  | Some i => let db' := remove_index (id_value (di_name d)) db in db_ok db' /\ represents m' db'
  end.
Proof.
  intros Hstr. unfold execute_drop_index. intros (key & Hkey & H)%run_lift. rewrite run_get in H.
  pose proof (lookup_index _ key Hstr Hkey) as Hlook. destruct (d_indexes db !! id_value (di_name d)) as [i|] eqn:Ei.
  2: { rewrite Hlook in H. destruct (di_if_exists d); [|done]. by injection H as <- <-. }
  destruct Hlook as (b & Hb & Hm). rewrite Hm in H. apply run_lift in H as (j & Hj & H). pose proof (do_indexes _ Hdb _ _ Ei) as Hiok.
  rewrite (decode_index_encoded i b (xk_version _ _ _ Hiok) Hb) in Hj. injection Hj as <-. destruct (xk_name _ _ _ Hiok) as [Hname _]. rewrite <- Hname in *.
  apply ST_bind_Ok in H as ([] & m1 & H1 & H). apply ST_bind_Ok in H as ([] & m2 & H2%run_delete & [= <- <-]). subst m2. split; [done|]. cbn zeta.
  split; [by apply db_ok_remove_index|]. apply (rep_remove_index i Ei key); [done|]. intros k v. rewrite lookup_delete_Some, (delete_prefix_run _ _ _ H1). intuition congruence.
Qed.
End Statements.
