(* ===== verification/DbIndex.v ===== *)
(** * CREATE INDEX

    A new index gets an entry for every row of its table whose indexed values
    are not NULL; a unique one only when no two rows agree on them. *)
From S2P Require Import Prelude Order Token F64 Ast Utf8 Record Schema Expression Codec Engine CodecFacts KvSim Database DbRows DbOps DbWrite DbAccess DbDelete DbCatalog.
Local Open Scope Z_scope.

Implicit Types (m : KvMap) (k b rk : list byte) (values : list Value) (s : TableSchema) (i : IndexSchema) (id : Z) (p : nat) (c : ColumnSchema) (ident : identity) (db : Db).

Definition add_index (i : IndexSchema) (following : Z) (db : Db) : Db :=
  mkDb (d_tables db) (<[x_name i := i]> (d_indexes db)) (d_rows db) (d_table_counter db) (Some following).

(** ** The loop over the rows *)

Section Loop.
Context {SD : Serde} (id : Z) (i : IndexSchema).

Definition indexes_row (found : list (list byte * list byte)) k rk : Prop :=
  exists values bytes, (rk, bytes) ∈ found /\ decode_row bytes = Ok values /\ slot_key id values rk (SlotIndex i) = Ok (Some k).

Lemma indexes_row_cons x found values k rk : decode_row x.2 = Ok values ->
  indexes_row (x :: found) k rk <-> (rk = x.1 /\ slot_key id values x.1 (SlotIndex i) = Ok (Some k)) \/ indexes_row found k rk.
Proof.
  destruct x as [rk0 bytes0]. cbn [fst snd]. intros Hd. unfold indexes_row. split.
  - intros (v & b & [[= -> ->]|Hin]%elem_of_cons & Hv & Hk); [left; split; [done|congruence]|right; eauto].
  - intros [[-> Hk]|(v & b & Hin & Hv & Hk)]; [exists values, bytes0|exists v, b]; (split_and!; [|done|done]); [by left|by right].
Qed.

(** Unless the index is unique, the key names the row. *)
Lemma index_key_row v1 v2 rk1 rk2 k : x_unique i = false -> slot_key id v1 rk1 (SlotIndex i) = Ok (Some k) -> slot_key id v2 rk2 (SlotIndex i) = Ok (Some k) -> rk1 = rk2.
Proof.
  intros Hu (sel & Hs & (xs & -> & F1 & L1 & R1)%index_entry_key_shape)%slot_key_index (sel' & Hs' & (ys & Heq & F2 & L2 & R2)%index_entry_key_shape)%slot_key_index.
  apply kinds_apart in Heq as [_ Heq]. apply app_inv_head in Heq. apply indexed_values_length in Hs, Hs'. apply Forall2_length in F1, F2.
  apply delimited_all_inj in Heq as [_ Heq]; [|congruence|done|done]. unfold index_tail in Heq. rewrite Hu in Heq.
  apply (delimited_inj _ _ [] []); [auto|auto|]. rewrite !app_nil_r. exact Heq.
Qed.

Lemma index_rows_loop (found : list (list byte * list byte)) m m' : for_each found (index_existing_row i) m = (Ok tt, m') ->
  (forall rk bytes values, (rk, bytes) ∈ found -> decode_row bytes = Ok values -> is_ok (slot_key id values rk (SlotIndex i)) = true) /\
  (forall k b, m' !! k = Some b <-> indexes_row found k b \/ (m !! k = Some b /\ forall rk, ~ indexes_row found k rk)) /\
  (x_unique i = true -> forall k rk, indexes_row found k rk -> m !! k = None).
Proof.
  revert m. induction found as [|x found IH]; intros m; cbn [for_each].
  { intros [= <-]. assert (forall k rk, ~ indexes_row [] k rk) as Hno by (intros k rk (v & b & Hin & _); by apply not_elem_of_nil in Hin). split_and!.
    - intros rk bytes values Hin. by apply not_elem_of_nil in Hin.
    - intros k b. split; [by right; auto|intros [H|[H _]]; [by apply Hno in H|done]].
    - intros _ k rk H. by apply Hno in H. }
  intros ([] & m1 & H1 & H2)%ST_bind_Ok. destruct (IH _ H2) as (Iok & Ilook & Iun). unfold index_existing_row in H1. apply run_lift in H1 as (values & Hd & H1).
  apply (add_claims id) in H1. destruct (claims_spec _ _ _ _ _ _ H1) as (Cok & Clook & Cun).
  assert (forall k, slots_use id values x.1 [SlotIndex i] k <-> slot_key id values x.1 (SlotIndex i) = Ok (Some k)) as Huse.
  { intros k. rewrite slots_use_cons. split; [intros [?|H]; [done|by apply slots_use_nil in H]|by left]. }
  assert (forall k, slot_key id values x.1 (SlotIndex i) = Ok (Some k) \/ slot_key id values x.1 (SlotIndex i) <> Ok (Some k)) as Hdec.
  { intros k. rewrite <- Huse. destruct (decide (slots_use id values x.1 [SlotIndex i] k)); tauto. }
  cbn [fmap list_fmap] in *. split_and!.
  - intros rk bytes v [<-|Hin]%elem_of_cons Hv; [|by eapply Iok]. cbn [fst snd] in *. replace v with values by congruence. apply Cok. by left.
  - intros k b. setoid_rewrite (indexes_row_cons x found values k _ Hd).
    assert (forall rk, indexes_row found k rk -> slot_key id values x.1 (SlotIndex i) = Ok (Some k) -> rk = x.1) as Hsame.
    { intros rk Hrk Hk. destruct (x_unique i) eqn:Hu.
      - specialize (Iun eq_refl k rk Hrk). assert (m1 !! k = Some x.1) by (apply Clook; left; by rewrite Huse). congruence.
      - destruct Hrk as (v & bytes & _ & _ & Hk'). by apply (index_key_row v values rk x.1 k). }
    destruct (Hdec k) as [Hk|Hk].
    + assert (m1 !! k = Some x.1) as Hm1 by (apply Clook; left; by rewrite Huse). split.
      * intros [H|[H _]]%Ilook; [by left; right|]. left. left. split; [congruence|done].
      * intros [[[-> _]|H]|[_ H]]; [|apply Ilook; by left|exfalso; by apply (H x.1); left]. destruct (decide (m' !! k = Some x.1)) as [|Hno]; [done|]. apply Ilook. right.
        split; [done|]. intros rk Hrk. apply Hno, Ilook. left. by rewrite <- (Hsame rk Hrk Hk).
    + assert (m1 !! k = Some b <-> m !! k = Some b) as Hm1 by (rewrite Clook, Huse; tauto). rewrite Ilook, Hm1. split.
      * intros [H|[H Hno]]; [left; by right|right]. split; [done|]. intros rk [[_ ?]|?]; [done|by eapply Hno].
      * intros [[[_ ?]|H]|[H Hno]]; [done|by left|right]. split; [done|]. intros rk Hrk. apply (Hno rk). by right.
  - intros Hu k rk [[-> Hk]|Hrk]%(indexes_row_cons x found values k rk Hd); [by apply (Cun (SlotIndex i)); [left| |]|].
    specialize (Iun Hu k rk Hrk). destruct (m !! k) as [b|] eqn:E; [|done]. destruct (Hdec k) as [Hk|Hk].
    + assert (m1 !! k = Some x.1) by (apply Clook; left; by rewrite Huse). congruence.
    + assert (m1 !! k = Some b) by (apply Clook; right; by rewrite Huse). congruence.
Qed.
End Loop.

Lemma position_lt {A} (f : A -> bool) (l : list A) p : position f l = Some p -> (p < length l)%nat.
Proof.
  revert p. induction l as [|x l IH]; intros p; cbn; [done|]. destruct (f x); [intros [= <-]; lia|]. destruct (position f l) as [q|]; [|done].
  intros [= <-]. specialize (IH q eq_refl). lia.
Qed.

Lemma index_columns_bound s (columns : list nat) (names : list Identifier) ps : Forall (fun p => (p < length (t_columns s))%nat) columns ->
  index_columns s columns names = Ok ps -> Forall (fun p => (p < length (t_columns s))%nat) ps.
Proof.
  revert columns. induction names as [|n names IH]; intros columns Hc; cbn [index_columns]; [by intros [= <-]|].
  intros (p & Hp & H)%bind_Ok. destruct (column_position s (id_value n)) as [q|] eqn:E; [|done]. injection Hp as ->. case_bool_decide; [done|].
  apply IH in H; [done|]. apply Forall_app. split; [done|]. constructor; [|done]. by eapply position_lt.
Qed.

Section CreateIndex.
Context {SD : Serde} {SL : SerdeLaws} (db : Db) (m : KvMap) (Hdb : db_ok db) (Hrep : represents m db) (Hex : rows_exact db).
Context (s : TableSchema) (Hs : table_with db (t_table_id s) s) (i : IndexSchema) (Htable : x_table_id i = t_table_id s)
  (Hfree : d_indexes db !! x_name i = None) (Hid : x_id i = default 1 (d_index_counter db)) (Hmax : 1 <= x_id i < U64_MAX)
  (Hstr : is_str (x_name i)) (Hversion : x_format_version i = 1) (Hcols : Forall (fun p => (p < length (t_columns s))%nat) (x_columns i)).
Let db' := add_index i (x_id i + 1) db.
Context (key bytes : list byte) (Hkey : index_catalog_key (x_name i) = Ok key) (Hbytes : encode_index i = Ok bytes).
Let m1 := <[key := bytes]> (<[index_id_counter_key := encode_u64 (x_id i + 1)]> m).
Let found := map_scan (row_prefix (t_table_id s)) m.

Lemma index_add n j : d_indexes db' !! n = Some j <-> (x_name i = n /\ i = j) \/ (x_name i <> n /\ d_indexes db !! n = Some j).
Proof. unfold db', add_index. cbn. by rewrite lookup_insert_Some. Qed.

Lemma slot_of_index id sl : slot_of db' id sl <-> slot_of db id sl \/ (sl = SlotIndex i /\ id = t_table_id s).
Proof.
  destruct sl as [p|j]; cbn [slot_of]; [split; [by left|by intros [?|[? _]]]|]. setoid_rewrite index_add. split.
  - intros (n & [[<- <-]|[Hne Hn]] & <-); [by right|left; eauto].
  - intros [(n & Hn & <-)|[[= ->] ->]]; [|exists (x_name i); split; [by left|done]]. exists n. split; [|done]. right. split; [congruence|done].
Qed.

(** The rows in the scan. *)
Lemma found_rows k rk : indexes_row (t_table_id s) i found k rk <->
  exists ident values, rows_of db (t_table_id s) !! ident = Some values /\ row_key (t_table_id s) ident = Ok rk /\ slot_key (t_table_id s) values rk (SlotIndex i) = Ok (Some k).
Proof.
  destruct (scan_rows db m Hdb Hrep (t_table_id s) (table_with_id db Hdb _ _ Hs) Hex) as (rows & Hrows & _ & Hlist). fold found in Hrows. split.
  - intros (values & b & Hin & Hd & Hk). assert ((rk, values) ∈ rows) as (ident & Hr & Hrk)%Hlist; [|eauto].
    apply (try_map_elem _ _ _ _ Hrows). exists (rk, b). split; [done|]. unfold decode_entry. cbn. by rewrite Hd.
  - intros (ident & values & Hr & Hrk & Hk). assert ((rk, values) ∈ rows) as Hin by (apply Hlist; eauto).
    apply (try_map_elem _ _ _ _ Hrows) in Hin as ([rk' b] & Hin & Hd). unfold decode_entry in Hd. cbn [fst snd] in Hd.
    apply bind_Ok in Hd as (v & Hv & [= -> ->]). by exists values, b.
Qed.

Lemma rep_add_index m' : (forall k b, m' !! k = Some b <-> indexes_row (t_table_id s) i found k b \/ (m1 !! k = Some b /\ forall rk, ~ indexes_row (t_table_id s) i found k rk)) -> represents m' db'.
Proof.
  intros Hm. destruct (index_catalog_key_shape _ _ Hkey) as [Hshape _].
  assert (forall k rk, indexes_row (t_table_id s) i found k rk -> exists x, k = kind_prefix KEntry ++ x) as Hentry by (intros k rk (v & b & _ & _ & Hk); by apply slot_key_kind in Hk).
  apply rep_by_kind.
  { intros k b [H|[[[<- _]|[_ [[<- _]|[_ H]]%lookup_insert_Some]]%lookup_insert_Some _]]%Hm; [apply Hentry in H as [x ->]; eauto|eauto|exists KIndexCounter, []; by rewrite app_nil_r|by eapply rep_kind]. }
  intros kind k b x Hx. assert (kind <> KEntry -> forall rk, ~ indexes_row (t_table_id s) i found k rk) as Hno.
  { intros Hne rk [y Hy]%Hentry. rewrite Hx in Hy. by apply kinds_apart in Hy as [? _]. }
  assert (kind <> KIndexCounter -> index_id_counter_key <> k) as Hc.
  { intros Hne E. rewrite <- (app_nil_r index_id_counter_key), Hx in E. by apply (kinds_apart KIndexCounter kind) in E as [? _]. }
  assert (kind <> KIndex -> key <> k) as Ht by (intros Hne E; rewrite Hshape, Hx in E; by apply kinds_apart in E as [? _]).
  pose proof (rep_at m db kind k b x Hrep Hx) as Hold.
  destruct kind; rewrite Hm; unfold m1; [| | | | | |];
    try (assert (forall P Q, P <-> Q -> (indexes_row (t_table_id s) i found k b \/ (P /\ forall rk, ~ indexes_row (t_table_id s) i found k rk)) <-> Q) as Hskip by (intros P Q HPQ; pose proof (Hno ltac:(done)) as Hn; specialize (Hn b) as Hnb; tauto));
    try (apply Hskip; rewrite !lookup_insert_ne by (by auto); by rewrite Hold).
  - apply Hskip. rewrite lookup_insert_Some. cbn [entry_at]. split.
    + intros [[<- <-]|[Hne H]]; [exists (x_name i), i; split; [apply index_add; by left|done]|]. rewrite lookup_insert_ne in H by (by auto).
      apply Hold in H as (n & j & Hj & Hk & Hb). exists n, j. split; [|done]. apply index_add. right. split; [congruence|done].
    + intros (n & j & [[<- <-]|[Hne Hj]]%index_add & Hk & Hb); [left; split; congruence|right]. rewrite lookup_insert_ne by (by auto). split; [|apply Hold; cbn; eauto].
      intros <-. apply Hne. apply (index_catalog_key_inj _ _ key); [done|by apply (xk_name _ _ _ (do_indexes _ Hdb _ _ Hj))|done|done].
  - rewrite !lookup_insert_ne by (by auto). rewrite Hold. setoid_rewrite found_rows. cbn [entry_at]. setoid_rewrite slot_of_index. split.
    + intros [(ident & values & Hr & Hrk & Hk)|[(id & ident & values & j & Hr & Hsl & Hrk & Hk) _]]; [exists (t_table_id s), ident, values, i|exists id, ident, values, j]; (split_and!; [done| |done|done]); [by right|by left].
    + intros (id & ident & values & j & Hr & [Hsl|[[= ->] ->]] & Hrk & Hk); [right|left; eauto 10]. split; [by exists id, ident, values, j|].
      intros rk (ident' & values' & _ & _ & Hk'). destruct Hsl as (n & Hj & <-). pose proof (xk_id _ _ _ (do_indexes _ Hdb _ _ Hj)) as [Hu Hlt].
      assert (is_u64 (x_id i)) as Hui by (unfold is_u64; lia). assert (x_id j = x_id i) by (apply (entry_prefix_covers (x_id i) (x_table_id j) values b j k); [done|done|done|]; by apply (entry_prefix_covers (x_id i) (t_table_id s) values' rk i k)).
      lia.
  - apply Hskip. rewrite lookup_insert_ne, lookup_insert_Some by (by auto). cbn [entry_at]. split.
    + intros [[<- <-]|[Hne H]]; [split; [done|]; by eexists|]. exfalso. apply Hne. symmetry. by apply Hold in H as [? _].
    + intros [-> (n & [= <-] & ->)]. by left.
Qed.

Lemma db_ok_add_index : (forall ident values rk, rows_of db (t_table_id s) !! ident = Some values -> row_key (t_table_id s) ident = Ok rk ->
  is_ok (slot_key (t_table_id s) values rk (SlotIndex i)) = true) -> db_ok db'.
Proof.
  intros Hslots. split.
  - intros n t Ht. destruct (do_tables _ Hdb _ _ Ht). by split.
  - apply (do_table_ids _ Hdb).
  - apply (do_table_counter _ Hdb).
  - intros n j [[<- <-]|[_ Hj]]%index_add.
    + split; [done|by rewrite Hkey|done|split; [unfold is_u64; lia|cbn; lia]|]. exists s. by rewrite Htable.
    + destruct (do_indexes _ Hdb _ _ Hj) as [? ? ? [? ?] ?]. split; try done. cbn. split; [done|lia].
  - assert (forall n j, d_indexes db !! n = Some j -> x_id j <> x_id i) as Hlt.
    { intros n j Hj ?. pose proof (xk_id _ _ _ (do_indexes _ Hdb _ _ Hj)). lia. }
    intros n1 i1 n2 i2 [[<- <-]|[_ H1]]%index_add [[<- <-]|[_ H2]]%index_add E; [done|by apply Hlt in H2|by apply Hlt in H1|].
    by apply (do_index_ids _ Hdb n1 i1 n2 i2).
  - intros n [= <-]. lia.
  - intros id ident values Hr. destruct (do_rows _ Hdb _ _ _ Hr) as (t & Ht & [? ? ? Hrk ? Hsl]). exists t. split; [done|]. split; try done.
    pose proof Ht as (_ & _ & E). intros sl k [Hold|[-> Hnew]]%slot_of_index Hk; [by apply Hsl|]. rewrite Hnew in E, Hk |- *. subst id. by apply (Hslots ident).
Qed.
End CreateIndex.

Section CreateIndexStatement.
Context {SD : Serde} {SL : SerdeLaws} (db : Db) (m : KvMap) (Hdb : db_ok db) (Hrep : represents m db) (Hex : rows_exact db).

(** CREATE INDEX adds the index with a fresh ID, over the rows as they are. *)
Lemma execute_create_index_ok (c : CreateIndex) (out : StatementOutput) (m' : KvMap) : is_str (id_value (ci_name c)) -> is_str (id_value (ci_table c)) ->
  execute_create_index c m = (Ok out, m') ->
  out = OCommand "CREATE INDEX" 0 /\
  match d_indexes db !! id_value (ci_name c) with
  | Some _ => ci_if_not_exists c = true /\ m' = m
  | None => exists s columns, d_tables db !! id_value (ci_table c) = Some s /\ index_columns s [] (ci_columns c) = Ok columns /\
      let n := default 1 (d_index_counter db) in
      let db' := add_index (mkIndexSchema 1 n (id_value (ci_name c)) (t_table_id s) columns (ci_unique c)) (n + 1) db in
      db_ok db' /\ represents m' db'
  end.
Proof.
  intros Hstr Htstr. unfold execute_create_index. intros (key & Hkey & H)%run_lift. rewrite run_get in H.
  pose proof (lookup_index db m Hdb Hrep _ key Hstr Hkey) as Hlook. destruct (d_indexes db !! id_value (ci_name c)) as [i0|] eqn:Ei.
  { destruct Hlook as (b & _ & Hm). rewrite Hm in H. destruct (ci_if_not_exists c); [|done]. by injection H as <- <-. }
  rewrite Hlook in H. apply ST_bind_Ok in H as (s & m0 & Hload & H). destruct (load_schema_inv db m Hdb Hrep _ _ _ Htstr Hload) as (-> & Hn & Hs).
  apply run_lift in H as (columns & Hcolumns & H). apply ST_bind_Ok in H as (ids & m1 & Hnext & H).
  destruct (next_id_run m KIndexCounter (d_index_counter db) _ _ _ (counter_at db m Hrep KIndexCounter (d_index_counter db) (fun k b => iff_refl _)) (do_index_counter _ Hdb) Hnext) as (-> & -> & Hid).
  cbn [fst snd] in H. set (n := default 1 (d_index_counter db)) in *. set (i := mkIndexSchema 1 n (id_value (ci_name c)) (t_table_id s) columns (ci_unique c)) in *.
  apply ST_bind_Ok in H as ([] & m2 & H2%run_put & H). apply run_lift in H as (b & Hb & H). apply ST_bind_Ok in H as ([] & m3 & H3%run_put & H). rewrite run_scan in H.
  apply ST_bind_Ok in H as ([] & m4 & Hloop & [= <- <-]). split; [done|]. exists s, columns. do 2 (split; [done|]). cbn zeta. fold n i.
  assert (map_scan (row_prefix (t_table_id s)) m3 = map_scan (row_prefix (t_table_id s)) m) as Hscan.
  { apply map_scan_ext. intros k v [x ->]. subst m3 m2. unfold row_prefix. rewrite <- app_assoc. change ROW_PREFIX with (kind_prefix KRow).
    destruct (index_catalog_key_shape _ _ Hkey) as [Hshape _]. rewrite !lookup_insert_ne; [done| |].
    - intros E. rewrite <- (app_nil_r index_id_counter_key) in E. by apply (kinds_apart KIndexCounter KRow) in E as [? _].
    - intros E. rewrite Hshape in E. by apply kinds_apart in E as [? _]. }
  rewrite Hscan in Hloop. destruct (index_rows_loop (t_table_id s) i _ _ _ Hloop) as (Lok & Llook & _). subst m3 m2.
  pose proof (index_columns_bound s [] _ _ (Forall_nil_2 _) Hcolumns) as Hbound. split.
  - eapply (db_ok_add_index db Hdb s Hs i); try done. intros ident values rk Hr Hrk.
    destruct (do_rows _ Hdb _ _ _ Hr) as (t & Ht & Hrow). destruct (rk_encoded _ _ _ _ Hrow) as [bytes Hbytes]. apply (Lok rk bytes).
    + apply elem_of_map_scan. split; [by eapply (row_lookup db m Hrep)|]. by eapply (row_prefix_covers (t_table_id s) (t_table_id s) ident); [eapply (table_with_id db Hdb)..|exact Hrk|].
    + by apply decode_row_encoded; [apply (Hex _ _ _ Hr)|].
  - by eapply (rep_add_index db m Hdb Hrep Hex s Hs i).
Qed.
End CreateIndexStatement.
