(* ===== verification/DbSelect.v ===== *)
(** * SELECT

    A query answers with the projections of the selected rows, in the order
    asked for and cut at the limit, and every value of the answer has the type
    of its column. *)
From S2P Require Import Prelude Order Token F64 Ast Utf8 Record Schema Expression Codec Engine CodecFacts KvSim Database DbRows DbOps DbWrite DbAccess DbDelete.
Local Open Scope Z_scope.

Implicit Types (m : KvMap) (values : list Value) (s : TableSchema) (db : Db) (q : Select).

(** ** Sorting by a comparison *)

(** A total preorder, given by its comparison, on the elements of [P]. *)
Record preorder_cmp {A} (P : A -> Prop) (cmp : A -> A -> comparison) : Prop := {
  pc_opp : forall a b, P a -> P b -> cmp b a = CompOpp (cmp a b);
  pc_eq : forall a b c, P a -> P b -> P c -> cmp a b = Eq -> cmp a c = cmp b c;
  pc_lt : forall a b c, P a -> P b -> P c -> cmp a b = Lt -> cmp b c = Lt -> cmp a c = Lt;
}.

Lemma pc_le_trans {A} (P : A -> Prop) cmp a b c : preorder_cmp P cmp -> P a -> P b -> P c -> cmp a b <> Gt -> cmp b c <> Gt -> cmp a c <> Gt.
Proof.
  intros [Hopp Heq Hlt] Ha Hb Hc Hab Hbc. destruct (cmp a b) eqn:E1; [by rewrite (Heq a b c)| |done].
  destruct (cmp b c) eqn:E2; [|by rewrite (Hlt a b c)|done]. pose proof (Hopp b c Hb Hc) as E3. rewrite E2 in E3. cbn in E3.
  pose proof (Heq c b a Hc Hb Ha E3) as E4. rewrite (Hopp a c), (Hopp a b), E1 in E4 by done. by destruct (cmp a c).
Qed.

Lemma sort_insert_perm {A} cmp (x : A) l : sort_insert cmp x l ≡ₚ x :: l.
Proof. induction l as [|y l IH]; cbn; [done|]. destruct (cmp x y); try done. rewrite IH. constructor. Qed.

Lemma sort_by_perm {A} (cmp : A -> A -> comparison) l : sort_by cmp l ≡ₚ l.
Proof. induction l as [|x l IH]; cbn; [done|]. by rewrite sort_insert_perm, IH. Qed.

Lemma sort_by_sorted {A} (P : A -> Prop) cmp l : preorder_cmp P cmp -> Forall P l -> StronglySorted (fun a b => cmp a b <> Gt) (sort_by cmp l).
Proof.
  intros Hcmp. induction 1 as [|x l Hx Hl IH]; cbn; [constructor|]. fold (sort_by cmp l). assert (Forall P (sort_by cmp l)) as HP by (by rewrite sort_by_perm).
  revert IH HP. generalize (sort_by cmp l). clear Hl l. induction l as [|y l IH]; intros Hs HP; cbn [sort_insert]; [by repeat constructor|].
  apply Forall_cons in HP as [Hy HP]. apply StronglySorted_inv in Hs as [Hs Hall].
  assert (cmp x y <> Gt -> StronglySorted (fun a b => cmp a b <> Gt) (x :: y :: l)) as Hput.
  { intros Hxy. constructor; [by constructor|]. constructor; [done|]. rewrite Forall_forall in Hall, HP |- *. intros z Hz. apply (pc_le_trans P cmp x y z); auto. }
  destruct (cmp x y) eqn:E; [by apply Hput|by apply Hput|]. constructor; [by apply IH|]. rewrite sort_insert_perm. constructor; [|done].
  rewrite (pc_opp _ _ Hcmp x y), E by done. done.
Qed.

(** ** The order of sort keys *)

Lemma Z_compare_opp x y : (y ?= x) = CompOpp (x ?= y).
Proof. apply Z.compare_antisym. Qed.

Lemma Z_preorder {A} (P : A -> Prop) (f : A -> Z) : preorder_cmp P (fun a b => f a ?= f b).
Proof.
  split; intros *; intros; [apply Z.compare_antisym| |].
  - by replace (f a) with (f b) by (symmetry; by apply Z.compare_eq).
  - rewrite Z.compare_lt_iff in *. lia.
Qed.

Lemma bytes_preorder {A} (P : A -> Prop) (f : A -> list byte) : preorder_cmp P (fun a b => bytes_cmp (f a) (f b)).
Proof.
  split; intros *; intros; [apply bytes_cmp_antisym| |].
  - by replace (f a) with (f b) by (symmetry; by apply bytes_cmp_eq).
  - assert (bytes_ltb (f a) (f c) = true) as Hlt by (apply (bytes_ltb_trans _ (f b)); unfold bytes_ltb; by case_match).
    unfold bytes_ltb in Hlt. by destruct (bytes_cmp (f a) (f c)).
Qed.

(** A value of a type, or NULL. *)
Definition sort_typed (t : LogicalType) (v : Value) : Prop := v = VNull \/ has_type t v.

Lemma conforms_sort_typed t n v : conforms t n v -> sort_typed t v.
Proof. intros [[-> _]|H]; [by left|by right]. Qed.

(** NULLs go last, around any order of the other values. *)
Definition nulls_last (cmp : Value -> Value -> comparison) (a b : Value) : comparison :=
  match a, b with VNull, VNull => Eq | VNull, _ => Gt | _, VNull => Lt | _, _ => cmp a b end.

Lemma nulls_last_preorder (P : Value -> Prop) cmp : preorder_cmp (fun v => P v /\ v <> VNull) cmp -> preorder_cmp (fun v => v = VNull \/ P v) (nulls_last cmp).
Proof.
  intros [Hopp Heq Hlt].
  assert (forall a, a = VNull \/ P a -> if is_null a then True else P a /\ a <> VNull) as Hcase by (intros [] [?|?]; cbn; done).
  split.
  - intros a b Ha%Hcase Hb%Hcase. destruct a, b; cbn; try done; by apply Hopp.
  - intros a b c Ha%Hcase Hb%Hcase Hc%Hcase. destruct a, b; cbn; try done; destruct c; cbn; try done; by apply Heq.
  - intros a b c Ha%Hcase Hb%Hcase Hc%Hcase. destruct a, b; cbn; try done; destruct c; cbn; try done; by apply Hlt.
Qed.

Lemma preorder_ext {A} (P : A -> Prop) (f g : A -> A -> comparison) : (forall a b, P a -> P b -> f a b = g a b) -> preorder_cmp P f -> preorder_cmp P g.
Proof.
  intros Hfg [Hopp Heq Hlt]. split.
  - intros a b Ha Hb. rewrite <- !Hfg by done. auto.
  - intros a b c Ha Hb Hc. rewrite <- !Hfg by done. auto.
  - intros a b c Ha Hb Hc. rewrite <- !Hfg by done. eauto.
Qed.

Lemma compare_sort_values_preorder t : preorder_cmp (sort_typed t) compare_sort_values.
Proof.
  set (num := fun v => match v with VBoolean b => Z.b2z b | VInteger z => z | VFloat x => total_key (f64_to_bits x) | _ => 0 end).
  set (text := fun v => match v with VText x => as_bytes x | _ => [] end).
  destruct t as [| | | |maximum].
  - apply (preorder_ext _ (nulls_last (fun a b => num a ?= num b))); [|apply (nulls_last_preorder (has_type TUnknown)), Z_preorder]. intros a b [->|?] [->|?]; done.
  - apply (preorder_ext _ (nulls_last (fun a b => num a ?= num b))); [|apply (nulls_last_preorder (has_type TBoolean)), Z_preorder]. intros [| [] | | |] [| [] | | |] [?|?] [?|?]; done.
  - apply (preorder_ext _ (nulls_last (fun a b => num a ?= num b))); [|apply (nulls_last_preorder (has_type TInt64)), Z_preorder]. intros [] [] [?|?] [?|?]; done.
  - apply (preorder_ext _ (nulls_last (fun a b => num a ?= num b))); [|apply (nulls_last_preorder (has_type TFloat64)), Z_preorder]. intros [] [] [?|?] [?|?]; done.
  - apply (preorder_ext _ (nulls_last (fun a b => bytes_cmp (text a) (text b)))); [|apply (nulls_last_preorder (has_type (TText maximum))), bytes_preorder]. intros [] [] [?|?] [?|?]; done.
Qed.

Lemma preorder_opp {A} (P : A -> Prop) cmp : preorder_cmp P cmp -> preorder_cmp P (fun a b => CompOpp (cmp a b)).
Proof.
  intros [Hopp Heq Hlt]. split.
  - intros a b Ha Hb. by rewrite (Hopp a b).
  - intros a b c Ha Hb Hc E. f_equal. apply Heq; try done. by destruct (cmp a b).
  - intros a b c Ha Hb Hc E1 E2. assert (cmp c a = Lt) as E; [|by rewrite (Hopp c a), E by done].
    apply (Hlt c b a); try done; by rewrite Hopp.
Qed.

(** Sort keys of the same types, one for each ORDER BY expression. *)
Lemma compare_order_keys_preorder (order_by : list OrderKey) (types : list LogicalType) : length order_by = length types ->
  preorder_cmp (fun keys => Forall2 sort_typed types keys) (compare_order_keys order_by).
Proof.
  revert types. induction order_by as [|key order_by IH]; intros [|t types] Hlen; try done. injection Hlen as Hlen. specialize (IH types Hlen).
  set (cmp := fun x y => if ok_descending key then CompOpp (compare_sort_values x y) else compare_sort_values x y).
  assert (preorder_cmp (sort_typed t) cmp) as [Copp Ceq Clt].
  { unfold cmp. destruct (ok_descending key); [apply preorder_opp|]; apply compare_sort_values_preorder. }
  destruct IH as [Iopp Ieq Ilt].
  assert (forall x a y b, compare_order_keys (key :: order_by) (x :: a) (y :: b) = match cmp x y with Eq => compare_order_keys order_by a b | o => o end) as Hstep by done.
  split.
  - intros a b Ha Hb. inversion Ha as [|? x ? a' Hx Ha']; inversion Hb as [|? y ? b' Hy Hb']; subst. rewrite !Hstep, (Copp x y) by done. destruct (cmp x y); cbn; auto.
  - intros a b c Ha Hb Hc. inversion Ha as [|? x ? a' Hx Ha']; inversion Hb as [|? y ? b' Hy Hb']; inversion Hc as [|? z ? c' Hz Hc']; subst. rewrite !Hstep.
    destruct (cmp x y) eqn:E; try done. intros E'. rewrite (Ceq x y z) by done. destruct (cmp y z); auto.
  - intros a b c Ha Hb Hc. inversion Ha as [|? x ? a' Hx Ha']; inversion Hb as [|? y ? b' Hy Hb']; inversion Hc as [|? z ? c' Hz Hc']; subst. rewrite !Hstep.
    destruct (cmp x y) eqn:E; try done; intros E'.
    + rewrite (Ceq x y z) by done. destruct (cmp y z); try done. eauto.
    + destruct (cmp y z) eqn:E2; try done; intros _; [|by rewrite (Clt x y z)].
      assert (cmp z y = Eq) as E3 by (by rewrite (Copp y z), E2). pose proof (Ceq z y x Hz Hy Hx E3) as E4. rewrite (Copp x z), (Copp x y), E in E4 by done. by destruct (cmp x z).
Qed.

(** ** The loop over the rows *)

Section Loop.
Context (s : TableSchema) (q : Select).

(** The values of the rows that the selection accepts. *)
Definition accepted (found : list (list byte * list Value)) : list (list Value) := (filter (fun x => selects s (sel_selection q) x.2 = true) found).*2.

Definition sort_keys (values : list Value) : EResult (list Value) := try_map (fun key => evaluate (ok_expression key) s values) (sel_order_by q).

Definition row_with_keys (values : list Value) (x : list Value * list Value) : Prop :=
  sort_keys values = Ok x.1 /\ project s (sel_projection q) values = Ok x.2.

Lemma accepted_cons k values found : accepted ((k, values) :: found) = (if selects s (sel_selection q) values then [values] else []) ++ accepted found.
Proof. unfold accepted. rewrite filter_cons. cbn [snd]. by destruct (selects s (sel_selection q) values). Qed.

Lemma select_step k values found rows sortable r : select_rows s q ((k, values) :: found) rows sortable = Ok r ->
  (selects s (sel_selection q) values = false /\ select_rows s q found rows sortable = Ok r) \/
  (selects s (sel_selection q) values = true /\ exists projected, project s (sel_projection q) values = Ok projected /\
    match sel_order_by q with
    | [] =>
        if match sel_limit q with Some limit => limit <=? blen (rows ++ [projected]) | None => false end then r = (rows ++ [projected], sortable)
        else select_rows s q found (rows ++ [projected]) sortable = Ok r
    | _ => exists keys, sort_keys values = Ok keys /\ select_rows s q found rows (sortable ++ [(keys, projected)]) = Ok r
    end).
Proof.
  cbn [select_rows]. intros ([] & _ & (b & Hb & H)%bind_Ok)%bind_Ok. unfold selects, sort_keys. rewrite Hb. destruct b; cbn [negb] in H; [right|by left]. split; [done|].
  apply bind_Ok in H as (projected & Hp & H). exists projected. split; [done|]. destruct (sel_order_by q).
  - case_match; [by injection H as <-|done].
  - apply bind_Ok in H as (keys & Hk & H). eauto.
Qed.

Lemma select_ordered found rows sortable rows' sortable' : sel_order_by q <> [] -> select_rows s q found rows sortable = Ok (rows', sortable') ->
  rows' = rows /\ exists news, sortable' = sortable ++ news /\ Forall2 row_with_keys (accepted found) news.
Proof.
  intros Ho. revert sortable. induction found as [|[k values] found IH]; intros sortable.
  { intros [= <- <-]. split; [done|]. exists []. rewrite app_nil_r. split; [done|constructor]. }
  intros [[Hsel H]|(Hsel & projected & Hp & H)]%select_step; rewrite accepted_cons, Hsel; [by apply IH|]. destruct (sel_order_by q) as [|key keys] eqn:E; [done|].
  destruct H as (ks & Hk & H). destruct (IH _ H) as (-> & news & -> & Hnews). split; [done|]. exists ((ks, projected) :: news). split; [by rewrite <- app_assoc|]. by constructor.
Qed.

Lemma select_plain found rows rows' sortable : sel_order_by q = [] -> (forall n, sel_limit q = Some n -> blen rows < n) -> select_rows s q found rows [] = Ok (rows', sortable) ->
  exists picked rest news, accepted found = picked ++ rest /\ rows' = rows ++ news /\ Forall2 (fun values r => project s (sel_projection q) values = Ok r) picked news /\
    match sel_limit q with None => rest = [] | Some n => blen rows' <= n /\ (rest <> [] -> blen rows' = n) end.
Proof.
  intros Ho. revert rows. induction found as [|[k values] found IH]; intros rows Hlim.
  { intros [= <- _]. exists [], [], []. split_and!; [done|by rewrite app_nil_r|constructor|]. destruct (sel_limit q) as [n|]; [|done]. specialize (Hlim n eq_refl). split; [lia|done]. }
  intros [[Hsel H]|(Hsel & projected & Hp & H)]%select_step; rewrite accepted_cons, Hsel; [by apply IH|]. rewrite Ho in H.
  destruct (match sel_limit q with Some limit => limit <=? blen (rows ++ [projected]) | None => false end) eqn:Estop.
  - injection H as -> ->. destruct (sel_limit q) as [n|] eqn:En; [|done]. exists [values], (accepted found), [projected]. specialize (Hlim n eq_refl).
    apply Z.leb_le in Estop. assert (blen (rows ++ [projected]) = blen rows + 1) as El by (rewrite length_app, Nat2Z.inj_add; done).
    split_and!; [done|done|by repeat constructor|lia|intros _; lia].
  - destruct (IH (rows ++ [projected])) as (picked & rest & news & E & -> & HF & Hl); [|done|].
    + intros n Hn. rewrite Hn in Estop. by apply Z.leb_gt in Estop.
    + exists (values :: picked), rest, (projected :: news). rewrite <- app_assoc in *. split_and!; [by rewrite E|done|by constructor|done].
Qed.
End Loop.

(** ** What a query answers *)

(** One row may come before another. *)
Definition ordered s q (u v : list Value) : Prop :=
  exists ku kv, sort_keys s q u = Ok ku /\ sort_keys s q v = Ok kv /\ compare_order_keys (sel_order_by q) ku kv <> Gt.

(** The answer is the projection of selected rows, all of them or as many as
    the limit allows, in order, and none of the others should have come
    before one of them. *)
Definition answers db s q (rows : list (list Value)) : Prop :=
  exists picked rest, picked ++ rest ≡ₚ (map_to_list (selected_rows db s (sel_selection q))).*2 /\
    Forall2 (fun values r => project s (sel_projection q) values = Ok r) picked rows /\
    StronglySorted (ordered s q) picked /\ (forall u v, u ∈ picked -> v ∈ rest -> ordered s q u v) /\
    match sel_limit q with None => rest = [] | Some n => length picked = Nat.min (Z.to_nat n) (length (picked ++ rest)) end.

Lemma unordered s q u v : sel_order_by q = [] -> ordered s q u v.
Proof. intros Ho. exists [], []. unfold sort_keys. by rewrite Ho. Qed.

Lemma StronglySorted_all {A} (R : A -> A -> Prop) l : (forall a b, R a b) -> StronglySorted R l.
Proof. intros HR. induction l; constructor; [done|]. apply Forall_forall. auto. Qed.

Lemma StronglySorted_app_rel {A} (R : A -> A -> Prop) l1 l2 : StronglySorted R (l1 ++ l2) -> StronglySorted R l1 /\ forall a b, a ∈ l1 -> b ∈ l2 -> R a b.
Proof.
  induction l1 as [|x l1 IH]; cbn; [intros _; split; [constructor|]; intros a b Ha; by apply not_elem_of_nil in Ha|].
  intros [Hs Hall]%StronglySorted_inv. destruct (IH Hs) as [Hs1 Hrel]. apply Forall_app in Hall as [H1 H2]. split; [by constructor|].
  intros a b [->|Ha]%elem_of_cons Hb; [by apply (proj1 (Forall_forall _ _) H2)|auto].
Qed.

Lemma Forall2_perm_r {A B} (R : A -> B -> Prop) l k k' : Forall2 R l k -> k ≡ₚ k' -> exists l', l ≡ₚ l' /\ Forall2 R l' k'.
Proof.
  intros HF Hp. revert l HF. induction Hp as [|y k k' _ IH|y z k|k1 k2 k3 _ IH1 _ IH2]; intros l HF.
  - exists l. inversion HF; subst. by split.
  - inversion HF as [|x ? l' ? Hx HF']; subst. destruct (IH _ HF') as (l2 & Hl & H2). exists (x :: l2). split; [by rewrite Hl|by constructor].
  - inversion HF as [|x ? l' ? Hx HF']; subst. inversion HF' as [|w ? l2 ? Hw HF2]; subst. exists (w :: x :: l2). split; [constructor|by repeat constructor].
  - destruct (IH1 _ HF) as (l2 & H12 & HF2). destruct (IH2 _ HF2) as (l3 & H23 & HF3). exists l3. split; [by rewrite H12|done].
Qed.

(** ** Types of the answer *)

Definition row_typed (columns : list OutputColumn) (r : list Value) : Prop := Forall2 (fun c v => conforms (oc_data_type c) (oc_nullable c) v) columns r.

Definition item_wf (item : SelectItem) : Prop := match item with Wildcard _ => True | ItemExpression e _ _ => expr_wf e end.

Section Types.
Context (s : TableSchema) (values : list Value) (Htyped : schema_typed s) (Hwf : Forall value_wf values) (Hvalid : validate_row s values = Ok tt).

Lemma wildcard_typed : row_typed ((fun c => mkOutputColumn (c_name c) (c_data_type c) (c_nullable c)) <$> t_columns s) values.
Proof.
  apply Forall2_fmap_l, Forall2_same_length_lookup. split; [symmetry; by apply validate_row_length|]. intros p c v Hc Hv. cbn.
  apply validate_conforms; [by eapply (Forall_lookup_1 _ _ _ _ Htyped)|by eapply (Forall_lookup_1 _ _ _ _ Hwf)|by eapply validate_row_lookup].
Qed.

Lemma item_typed item columns r : item_wf item -> item_columns s item = Ok columns -> project_item s values item = Ok r -> row_typed columns r.
Proof.
  destruct item as [sp|e alias sp]; cbn [item_columns project_item item_wf].
  - intros _ [= <-] [= <-]. apply wildcard_typed.
  - intros He ([t n] & Ht & [= <-])%bind_Ok (v & Hv & [= <-])%bind_Ok. constructor; [|constructor]. cbn. by eapply (evaluate_conforms s values e).
Qed.

Lemma project_typed projection columns r : Forall item_wf projection -> projection_columns s projection = Ok columns -> project s projection values = Ok r -> row_typed columns r.
Proof.
  intros Hp. unfold projection_columns, project. intros (cs & Hcs & [= <-])%bind_Ok (rs & Hrs & [= <-])%bind_Ok. apply try_map_Forall2 in Hcs, Hrs.
  revert cs rs Hcs Hrs. induction Hp as [|item projection Hi _ IH]; intros cs rs Hcs Hrs; inversion Hcs; inversion Hrs; subst; cbn; [constructor|].
  apply Forall2_app; [by eapply item_typed|by apply IH].
Qed.

Lemma sort_keys_typed q types keys : Forall (fun key => expr_wf (ok_expression key)) (sel_order_by q) ->
  try_map (fun key => infer_type (ok_expression key) s) (sel_order_by q) = Ok types -> sort_keys s q values = Ok keys -> Forall2 sort_typed types.*1 keys.
Proof.
  intros Ho. unfold sort_keys. rewrite !try_map_Forall2. revert types keys. induction Ho as [|key order_by Hk _ IH]; intros types keys Ht Hkeys; inversion Ht as [|? [t n]]; inversion Hkeys; subst; [constructor|].
  constructor; [|by apply IH]. cbn. eapply conforms_sort_typed. by eapply (evaluate_conforms s values).
Qed.
End Types.

Section Query.
Context {SD : Serde} {SL : SerdeLaws} (db : Db) (m : KvMap) (Hdb : db_ok db) (Hrep : represents m db) (Hex : rows_exact db) (Hke : keys_exact db).
Context (q : Select) (Hstr : is_str (id_value (sel_from q))) (Hlimit : forall n, sel_limit q = Some n -> 0 <= n)
  (Hitems : Forall item_wf (sel_projection q)) (Hkeys : Forall (fun key => expr_wf (ok_expression key)) (sel_order_by q)).
Context (s : TableSchema) (Hs : table_with db (t_table_id s) s).

Lemma accepted_selected found : reads_selected db s (sel_selection q) found -> accepted s q found ≡ₚ (map_to_list (selected_rows db s (sel_selection q))).*2.
Proof. intros Hread. unfold accepted. rewrite (found_selected db Hdb s Hs _ found Hread), <- list_fmap_compose. done. Qed.

Lemma accepted_row found values : reads_selected db s (sel_selection q) found -> values ∈ accepted s q found -> validate_row s values = Ok tt /\ Forall value_wf values.
Proof.
  intros (_ & Hrows & _) ([k v] & -> & [_ Hin]%list_elem_of_filter)%list_elem_of_fmap. destruct (Hrows _ _ Hin) as (ident & Hr & _).
  destruct (do_rows _ Hdb _ _ _ Hr) as (t & Ht & Hrow). rewrite (table_with_unique db Hdb _ _ _ Ht Hs) in Hrow. split; apply Hrow.
Qed.

Lemma schema_is_typed : schema_typed s.
Proof. destruct Hs as (n & Hn & _). apply (tk_typed _ _ _ (do_tables _ Hdb _ _ Hn)). Qed.

Lemma answers_plain found rows sortable : sel_order_by q = [] -> sel_limit q <> Some 0 -> reads_selected db s (sel_selection q) found ->
  select_rows s q found [] [] = Ok (rows, sortable) -> answers db s q rows.
Proof.
  intros Ho Hnz Hread H. destruct (select_plain s q found [] rows sortable Ho) as (picked & rest & news & E & -> & HF & Hl); [|done|].
  { intros n Hn. specialize (Hlimit n Hn). cbn. assert (n <> 0) by congruence. lia. }
  exists picked, rest. split_and!; [by rewrite <- E, accepted_selected|done|apply StronglySorted_all; intros; by apply unordered|intros; by apply unordered|].
  destruct (sel_limit q) as [n|] eqn:En; [|done]. specialize (Hlimit n eq_refl). destruct Hl as [Hle Heq]. cbn [app] in Hle, Heq. rewrite <- (Forall2_length _ _ _ HF) in Hle, Heq. rewrite length_app.
  destruct rest as [|v rest]; [cbn; lia|]. specialize (Heq ltac:(done)). lia.
Qed.

Lemma answers_ordered types found rows sortable : sel_order_by q <> [] -> try_map (fun key => infer_type (ok_expression key) s) (sel_order_by q) = Ok types ->
  reads_selected db s (sel_selection q) found -> select_rows s q found [] [] = Ok (rows, sortable) ->
  let sorted := sort_by (fun a b => compare_order_keys (sel_order_by q) a.1 b.1) sortable in
  answers db s q (match sel_limit q with Some limit => take (Z.to_nat limit) sorted | None => sorted end).*2.
Proof.
  intros Ho Htypes Hread H sorted. destruct (select_ordered s q found [] [] rows sortable Ho H) as (_ & news & E & HF). cbn in E. subst sortable.
  assert (StronglySorted (fun a b => compare_order_keys (sel_order_by q) a.1 b.1 <> Gt) sorted) as Hsorted.
  { apply (sort_by_sorted (fun x => Forall2 sort_typed types.*1 x.1)).
    - destruct (compare_order_keys_preorder (sel_order_by q) types.*1) as [H1 H2 H3]; [rewrite length_fmap; symmetry; by apply try_map_Ok_length in Htypes|].
      split; intros *; [apply H1|apply H2|apply H3].
    - apply (Forall2_Forall_r _ _ _ _ HF), Forall_forall. intros values Hv x [Hx _]. destruct (accepted_row found values Hread Hv) as [Hvalid Hwf].
      by apply (sort_keys_typed s values schema_is_typed Hwf Hvalid q). }
  destruct (Forall2_perm_r _ _ _ sorted HF) as (all & Hall & HF'); [symmetry; apply sort_by_perm|].
  assert (StronglySorted (ordered s q) all) as Hord.
  { clear -HF' Hsorted. induction HF' as [|u x all sorted Hx HF IH]; [constructor|]. apply StronglySorted_inv in Hsorted as [Hs' Hx']. constructor; [by apply IH|].
    apply (Forall2_Forall_l _ _ _ _ HF). apply (Forall_impl _ _ _ Hx'). intros y Hy v [Hv _]. destruct Hx as [Hu _]. by exists x.1, y.1. }
  assert (Forall2 (fun values r => project s (sel_projection q) values = Ok r) all sorted.*2) as HP by (apply Forall2_fmap_r; eapply Forall2_impl; [done|]; by intros ? ? [_ ?]).
  destruct (sel_limit q) as [n|] eqn:En.
  - exists (take (Z.to_nat n) all), (drop (Z.to_nat n) all). rewrite take_drop, En. rewrite <- (take_drop (Z.to_nat n) all) in Hord. apply StronglySorted_app_rel in Hord as [H1 H2].
    split_and!; [by rewrite <- Hall, accepted_selected| |done|done|by rewrite length_take]. rewrite fmap_take. by apply Forall2_take.
  - exists all, []. rewrite app_nil_r, En. split_and!; [by rewrite <- Hall, accepted_selected|done|done| |done]. intros u v _ Hv. by apply not_elem_of_nil in Hv.
Qed.

Lemma answers_typed columns rows : projection_columns s (sel_projection q) = Ok columns -> answers db s q rows -> Forall (row_typed columns) rows.
Proof.
  intros Hcols (picked & rest & Hperm & HF & _). apply (Forall2_Forall_r _ _ _ _ HF), Forall_forall. intros values Hv r Hr.
  assert (values ∈ (map_to_list (selected_rows db s (sel_selection q))).*2) as ([ident v] & -> & Hin%elem_of_map_to_list)%list_elem_of_fmap by (rewrite <- Hperm; apply elem_of_app; by left).
  apply map_lookup_filter_Some in Hin as [Hrow _]. destruct (do_rows _ Hdb _ _ _ Hrow) as (t & Ht & Hok). rewrite (table_with_unique db Hdb _ _ _ Ht Hs) in Hok.
  by eapply (project_typed s v schema_is_typed (rk_values _ _ _ _ Hok) (rk_valid _ _ _ _ Hok)).
Qed.
End Query.

Section SelectStatement.
Context {SD : Serde} {SL : SerdeLaws} (db : Db) (m : KvMap) (Hdb : db_ok db) (Hrep : represents m db) (Hex : rows_exact db) (Hke : keys_exact db).

(** What the types of the syntax tree give for a query. *)
Record select_wf q : Prop := {
  qw_from : is_str (id_value (sel_from q));
  qw_limit : forall n, sel_limit q = Some n -> 0 <= n;
  qw_items : Forall item_wf (sel_projection q);
  qw_keys : Forall (fun key => expr_wf (ok_expression key)) (sel_order_by q);
}.

Lemma execute_select_ok q (out : StatementOutput) (m' : KvMap) : select_wf q -> execute_select q m = (Ok out, m') ->
  m' = m /\ exists s columns rows, d_tables db !! id_value (sel_from q) = Some s /\ projection_columns s (sel_projection q) = Ok columns /\
    out = OQuery columns rows /\ answers db s q rows /\ Forall (row_typed columns) rows.
Proof.
  intros [Hstr Hlimit Hitems Hkeys]. unfold execute_select. intros (s & m1 & Hload & H)%ST_bind_Ok. destruct (load_schema_inv db m Hdb Hrep _ _ _ Hstr Hload) as (-> & Hn & Hs).
  apply run_lift in H as (columns & Hcols & H). apply run_lift in H as (types & Htypes & H).
  assert (exists rows, m' = m /\ out = OQuery columns rows /\ answers db s q rows) as (rows & -> & -> & Hans).
  { case_bool_decide as Hz.
    - injection H as <- <-. exists []. split_and!; [done|done|]. exists [], (map_to_list (selected_rows db s (sel_selection q))).*2.
      rewrite Hz. split_and!; [done|constructor|constructor|by intros u v Hu; apply not_elem_of_nil in Hu|done].
    - destruct (read_rows_ok db m Hdb Hrep Hex Hke s Hs (sel_selection q)) as (r & Hr & Hread). apply ST_bind_Ok in H as (found & m2 & Hf & H).
      rewrite Hr in Hf. injection Hf as -> <-. specialize (Hread found eq_refl). apply run_lift in H as ([rows sortable] & Hrows & [= <- <-]).
      eexists. split_and!; [done|done|]. destruct (sel_order_by q) as [|key order_by] eqn:Ho.
      + by eapply answers_plain.
      + assert (sel_order_by q <> []) as Hne by (by rewrite Ho). rewrite <- Ho in Htypes, Hkeys.
        pose proof (answers_ordered db Hdb q Hlimit Hkeys s Hs types found rows sortable Hne Htypes Hread Hrows) as HA. rewrite Ho in HA. exact HA. }
  split; [done|]. exists s, columns, rows. split_and!; try done. by eapply answers_typed.
Qed.


End SelectStatement.
