(* ===== verification/Relational.v ===== *)
(** * Statements refine the relational semantics

    What each statement means for tables of rows, and that running it against
    the keys and records of a database does just that. *)
From S2P Require Import Prelude Order Token F64 Ast Utf8 Record Schema Expression Codec Engine CodecFacts KvSim Database DbRows DbOps DbWrite DbAccess DbDelete DbUpdate DbCatalog DbIndex DbSelect.
Local Open Scope Z_scope.

Implicit Types (m : KvMap) (s : TableSchema) (db : Db) (q : Select) (out : StatementOutput).

Section Semantics.
Context {SD : Serde}.

(** A statement takes a database to another and has an output. *)
Inductive relational (db : Db) : Statement -> StatementOutput -> Db -> Prop :=
| RCreateTable c s : d_tables db !! id_value (ct_name c) = None -> from_create (default 1 (d_table_counter db)) c = Ok s ->
    relational db (SCreateTable c) (OCommand "CREATE TABLE" 0) (add_table s (t_table_id s + 1) db)
| RCreateTableExists c s : d_tables db !! id_value (ct_name c) = Some s -> ct_if_not_exists c = true ->
    relational db (SCreateTable c) (OCommand "CREATE TABLE" 0) db
| RDropTable d s : d_tables db !! id_value (dt_name d) = Some s ->
    relational db (SDropTable d) (OCommand "DROP TABLE" 0) (remove_table (id_value (dt_name d)) (t_table_id s) db)
| RDropTableMissing d : d_tables db !! id_value (dt_name d) = None -> dt_if_exists d = true ->
    relational db (SDropTable d) (OCommand "DROP TABLE" 0) db
| RCreateIndex c s columns : d_indexes db !! id_value (ci_name c) = None -> d_tables db !! id_value (ci_table c) = Some s ->
    index_columns s [] (ci_columns c) = Ok columns ->
    relational db (SCreateIndex c) (OCommand "CREATE INDEX" 0)
      (add_index (mkIndexSchema 1 (default 1 (d_index_counter db)) (id_value (ci_name c)) (t_table_id s) columns (ci_unique c)) (default 1 (d_index_counter db) + 1) db)
| RCreateIndexExists c i : d_indexes db !! id_value (ci_name c) = Some i -> ci_if_not_exists c = true ->
    relational db (SCreateIndex c) (OCommand "CREATE INDEX" 0) db
| RDropIndex d i : d_indexes db !! id_value (di_name d) = Some i ->
    relational db (SDropIndex d) (OCommand "DROP INDEX" 0) (remove_index (id_value (di_name d)) db)
| RDropIndexMissing d : d_indexes db !! id_value (di_name d) = None -> di_if_exists d = true ->
    relational db (SDropIndex d) (OCommand "DROP INDEX" 0) db
| RInsert i s positions new t db' : d_tables db !! id_value (ins_table i) = Some s -> insert_positions s (ins_columns i) = Ok positions ->
    inserted s positions (ins_rows i) = Ok (new, t) -> NoDup new.*1 -> (forall ident, ident ∈ new.*1 -> rows_of db (t_table_id s) !! ident = None) ->
    rows_become (t_table_id s) (list_to_map new ∪ rows_of db (t_table_id s)) (set_table t db) db' ->
    relational db (SInsert i) (OCommand "INSERT" (blen new)) db'
| RSelect q s columns rows : d_tables db !! id_value (sel_from q) = Some s -> projection_columns s (sel_projection q) = Ok columns -> answers db s q rows ->
    relational db (SSelect q) (OQuery columns rows) db
| RUpdate u s assignments rs db' : d_tables db !! id_value (up_table u) = Some s -> resolve_assignments s [] (up_assignments u) = Ok assignments ->
    updated s assignments (up_selection u) (rows_of db (t_table_id s)) rs -> rows_become (t_table_id s) rs db db' ->
    relational db (SUpdate u) (OCommand "UPDATE" (Z.of_nat (size (selected_rows db s (up_selection u))))) db'
| RDelete d s db' : d_tables db !! id_value (del_table d) = Some s ->
    rows_become (t_table_id s) (deleted s (del_selection d) (rows_of db (t_table_id s))) db db' ->
    relational db (SDelete d) (OCommand "DELETE" (Z.of_nat (size (selected_rows db s (del_selection d))))) db'.

(** What the types of the syntax tree give: names are Unicode text, integer
    literals are 64 bits wide. *)
Definition statement_wf (st : Statement) : Prop :=
  match st with
  | SCreateTable c => is_str (id_value (ct_name c))
  | SDropTable d => is_str (id_value (dt_name d))
  | SCreateIndex c => is_str (id_value (ci_name c)) /\ is_str (id_value (ci_table c))
  | SDropIndex d => is_str (id_value (di_name d))
  | SInsert i => is_str (id_value (ins_table i)) /\ Forall (Forall expr_wf) (ins_rows i)
  | SSelect q => select_wf q
  | SUpdate u => is_str (id_value (up_table u)) /\ Forall (fun a => expr_wf (as_value a)) (up_assignments u)
  | SDelete d => is_str (id_value (del_table d))
  | _ => True
  end.

(** ** Constraints *)

(** No two rows agree on a primary key, on a unique column or on the columns
    of a unique index, unless NULL; every row fits its table. *)
Record constraints (db : Db) : Prop := {
  cs_valid : forall id ident values, rows_of db id !! ident = Some values -> exists s, table_with db id s /\ validate_row s values = Ok tt;
  cs_primary : forall id s p a b va vb v, table_with db id s -> t_primary_key s = Some p -> rows_of db id !! a = Some va -> rows_of db id !! b = Some vb ->
    va !! p = Some v -> vb !! p = Some v -> a = b;
  cs_unique : forall id s p c a b va vb v, table_with db id s -> t_columns s !! p = Some c -> keyed c = true -> rows_of db id !! a = Some va -> rows_of db id !! b = Some vb ->
    va !! p = Some v -> vb !! p = Some v -> v <> VNull -> a = b;
  cs_indexes : forall name i a b va vb key, d_indexes db !! name = Some i -> x_unique i = true -> rows_of db (x_table_id i) !! a = Some va -> rows_of db (x_table_id i) !! b = Some vb ->
    indexed_values i va = Ok (Some key) -> indexed_values i vb = Ok (Some key) -> a = b;
}.
End Semantics.

Section Refinement.
Context {SD : Serde} {SL : SerdeLaws}.

Lemma represented_constraints db m : db_ok db -> represents m db -> constraints db.
Proof.
  intros Hdb Hrep.
  assert (forall id a b va vb sl k ra rb, slot_of db id sl -> rows_of db id !! a = Some va -> rows_of db id !! b = Some vb -> row_key id a = Ok ra -> row_key id b = Ok rb ->
    slot_key id va ra sl = Ok (Some k) -> slot_key id vb rb sl = Ok (Some k) -> a = b) as Hslot.
  { intros id a b va vb sl k ra rb Hsl Ha Hb Ka Kb Sa Sb. eapply (row_entry_owner db Hdb m id id a b va vb k ra rb); [done..| |]; right; by exists sl. }
  assert (forall id a va, rows_of db id !! a = Some va -> exists s ra, table_with db id s /\ row_ok db s a va /\ row_key id a = Ok ra) as Hrow.
  { intros id a va Ha. destruct (do_rows _ Hdb _ _ _ Ha) as (s & Hs & Hok). destruct (rk_key _ _ _ _ Hok) as [ra Hra]. exists s, ra. pose proof Hs as (_ & _ & <-). done. }
  split.
  - intros id ident values Hr. destruct (do_rows _ Hdb _ _ _ Hr) as (s & Hs & Hok). exists s. split; [done|apply Hok].
  - intros id s p a b va vb v Hs Hp Ha Hb Va Vb. destruct (Hrow _ _ _ Ha) as (s1 & ra & Hs1 & Oa & _), (Hrow _ _ _ Hb) as (s2 & rb & Hs2 & Ob & _).
    rewrite (table_with_unique db Hdb _ _ _ Hs1 Hs) in Oa. rewrite (table_with_unique db Hdb _ _ _ Hs2 Hs) in Ob.
    pose proof (rk_identity _ _ _ _ Oa) as Ia. pose proof (rk_identity _ _ _ _ Ob) as Ib. unfold identity_ok in Ia, Ib. rewrite Hp in Ia, Ib.
    destruct Ia as (w1 & W1 & E1), Ib as (w2 & W2 & E2). assert (w1 = v) as -> by congruence. assert (w2 = v) as -> by congruence. congruence.
  - intros id s p c a b va vb v Hs Hc Hk Ha Hb Va Vb Hv. destruct (Hrow _ _ _ Ha) as (s1 & ra & Hs1 & Oa & Ka), (Hrow _ _ _ Hb) as (s2 & rb & Hs2 & Ob & Kb).
    assert (slot_of db id (SlotUnique p)) as Hsl by (by exists s, c). pose proof Hs1 as (_ & _ & E1).
    pose proof (rk_slots _ _ _ _ Oa (SlotUnique p) ra ltac:(by rewrite E1) ltac:(by rewrite E1)) as Hok. rewrite E1 in Hok.
    rewrite <- E1, (slot_key_unique_eq s1 va ra p v Va), E1 in Hok. destruct (is_null v) eqn:En; [by destruct v|]. destruct (unique_key id p v) as [k|] eqn:Ek; [|done].
    apply (Hslot id a b va vb (SlotUnique p) k ra rb); try done; rewrite <- E1 in *; rewrite (slot_key_unique_eq s1 _ _ p v) by done; by rewrite En, Ek.
  - intros name i a b va vb key Hi Hu Ha Hb Ka Kb. set (id := x_table_id i) in *. destruct (Hrow _ _ _ Ha) as (s1 & ra & Hs1 & Oa & Ra), (Hrow _ _ _ Hb) as (s2 & rb & Hs2 & Ob & Rb).
    assert (slot_of db id (SlotIndex i)) as Hsl by (by exists name). pose proof Hs1 as (_ & _ & E1).
    pose proof (rk_slots _ _ _ _ Oa (SlotIndex i) ra ltac:(by rewrite E1) ltac:(by rewrite E1)) as Hok. rewrite E1 in Hok. cbn [slot_key] in Hok. rewrite Ka in Hok. cbn in Hok.
    destruct (index_entry_key i key ra) as [k|] eqn:Ek; [|done].
    assert (index_entry_key i key rb = Ok k) as Ek'. { revert Ek. unfold index_entry_key. by rewrite Hu. }
    apply (Hslot id a b va vb (SlotIndex i) k ra rb); try done; cbn [slot_key]; rewrite ?Ka, ?Kb; cbn; by rewrite ?Ek, ?Ek'.
Qed.

Lemma statement_ok db m st out m' : db_ok db -> represents m db -> rows_exact db -> keys_exact db -> statement_wf st -> execute_in_transaction st m = (Ok out, m') ->
  exists db', relational db st out db' /\ db_ok db' /\ represents m' db'.
Proof.
  intros Hdb Hrep Hex Hke Hwf. destruct st; cbn [execute_in_transaction statement_wf] in *; intros Hrun; try done.
  - destruct (execute_create_table_ok db m Hdb Hrep _ _ _ Hwf Hrun) as [-> H]. destruct (d_tables db !! _) eqn:E.
    + destruct H as [Hne ->]. exists db. split; [by eapply RCreateTableExists|done].
    + destruct H as (s & db' & Hs & -> & Hok & Hr & _). eexists. split; [by eapply RCreateTable|done].
  - destruct Hwf as [Hi Ht]. destruct (execute_create_index_ok db m Hdb Hrep Hex _ _ _ Hi Ht Hrun) as [-> H]. destruct (d_indexes db !! _) eqn:E.
    + destruct H as [Hne ->]. exists db. split; [by eapply RCreateIndexExists|done].
    + destruct H as (s & columns & Hs & Hc & Hok & Hr). eexists. split; [by eapply RCreateIndex|done].
  - destruct (execute_drop_table_ok db m Hdb Hrep _ _ _ Hwf Hrun) as [-> H]. destruct (d_tables db !! _) eqn:E.
    + destruct H as [Hok Hr]. eexists. split; [by eapply RDropTable|done].
    + destruct H as [Hne ->]. exists db. split; [by eapply RDropTableMissing|done].
  - destruct (execute_drop_index_ok db m Hdb Hrep _ _ _ Hwf Hrun) as [-> H]. destruct (d_indexes db !! _) eqn:E.
    + destruct H as [Hok Hr]. eexists. split; [by eapply RDropIndex|done].
    + destruct H as [Hne ->]. exists db. split; [by eapply RDropIndexMissing|done].
  - destruct Hwf as [Hstr Hx]. destruct (execute_insert_ok db m Hdb Hrep _ _ _ Hstr Hx Hrun) as (s & positions & new & t & db' & Hs & Hp & Hins & Hnd & Hfree & Hok & Hr & Hb & ->).
    exists db'. split; [by eapply RInsert|done].
  - destruct (execute_select_ok db m Hdb Hrep Hex Hke _ _ _ Hwf Hrun) as (-> & s & columns & rows & Hs & Hc & -> & Ha & _). exists db. split; [by eapply RSelect|done].
  - destruct Hwf as [Hstr Hx]. destruct (execute_update_ok db m Hdb Hrep _ _ _ Hex Hke Hstr Hx Hrun) as (s & asg & rs & db' & Hs & Hasg & Hok & Hr & Hu & Hb & ->).
    exists db'. split; [by eapply RUpdate|done].
  - destruct (execute_delete_ok db m Hdb Hrep _ _ _ Hex Hke Hwf Hrun) as (s & db' & Hs & Hok & Hr & Hb & ->). exists db'. split; [by eapply RDelete|done].
Qed.

End Refinement.
