(* ===== verification/SessionKv.v ===== *)
(** * Statements in a transaction

    A transaction is a key-value store: what it reads is what its snapshot
    held, with its own writes on top.  So statements run in a transaction of
    the multi-version database as they do on a map. *)
From S2P Require Import Prelude Page Order Node Record Store ByteLru Tree Backend Mvcc MvccSweep MvccSystem MvccReads MvccCommit MvccFinish MvccPersist MvccBuild MvccPublish MvccScan MvccIsolation.
From S2P Require Import Token F64 Ast Utf8 Schema Expression Codec Engine CodecFacts KvSim Database.
Local Open Scope Z_scope.

Lemma starts_with_prefix (k prefix : list byte) : starts_with k prefix = true <-> prefix `prefix_of` k.
Proof.
  revert k. induction prefix as [|b prefix IH]; intros [|c k]; cbn.
  - split; [intros _; by exists []|done].
  - split; [intros _; by exists (c :: k)|done].
  - split; [done|]. by intros [x Hx].
  - rewrite andb_true_iff, bool_decide_eq_true, IH. split; [intros [-> H]; by apply prefix_cons|]. intros H. split; [by eapply prefix_cons_inv_1|by eapply prefix_cons_inv_2].
Qed.

Section SessionKv.
Context {B : Type} {BB : Backend B} {BL : BackendLaws B} (size_of_record : Z).

#[export] Instance session_kv : Kv (@Session B) := {|
  kv_get := transaction_get size_of_record;
  kv_put := transaction_put;
  kv_delete := transaction_delete;
  kv_scan_prefix := scan_prefix size_of_record;
|}.

(** The map that a transaction sees, some reads and writes of its own after
    a state of the system, and since it was [t]; its writes have been validated
    and its scans are not protected. *)
Record views (y : @Sys B) (t : Transaction) (x : @Session B) (m : KvMap) : Prop := {
  vw_same : t_id (s_transaction x) = t_id t /\ t_snapshot (s_transaction x) = t_snapshot t;
  vw_steps : rtc (step size_of_record) y (mkSys (s_inner x) (history y) (inflight y) (jobs y));
  vw_state : i_state (s_inner x) = i_state (inner y);
  vw_active : active (i_state (s_inner x)) !! t_id (s_transaction x) = Some (t_snapshot (s_transaction x));
  vw_open : t_finished (s_transaction x) = false;
  vw_sized : forall k v, t_writes (s_transaction x) !! k = Some v -> validate_size k v = Ok tt;
  vw_unprotected : t_range_protected (s_transaction x) = false /\ t_scanned_prefixes (s_transaction x) = [];
  vw_map : forall k, m !! k = seen (history y) (s_transaction x) k;
}.

Context (y : @Sys B) (Hy : Inv y) (t0 : Transaction).

Lemma get_sim k : sim (views y t0) (transaction_get size_of_record k) (kv_get k).
Proof.
  intros [t i] m [Hsame Hsteps Est Ha Hfin Hsz Hun Hm]. cbn [s_inner s_transaction] in *. destruct (steps_ok size_of_record _ _ Hy Hsteps) as [(h & P & Hinv) _].
  destruct (get_ok size_of_record i _ _ _ h P t k Hinv Ha Hfin) as (i' & Hrun & _ & (Es & _)). exists (mkSession t i'). cbn. rewrite Hm. split; [done|].
  split; cbn [s_inner s_transaction]; try done; [|congruence|by rewrite Es]. eapply rtc_r; [done|]. by eapply step_get.
Qed.

Lemma scan_sim prefix : sim (views y t0) (scan_prefix size_of_record prefix) (kv_scan_prefix prefix).
Proof.
  intros [t i] m [Hsame Hsteps Est Ha Hfin Hsz [Hun Hpre] Hm]. cbn [s_inner s_transaction] in *. destruct (steps_ok size_of_record _ _ Hy Hsteps) as [(h & P & Hinv) _].
  destruct (scan_keeps size_of_record i _ _ _ h P t prefix Hinv Ha Hfin) as (m0 & i' & Hrun & _ & (Es & _) & Hm0). exists (mkSession (track_scan prefix t) i').
  assert (m0 = filter (fun x => prefix `prefix_of` x.1) m) as ->.
  { apply map_eq. intros k. rewrite Hm0. apply option_eq. intros v. rewrite map_lookup_filter_Some, Hm. cbn. destruct (starts_with k prefix) eqn:E.
    - apply starts_with_prefix in E. tauto.
    - split; [done|]. intros [_ Hp%starts_with_prefix]. congruence. }
  split; [done|]. assert (track_scan prefix t = t) as -> by (unfold track_scan; by rewrite Hun).
  split; cbn [s_inner s_transaction]; try done; [|congruence|by rewrite Es]. eapply rtc_r; [done|]. by eapply step_scan.
Qed.

Lemma write_views t i m k v : validate_size k v = Ok tt -> views y t0 (mkSession t i) m ->
  views y t0 (mkSession (set_writes (<[k := v]> (t_writes t)) t) i) (match v with Some v => <[k := v]> m | None => delete k m end).
Proof.
  intros Hv [Hsame Hsteps Est Ha Hfin Hsz Hun Hm]. cbn [s_inner s_transaction] in *. split; try done.
  - cbn. intros k' v' [[<- <-]|[_ Hw]]%lookup_insert_Some; [done|by apply Hsz].
  - intros k'. unfold seen. cbn [s_transaction set_writes t_writes t_snapshot]. specialize (Hm k'). unfold seen in Hm. destruct (decide (k' = k)) as [->|Hne].
    + rewrite lookup_insert_eq. destruct v; [by rewrite lookup_insert_eq|by rewrite lookup_delete_eq].
    + rewrite lookup_insert_ne by done. destruct v; [by rewrite lookup_insert_ne|by rewrite lookup_delete_ne].
Qed.

Lemma put_sim k v : sim (views y t0) (transaction_put k v) (kv_put k v).
Proof.
  intros [t i] m Hv. pose proof (vw_open _ _ _ _ Hv) as Hfin. cbn [s_transaction] in Hfin. unfold transaction_put, ensure_active, on_transaction. st_run. cbn [s_transaction s_inner].
  rewrite Hfin. cbn. unfold sized. destruct (validate_size k (Some v)) as [[]|] eqn:Ev; cbn; eexists; (split; [done|]); [by apply (write_views t i m k (Some v))|done].
Qed.

Lemma delete_sim k : sim (views y t0) (transaction_delete k) (kv_delete k).
Proof.
  intros [t i] m Hv. pose proof (vw_open _ _ _ _ Hv) as Hfin. cbn [s_transaction] in Hfin. unfold transaction_delete, ensure_active, on_transaction. st_run. cbn [s_transaction s_inner].
  rewrite Hfin. cbn. unfold sized. destruct (validate_size k None) as [[]|] eqn:Ev; cbn; eexists; (split; [done|]); [by apply (write_views t i m k None)|done].
Qed.

Definition session_kv_laws : KvLaws (@Session B) :=
  {| kv_rep := views y t0; kv_get_sim := get_sim; kv_put_sim := put_sim; kv_delete_sim := delete_sim; kv_scan_sim := scan_sim |}.
End SessionKv.
