(* ===== verification/SqlSession.v ===== *)
(** * SQL sessions

    A session runs SQL text: statements of their own, each in a transaction
    that is retried after a conflict, or several in one transaction, which
    the first error fails.  Each function is a function of
    [engine/src/database.rs]. *)
From S2P Require Import Prelude Page Order Node Record Store ByteLru Tree Backend Mvcc Token Lexer F64 Ast Parser Utf8 Schema Expression Codec Engine MvccSystem MvccIsolation KvSim SessionKv.
Local Open Scope Z_scope.

Inductive SessionState :=
| Idle
| Active (t : Transaction)
| Failed.

Inductive SessionStatus := StatusIdle | StatusInTransaction | StatusFailed.

Definition status_of (s : SessionState) : SessionStatus :=
  match s with Idle => StatusIdle | Active _ => StatusInTransaction | Failed => StatusFailed end.

Definition is_conflict (e : EngineError) : bool :=
  match e with ETransaction (WriteConflict _) | ETransaction (RangeConflict _) => true | _ => false end.

(** The sleep before attempt number [attempt], in microseconds, without its
    jitter, which is less than the same amount again. *)
Definition conflict_step (attempt : Z) : Z := Z.shiftl 50 (Z.min attempt 6).

Section SqlSession.
Context {B : Type} {BB : Backend B} {SD : Serde} `{CharTables} (size_of_record : Z).

Record SqlSession := mkSqlSession {
  engine : @Inner B;
  state : SessionState;
}.

Abbreviation SQL := (ST SqlSession EngineError).

Definition session (i : @Inner B) : SqlSession := mkSqlSession i Idle.

Definition transaction_status (s : SqlSession) : SessionStatus := status_of (state s).

Definition set_session_state (st : SessionState) : SQL unit := modify (fun s => mkSqlSession (engine s) st).

(** A call of the database. *)
Definition on_engine {A} (m : ST (@Inner B) TransactionError A) : SQL A :=
  fun s => let '(r, i) := m (engine s) in (map_err ETransaction r, mkSqlSession i (state s)).

(** A call that ends a transaction; dropping it then does nothing more. *)
Definition ends {A} (t : Transaction) (m : ST (@Session B) TransactionError A) : SQL A :=
  fun s => let '(r, x) := m (mkSession t (engine s)) in (map_err ETransaction r, mkSqlSession (s_inner x) (state s)).

Abbreviation in_transaction := (execute_in_transaction (KV := session_kv size_of_record)).

Definition begin : SQL StatementOutput :=
  s ← get;
  match state s with
  | Idle => t ← on_engine begin; _ ← set_session_state (Active t); mret (OTransaction Begun)
  | _ => throw TransactionAlreadyActive
  end.

Definition commit : SQL StatementOutput :=
  s ← get;
  _ ← set_session_state Idle;
  match state s with
  | Active t => _ ← ends t transaction_commit; mret (OTransaction Committed)
  | Failed => _ ← set_session_state Failed; throw TransactionAborted
  | Idle => throw NoActiveTransaction
  end.

Definition rollback : SQL StatementOutput :=
  s ← get;
  _ ← set_session_state Idle;
  match state s with
  | Active t => _ ← ends t transaction_rollback; mret (OTransaction RolledBack)
  | Failed => mret (OTransaction RolledBack)
  | Idle => throw NoActiveTransaction
  end.

(** One attempt at a statement of its own, in a transaction [t]. *)
Definition attempt_statement (t : Transaction) (statement : Statement) : SQL StatementOutput :=
  fun s =>
    let '(r, x) := in_transaction statement (mkSession t (engine s)) in
    match r with
    | Ok output =>
        let '(c, x) := transaction_commit x in
        (map_err ETransaction (_ ← c; Ok output), mkSqlSession (s_inner x) (state s))
    | Err e =>
        let '(_, x) := transaction_drop x in
        (Err e, mkSqlSession (s_inner x) (state s))
    end.

(** The clock after each attempt, against the retry budget of one second,
    and what other sessions do to the database during the backoff. *)
Context (within_budget : nat -> bool) (others : nat -> @Inner B -> @Inner B).

(** Nothing when the attempts run out of [fuel]. *)
Fixpoint autocommit_loop (fuel attempt : nat) (statement : Statement) (s : SqlSession) : option (EResult StatementOutput * SqlSession) :=
  match fuel with
  | O => None
  | S fuel =>
      match on_engine Mvcc.begin s with
      | (Err e, s) => Some (Err e, s)
      | (Ok t, s) =>
          match attempt_statement t statement s with
          | (Err e, s) =>
              if is_conflict e && within_budget attempt
              then autocommit_loop fuel (S attempt) statement (mkSqlSession (others attempt (engine s)) (state s))
              else Some (Err e, s)
          | (Ok output, s) => Some (Ok output, s)
          end
      end
  end.

Definition execute_autocommit (fuel : nat) (statement : Statement) (s : SqlSession) : option (EResult StatementOutput * SqlSession) :=
  autocommit_loop fuel 0 statement s.

(** A statement in the transaction of the session. *)
Definition execute_active (t : Transaction) (statement : Statement) : SQL StatementOutput :=
  fun s =>
    let '(r, x) := in_transaction statement (mkSession t (engine s)) in
    match r with
    | Ok output => (Ok output, mkSqlSession (s_inner x) (Active (s_transaction x)))
    | Err e =>
        let '(_, x) := transaction_drop x in
        (Err e, mkSqlSession (s_inner x) Failed)
    end.

Definition execute_data_statement (fuel : nat) (statement : Statement) (s : SqlSession) : option (EResult StatementOutput * SqlSession) :=
  match state s with
  | Idle => execute_autocommit fuel statement (mkSqlSession (engine s) Idle)
  | Active t => Some (execute_active t statement (mkSqlSession (engine s) Idle))
  | Failed => Some (Err TransactionAborted, mkSqlSession (engine s) Failed)
  end.

Definition execute_statement (fuel : nat) (statement : Statement) (s : SqlSession) : option (EResult StatementOutput * SqlSession) :=
  match statement with
  | SBeginTransaction _ => Some (begin s)
  | SCommit _ => Some (commit s)
  | SRollback _ => Some (rollback s)
  | statement => execute_data_statement fuel statement s
  end.

(** [statements.into_iter().map(..).collect()]: the first error ends it. *)
Fixpoint execute_all (fuel : nat) (statements : list Statement) (s : SqlSession) : option (EResult (list StatementOutput) * SqlSession) :=
  match statements with
  | [] => Some (Ok [], s)
  | statement :: statements =>
      x ← execute_statement fuel statement s;
      match x with
      | (Err e, s) => Some (Err e, s)
      | (Ok output, s) =>
          y ← execute_all fuel statements s;
          Some (match y.1 with Ok outputs => Ok (output :: outputs) | Err e => Err e end, y.2)
      end
  end.

Definition execute (fuel : nat) (sql : str) (s : SqlSession) : option (EResult (list StatementOutput) * SqlSession) :=
  match parse_sql sql with
  | Err e => Some (Err (ESyntax (message e) (err_span e)), mkSqlSession (engine s) match state s with Active _ => Failed | other => other end)
  | Ok statements => execute_all fuel statements s
  end.

(** The columns of a query, without running it. *)
Definition query_columns (select : Select) : ST (@Session B) EngineError (list OutputColumn) :=
  schema ← load_schema (KV := session_kv size_of_record) (id_value (sel_from select));
  lift (projection_columns schema (sel_projection select)).

(** In the transaction of the session, or in one of its own. *)
Definition describe_active (t : Transaction) (select : Select) : SQL (option (list OutputColumn)) :=
  fun s => let '(r, x) := query_columns select (mkSession t (engine s)) in (Some <$> r, mkSqlSession (s_inner x) (Active (s_transaction x))).

Definition describe_in (t : Transaction) (select : Select) : SQL (option (list OutputColumn)) :=
  fun s =>
    let '(r, x) := query_columns select (mkSession t (engine s)) in
    match r with
    | Ok columns =>
        let '(e, x) := transaction_rollback x in
        (map_err ETransaction (_ ← e; Ok (Some columns)), mkSqlSession (s_inner x) (state s))
    | Err e =>
        let '(_, x) := transaction_drop x in
        (Err e, mkSqlSession (s_inner x) (state s))
    end.

Definition describe (sql : str) : SQL (option (list OutputColumn)) :=
  statements ← lift (map_err (fun e => ESyntax (message e) (err_span e)) (parse_sql sql));
  match statements with
  | [SSelect select] =>
      s ← get;
      match state s with
      | Active t => describe_active t select
      | _ => t ← on_engine Mvcc.begin; describe_in t select
      end
  | _ => mret None
  end.
End SqlSession.
