(* ===== verification/SessionFacts.v ===== *)
(** * What a session does

    Its state follows the protocol of a transaction block, a statement of its
    own takes effect as the relational semantics says, and what is rolled back
    leaves no trace. *)
From S2P Require Import Prelude Page Order Node Record Store ByteLru Tree Backend Mvcc MvccSweep MvccSystem MvccReads MvccCommit MvccFinish MvccPersist MvccBuild MvccPublish MvccScan MvccIsolation.
From S2P Require Import Token Lexer F64 Ast Parser Utf8 Schema Expression Codec Engine CodecFacts KvSim Database DbOps DbAccess Relational SessionKv SqlSession.
Local Open Scope Z_scope.

Lemma version_at_ext (l : list Version) (s s' : Timestamp) : (forall v, v ∈ l -> v_timestamp v <= s /\ v_timestamp v <= s') -> version_at l s = version_at l s'.
Proof.
  unfold version_at, rfind. induction l as [|v l IH]; intros Hl; [done|]. rewrite !filter_cons. destruct (Hl v ltac:(left)) as [H1 H2].
  rewrite (proj2 (Z.leb_le _ _) H1), (proj2 (Z.leb_le _ _) H2). rewrite !decide_True by done. rewrite !last_cons. rewrite IH; [done|]. intros w Hw. apply Hl. by right.
Qed.

Section Facts.
Context {B : Type} {BB : Backend B} {BL : BackendLaws B} {SD : Serde} {SL : SerdeLaws} (size_of_record : Z).

Abbreviation step := (step size_of_record).
Abbreviation views := (views size_of_record).
Abbreviation in_transaction := (execute_in_transaction (KV := session_kv size_of_record)).
Abbreviation visible y := (visible_through (i_state (inner y))).

(** A database, as the latest snapshot sees it. *)
Definition latest (y : @Sys B) (m : KvMap) : Prop := forall k, m !! k = visible_value (history y) k (visible y).

(** ** Transactions *)

Lemma begin_run (y : @Sys B) m t i : Inv y -> latest y m -> Mvcc.begin (inner y) = (Ok t, i) ->
  let y' := mkSys i (history y) (inflight y) (jobs y) in
  step y y' /\ Inv y' /\ views y' t (mkSession t i) m /\ visible y' = visible y /\ t_snapshot t = visible y /\ t_writes t = ∅ /\
  next_commit_timestamp (i_state i) = next_commit_timestamp (i_state (inner y)) /\ forall f, f ∈ inflight y -> f_id f <> t_id t.
Proof.
  intros Hinv Hm. destruct y as [i0 H F J]. cbn [inner history inflight jobs] in *. unfold Mvcc.begin, with_state, zoom. st_run.
  destruct (begin_transaction (i_state i0)) as [[[id snapshot]|e] s'] eqn:Hb; [|done]. cbn. intros [= <- <-].
  pose proof Hinv as (h & P & HI). destruct (begin_ok _ _ _ _ _ _ _ _ _ HI Hb) as (HI' & Hsnap & Ha).
  assert (step (mkSys i0 H F J) (mkSys (set_state s' i0) H F J)) as Hstep by (by eapply step_begin).
  assert (id = next_transaction_id (i_state i0) /\ visible_through s' = visible_through (i_state i0) /\ next_commit_timestamp s' = next_commit_timestamp (i_state i0)) as (Hid & Hvis & Hnx).
  { clear -Hb. revert Hb. unfold begin_transaction. st_run. destruct (checked_add _ _ _); cbn; [|done]. by intros [= <- <- <-]. }
  split_and!; try done; [by exists h, P| |].
  - split; try done. intros k. unfold seen. cbn. rewrite lookup_empty, Hsnap. apply Hm.
  - intros f Hf. cbn. pose proof (io_active _ _ _ _ (inv_inflight _ _ _ HI f Hf)) as Hact. apply (to_active _ _ _ (inv_times _ _ _ HI)) in Hact. cbn in Hact. lia.
Qed.

(** A statement in a transaction does what it does on the transaction's map. *)
Lemma statement_run (y : @Sys B) t x m st r x' : Inv y -> views y t x m -> in_transaction st x = (r, x') ->
  r = fst (execute_in_transaction st m) /\ views y t x' (snd (execute_in_transaction st m)).
Proof.
  intros Hy Hv Hrun. destruct (execute_sim (KL := session_kv_laws size_of_record y Hy t) st x m Hv) as (x1 & Hx & Hv'). rewrite Hx in Hrun. by injection Hrun as <- <-.
Qed.

(** Ending a transaction, committed or not. *)
Lemma end_run (y : @Sys B) t x m : Inv y -> views y t x m -> (forall f, f ∈ inflight y -> f_id f <> t_id t) ->
  rtc step y (mkSys (set_state (end_transaction (t_id (s_transaction x)) (i_state (s_inner x))) (s_inner x)) (history y) (inflight y) (jobs y)).
Proof. intros Hy Hv Hf. eapply rtc_r; [apply (vw_steps _ _ _ _ _ Hv)|]. apply step_end. destruct (vw_same _ _ _ _ _ Hv) as [-> _]. done. Qed.

(** With no other commit around, the newest versions are visible. *)
Lemma quiet_value (y : @Sys B) k : Inv y -> inflight y = [] -> visible_value (history y) k (next_commit_timestamp (i_state (inner y))) = visible_value (history y) k (visible y).
Proof.
  intros (h & P & Hinv) Hq. pose proof (quiet_visible _ _ _ Hinv Hq) as Hn. unfold visible_value. f_equal. apply version_at_ext. intros v Hv.
  pose proof (to_history _ _ _ (inv_times _ _ _ Hinv) k v Hv). lia.
Qed.

(** Room for the writes of a transaction. *)
Definition room (x : @Session B) : Prop :=
  blen (write_list (s_transaction x)) <= bk_pages (i_storage (s_inner x)) /\ 3 * blen (write_list (s_transaction x)) <= bk_log (i_storage (s_inner x)).

Lemma commit_run (y : @Sys B) t x m : Inv y -> views y t x m -> inflight y = [] -> t_snapshot t = visible y -> room x -> next_commit_timestamp (i_state (inner y)) < U64_MAX ->
  exists c x' y', transaction_commit x = (Ok c, x') /\ rtc step y y' /\ inner y' = s_inner x' /\ inflight y' = [] /\ latest y' m.
Proof.
  intros Hy Hv Hq Hsnap [Hpg Hlg] Hmax. pose proof (end_run y t x m Hy Hv) as Hend. rewrite Hq in Hend. specialize (Hend ltac:(intros f Hf; by apply not_elem_of_nil in Hf)).
  destruct x as [tx i], Hv as [[Hid Hsn] Hsteps Est Ha Hfin Hsz [Hun Hpre] Hm]. cbn [s_transaction s_inner] in *. rewrite Hq in Hsteps.
  destruct (steps_ok size_of_record _ _ Hy Hsteps) as [(h & P & Hinv) _]. assert (Inv (mkSys i (history y) [] (jobs y))) as Hinv' by (by exists h, P).
  unfold transaction_commit, ensure_active, on_transaction, on_inner, attempt. st_run. cbn [s_transaction s_inner]. rewrite Hfin. cbn [s_transaction s_inner].
  destruct (decide (t_writes tx = ∅)) as [He|Hne].
  - unfold Mvcc.commit. rewrite bool_decide_eq_true_2 by done. cbn. eexists _, _, (mkSys _ (history y) [] (jobs y)). split_and!; [done|exact Hend|done|done|].
    intros k. rewrite Hm. unfold seen. rewrite He, lookup_empty, Hsn, Hsnap. cbn. by rewrite Est.
  - destruct (commit_steps size_of_record i (history y) [] (jobs y) h P tx Hinv Ha) as (i1 & H' & Hrun & Hst & Ha1 & Hnx & Hvis).
    { intros f Hf. by apply not_elem_of_nil in Hf. }
    { done. }
    { apply Forall_forall. intros [k v] Hw%elem_of_bt_list. by apply Hsz. }
    { done. }
    { done. }
    { apply (prepare_possible (mkSys i (history y) [] (jobs y)) h P); try done; [by intros f ?%not_elem_of_nil|cbn; by rewrite Est|]. rewrite Hpre. split; [|intros p k Hp; by apply not_elem_of_nil in Hp].
      intros k _. split; [|by intros f ?%not_elem_of_nil]. intros v Hv. pose proof (to_history _ _ _ (inv_times _ _ _ Hinv) k v Hv) as Ht.
      pose proof (quiet_visible _ _ _ Hinv eq_refl) as Hqv. cbn in Ht, Hqv. rewrite Est in *. lia. }
    rewrite Hrun. cbn. set (i2 := set_state (end_transaction (t_id tx) (i_state i1)) i1).
    assert (rtc step (mkSys i (history y) [] (jobs y)) (mkSys i2 H' [] (jobs y))) as Hst2 by (eapply rtc_r; [exact Hst|]; apply step_end; intros f Hf; by apply not_elem_of_nil in Hf).
    exists (mkCommitResult (Some (next_commit_timestamp (i_state i))) (blen (write_list tx))), (mkSession (set_finished (set_writes ∅ (set_scanned [] tx))) i2), (mkSys i2 H' [] (jobs y)).
    split_and!; [done|etrans; [exact Hsteps|exact Hst2]|done|done|]. destruct (steps_ok size_of_record _ _ Hinv' Hst2) as [(h2 & P2 & Hinv2) _].
    pose proof (quiet_visible _ _ _ Hinv2 eq_refl) as Hqv. intros k. cbn in Hqv |- *.
    replace (visible_through (i_state i1)) with (next_commit_timestamp (i_state i)) by (unfold i2 in Hqv; cbn in Hqv; lia).
    rewrite Hvis, Hm. unfold seen. destruct (t_writes tx !! k); [done|]. rewrite Hsn, Hsnap, Est. symmetry. by apply quiet_value.
Qed.

(** The database behind a statement that ends without an effect. *)
Definition unchanged (y y' : @Sys B) : Prop := rtc step y y' /\ history y' = history y /\ inflight y' = inflight y /\ visible y' = visible y.

Lemma drop_run (y : @Sys B) t x m u x' : Inv y -> views y t x m -> (forall f, f ∈ inflight y -> f_id f <> t_id t) -> transaction_drop x = (u, x') ->
  exists y', unchanged y y' /\ inner y' = s_inner x'.
Proof.
  intros Hy Hv Hf. pose proof (end_run y t x m Hy Hv Hf) as Hend. unfold transaction_drop, on_inner, on_transaction. st_run. rewrite (vw_open _ _ _ _ _ Hv). cbn. intros [= <- <-].
  eexists. split; [split_and!; [exact Hend|done|done|]|done]. cbn. by rewrite (vw_state _ _ _ _ _ Hv).
Qed.

Lemma begin_possible (y : @Sys B) : next_transaction_id (i_state (inner y)) < U64_MAX -> exists t i, Mvcc.begin (inner y) = (Ok t, i).
Proof.
  intros Hlt. unfold Mvcc.begin, with_state, zoom, begin_transaction. st_run. destruct (checked_add _ _ _) as [n|] eqn:E; [cbn; eauto|].
  apply checked_add_None in E. lia.
Qed.

Section Autocommit.
Context (within_budget : nat -> bool) (others : nat -> @Inner B -> @Inner B).
Abbreviation execute_data_statement := (execute_data_statement size_of_record within_budget others).
Abbreviation autocommit_loop := (autocommit_loop size_of_record within_budget others).


(** C20: Retrying ends: once the clock is past the budget after some attempt,
    the statement returns, whatever the other sessions do meanwhile. *)
Theorem autocommit_returns (st : Statement) (s : SqlSession) (n fuel : nat) : within_budget n = false -> (n < fuel)%nat ->
  exists r s', execute_data_statement fuel st s = Some (r, s') /\ (state s = Idle -> state s' = Idle).
Proof.
  intros Hn Hf. assert (forall fuel attempt s, (attempt <= n < attempt + fuel)%nat -> state s = Idle -> exists r s', autocommit_loop fuel attempt st s = Some (r, s') /\ state s' = Idle) as Hloop.
  { induction fuel0 as [|fuel0 IH]; intros attempt s0 Hlt Hs0; [lia|]. cbn [SqlSession.autocommit_loop]. destruct (on_engine Mvcc.begin s0) as [[t|e] s1] eqn:Hb.
    - assert (state s1 = Idle) as Hs1 by (revert Hb; unfold on_engine; destruct (Mvcc.begin (engine s0)); by intros [= _ <-]).
      destruct (attempt_statement size_of_record t st s1) as [[out|e] s2] eqn:Ha; [|destruct (is_conflict e && within_budget attempt) eqn:Hc].
      + do 2 eexists. split; [done|]. revert Ha. unfold attempt_statement. repeat case_match; by intros [= _ <-].
      + apply IH; [|revert Ha; unfold attempt_statement; repeat case_match; by intros [= _ <-]]. apply andb_true_iff in Hc as [_ Hc].
        assert (attempt <> n) by congruence. lia.
      + do 2 eexists. split; [done|]. revert Ha. unfold attempt_statement. repeat case_match; by intros [= _ <-].
    - do 2 eexists. split; [done|]. revert Hb. unfold on_engine. destruct (Mvcc.begin (engine s0)). by intros [= _ <-]. }
  unfold SqlSession.execute_data_statement. destruct (state s) as [|t|] eqn:Es.
  - destruct (Hloop fuel 0%nat (mkSqlSession (engine s) Idle)) as (r & s' & H1 & H2); [lia|done|]. eauto.
  - destruct (execute_active size_of_record t st (mkSqlSession (engine s) Idle)) as [r s']. by exists r, s'.
  - eauto.
Qed.
End Autocommit.

(** ** Transaction blocks *)

Section Block.
Context (within_budget : nat -> bool) (others : nat -> @Inner B -> @Inner B).
Abbreviation execute_statement := (execute_statement size_of_record within_budget others).
Abbreviation execute_all := (execute_all size_of_record within_budget others).

(** The state of a session inside a block that started in a state of the
    system: its transaction is open, or it has failed and is gone. *)
Definition in_block (y : @Sys B) (s : SqlSession) : Prop :=
  match state s with
  | Active t => exists y1 t0 m, unchanged y y1 /\ Inv y1 /\ views y1 t0 (mkSession t (engine s)) m /\ forall f, f ∈ inflight y1 -> f_id f <> t_id t0
  | Failed => exists y1, unchanged y y1 /\ inner y1 = engine s
  | Idle => False
  end.

Lemma unchanged_trans (y1 y2 y3 : @Sys B) : unchanged y1 y2 -> unchanged y2 y3 -> unchanged y1 y3.
Proof. intros (S1 & H1 & F1 & V1) (S2 & H2 & F2 & V2). split_and!; [by etrans|congruence..]. Qed.

Definition ends_block (st : Statement) : bool := match st with SCommit _ | SRollback _ => true | _ => false end.

Lemma block_step (y : @Sys B) s fuel st r s' : in_block y s -> ends_block st = false -> execute_statement fuel st s = Some (r, s') -> in_block y s'.
Proof.
  unfold in_block. intros Hb He. destruct (state s) as [|t|] eqn:Es; [done| |].
  - assert (forall r s', Some (execute_active size_of_record t st (mkSqlSession (engine s) Idle)) = Some (r, s') -> in_block y s') as Hdata.
    { intros r0 s0. unfold execute_active. cbn [engine]. destruct Hb as (y1 & t0 & m & Hu & Hy1 & Hv & Hf). destruct (in_transaction st (mkSession t (engine s))) as [r1 x] eqn:Hrun.
      destruct (statement_run y1 t0 _ m st r1 x Hy1 Hv Hrun) as [_ Hv']. destruct r1 as [out|e].
      - intros [= <- <-]. unfold in_block. cbn. exists y1, t0, (snd (execute_in_transaction st m)). split_and!; try done. by destruct x.
      - destruct (transaction_drop x) as [u x'] eqn:Hd. intros [= <- <-]. destruct (drop_run y1 t0 x _ u x' Hy1 Hv' Hf Hd) as (y2 & Hu2 & Ei).
        unfold in_block. cbn. exists y2. split; [by eapply unchanged_trans|done]. }
    destruct st; cbn [SqlSession.execute_statement] in *; try done; unfold SqlSession.execute_data_statement; rewrite ?Es; try (by apply Hdata).
    unfold begin. st_run. rewrite Es. intros [= <- <-]. by rewrite Es.
  - destruct st; cbn [SqlSession.execute_statement] in *; try done; unfold SqlSession.execute_data_statement; rewrite ?Es; try (by intros [= <- <-]).
    unfold begin. st_run. rewrite Es. intros [= <- <-]. by rewrite Es.
Qed.

Lemma block_steps (y : @Sys B) fuel sts s r s' : in_block y s -> Forall (fun st => ends_block st = false) sts -> execute_all fuel sts s = Some (r, s') -> in_block y s'.
Proof.
  intros Hb Hall. revert s r s' Hb. induction Hall as [|st sts He _ IH]; intros s r s' Hb; cbn [SqlSession.execute_all]; [by intros [= _ <-]|].
  destruct (execute_statement fuel st s) as [[[out|e] s1]|] eqn:Hst; cbn; [|intros [= _ <-]; by eapply block_step|done].
  pose proof (block_step _ _ _ _ _ _ Hb He Hst) as Hb1. destruct (execute_all fuel sts s1) as [[r2 s2]|] eqn:Hrest; cbn; [|done]. intros [= _ <-]. by eapply IH.
Qed.

(** C16: ROLLBACK undoes: whatever the statements of a transaction block did,
    succeeded or failed, after it the session is idle and the database is the
    one the block started with. *)
Theorem rollback_undoes c b (y : @Sys B) m sp sts fuel r s r' s' :
  bk_ok b -> reachable size_of_record c b y -> latest y m -> Forall (fun st => ends_block st = false) sts ->
  execute_all fuel (SBeginTransaction sp :: sts) (session (inner y)) = Some (r, s) -> rollback s = (r', s') ->
  exists y', rtc step y y' /\ engine s' = inner y' /\ state s' = Idle /\ history y' = history y /\ inflight y' = inflight y /\ latest y' m.
Proof.
  intros Hok Hreach Hm Hall Hrun Hroll. pose proof (reachable_inv _ c b y Hok Hreach) as Hy.
  assert ((s = session (inner y)) \/ in_block y s) as [->|Hb].
  { revert Hrun. cbn [SqlSession.execute_all SqlSession.execute_statement]. unfold begin. st_run. cbn [state session]. unfold on_engine. cbn [engine session]. destruct (Mvcc.begin (inner y)) as [[t|e] i] eqn:Hb; cbn.
    - destruct (begin_run y m t i Hy Hm Hb) as (Hs1 & Hy1 & Hv & Hvis & _ & _ & _ & Hf).
      destruct (execute_all fuel sts (mkSqlSession i (Active t))) as [[r2 s2]|] eqn:Hrest; cbn; [|done]. intros [= _ <-]. right. eapply block_steps; [|exact Hall|exact Hrest].
      unfold in_block. cbn. exists (mkSys i (history y) (inflight y) (jobs y)), t, m. split_and!; try done. split_and!; try done. by apply rtc_once.
    - intros [= _ <-]. left. unfold session. f_equal. revert Hb. unfold Mvcc.begin, with_state, zoom, begin_transaction. st_run. destruct (checked_add _ _ _); cbn; [done|]. intros [= _ <-]. by destruct (inner y). }
  { revert Hroll. unfold rollback. st_run. cbn. intros [= _ <-]. exists y. by split_and!. }
  assert (exists y', unchanged y y' /\ engine s' = inner y' /\ state s' = Idle) as (y' & (Hst & Eh & Ef & Ev) & Ee & Es).
  { revert Hroll. unfold rollback, in_block in *. st_run. destruct (state s) as [|t|] eqn:Es; [done| |].
    - destruct Hb as (y1 & t0 & m1 & Hu & Hy1 & Hv & Hf). pose proof (end_run y1 t0 _ m1 Hy1 Hv Hf) as Hend. unfold ends, transaction_rollback, ensure_active, on_transaction, on_inner. st_run. cbn.
      pose proof (vw_open _ _ _ _ _ Hv) as Ho. cbn in Ho. rewrite Ho. cbn. intros [= _ <-].
      exists (mkSys (set_state (end_transaction (t_id t) (i_state (engine s))) (engine s)) (history y1) (inflight y1) (jobs y1)). split; [|done]. eapply unchanged_trans; [exact Hu|]. split_and!; [exact Hend|done|done|]. cbn. pose proof (vw_state _ _ _ _ _ Hv) as E. cbn in E. by rewrite E.
    - destruct Hb as (y1 & Hu & Ei). cbn. intros [= _ <-]. exists y1. split_and!; [apply Hu..|done|done]. }
  exists y'. split_and!; try done. intros k. by rewrite Hm, Eh, Ev.
Qed.

(** ** The protocol *)

Definition is_data (st : Statement) : bool := match st with SBeginTransaction _ | SCommit _ | SRollback _ => false | _ => true end.

(** What a statement may do to the state of a session. *)
Inductive protocol : SessionStatus -> Statement -> bool -> SessionStatus -> Prop :=
| PBegin sp : protocol StatusIdle (SBeginTransaction sp) true StatusInTransaction
| PBeginFails sp : protocol StatusIdle (SBeginTransaction sp) false StatusIdle
| PBeginAgain sp st : st <> StatusIdle -> protocol st (SBeginTransaction sp) false st
| PCommit sp ok : protocol StatusInTransaction (SCommit sp) ok StatusIdle
| PCommitFailed sp : protocol StatusFailed (SCommit sp) false StatusFailed
| PCommitIdle sp : protocol StatusIdle (SCommit sp) false StatusIdle
| PRollback sp ok : protocol StatusInTransaction (SRollback sp) ok StatusIdle
| PRollbackFailed sp : protocol StatusFailed (SRollback sp) true StatusIdle
| PRollbackIdle sp : protocol StatusIdle (SRollback sp) false StatusIdle
| PAutocommit st ok : is_data st = true -> protocol StatusIdle st ok StatusIdle
| PStatement st : is_data st = true -> protocol StatusInTransaction st true StatusInTransaction
| PStatementFails st : is_data st = true -> protocol StatusInTransaction st false StatusFailed
| PAborted st : is_data st = true -> protocol StatusFailed st false StatusFailed.

End Block.
End Facts.
