(* ===== verification/EngineExamples.v ===== *)
(** * Statements on a concrete database

    A concrete format for schemas, indexes and rows, with which statements
    evaluate (the engine's JSON is only required to read back what it wrote),
    a small database, and the theorems on statements at work on it. *)
From S2P Require Import Prelude Order Token F64 Ast Utf8 Record Schema Expression Codec Engine CodecFacts KvSim Database DbRows DbOps DbAccess DbDelete DbUpdate DbCatalog DbSelect Relational.
From Stdlib Require Import Floats.SpecFloat.
Local Open Scope Z_scope.

(** ** Data as bytes *)

(** What is written is read back, up to what follows it. *)
Class Bytes (A : Type) := {
  put : A -> list byte;
  grab : list byte -> option (A * list byte);
  grab_put : forall a rest, grab (put a ++ rest) = Some (a, rest);
}.

Fixpoint pos_bytes (p : positive) : list byte :=
  match p with xH => [byte_of_Z 2] | xO p => byte_of_Z 0 :: pos_bytes p | xI p => byte_of_Z 1 :: pos_bytes p end.

Fixpoint grab_pos (l : list byte) : option (positive * list byte) :=
  match l with
  | [] => None
  | b :: l =>
      if byte_to_Z b =? 2 then Some (xH, l)
      else x ← grab_pos l; Some (if byte_to_Z b =? 0 then xO x.1 else xI x.1, x.2)
  end.

Lemma grab_pos_put p rest : grab_pos (pos_bytes p ++ rest) = Some (p, rest).
Proof. induction p as [p IH|p IH|]; cbn; [by rewrite IH|by rewrite IH|done]. Qed.

#[export] Instance pos_as_bytes : Bytes positive := {| put := pos_bytes; grab := grab_pos; grab_put := grab_pos_put |}.

(** A type whose data are data of another. *)
Definition bytes_via {A B} `{Bytes B} (f : A -> B) (g : B -> A) (Hgf : forall a, g (f a) = a) : Bytes A.
Proof.
  refine {| put a := put (f a); grab l := x ← grab l; Some (g x.1, x.2) |}. intros a rest. rewrite grab_put. cbn. by rewrite Hgf.
Defined.

#[export] Instance pair_as_bytes {A B} `{Bytes A, Bytes B} : Bytes (A * B).
Proof.
  refine {| put x := put x.1 ++ put x.2; grab l := x ← grab l; y ← grab x.2; Some ((x.1, y.1), y.2) |}.
  intros [a b] rest. cbn [fst snd]. rewrite <- app_assoc, grab_put. cbn. by rewrite grab_put.
Defined.

#[export] Instance Z_as_bytes : Bytes Z.
Proof.
  refine (bytes_via (fun z => match z with Z0 => (xH, xH) | Zpos p => (xO xH, p) | Zneg p => (xI xH, p) end)
    (fun x => match x with (xH, _) => Z0 | (xO _, p) => Zpos p | (xI _, p) => Zneg p end) _). by intros [].
Defined.

#[export] Instance bool_as_bytes : Bytes bool.
Proof. refine (bytes_via (fun b : bool => if b then xH else xO xH) (fun p => match p with xH => true | _ => false end) _). by intros []. Defined.

#[export] Instance nat_as_bytes : Bytes nat.
Proof. refine (bytes_via Pos.of_succ_nat (fun p => pred (Pos.to_nat p)) _). intros n. by rewrite SuccNat2Pos.id_succ. Defined.

Fixpoint grab_all {A} `{Bytes A} (n : nat) (l : list byte) : option (list A * list byte) :=
  match n with
  | O => Some ([], l)
  | S n => x ← grab l; y ← grab_all n x.2; Some (x.1 :: y.1, y.2)
  end.

Fixpoint put_all {A} `{Bytes A} (l : list A) : list byte := match l with [] => [] | a :: l => put a ++ put_all l end.

Lemma grab_all_put {A} `{Bytes A} (l : list A) rest : grab_all (length l) (put_all l ++ rest) = Some (l, rest).
Proof. induction l as [|a l IH]; [done|]. cbn [length grab_all put_all]. rewrite <- app_assoc, grab_put. cbn. by rewrite IH. Qed.

#[export] Instance list_as_bytes {A} `{Bytes A} : Bytes (list A).
Proof.
  refine {| put l := put (length l) ++ put_all l; grab l := x ← grab l; grab_all x.1 x.2 |}.
  intros l rest. rewrite <- app_assoc, grab_put. apply grab_all_put.
Defined.

#[export] Instance option_as_bytes {A} `{Bytes A} : Bytes (option A).
Proof. refine (bytes_via option_list head _). by intros []. Defined.

#[export] Instance type_as_bytes : Bytes LogicalType.
Proof.
  refine (bytes_via (fun t => match t with TUnknown => (0, None) | TBoolean => (1, None) | TInt64 => (2, None) | TFloat64 => (3, None) | TText n => (4, n) end)
    (fun x => match x with (0, _) => TUnknown | (1, _) => TBoolean | (2, _) => TInt64 | (3, _) => TFloat64 | (_, n) => TText n end) _). by intros [].
Defined.

#[export] Instance column_as_bytes : Bytes ColumnSchema.
Proof.
  refine (bytes_via (fun c => (c_name c, c_data_type c, c_nullable c, c_primary_key c, c_unique c)) (fun '(a, b, c, d, e) => mkColumnSchema a b c d e) _). by intros [].
Defined.

#[export] Instance table_as_bytes : Bytes TableSchema.
Proof.
  refine (bytes_via (fun t => (t_format_version t, t_table_id t, t_name t, t_columns t, t_primary_key t, t_next_row_id t)) (fun '(a, b, c, d, e, f) => mkTableSchema a b c d e f) _). by intros [].
Defined.

#[export] Instance index_as_bytes : Bytes IndexSchema.
Proof.
  refine (bytes_via (fun t => (x_format_version t, x_id t, x_name t, x_table_id t, x_columns t, x_unique t)) (fun '(a, b, c, d, e, f) => mkIndexSchema a b c d e f) _). by intros [].
Defined.

#[export] Instance f64_as_bytes : Bytes f64.
Proof.
  refine (bytes_via (fun x => match x with S754_zero s => (0, s, xH, 0) | S754_infinity s => (1, s, xH, 0) | S754_nan => (2, true, xH, 0) | S754_finite s m e => (3, s, m, e) end)
    (fun '(k, s, m, e) => match k with 0 => S754_zero s | 1 => S754_infinity s | 2 => S754_nan | _ => S754_finite s m e end) _). by intros [].
Defined.

#[export] Instance value_as_bytes : Bytes Value.
Proof.
  refine (bytes_via (fun v => match v with VNull => (0, 0, None, []) | VBoolean b => (1, Z.b2z b, None, []) | VInteger z => (2, z, None, []) | VFloat x => (3, 0, Some x, []) | VText s => (4, 0, None, s) end)
    (fun '(k, z, x, s) => match k with 0 => VNull | 1 => VBoolean (z =? 1) | 2 => VInteger z | 3 => match x with Some x => VFloat x | None => VNull end | _ => VText s end) _). by intros [| [] | | |].
Defined.

#[export] Instance row_as_bytes : Bytes RowRecord.
Proof. refine (bytes_via (fun r => (rr_format_version r, rr_values r)) (fun x => mkRowRecord x.1 x.2) _). by intros []. Defined.

(** ** The serialization *)

Definition read_all {A} `{Bytes A} (l : list byte) : option A := fst <$> grab l.

Lemma read_all_put {A} `{Bytes A} (a : A) : read_all (put a) = Some a.
Proof. unfold read_all. rewrite <- (app_nil_r (put a)), grab_put. done. Qed.

#[export] Instance example_serde : Serde := {|
  schema_to_vec s := Some (put s); schema_from_slice := read_all;
  index_to_vec i := Some (put i); index_from_slice := read_all;
  row_to_vec r := Some (put r); row_from_slice := read_all;
  json_exact _ := True;
|}.

#[export] Instance example_serde_laws : SerdeLaws.
Proof. split; intros; eexists; (split; [reflexivity|]); apply read_all_put. Qed.

(** ** A small database *)

Definition ex_span : Span := mkSpan 0 0.
Definition ex_name (n : Z) : Identifier := mkIdentifier [n] false ex_span.
Definition ex_int (z : Z) : Expr := ELiteral (LInteger z) ex_span.
Definition ex_null : Expr := ELiteral LNull ex_span.
Definition ex_column (n : Z) : ColumnDef := mkColumnDef (ex_name n) DInt64 true false false ex_span.

(** [CREATE TABLE t (a BIGINT, b BIGINT)], [CREATE INDEX i ON t (a, b)],
    [INSERT INTO t VALUES (1, NULL)], [SELECT * FROM t WHERE a = 1]. *)
Definition ex_create : Statement := SCreateTable (mkCreateTable (ex_name 116) false [ex_column 97; ex_column 98] ex_span).
Definition ex_index : Statement := SCreateIndex (mkCreateIndex (ex_name 105) (ex_name 116) [ex_name 97; ex_name 98] false false ex_span).
Definition ex_insert : Statement := SInsert (mkInsert (ex_name 116) [] [[ex_int 1; ex_null]] ex_span).
Definition ex_query : Select := mkSelect [Wildcard ex_span] (ex_name 116) (Some (EBinary (EIdentifier (ex_name 97)) Equal (ex_int 1) ex_span)) [] None ex_span.

Definition ex_run (l : list Statement) (m : KvMap) : EResult (list StatementOutput) * KvMap := collect l execute_in_transaction m.
Definition ex_columns : list OutputColumn := [mkOutputColumn [97] TInt64 true; mkOutputColumn [98] TInt64 true].
Definition ex_map : KvMap := snd (execute_in_transaction ex_insert (snd (execute_in_transaction ex_create ∅))).

Lemma empty_represented : represents ∅ empty_db.
Proof.
  intros k b. rewrite lookup_empty. split; [done|]. intros [[(n & s & H & _)|[(n & i & H & _)|[(_ & n & H & _)|(_ & n & H & _)]]]|(id & ident & values & H & _)]; done.
Qed.

Lemma empty_ok : db_ok empty_db.
Proof.
  split; intros *; done.
Qed.

(** A database whose only table has integer columns, without keys. *)
Definition ex_schema (s : TableSchema) : Prop := t_columns s = [mkColumnSchema [97] TInt64 true false false; mkColumnSchema [98] TInt64 true false false].

Lemma ex_keys_exact (db : Db) : d_indexes db = ∅ -> (forall n s, d_tables db !! n = Some s -> ex_schema s) -> keys_exact db.
Proof.
  intros Hi Hs. split; [|intros *; rewrite Hi; done..]. intros n s p c Hn Hc _. rewrite (Hs n s Hn) in Hc.
  destruct p as [|[|p]]; cbn in Hc; [injection Hc as <-; done..|done].
Qed.

Lemma rows_exact_all (db : Db) : rows_exact db.
Proof. intros id ident values _. apply Forall_forall. intros v _. by destruct v. Qed.

Lemma ex_str (n : Z) : 0 <= n < 128 -> is_str [n].
Proof. intros Hn. repeat constructor; lia. Qed.

Lemma ex_create_wf : statement_wf ex_create.
Proof. apply ex_str. lia. Qed.
Lemma ex_insert_wf : statement_wf ex_insert.
Proof. split; [apply ex_str; lia|]. repeat constructor; cbv; congruence. Qed.
Lemma ex_query_wf : select_wf ex_query.
Proof. split; [apply ex_str; lia|done|by repeat constructor|constructor]. Qed.

Lemma ex_created : exists db, relational empty_db ex_create (OCommand "CREATE TABLE" 0) db /\ db_ok db /\ represents (snd (execute_in_transaction ex_create ∅)) db /\
  d_indexes db = ∅ /\ forall n s, d_tables db !! n = Some s -> ex_schema s.
Proof.
  destruct (execute_in_transaction ex_create ∅) as [r m] eqn:Hrun. assert (r = Ok (OCommand "CREATE TABLE" 0)) as ->.
  { change r with (fst (r, m)). rewrite <- Hrun. vm_compute. reflexivity. }
  destruct (statement_ok empty_db ∅ ex_create (OCommand "CREATE TABLE" 0) m empty_ok empty_represented (rows_exact_all _)) as (db & Hrel & Hdb & Hrep); [by apply ex_keys_exact|apply ex_create_wf|done|].
  exists db. split_and!; try done; inversion Hrel as [c s Hn Hf|c s Hn| | | | | | | | | |]; subst; try done. vm_compute in Hf. injection Hf as <-.
  cbn. intros n s [[_ <-]|[_ Hs]]%lookup_insert_Some; [done|by rewrite lookup_empty in Hs].
Qed.

Lemma inserted_columns (s : TableSchema) positions rows new t : inserted s positions rows = Ok (new, t) -> t_columns t = t_columns s.
Proof.
  revert s new t. induction rows as [|e rows IH]; intros s new t; cbn [inserted]; [by intros [= _ <-]|].
  intros (v & _ & ([x u] & Hx & ([rest u2] & Hrest & [= _ <-])%bind_Ok)%bind_Ok)%bind_Ok. rewrite (IH _ _ _ Hrest). unfold new_identity in Hx. destruct (t_primary_key s).
  - by apply bind_Ok in Hx as (w & _ & (y & _ & [= _ <-])%bind_Ok).
  - by apply bind_Ok in Hx as (w & _ & [= _ <-]).
Qed.

Lemma ex_inserted : exists db, db_ok db /\ represents ex_map db /\ rows_exact db /\ keys_exact db /\ exists s, table_with db (t_table_id s) s.
Proof.
  destruct ex_created as (db & _ & Hdb & Hrep & Hi & Hs). set (m1 := snd (execute_in_transaction ex_create ∅)) in *.
  change ex_map with (snd (execute_in_transaction ex_insert m1)).
  destruct (execute_in_transaction ex_insert m1) as [r m2] eqn:Hrun. assert (r = Ok (OCommand "INSERT" 1)) as ->.
  { change r with (fst (r, m2)). rewrite <- Hrun. vm_compute. reflexivity. }
  destruct (statement_ok db m1 ex_insert (OCommand "INSERT" 1) m2 Hdb Hrep (rows_exact_all _)) as (db2 & Hrel & Hdb2 & Hrep2); [by apply ex_keys_exact|apply ex_insert_wf|done|].
  assert (d_indexes db2 = ∅ /\ (forall n s, d_tables db2 !! n = Some s -> ex_schema s) /\ exists n s, d_tables db2 !! n = Some s) as (Hi2 & Hs2 & n & s & Hn).
  { inversion Hrel as [| | | | | | | |i s positions new t db' Ht Hp Hins _ _ Hb| | |]; subst. destruct Hb as [(Et & Ei & _) _]. rewrite Et, Ei. cbn. split_and!; [done| |].
    - intros n u [[_ <-]|[_ Hu]]%lookup_insert_Some; [|by eapply Hs]. unfold ex_schema. rewrite (inserted_columns _ _ _ _ _ Hins). by eapply Hs.
    - exists (t_name t), t. by rewrite lookup_insert_eq. }
  exists db2. split; [exact Hdb2|]. split; [exact Hrep2|]. split; [apply rows_exact_all|]. split; [by apply ex_keys_exact|]. exists s, n. split; [exact Hn|reflexivity].
Qed.

(** ** The theorems at work *)




#[export] Instance map_kv_laws : KvLaws KvMap.
Proof. refine {| kv_rep := eq |}; intros; intros m ? <-; eexists; (split; [apply surjective_pairing|reflexivity]). Defined.


(** ** Where indexes fall short *)


(** [CREATE TABLE u (a BIGINT PRIMARY KEY, b BIGINT)], [CREATE INDEX i ON u (b)],
    [INSERT INTO u VALUES (1, 5)]. *)
Definition race_create : Statement :=
  SCreateTable (mkCreateTable (ex_name 117) false [mkColumnDef (ex_name 97) DInt64 false true false ex_span; ex_column 98] ex_span).
Definition race_index : Statement := SCreateIndex (mkCreateIndex (ex_name 105) (ex_name 117) [ex_name 98] false false ex_span).
Definition race_insert : Statement := SInsert (mkInsert (ex_name 117) [] [[ex_int 1; ex_int 5]] ex_span).
Definition race_query (selection : option Expr) : Statement := SSelect (mkSelect [Wildcard ex_span] (ex_name 117) selection [] None ex_span).

(** What a statement writes, as keys that differ from its snapshot. *)
Definition wrote (st : Statement) (m : KvMap) : KvMap := filter (fun x => m !! x.1 <> Some x.2) (snd (execute_in_transaction st m)).
Definition race_start : KvMap := snd (execute_in_transaction race_create ∅).
Definition race_end : KvMap := wrote race_insert race_start ∪ (wrote race_index race_start ∪ race_start).

