(* ===== verification/SessionExamples.v ===== *)
(** * A session on a concrete database

    SQL statements through the session, the transactions, the index and the
    page store of the examples. *)
From S2P Require Import Prelude Page Order ByteLru Node Record Store Handle Tree TreeBase TreeExamples Backend TreeBackend Mvcc MvccSweep MvccSystem MvccScan MvccIsolation MvccExamples.
From S2P Require Import Token Lexer F64 Ast Parser Utf8 Schema Expression Codec Engine CodecFacts KvSim Database DbOps DbAccess DbSelect Relational SessionKv SqlSession SessionFacts EngineExamples.
Local Open Scope Z_scope.

Definition no_retries (n : nat) : bool := false.
Definition alone (n : nat) (i : MemInner) : MemInner := i.

(** The writes of a statement fit. *)
Definition fits (st : Statement) (i : MemInner) : bool :=
  match Mvcc.begin i with
  | (Ok t, i) =>
      match execute_in_transaction (KV := session_kv 72) st (mkSession t i) with
      | (Ok _, x) =>
          (blen (write_list (s_transaction x)) <=? bk_pages (i_storage (s_inner x))) && (3 * blen (write_list (s_transaction x)) <=? bk_log (i_storage (s_inner x)))
      | (Err _, _) => true
      end
  | (Err _, _) => true
  end.

Lemma fits_room st i : fits st i = true -> forall t i' out x, Mvcc.begin i = (Ok t, i') -> execute_in_transaction (KV := session_kv 72) st (mkSession t i') = (Ok out, x) -> room x.
Proof. unfold fits. intros H t i' out x Hb Hrun. rewrite Hb, Hrun in H. apply andb_true_iff in H as [H1 H2]. split; by apply Z.leb_le. Qed.

Lemma start_latest : latest ex_start ∅.
Proof. intros k. reflexivity. Qed.


(** A query on a missing table, which fails on its only attempt. *)
Lemma autocommit_returns_witness :
  exists r s', execute_data_statement 72 no_retries alone 1 (SSelect ex_query) (session (inner ex_start)) = Some (r, s') /\ state s' = Idle.
Proof.
  destruct (autocommit_returns 72 no_retries alone (SSelect ex_query) (session (inner ex_start)) 0 1 eq_refl ltac:(lia)) as (r & s' & Hrun & Hs).
  exists r, s'. split; [exact Hrun|exact (Hs eq_refl)].
Defined.

(** [BEGIN; CREATE TABLE ...] and ROLLBACK. *)
Lemma rollback_undoes_witness : exists y' : MemSys, history y' = history ex_start /\ latest y' ∅.
Proof.
  destruct (execute_all 72 no_retries alone 1 [SBeginTransaction ex_span; ex_create] (session (inner ex_start))) as [[r s]|] eqn:Hrun.
  - destruct (rollback s) as [r' s'] eqn:Hroll.
    destruct (rollback_undoes 72 no_retries alone 1000 blank_tree ex_start ∅ ex_span [ex_create] 1 r s r' s' blank_ok (rtc_refl _ _) start_latest
      ltac:(repeat constructor) Hrun Hroll) as (y' & _ & _ & _ & Hh & _ & Hl). exists y'. split; [exact Hh|exact Hl].
  - exfalso. assert (is_Some (execute_all 72 no_retries alone 1 [SBeginTransaction ex_span; ex_create] (session (inner ex_start)))) as [x Hx].
    { cbn [execute_all execute_statement]. destruct (begin (session (inner ex_start))) as [[o|e] s] eqn:Hb; cbn; [|by eexists]. unfold execute_data_statement.
      assert (state s <> Idle) as Hs. { revert Hb. unfold begin. st_run. cbn. unfold on_engine. destruct (Mvcc.begin _) as [[t|e] i]; cbn; [by intros [= _ <-]|done]. }
      destruct (state s); [done|..]; cbn; repeat case_match; by eexists. }
    congruence.
Defined.

