(* ===== verification/PgText.v ===== *)
(** * Parameters of prepared statements

    Models the part of [src/server/src/pg.rs] that finds the parameters of a
    statement's text and puts values in their place, and shows that the
    values never change how the rest of the text is read.

    The source walks over the bytes of the text.  A byte of a character above
    U+007F matches none of its cases, so a character is one step here, and
    each of its bytes is pushed as a character of its own, as the source
    does. *)
From S2P Require Import Prelude Token Lexer LexerFacts LexerPrint F64 Ast Utf8 Schema.
Local Open Scope Z_scope.

(** ** Errors *)

(** The texts that the frontend sends with an error. *)
Inductive PgMessage :=
| MessageTruncated
| StringUnterminated
| StringNotUtf8
| ParameterNotUtf8
| StatementMissing (name : str)
| PortalMissing (name : str)
| ParameterCount (supplied used : Z)
| BinaryFormat
| ParameterOutOfRange
| ParameterUnbound (number bound : Z)
| BadDescribeTarget
| LengthOutOfRange
| MessageUnsupported (kind : Z)
| UnsupportedProtocol
| EngineMessage (e : EngineError).

(** A SQLSTATE and its message. *)
Abbreviation PgError := (string * PgMessage)%type.
Abbreviation PgResult := (result PgError).

(** ** The text in pieces *)

Inductive Piece :=
| PString (text : str)
| PComment (text : str)
| PParameter (digits : str)
| POther (c : char).

(** A string literal after its opening quote, up to its closing one, and
    what follows. *)
Fixpoint string_rest (r : str) : str * str :=
  match r with
  | [] => ([], [])
  | c :: r1 =>
      if c =? c_quote then
        match r1 with
        | d :: r2 => if d =? c_quote then let '(text, rest) := string_rest r2 in (c :: d :: text, rest) else ([c], r1)
        | [] => ([c], r1)
        end
      else let '(text, rest) := string_rest r1 in (c :: text, rest)
  end.

(** The characters up to a newline. *)
Fixpoint comment_rest (r : str) : str * str :=
  match r with
  | [] => ([], [])
  | c :: r' => if c =? c_newline then ([], r) else let '(text, rest) := comment_rest r' in (c :: text, rest)
  end.

(** The case analysis of both loops on the character [c] at hand. *)
Definition next_piece (c : char) (r : str) : Piece * str :=
  if c =? c_quote then let '(text, rest) := string_rest r in (PString (c :: text), rest)
  else if (c =? c_minus) && peek_is (Z.eqb c_minus) (head r) then let '(text, rest) := comment_rest r in (PComment (c :: text), rest)
  else if c =? c_dollar then let '(digits, rest) := split_digits r in (PParameter digits, rest)
  else (POther c, r).

(** The fuel bounds the pieces; each has one character at least. *)
Fixpoint pieces (fuel : nat) (sql : str) : list Piece :=
  match fuel, sql with
  | S fuel, c :: r => let '(p, rest) := next_piece c r in p :: pieces fuel rest
  | _, _ => []
  end.

Definition pieces_of (sql : str) : list Piece := pieces (length sql) sql.

(** [parse::<usize>()] on a run of digits. *)
Definition parse_usize (digits : str) : option Z := n ← some_decimal digits; in_range 0 U64_MAX n.

Definition scan_parameters (sql : str) : list Z :=
  omap (fun p => match p with PParameter digits => parse_usize digits | _ => None end) (pieces_of sql).

(** [into_iter().max().unwrap_or(0)]. *)
Definition count_parameters (sql : str) : Z := foldr Z.max 0 (scan_parameters sql).

(** [output.push(char::from(byte))] for the bytes of a character. *)
Definition push_bytes (c : char) : str := byte_to_Z <$> encode_utf8 c.

(** What the loop pushes for one piece. *)
Definition substitute_piece (literals : list str) (p : Piece) : PgResult str :=
  match p with
  | PString text | PComment text => Ok text
  | PParameter [] => Ok [c_dollar]
  | PParameter digits =>
      number ← ok_or (parse_usize digits) ("08P01"%string, ParameterOutOfRange);
      ok_or (index ← checked_sub number 1; literals !! Z.to_nat index)
            ("08P01"%string, ParameterUnbound number (blen literals))
  | POther c => Ok (push_bytes c)
  end.

Definition substitute_parameters (sql : str) (literals : list str) : PgResult str :=
  texts ← try_map (substitute_piece literals) (pieces_of sql); Ok (concat texts).

(** [quote_literal]: quotes inside are doubled. *)
Definition quote_literal (text : str) : str := c_quote :: escape c_quote text ++ [c_quote].

(** The literal of a bound value; a missing one is NULL. *)
Definition bound_literal (value : option str) : str :=
  match value with Some text => quote_literal text | None => chars "NULL" end.

(** ** Texts that differ inside string literals only *)

(** A character outside of literals and comments that starts neither. *)
Definition plain_char (c : char) (r : str) : Prop :=
  c <> c_quote /\ c <> c_dquote /\ ~ (c = c_minus /\ head r = Some c_minus) /\ ~ (c = c_slash /\ head r = Some c_star).

Inductive similar : str -> str -> Prop :=
| similar_nil : similar [] []
| similar_char c r1 r2 : plain_char c r1 -> similar r1 r2 -> similar (c :: r1) (c :: r2)
| similar_comment t r1 r2 :
    Forall (fun c => c <> c_newline) t -> (r1 = [] \/ head r1 = Some c_newline) -> similar r1 r2 ->
    similar (c_minus :: c_minus :: t ++ r1) (c_minus :: c_minus :: t ++ r2)
| similar_string v1 v2 r1 r2 :
    similar r1 r2 -> similar (c_quote :: escape c_quote v1 ++ c_quote :: r1) (c_quote :: escape c_quote v2 ++ c_quote :: r2)
| similar_open v : similar (c_quote :: escape c_quote v) (c_quote :: escape c_quote v).

Lemma similar_head r1 r2 : similar r1 r2 -> head r1 = head r2.
Proof. by destruct 1. Qed.

Lemma similar_empty r1 r2 : similar r1 r2 -> r1 = [] <-> r2 = [].
Proof. by destruct 1. Qed.

Lemma plain_char_similar c r1 r2 : similar r1 r2 -> plain_char c r1 -> plain_char c r2.
Proof. intros Hs. unfold plain_char. by rewrite (similar_head _ _ Hs). Qed.

(** ** The lexer on similar texts *)

Section Similar.
Context `{CharTables}.

Lemma skip_while_similar p r1 r2 a1 a2 :
  p c_quote = false -> p c_minus = false -> similar r1 r2 ->
  exists t r1' r2' b1 b2, r1 = t ++ r1' /\ r2 = t ++ r2' /\ similar r1' r2' /\
    skip_while p r1 a1 = mkLexer r1' b1 /\ skip_while p r2 a2 = mkLexer r2' b2 /\
    (t = [] -> b1 = a1 /\ b2 = a2) /\ (t <> [] -> a1 < b1 /\ a2 < b2).
Proof.
  intros Hq Hm Hs. revert a1 a2. induction Hs as [|c r1 r2 Hc Hs IH|t r1 r2 Ht Hr Hs IH|v1 v2 r1 r2 Hs IH|v]; intros a1 a2.
  - exists [], [], [], a1, a2. split_and!; try done. by constructor.
  - cbn [skip_while]. destruct (p c).
    + destruct (IH (a1 + len_utf8 c) (a2 + len_utf8 c)) as (t & r1' & r2' & b1 & b2 & -> & -> & Hs' & -> & -> & H1 & H2).
      exists (c :: t), r1', r2', b1, b2. split_and!; try done. intros _. pose proof (len_utf8_pos c).
      destruct (decide (t = [])) as [Ht|Ht]; [specialize (H1 Ht)|specialize (H2 Ht)]; lia.
    + exists [], (c :: r1), (c :: r2), a1, a2. split_and!; try done. by constructor.
  - cbn [skip_while]. rewrite Hm. eexists [], _, _, a1, a2. split_and!; try done. by constructor.
  - cbn [skip_while]. rewrite Hq. eexists [], _, _, a1, a2. split_and!; try done. by constructor.
  - cbn [skip_while]. rewrite Hq. eexists [], _, _, a1, a2. split_and!; try done. by constructor.
Qed.

Lemma ascii_class (c : char) : 0 <= c < 128 -> is_whitespace c = is_ascii_whitespace c /\ is_identifier_continue c = (c =? c_underscore) || (c =? c_dollar) || ascii_alnum c.
Proof. intros Hc. unfold is_identifier_continue. by rewrite ascii_whitespace, ascii_alphanumeric. Qed.

(** ** Literals *)

Lemma lex_quoted_open q v at_ acc : lex_quoted q (escape q v) at_ acc = None.
Proof.
  revert at_ acc. induction v as [|c v IH]; intros at_ acc; [done|]. cbn [escape]. destruct (Z.eqb_spec c q) as [->|Hne].
  - cbn [lex_quoted]. by rewrite Z.eqb_refl, IH.
  - cbn [lex_quoted]. rewrite (proj2 (Z.eqb_neq c q) Hne). apply IH.
Qed.

(** The opening part of a literal that another follows. *)
Lemma lex_quoted_through q v r at_ acc :
  exists at' acc', lex_quoted q (escape q v ++ q :: q :: r) at_ acc = lex_quoted q r at' acc'.
Proof.
  revert at_ acc. induction v as [|c v IH]; intros at_ acc; cbn [escape app].
  - cbn [lex_quoted]. rewrite !Z.eqb_refl. by eauto.
  - destruct (Z.eqb_spec c q) as [->|Hne]; cbn [app lex_quoted].
    + rewrite !Z.eqb_refl. apply IH.
    + rewrite (proj2 (Z.eqb_neq c q) Hne). apply IH.
Qed.

Lemma peek_not_quote c : c <> c_quote -> peek_is (Z.eqb c_quote) (Some c) = false.
Proof. intros Hc. apply Z.eqb_neq. congruence. Qed.

(** Both strings end, with similar texts after them, or neither does. *)
Definition same_string (x y : option (str * Lexer)) : Prop :=
  match x, y with
  | Some (_, l1), Some (_, l2) => similar (remaining l1) (remaining l2)
  | None, None => True
  | _, _ => False
  end.

Lemma same_string_end v1 v2 r1 r2 a1 a2 acc1 acc2 :
  similar r1 r2 -> peek_is (Z.eqb c_quote) (head r1) = false ->
  same_string (lex_quoted c_quote (escape c_quote v1 ++ c_quote :: r1) a1 acc1) (lex_quoted c_quote (escape c_quote v2 ++ c_quote :: r2) a2 acc2).
Proof.
  intros Hs Hq. destruct (lex_quoted_escape c_quote v1 r1 a1 acc1 Hq) as [b1 ->].
  rewrite (similar_head _ _ Hs) in Hq. by destruct (lex_quoted_escape c_quote v2 r2 a2 acc2 Hq) as [b2 ->].
Qed.

Lemma lex_quoted_similar r1 r2 :
  similar r1 r2 -> forall v1 v2 a1 a2 acc1 acc2,
  same_string (lex_quoted c_quote (escape c_quote v1 ++ c_quote :: r1) a1 acc1) (lex_quoted c_quote (escape c_quote v2 ++ c_quote :: r2) a2 acc2).
Proof.
  induction 1 as [|c r1 r2 Hc Hs IH|t r1 r2 Ht Hr Hs IH|u1 u2 r1 r2 Hs IH|u]; intros v1 v2 a1 a2 acc1 acc2.
  - apply same_string_end; [constructor|done].
  - apply same_string_end; [by constructor|]. by apply peek_not_quote, Hc.
  - apply same_string_end; [by constructor|done].
  - destruct (lex_quoted_through c_quote v1 (escape c_quote u1 ++ c_quote :: r1) a1 acc1) as (b1 & x1 & ->).
    destruct (lex_quoted_through c_quote v2 (escape c_quote u2 ++ c_quote :: r2) a2 acc2) as (b2 & x2 & ->). apply IH.
  - destruct (lex_quoted_through c_quote v1 (escape c_quote u) a1 acc1) as (b1 & x1 & ->).
    destruct (lex_quoted_through c_quote v2 (escape c_quote u) a2 acc2) as (b2 & x2 & ->). by rewrite !lex_quoted_open.
Qed.
(** ** Trivia *)

Lemma plain_not_comment c r :
  plain_char c r -> starts_with2 c_minus c_minus (c :: r) = false /\ starts_with2 c_slash c_star (c :: r) = false.
Proof.
  intros (_ & _ & Hm & Hs). destruct r as [|d r]; [done|]. cbn [starts_with2 head] in *.
  split; apply not_true_is_false; intros [->%Z.eqb_eq ->%Z.eqb_eq]%andb_true_iff; auto.
Qed.

Lemma quote_not_comment r :
  starts_with2 c_minus c_minus (c_quote :: r) = false /\ starts_with2 c_slash c_star (c_quote :: r) = false.
Proof. by destruct r. Qed.

Lemma skip_comment_similar t r at_ :
  Forall (fun c => c <> c_newline) t -> r = [] \/ head r = Some c_newline ->
  exists b, skip_while (fun c => negb (c =? c_newline)) (t ++ r) at_ = mkLexer r b.
Proof.
  intros Ht Hr. eexists. apply skip_while_over.
  - eapply Forall_impl; [exact Ht|]. intros c Hc. by apply negb_true_iff, Z.eqb_neq.
  - destruct Hr as [->|Hr]; [done|]. destruct r; [done|]. injection Hr as ->. done.
Qed.

Lemma skip_trivia_similar f1 f2 r1 r2 a1 a2 :
  (length r1 < f1)%nat -> (length r2 < f2)%nat -> similar r1 r2 ->
  exists r1' r2' b1 b2, skip_trivia f1 (mkLexer r1 a1) = Ok (mkLexer r1' b1) /\ skip_trivia f2 (mkLexer r2 a2) = Ok (mkLexer r2' b2) /\
    similar r1' r2' /\ (length r1' <= length r1)%nat /\ (length r2' <= length r2)%nat /\ starts_with2 c_minus c_minus r1' = false.
Proof.
  revert f2 r1 r2 a1 a2. induction f1 as [|f1 IH]; intros f2 r1 r2 a1 a2 H1 H2 Hs; [lia|]. destruct f2 as [|f2]; [lia|].
  cbn [skip_trivia]. unfold advance_while. cbn [remaining cursor].
  destruct (skip_while_similar is_whitespace r1 r2 a1 a2) as (t & s1 & s2 & b1 & b2 & -> & -> & Hs' & -> & -> & _).
  { by rewrite (proj1 (ascii_class c_quote ltac:(done))). }
  { by rewrite (proj1 (ascii_class c_minus ltac:(done))). }
  { done. }
  rewrite !length_app in *. cbn [remaining cursor].
  destruct Hs' as [|c q1 q2 Hc Hs'|u q1 q2 Hu Hq Hs'|v1 v2 q1 q2 Hs'|v].
  - exists [], [], b1, b2. cbn. split_and!; done || lia || constructor.
  - destruct (plain_not_comment _ _ Hc) as [E1 E2]. destruct (plain_not_comment _ _ (plain_char_similar _ _ _ Hs' Hc)) as [E3 E4].
    rewrite E1, E2, E3, E4. eexists _, _, b1, b2. split_and!; try done; [by constructor|lia|lia].
  - cbn [starts_with2 skipn]. rewrite !Z.eqb_refl, !drop_0. cbn [andb].
    destruct (skip_comment_similar u q1 (b1 + 2) Hu Hq) as [d1 ->].
    destruct (skip_comment_similar u q2 (b2 + 2) Hu) as [d2 ->].
    { rewrite <- (similar_head _ _ Hs'). by destruct Hq as [->|Hq]; [left; apply (similar_empty _ _ Hs')|right]. }
    cbn [length] in *. rewrite !length_app in *.
    destruct (IH f2 q1 q2 d1 d2 ltac:(lia) ltac:(lia) Hs') as (r1' & r2' & e1 & e2 & -> & -> & ? & ? & ? & ?).
    eexists _, _, _, _. split_and!; try done; lia.
  - rewrite !(proj1 (quote_not_comment _)), !(proj2 (quote_not_comment _)). eexists _, _, b1, b2.
    split_and!; try done; [by constructor|lia|lia|apply quote_not_comment].
  - rewrite !(proj1 (quote_not_comment _)), !(proj2 (quote_not_comment _)). eexists _, _, b1, b2.
    split_and!; try done; [by constructor|lia|lia|apply quote_not_comment].
Qed.
(** ** Tokens *)

(** The same token, or two string literals. *)
Definition same_kind (t1 t2 : Token) : Prop :=
  kind t1 = kind t2 \/ exists v1 v2, kind t1 = TString v1 /\ kind t2 = TString v2.

Definition same_step (x y : SResult (Token * Lexer)) : Prop :=
  match x, y with
  | Ok (t1, l1), Ok (t2, l2) => same_kind t1 t2 /\ similar (remaining l1) (remaining l2)
  | Err e1, Err e2 => message e1 = message e2
  | _, _ => False
  end.

(** Two lexers that went over the same text [t] to similar rests. *)
Definition over (t r1 r2 : str) (l1 l2 : Lexer) : Prop :=
  r1 = t ++ remaining l1 /\ r2 = t ++ remaining l2 /\ similar (remaining l1) (remaining l2).

Lemma over_trans t u r1 r2 l1 l2 m1 m2 :
  over t r1 r2 l1 l2 -> over u (remaining l1) (remaining l2) m1 m2 -> over (t ++ u) r1 r2 m1 m2.
Proof. intros (-> & -> & _) (H1 & H2 & Hs). rewrite H1, H2. split; [by rewrite app_assoc|]. split; [by rewrite app_assoc|done]. Qed.

Lemma digits_similar r1 r2 a1 a2 :
  similar r1 r2 -> exists t, over t r1 r2 (consume_ascii_digits (mkLexer r1 a1)) (consume_ascii_digits (mkLexer r2 a2)) /\
    (cursor (consume_ascii_digits (mkLexer r1 a1)) =? a1) = (cursor (consume_ascii_digits (mkLexer r2 a2)) =? a2).
Proof.
  intros Hs. unfold consume_ascii_digits, advance_while. cbn [remaining cursor].
  destruct (skip_while_similar is_ascii_digit r1 r2 a1 a2 eq_refl eq_refl Hs) as (t & s1 & s2 & b1 & b2 & -> & -> & Hs' & -> & -> & H1 & H2).
  exists t. split; [by repeat split|]. cbn [cursor].
  destruct (decide (t = [])) as [Ht|Ht]; [destruct (H1 Ht) as [-> ->]; by rewrite !Z.eqb_refl|].
  destruct (H2 Ht). rewrite !(proj2 (Z.eqb_neq _ _)) by lia. done.
Qed.

Lemma over_char c r1 r2 a1 a2 :
  plain_char c r1 -> similar r1 r2 -> over [c] (c :: r1) (c :: r2) (lex_advance (mkLexer (c :: r1) a1)) (lex_advance (mkLexer (c :: r2) a2)).
Proof. by repeat split. Qed.

Lemma over_nil r1 r2 a1 a2 : similar r1 r2 -> over [] r1 r2 (mkLexer r1 a1) (mkLexer r2 a2).
Proof. by repeat split. Qed.

(** A similar pair whose first character satisfies [p], which holds of
    neither a quote nor a minus. *)
Lemma similar_peek p r1 r2 :
  similar r1 r2 -> p c_quote = false -> p c_minus = false -> peek_is p (head r1) = true ->
  exists c s1 s2, r1 = c :: s1 /\ r2 = c :: s2 /\ plain_char c s1 /\ similar s1 s2.
Proof. intros [|c s1 s2 Hc Hs|t s1 s2 Ht Hr Hs|v1 v2 s1 s2 Hs|v] Hq Hm; cbn; [done|intros _; by exists c, s1, s2|congruence..]. Qed.

Lemma fraction_similar r1 r2 a1 a2 :
  similar r1 r2 -> exists t, over t r1 r2 (lex_fraction (mkLexer r1 a1)) (lex_fraction (mkLexer r2 a2)).
Proof.
  intros Hs. unfold lex_fraction, peek_char, peek_second_char. cbn [remaining]. rewrite <- (similar_head _ _ Hs).
  destruct (peek_is (Z.eqb c_dot) (head r1)) eqn:Hd; [|exists []; by apply over_nil].
  destruct (similar_peek _ _ _ Hs eq_refl eq_refl Hd) as (c & s1 & s2 & -> & -> & Hc & Hs').
  change ((c :: s1) !! 1%nat) with (s1 !! 0%nat). change ((c :: s2) !! 1%nat) with (s2 !! 0%nat).
  rewrite <- !head_lookup, <- (similar_head _ _ Hs'). destruct (peek_is is_ascii_digit (head s1)); [|exists []; by apply over_nil].
  cbn [andb lex_advance remaining cursor]. destruct (digits_similar s1 s2 (a1 + len_utf8 c) (a2 + len_utf8 c) Hs') as (t & Ht & _).
  exists ([c] ++ t). by apply (over_trans _ _ _ _ _ _ _ _ (over_char c s1 s2 a1 a2 Hc Hs')).
Qed.

(** The exponent is there in both texts, or wrong in both. *)
Lemma exponent_similar s1 s2 r1 r2 a1 a2 :
  similar r1 r2 ->
  match lex_exponent s1 (mkLexer r1 a1), lex_exponent s2 (mkLexer r2 a2) with
  | Ok l1, Ok l2 => exists t, over t r1 r2 l1 l2
  | Err e1, Err e2 => message e1 = message e2
  | _, _ => False
  end.
Proof.
  intros Hs. unfold lex_exponent, peek_char. cbn [remaining]. rewrite <- (similar_head _ _ Hs).
  destruct (peek_is is_exponent (head r1)) eqn:He; [|exists []; by apply over_nil].
  destruct (similar_peek _ _ _ Hs eq_refl eq_refl He) as (c & q1 & q2 & -> & -> & Hc & Hs'). clear He.
  pose proof (over_char c q1 q2 a1 a2 Hc Hs') as Hover. cbn [lex_advance remaining cursor] in *. rewrite <- (similar_head _ _ Hs').
  assert (forall t u1 u2 b1 b2, over t (c :: q1) (c :: q2) (mkLexer u1 b1) (mkLexer u2 b2) ->
    match (if cursor (consume_ascii_digits (mkLexer u1 b1)) =? b1
           then Err (mkSyntaxError ExpectedExponentDigits (mkSpan s1 (cursor (consume_ascii_digits (mkLexer u1 b1)))))
           else Ok (consume_ascii_digits (mkLexer u1 b1))),
          (if cursor (consume_ascii_digits (mkLexer u2 b2)) =? b2
           then Err (mkSyntaxError ExpectedExponentDigits (mkSpan s2 (cursor (consume_ascii_digits (mkLexer u2 b2)))))
           else Ok (consume_ascii_digits (mkLexer u2 b2))) with
    | Ok l1, Ok l2 => exists t, over t (c :: q1) (c :: q2) l1 l2
    | Err e1, Err e2 => message e1 = message e2
    | _, _ => False
    end) as Hdigits.
  { intros t u1 u2 b1 b2 Hu. destruct (digits_similar u1 u2 b1 b2 (proj2 (proj2 Hu))) as (d & Hd & ->).
    destruct (_ =? _); [done|]. exists (t ++ d). by eapply over_trans. }
  destruct (peek_is is_sign (head q1)) eqn:Hg; [|by apply Hdigits with (t := [c])].
  destruct Hs' as [|d u1 u2 Hd Hs'|t u1 u2 Ht Hr Hs'|v1 v2 u1 u2 Hs'|v]; [done| | |done|done].
  - apply Hdigits with (t := [c; d]). by apply (over_trans [c] [d] _ _ _ _ _ _ Hover), (over_char d u1 u2).
  - unfold consume_ascii_digits, advance_while. cbn [lex_advance remaining cursor skip_while].
    change (is_ascii_digit c_minus) with false. cbn [cursor]. by rewrite !Z.eqb_refl.
Qed.

Lemma text_over t r1 r2 l1 l2 a1 a2 :
  over t r1 r2 l1 l2 -> text_between (mkLexer r1 a1) l1 = t /\ text_between (mkLexer r2 a2) l2 = t.
Proof. destruct l1, l2. intros (-> & -> & _). by rewrite !text_between_app. Qed.

Lemma number_similar r1 r2 a1 a2 : similar r1 r2 -> same_step (lex_number (mkLexer r1 a1)) (lex_number (mkLexer r2 a2)).
Proof.
  intros Hs. unfold lex_number. cbn [cursor]. destruct (digits_similar r1 r2 a1 a2 Hs) as (t & Ht & _).
  destruct (consume_ascii_digits (mkLexer r1 a1)) as [u1 b1], (consume_ascii_digits (mkLexer r2 a2)) as [u2 b2].
  destruct (fraction_similar u1 u2 b1 b2 (proj2 (proj2 Ht))) as (f & Hf).
  destruct (lex_fraction (mkLexer u1 b1)) as [w1 d1], (lex_fraction (mkLexer u2 b2)) as [w2 d2].
  pose proof (over_trans _ _ _ _ _ _ _ _ Ht Hf) as Htf.
  pose proof (exponent_similar a1 a2 w1 w2 d1 d2 (proj2 (proj2 Hf))) as He.
  destruct (lex_exponent a1 (mkLexer w1 d1)) as [l1|e1], (lex_exponent a2 (mkLexer w2 d2)) as [l2|e2]; [|done..].
  destruct He as (x & Hx). pose proof (over_trans _ _ _ _ _ _ _ _ Htf Hx) as Hall. split; [|apply Hall].
  destruct (text_over _ _ _ _ _ a1 a2 Hall) as [-> ->]. by left.
Qed.

Lemma identifier_similar c r1 r2 a1 a2 :
  plain_char c r1 -> similar r1 r2 -> same_step (Ok (lex_identifier (mkLexer (c :: r1) a1))) (Ok (lex_identifier (mkLexer (c :: r2) a2))).
Proof.
  intros Hc Hs. unfold lex_identifier, advance_while. cbn [lex_advance remaining cursor].
  destruct (skip_while_similar is_identifier_continue r1 r2 (a1 + len_utf8 c) (a2 + len_utf8 c)) as (t & s1 & s2 & b1 & b2 & -> & -> & Hs' & -> & -> & _).
  { by rewrite (proj2 (ascii_class c_quote ltac:(done))). }
  { by rewrite (proj2 (ascii_class c_minus ltac:(done))). }
  { done. }
  split; [|done]. change (c :: t ++ s1) with ((c :: t) ++ s1). change (c :: t ++ s2) with ((c :: t) ++ s2). rewrite !text_between_app. by left.
Qed.
Lemma consume_similar e r1 r2 a1 a2 :
  e <> c_quote -> e <> c_minus -> similar r1 r2 ->
  (consume_char e (mkLexer r1 a1)).1 = (consume_char e (mkLexer r2 a2)).1 /\
  similar (remaining (consume_char e (mkLexer r1 a1)).2) (remaining (consume_char e (mkLexer r2 a2)).2).
Proof.
  intros Hq%Z.eqb_neq Hm%Z.eqb_neq Hs. unfold consume_char, peek_char. cbn [remaining]. rewrite <- (similar_head _ _ Hs).
  destruct (peek_is (Z.eqb e) (head r1)) eqn:He; [|done].
  by destruct (similar_peek _ _ _ Hs Hq Hm He) as (c & s1 & s2 & -> & -> & _ & Hs').
Qed.

Lemma next_token_similar r1 r2 a1 a2 :
  similar r1 r2 -> r1 <> [] -> starts_with2 c_minus c_minus r1 = false ->
  same_step (next_token (mkLexer r1 a1)) (next_token (mkLexer r2 a2)).
Proof.
  assert (forall k s1 s2 l1 l2, similar (remaining l1) (remaining l2) -> same_step (Ok (mkToken k s1, l1)) (Ok (mkToken k s2, l2))) as Hfin
    by (intros; split; [by left|done]).
  intros [|c q1 q2 Hc Hs|t q1 q2 Ht Hr Hs|v1 v2 q1 q2 Hs|v] Hne Hcom; [done| |done| |].
  - unfold next_token, peek_char. cbn [head remaining cursor lex_advance].
    destruct (single c) as [k|]; [by apply Hfin|].
    destruct (consume_similar c_equal q1 q2 (a1 + len_utf8 c) (a2 + len_utf8 c) ltac:(done) ltac:(done) Hs) as [E1 S1].
    destruct (consume_similar c_greater q1 q2 (a1 + len_utf8 c) (a2 + len_utf8 c) ltac:(done) ltac:(done) Hs) as [E2 S2].
    destruct (consume_char c_equal (mkLexer q1 _)) as [e1 m1], (consume_char c_equal (mkLexer q2 _)) as [e2 m2].
    destruct (consume_char c_greater (mkLexer q1 _)) as [g1 n1], (consume_char c_greater (mkLexer q2 _)) as [g2 n2].
    cbn [fst snd] in *. subst e2 g2.
    destruct (c =? c_less); [destruct e1; [by apply Hfin|destruct g1; by apply Hfin]|].
    destruct (c =? c_greater); [destruct e1; by apply Hfin|]. destruct (c =? c_bang); [destruct e1; [by apply Hfin|done]|].
    destruct Hc as (Hq & Hd & Hc). rewrite (proj2 (Z.eqb_neq _ _) Hq), (proj2 (Z.eqb_neq _ _) Hd).
    destruct (is_ascii_digit c); [apply number_similar; by constructor|].
    destruct (is_identifier_start c); [by apply identifier_similar|done].
  - change (same_step (lex_string (mkLexer (c_quote :: escape c_quote v1 ++ c_quote :: q1) a1)) (lex_string (mkLexer (c_quote :: escape c_quote v2 ++ c_quote :: q2) a2))).
    unfold lex_string. cbn [lex_advance remaining cursor].
    pose proof (lex_quoted_similar q1 q2 Hs v1 v2 (a1 + len_utf8 c_quote) (a2 + len_utf8 c_quote) [] []) as Hl.
    destruct (lex_quoted _ _ (a1 + _) _) as [[x1 l1]|], (lex_quoted _ _ (a2 + _) _) as [[x2 l2]|]; [|done..].
    split; [|done]. right. by eexists _, _.
  - change (same_step (lex_string (mkLexer (c_quote :: escape c_quote v) a1)) (lex_string (mkLexer (c_quote :: escape c_quote v) a2))).
    unfold lex_string. cbn [lex_advance remaining cursor]. by rewrite !lex_quoted_open.
Qed.

(** ** The whole text *)

(** The same tokens up to the values of string literals, or the same error. *)
Definition same_tokens (x y : SResult (list Token)) : Prop :=
  match x, y with
  | Ok ts1, Ok ts2 => Forall2 same_kind ts1 ts2
  | Err e1, Err e2 => message e1 = message e2
  | _, _ => False
  end.

Lemma tokenize_loop_similar f1 f2 r1 r2 a1 a2 ts1 ts2 :
  0 <= a1 -> 0 <= a2 -> (length r1 <= f1)%nat -> (length r2 <= f2)%nat -> similar r1 r2 -> Forall2 same_kind ts1 ts2 ->
  same_tokens (tokenize_loop f1 (mkLexer r1 a1) ts1) (tokenize_loop f2 (mkLexer r2 a2) ts2).
Proof.
  revert f2 r1 r2 a1 a2 ts1 ts2. induction f1 as [|f1 IH]; intros f2 r1 r2 a1 a2 ts1 ts2 Ha1 Ha2 H1 H2 Hs Hts; destruct f2 as [|f2].
  all: cbn [tokenize_loop remaining].
  all: pose proof (skip_trivia_ok (S (length r1)) (mkLexer r1 a1) Ha1 (le_n _)) as Hk1; pose proof (skip_trivia_ok (S (length r2)) (mkLexer r2 a2) Ha2 (le_n _)) as Hk2.
  all: destruct (skip_trivia_similar (S (length r1)) (S (length r2)) r1 r2 a1 a2 ltac:(lia) ltac:(lia) Hs) as (q1 & q2 & b1 & b2 & E1 & E2 & Hq & L1 & L2 & Hcom).
  all: rewrite E1 in Hk1 |- *; rewrite E2 in Hk2 |- *; cbn [mbind result_bind remaining cursor].
  all: apply proj1, moves_cursor in Hk1; apply proj1, moves_cursor in Hk2; cbn [cursor] in Hk1, Hk2.
  all: pose proof (similar_empty _ _ Hq) as Hemp.
  all: destruct q1 as [|c1 q1], q2 as [|c2 q2]; try (exfalso; (discriminate (proj1 Hemp eq_refl) || discriminate (proj2 Hemp eq_refl))).
  all: cbn [length] in *; try lia; try (apply Forall2_app; [done|]; constructor; [by left|constructor]).
  pose proof (next_token_similar _ _ b1 b2 Hq ltac:(done) Hcom) as Hstep.
  pose proof (next_token_ok (mkLexer (c1 :: q1) b1) c1 ltac:(cbn; lia) eq_refl) as N1.
  pose proof (next_token_ok (mkLexer (c2 :: q2) b2) c2 ltac:(cbn; lia) eq_refl) as N2.
  destruct (next_token (mkLexer (c1 :: q1) b1)) as [[t1 [s1 d1]]|], (next_token (mkLexer (c2 :: q2) b2)) as [[t2 [s2 d2]]|]; [|done..].
  destruct Hstep as [Hk Hsim], N1 as (N1 & _), N2 as (N2 & _). cbn [mbind result_bind].
  pose proof (moves_on_cursor _ _ N1). pose proof (moves_on_shorter _ _ N1). pose proof (moves_on_cursor _ _ N2). pose proof (moves_on_shorter _ _ N2).
  cbn [remaining cursor length] in *. apply IH; try lia; [done|]. by apply Forall2_app; [|constructor].
Qed.

Lemma tokenize_similar s1 s2 : similar s1 s2 -> same_tokens (tokenize s1) (tokenize s2).
Proof. intros Hs. by apply tokenize_loop_similar. Qed.
End Similar.

(** ** Substitution *)

Definition starts_with_star (ps : list Piece) : bool := match ps with POther c :: _ => c =? c_star | _ => false end.

(** A text whose parameters the scan finds where the lexer does: it has no
    quoted identifier and no block comment, which the scan does not know. *)
Fixpoint plain_pieces (ps : list Piece) : bool :=
  match ps with
  | [] => true
  | POther c :: ps => negb (c =? c_dquote) && negb ((c =? c_slash) && starts_with_star ps) && plain_pieces ps
  | _ :: ps => plain_pieces ps
  end.

Definition plain_template (sql : str) : bool := plain_pieces (pieces_of sql).

Lemma string_rest_spec r text rest :
  string_rest r = (text, rest) ->
  r = text ++ rest /\ exists v, text = escape c_quote v ++ [c_quote] \/ text = escape c_quote v /\ rest = [].
Proof.
  remember (length r) as n eqn:Hn. revert r Hn text rest. induction n as [n IH] using lt_wf_ind. intros [|c r] Hn text rest; cbn [string_rest].
  - intros [= <- <-]. split; [done|]. exists []. by right.
  - cbn [length] in Hn. destruct (Z.eqb_spec c c_quote) as [->|Hc].
    + destruct r as [|d r]; [intros [= <- <-]; split; [done|]; exists []; by left|]. cbn [length] in Hn.
      destruct (Z.eqb_spec d c_quote) as [->|Hd]; [|intros [= <- <-]; split; [done|]; exists []; by left].
      destruct (string_rest r) as [t q] eqn:Hr. intros [= <- <-].
      destruct (IH (length r) ltac:(lia) r eq_refl _ _ Hr) as (-> & v & Hv). split; [done|]. exists (c_quote :: v).
      cbn [escape]. rewrite Z.eqb_refl. destruct Hv as [->|[-> ->]]; [by left|by right].
    + destruct (string_rest r) as [t q] eqn:Hr. intros [= <- <-].
      destruct (IH (length r) ltac:(lia) r eq_refl _ _ Hr) as (-> & v & Hv). split; [done|]. exists (c :: v).
      cbn [escape]. rewrite (proj2 (Z.eqb_neq _ _) Hc). destruct Hv as [->|[-> ->]]; [by left|by right].
Qed.

Lemma comment_rest_spec r text rest :
  comment_rest r = (text, rest) ->
  r = text ++ rest /\ Forall (fun c => c <> c_newline) text /\ (rest = [] \/ head rest = Some c_newline).
Proof.
  revert text rest. induction r as [|c r IH]; intros text rest; cbn [comment_rest]; [intros [= <- <-]; split_and!; auto|].
  destruct (Z.eqb_spec c c_newline) as [->|Hc]; [intros [= <- <-]; split_and!; auto|].
  destruct (comment_rest r) as [t q]. intros [= <- <-]. destruct (IH _ _ eq_refl) as (-> & Ht & Hq). split_and!; [done|by constructor|done].
Qed.

Lemma split_digits_spec r digits rest : split_digits r = (digits, rest) -> r = digits ++ rest.
Proof.
  revert digits rest. induction r as [|c r IH]; intros digits rest; cbn [split_digits]; [by intros [= <- <-]|].
  destruct (is_ascii_digit c); [|by intros [= <- <-]]. destruct (split_digits r) as [d q]. intros [= <- <-]. by rewrite (IH _ _ eq_refl).
Qed.

(** What follows a piece is the end of what followed its first character. *)
Lemma next_piece_suffix c r p rest : next_piece c r = (p, rest) -> rest `suffix_of` r.
Proof.
  unfold next_piece. repeat case_match; intros [= <- <-]; try done.
  all: match goal with
  | Hs : string_rest _ = _ |- _ => apply string_rest_spec in Hs as [-> _]
  | Hs : comment_rest _ = _ |- _ => apply comment_rest_spec in Hs as [-> _]
  | Hs : split_digits _ = _ |- _ => apply split_digits_spec in Hs as ->
  end; by eexists.
Qed.

Lemma next_piece_shorter c r p rest : next_piece c r = (p, rest) -> (length rest <= length r)%nat.
Proof. intros [t ->]%next_piece_suffix. rewrite length_app. lia. Qed.

Lemma next_piece_str c r p rest : is_str r -> next_piece c r = (p, rest) -> is_str rest.
Proof. intros Hr [t ->]%next_piece_suffix. by apply Forall_app in Hr as [_ ?]. Qed.

Lemma push_bytes_ascii c : 0 <= c < 128 -> push_bytes c = [c].
Proof. intros Hc. unfold push_bytes, encode_utf8. rewrite (proj2 (Z.ltb_lt _ _)) by lia. cbn. by rewrite byte_of_Z_small by lia. Qed.

Lemma push_bytes_high c : is_char c -> 128 <= c -> Forall (fun x => 128 <= x) (push_bytes c).
Proof.
  unfold is_char, push_bytes, encode_utf8. intros Hc Hh.
  assert (forall z, 128 <= byte_to_Z (byte_of_Z (128 + z mod 64))) as Hlow.
  { intros z. pose proof (Z.mod_pos_bound z 64 ltac:(lia)). rewrite byte_of_Z_small; lia. }
  rewrite (proj2 (Z.ltb_ge c 128)) by lia.
  repeat case_match; bool_to_prop; repeat (apply Forall_cons; split; [try apply Hlow|]); try done; rewrite byte_of_Z_small.
  all: pose proof (Z.div_pos c 64 ltac:(lia) ltac:(lia)); pose proof (Z.div_pos c 4096 ltac:(lia) ltac:(lia)); pose proof (Z.div_pos c 262144 ltac:(lia) ltac:(lia)).
  all: pose proof (Z.div_lt_upper_bound c 64 32 ltac:(lia)); pose proof (Z.div_lt_upper_bound c 4096 16 ltac:(lia)); pose proof (Z.div_lt_upper_bound c 262144 5 ltac:(lia)); lia.
Qed.

Lemma bound_literal_head v : exists x t, bound_literal v = x :: t /\ (x = c_quote \/ x = 78).
Proof. destruct v as [v|]; [by exists c_quote, (escape c_quote v ++ [c_quote]); auto|]. eexists 78, _. split; [reflexivity|by right]. Qed.

(** The first character that a piece gives is the one it was read from,
    except at a parameter or beyond ASCII. *)
Lemma piece_head (a : list (option str)) c r p rest t :
  is_char c -> next_piece c r = (p, rest) -> substitute_piece (bound_literal <$> a) p = Ok t ->
  exists x t', t = x :: t' /\ (x = c \/ x = c_quote \/ x = 78 \/ 128 <= x).
Proof.
  intros Hc. unfold next_piece. destruct (Z.eqb_spec c c_quote) as [->|Hq].
  { destruct (string_rest r). intros [= <- <-] [= <-]. eauto. }
  destruct (_ && _) eqn:Hm. { destruct (comment_rest r). intros [= <- <-] [= <-]. eauto. }
  destruct (Z.eqb_spec c c_dollar) as [->|Hd].
  - destruct (split_digits r) as [[|d digits] q]; intros [= <- <-]; [intros [= <-]; eauto|]. cbn [substitute_piece].
    destruct (parse_usize (d :: digits)) as [n|]; cbn [ok_or mbind result_bind]; [|done].
    destruct (checked_sub n 1) as [i|]; cbn [mbind option_bind]; [|done]. rewrite list_lookup_fmap.
    destruct (a !! Z.to_nat i) as [v|]; cbn; [|done]. intros [= <-].
    destruct (bound_literal_head v) as (x & t & -> & Hx). exists x, t. split; [done|]. naive_solver.
  - intros [= <- <-] [= <-]. destruct (decide (c < 128)) as [Hlt|Hge].
    + rewrite push_bytes_ascii by (destruct Hc; lia). eauto.
    + pose proof (push_bytes_high c Hc ltac:(lia)) as Hf. unfold push_bytes in *. pose proof (encode_utf8_ne_nil c).
      destruct (encode_utf8 c) as [|b bs]; [done|]. apply Forall_cons in Hf as [Hb _]. eexists _, _. split; [reflexivity|]. auto.
Qed.

(** The first character of the substituted text. *)
Lemma substituted_head (a : list (option str)) fuel sql ts :
  is_str sql -> (length sql <= fuel)%nat -> try_map (substitute_piece (bound_literal <$> a)) (pieces fuel sql) = Ok ts ->
  match sql with
  | [] => concat ts = []
  | c :: _ => exists x t, concat ts = x :: t /\ (x = c \/ x = c_quote \/ x = 78 \/ 128 <= x)
  end.
Proof.
  intros Hstr Hlen. destruct fuel as [|fuel]; [destruct sql; [by intros [= <-]|cbn in Hlen; lia]|].
  destruct sql as [|c r]; cbn [pieces]; [by intros [= <-]|]. apply Forall_cons in Hstr as [Hc _].
  destruct (next_piece c r) as [p rest] eqn:Hp. cbn [try_map].
  destruct (substitute_piece _ p) as [t|e] eqn:Ht; cbn [mbind result_bind]; [|done].
  destruct (try_map _ (pieces fuel rest)) as [ts'|e]; cbn [mbind result_bind]; [|done]. intros [= <-].
  destruct (piece_head a c r p rest t Hc Hp Ht) as (x & t' & -> & Hx). eexists _, _. split; [reflexivity|done].
Qed.

(** Both bindings give a text, or both give NULL. *)
Definition same_presence (v1 v2 : option str) : Prop := is_Some v1 <-> is_Some v2.

Lemma similar_literal v1 v2 r1 r2 : same_presence v1 v2 -> similar r1 r2 -> similar (bound_literal v1 ++ r1) (bound_literal v2 ++ r2).
Proof.
  intros Hv Hs. destruct v1 as [v1|], v2 as [v2|]; cbn [bound_literal].
  - unfold quote_literal. cbn [app]. rewrite <- !app_assoc. cbn [app]. by constructor.
  - destruct Hv as [Hv _]. destruct (Hv (mk_is_Some _ _ eq_refl)) as [? [=]].
  - destruct Hv as [_ Hv]. destruct (Hv (mk_is_Some _ _ eq_refl)) as [? [=]].
  - change (chars "NULL") with [78; 85; 76; 76]. do 4 (apply similar_char; [split_and!; done || (by intros [? _])|]). done.
Qed.

Lemma similar_high t r1 r2 : Forall (fun x => 128 <= x) t -> similar r1 r2 -> similar (t ++ r1) (t ++ r2).
Proof.
  intros Ht Hs. induction Ht as [|x t Hx Ht IH]; [done|]. apply similar_char; [|done].
  unfold plain_char, c_quote, c_dquote, c_minus, c_slash. split_and!; lia.
Qed.

(** The piece at the front of two substituted texts. *)
Lemma similar_piece (a b : list (option str)) fuel c r p rest ts ts' t t' :
  Forall2 same_presence a b -> is_str (c :: r) -> next_piece c r = (p, rest) -> (length rest <= fuel)%nat ->
  plain_pieces (p :: pieces fuel rest) = true ->
  try_map (substitute_piece (bound_literal <$> a)) (pieces fuel rest) = Ok ts ->
  substitute_piece (bound_literal <$> a) p = Ok t -> substitute_piece (bound_literal <$> b) p = Ok t' ->
  try_map (substitute_piece (bound_literal <$> b)) (pieces fuel rest) = Ok ts' ->
  similar (concat ts) (concat ts') -> similar (t ++ concat ts) (t' ++ concat ts').
Proof.
  intros Hab Hstr Hp Hlen Hplain Hts Ht Ht' Hts' Hs. apply Forall_cons in Hstr as [Hc Hstr].
  pose proof (next_piece_str _ _ _ _ Hstr Hp) as Hrest.
  pose proof (substituted_head a fuel rest ts Hrest Hlen Hts) as Hhead.
  unfold next_piece in Hp. destruct (Z.eqb_spec c c_quote) as [->|Hq].
  { destruct (string_rest r) as [text q] eqn:Hr. injection Hp as <- <-. injection Ht as <-. injection Ht' as <-.
    destruct (string_rest_spec _ _ _ Hr) as (_ & v & [->|[-> ->]]).
    - cbn [app]. rewrite <- !app_assoc. by constructor.
    - destruct fuel; injection Hts as <-; injection Hts' as <-; cbn [concat]; rewrite !app_nil_r; apply similar_open. }
  destruct ((c =? c_minus) && peek_is (Z.eqb c_minus) (head r)) eqn:Hm.
  { apply andb_true_iff in Hm as [->%Z.eqb_eq Hm]. destruct r as [|d r]; [done|]. apply Z.eqb_eq in Hm as <-.
    cbn [comment_rest] in Hp. change (c_minus =? c_newline) with false in Hp. destruct (comment_rest r) as [text q] eqn:Hr.
    injection Hp as <- <-. injection Ht as <-. injection Ht' as <-. destruct (comment_rest_spec _ _ _ Hr) as (-> & Htext & Hq').
    cbn [app]. apply similar_comment; [done| |done]. destruct q as [|d q]; [by left|right].
    destruct Hq' as [?|Hq']; [done|]. injection Hq' as ->. destruct fuel as [|fuel]; [cbn in Hlen; lia|].
    cbn [pieces next_piece] in Hts. revert Hts. change (next_piece c_newline q) with (POther c_newline, q). cbn [try_map substitute_piece mbind result_bind].
    destruct (try_map (substitute_piece (bound_literal <$> a)) (pieces fuel q)) as [us|]; cbn [mbind result_bind]; [|done].
    intros Heq. assert (ts = push_bytes c_newline :: us) as -> by congruence. done. }
  destruct (Z.eqb_spec c c_dollar) as [->|Hd].
  { destruct (split_digits r) as [digits q]. injection Hp as <- <-. destruct digits as [|d digits].
    - injection Ht as <-. injection Ht' as <-. apply similar_char; [split_and!; done || (by intros [? _])|done].
    - cbn [substitute_piece] in Ht, Ht'. destruct (parse_usize _) as [n|]; [|done]. cbn [ok_or mbind result_bind] in Ht, Ht'.
      destruct (checked_sub n 1) as [i|]; [|done]. cbn [mbind option_bind] in Ht, Ht'. rewrite list_lookup_fmap in Ht, Ht'.
      destruct (a !! Z.to_nat i) as [v1|] eqn:Ha; [|done]. destruct (Forall2_lookup_l _ _ _ _ _ Hab Ha) as (v2 & Hb & Hv). rewrite Hb in Ht'.
      injection Ht as <-. injection Ht' as <-. by apply similar_literal. }
  injection Hp as <- <-. injection Ht as <-. injection Ht' as <-. cbn [plain_pieces] in Hplain. bool_to_prop.
  destruct (decide (c < 128)) as [Hlt|Hge]; [|by apply similar_high, Hs; apply push_bytes_high; [|lia]].
  rewrite push_bytes_ascii by (destruct Hc; lia). apply similar_char; [|done]. split; [done|]. split; [done|].
  split; intros [-> Hx].
  - destruct r as [|d r]; [by rewrite Hhead in Hx|]. destruct Hhead as (x & t & Hx' & Hcase). rewrite Hx' in Hx. injection Hx as ->.
    destruct Hcase as [<-|[?|[?|?]]]; [|done|done|unfold c_minus in *; lia]. done.
  - destruct r as [|d r]; [by rewrite Hhead in Hx|]. destruct Hhead as (x & t & Hx' & Hcase). rewrite Hx' in Hx. injection Hx as ->.
    destruct Hcase as [<-|[?|[?|?]]]; [|done|done|unfold c_star in *; lia]. destruct fuel as [|fuel]; [cbn in Hlen; lia|].
    cbn [pieces] in *. change (next_piece c_star r) with (POther c_star, r) in *. done.
Qed.

Lemma substituted_similar (a b : list (option str)) fuel sql ts ts' :
  Forall2 same_presence a b -> is_str sql -> (length sql <= fuel)%nat -> plain_pieces (pieces fuel sql) = true ->
  try_map (substitute_piece (bound_literal <$> a)) (pieces fuel sql) = Ok ts ->
  try_map (substitute_piece (bound_literal <$> b)) (pieces fuel sql) = Ok ts' -> similar (concat ts) (concat ts').
Proof.
  intros Hab. revert sql ts ts'. induction fuel as [|fuel IH]; intros sql ts ts' Hstr Hlen Hplain Ha Hb.
  { injection Ha as <-. injection Hb as <-. constructor. }
  destruct sql as [|c r]; [injection Ha as <-; injection Hb as <-; constructor|]. cbn [pieces] in *.
  destruct (next_piece c r) as [p rest] eqn:Hp. pose proof (next_piece_shorter _ _ _ _ Hp) as Hl. cbn [length] in Hlen.
  apply bind_Ok in Ha as (t & Ht & (ts1 & Hts1 & [= <-])%bind_Ok). apply bind_Ok in Hb as (t' & Ht' & (ts1' & Hts1' & [= <-])%bind_Ok).
  cbn [concat]. eapply (similar_piece a b fuel c r p rest); try done; [lia|]. apply (IH rest); try done.
  - apply (next_piece_str c r p rest); [by apply Forall_cons in Hstr as [_ ?]|done].
  - lia.
  - destruct p; cbn [plain_pieces] in Hplain; [done..|]. by bool_to_prop.
Qed.

(** ** The theorem *)

Section Injection.
Context `{CharTables}.

(** C22: The values bound to a statement's parameters cannot change what the
    statement says: with any two bindings of texts, the substituted SQL has
    the same tokens up to the values of its string literals, or fails with
    the same error. *)
Theorem parameters_do_not_inject (sql : str) (a b : list (option str)) out_a out_b :
  is_str sql -> plain_template sql = true -> Forall2 same_presence a b ->
  substitute_parameters sql (bound_literal <$> a) = Ok out_a ->
  substitute_parameters sql (bound_literal <$> b) = Ok out_b ->
  same_tokens (tokenize out_a) (tokenize out_b).
Proof.
  intros Hstr Hplain Hab (ts & Ha & [= <-])%bind_Ok (ts' & Hb & [= <-])%bind_Ok. apply tokenize_similar.
  by eapply (substituted_similar a b (length sql) sql).
Qed.

(** A bound text is read back as it was sent. *)
Lemma quote_literal_read v at_ : exists at',
  next_token (mkLexer (quote_literal v) at_) = Ok (mkToken (TString v) (mkSpan at_ at'), mkLexer [] at').
Proof. unfold quote_literal. by apply (next_token_string v [] at_). Qed.
End Injection.

(** ** A witness, and where the condition is needed *)

#[local] Existing Instance ascii_tables.

Definition sample_sql : str := chars "SELECT id FROM t WHERE name = $1 -- $2
 AND tag = $2".

#[local] Instance is_char_dec c : Decision (is_char c).
Proof. unfold is_char. apply _. Defined.

Definition harmless : list (option str) := [Some (chars "ann"); Some (chars "x")].
Definition hostile : list (option str) := [Some (chars "' OR 1 = 1; DROP TABLE t; --"); Some (chars "it's")].

Lemma parameters_do_not_inject_witness :
  exists out_a out_b, substitute_parameters sample_sql (bound_literal <$> harmless) = Ok out_a /\
    substitute_parameters sample_sql (bound_literal <$> hostile) = Ok out_b /\ same_tokens (tokenize out_a) (tokenize out_b).
Proof.
  eexists _, _. split; [vm_compute; reflexivity|]. split; [vm_compute; reflexivity|].
  apply (parameters_do_not_inject sample_sql harmless hostile).
  - apply (bool_decide_unpack (is_str sample_sql)). vm_compute. exact I.
  - vm_compute. reflexivity.
  - repeat constructor; by eexists.
  - vm_compute. reflexivity.
  - vm_compute. reflexivity.
Defined.

(** Inside a block comment, which the scan does not know, a value can close
    the comment and add a statement. *)
Definition commented_sql : str := chars "/* $1 */ SELECT id FROM t".

Definition injected : SResult (list TokenKind) :=
  match substitute_parameters commented_sql [bound_literal (Some (chars "*/ DROP TABLE t; /*"))] with
  | Ok out => match tokenize out with Ok ts => Ok (kind <$> ts) | Err e => Err e end
  | Err _ => Ok []
  end.

Lemma block_comment_injects :
  injected = Ok [TKeyword KDrop; TKeyword KTable; TIdentifier (chars "t") false; TSemicolon;
                 TKeyword KSelect; TIdentifier (chars "id") false; TKeyword KFrom; TIdentifier (chars "t") false; TEof].
Proof. vm_compute. reflexivity. Qed.
