(* ===== verification/Pg.v ===== *)
(** * The PostgreSQL frontend

    Models [src/server/src/pg.rs]: one connection from its handshake to its
    end, with the simple and the extended query protocol.  The client's bytes
    are the list they make; what the server writes is appended to another.
    The session is behind the class [SqlService], which [session_service]
    instantiates with the sessions of SqlSession.v. *)
From stdpp Require Import pretty.
From S2P Require Import Prelude Order Page Node Record Store ByteLru Tree Backend Mvcc Token Lexer LexerPrint F64 Ast Parser.
From S2P Require Import Utf8 Schema Expression Codec Engine SqlSession PgText MvccSystem MvccExamples EngineExamples SessionExamples.
Local Open Scope Z_scope.

(** ** What a connection relies on *)

(** A session: SQL to run, SQL to describe, and its state.  Running has no
    result when the retries of a statement run out of fuel. *)
Class SqlService (S : Type) := {
  service_execute : str -> S -> option (EResult (list StatementOutput) * S);
  service_describe : str -> S -> EResult (option (list OutputColumn)) * S;
  service_status : S -> SessionStatus;
}.

Definition session_service {B : Type} {BB : Backend B} {SD : Serde} `{CharTables} (size_of_record : Z)
    (within_budget : nat -> bool) (others : nat -> @Inner B -> @Inner B) (fuel : nat) : SqlService (@SqlSession B) := {|
  service_execute := execute size_of_record within_budget others fuel;
  service_describe := describe size_of_record;
  service_status := transaction_status;
|}.

(** The texts of [Display] for errors and for floats. *)
Class Display := {
  message_text : PgMessage -> str;
  float_text : f64 -> str;
}.

(** ** Strings from bytes *)

Definition is_continuation (b : byte) : bool := (128 <=? byte_to_Z b) && (byte_to_Z b <=? 191).
Definition low6 (b : byte) : Z := byte_to_Z b mod 64.
Definition within (lo hi : Z) (b : byte) : bool := (lo <=? byte_to_Z b) && (byte_to_Z b <=? hi).

(** [String::from_utf8]: no overlong forms, no surrogates, nothing above
    U+10FFFF. *)
Fixpoint from_utf8 (bs : list byte) : option str :=
  match bs with
  | [] => Some []
  | b :: r =>
      if within 0 127 b then cons (byte_to_Z b) <$> from_utf8 r
      else if within 194 223 b then
        match r with
        | b1 :: r => if is_continuation b1 then cons ((byte_to_Z b - 192) * 64 + low6 b1) <$> from_utf8 r else None
        | _ => None
        end
      else if within 224 239 b then
        match r with
        | b1 :: b2 :: r =>
            let c := ((byte_to_Z b - 224) * 64 + low6 b1) * 64 + low6 b2 in
            if is_continuation b1 && is_continuation b2 && (2048 <=? c) && negb ((55296 <=? c) && (c <=? 57343))
            then cons c <$> from_utf8 r else None
        | _ => None
        end
      else if within 240 244 b then
        match r with
        | b1 :: b2 :: b3 :: r =>
            let c := (((byte_to_Z b - 240) * 64 + low6 b1) * 64 + low6 b2) * 64 + low6 b3 in
            if is_continuation b1 && is_continuation b2 && is_continuation b3 && (65536 <=? c) && (c <? 1114112)
            then cons c <$> from_utf8 r else None
        | _ => None
        end
      else None
  end.

(** Signed integers, most significant byte first. *)
Definition signed (bits z : Z) : Z := if z <? 2 ^ (bits - 1) then z else z - 2 ^ bits.

(** ** Reading a message: [Cursor] *)

Abbreviation CursorM := (ST (list byte) PgError).

Definition take_bytes (count : Z) : CursorM (list byte) :=
  payload ← get;
  if count <=? blen payload then
    _ ← modify (drop (Z.to_nat count)); mret (take (Z.to_nat count) payload)
  else throw ("08P01"%string, MessageTruncated).

Definition take_u8 : CursorM Z := bytes ← take_bytes 1; mret (from_be bytes).
Definition take_i16 : CursorM Z := bytes ← take_bytes 2; mret (signed 16 (from_be bytes)).
Definition take_i32 : CursorM Z := bytes ← take_bytes 4; mret (signed 32 (from_be bytes)).

Definition is_zero (b : byte) : bool := byte_to_Z b =? 0.

Definition take_cstring : CursorM str :=
  payload ← get;
  n ← lift (ok_or (position is_zero payload) ("08P01"%string, StringUnterminated));
  _ ← modify (drop (S n));
  lift (ok_or (from_utf8 (take n payload)) ("22021"%string, StringNotUtf8)).

(** [cstring_at(&payload, 0)]. *)
Definition cstring_at (payload : list byte) : option str := n ← position is_zero payload; from_utf8 (take n payload).

(** [for _ in 0..count]: [count] values, none when it is negative. *)
Definition times {A} (count : Z) (m : CursorM A) : CursorM (list A) := collect (replicate (Z.to_nat count) tt) (fun _ => m).

(** ** Writing messages *)

Definition write_message (kind : string) (body : list byte) : list byte :=
  bytes_of_string kind ++ to_be 4 (blen body + 4) ++ body.

(** A text and its terminating zero. *)
Definition cstring (text : str) : list byte := as_bytes text ++ [Byte.x00].

Definition write_command_complete (tag : str) : list byte := write_message "C" (cstring tag).
Definition write_parameter_status (name value : string) : list byte :=
  write_message "S" (cstring (chars name) ++ cstring (chars value)).

Section Connection.
Context `{CharTables} `{Display} {S : Type} `{SqlService S}.

Definition error_fields (e : PgError) : list byte :=
  bytes_of_string "S" ++ cstring (chars "ERROR") ++ bytes_of_string "V" ++ cstring (chars "ERROR") ++
  bytes_of_string "C" ++ cstring (chars e.1) ++ bytes_of_string "M" ++ cstring (message_text e.2) ++ [Byte.x00].

Definition send_error (e : PgError) : list byte := write_message "E" (error_fields e).

Definition send_ready (session : S) : list byte :=
  write_message "Z" (bytes_of_string match service_status session with
                                     | StatusIdle => "I" | StatusInTransaction => "T" | StatusFailed => "E"
                                     end).

Definition sqlstate (e : EngineError) : string :=
  match e with
  | ESyntax _ _ => "42601"
  | TableNotFound _ => "42P01"
  | TableAlreadyExists _ | IndexAlreadyExists _ => "42P07"
  | IndexNotFound _ => "42704"
  | ColumnNotFound _ => "42703"
  | ConstraintViolation _ => "23505"
  | ETransaction _ => "40001"
  | TransactionAborted => "25P02"
  | TransactionAlreadyActive | NoActiveTransaction => "25000"
  | Unsupported _ => "0A000"
  | _ => "XX000"
  end.

Definition engine_error (e : EngineError) : PgError := (sqlstate e, EngineMessage e).

Definition type_oid (t : LogicalType) : Z :=
  match t with TBoolean => 16 | TInt64 => 20 | TFloat64 => 701 | TText _ | TUnknown => 25 end.

Definition value_text (v : Value) : option str :=
  match v with
  | VNull => None
  | VBoolean true => Some (chars "t")
  | VBoolean false => Some (chars "f")
  | VInteger z => Some (chars (pretty z))
  | VFloat x => Some (float_text x)
  | VText s => Some s
  end.

Definition column_description (c : OutputColumn) : list byte :=
  cstring (oc_name c) ++ to_be 4 0 ++ to_be 2 0 ++ to_be 4 (type_oid (oc_data_type c)) ++ to_be 2 (-1) ++ to_be 4 (-1) ++ to_be 2 0.

Definition write_row_description (columns : list OutputColumn) : list byte :=
  write_message "T" (to_be 2 (blen columns) ++ mjoin (column_description <$> columns)).

Definition write_row (row : list Value) : list byte :=
  let field (v : Value) := match value_text v with
                           | Some text => let bytes := as_bytes text in to_be 4 (blen bytes) ++ bytes
                           | None => to_be 4 (-1)
                           end in
  write_message "D" (to_be 2 (blen row) ++ mjoin (field <$> row)).

Definition write_output_rows_only (output : StatementOutput) : list byte :=
  match output with
  | OTransaction state =>
      write_command_complete (chars match state with Begun => "BEGIN" | Committed => "COMMIT" | RolledBack => "ROLLBACK" end)
  | OCommand tag affected_rows =>
      write_command_complete (if String.eqb tag "INSERT" then chars "INSERT 0 " ++ chars (pretty affected_rows)
                              else chars tag ++ chars " " ++ chars (pretty affected_rows))
  | OQuery _ rows => mjoin (write_row <$> rows) ++ write_command_complete (chars "SELECT " ++ chars (pretty (blen rows)))
  end.

Definition write_output (output : StatementOutput) : list byte :=
  match output with OQuery columns _ => write_row_description columns | _ => [] end ++ write_output_rows_only output.

(** ** The state of a connection *)

Record Prepared := mkPrepared { prepared_sql : str; parameters : Z }.

Record ExtendedState := mkExtended {
  statements : gmap str Prepared;
  portals : gmap str str;
  skip_until_sync : bool;
}.

Definition skipping (skip : bool) (e : ExtendedState) : ExtendedState := mkExtended (statements e) (portals e) skip.

Record Connection := mkConnection {
  k_session : S;
  k_extended : ExtendedState;
  k_output : list byte;
}.

Definition write (bytes : list byte) (k : Connection) : Connection := mkConnection (k_session k) (k_extended k) (k_output k ++ bytes).
Definition set_session (s : S) (k : Connection) : Connection := mkConnection s (k_extended k) (k_output k).
Definition set_extended (e : ExtendedState) (k : Connection) : Connection := mkConnection (k_session k) e (k_output k).

(** ** The messages *)

Definition handle_parse (e : ExtendedState) (payload : list byte) : PgResult ExtendedState :=
  eval (
    name ← take_cstring;
    sql ← take_cstring;
    declared ← take_i16;
    _ ← times declared take_i32;
    mret (mkExtended (<[name := mkPrepared sql (count_parameters sql)]> (statements e)) (portals e) (skip_until_sync e)))
  payload.

Definition parameter_format (formats : list Z) (position : nat) : Z :=
  match formats with [] => 0 | [format] => format | _ => default 0 (formats !! position) end.

(** One value of a Bind message; a negative length stands for NULL. *)
Definition take_parameter (formats : list Z) (position : nat) : CursorM (option str) :=
  if negb (parameter_format formats position =? 0) then throw ("0A000"%string, BinaryFormat)
  else
    length ← take_i32;
    if length <? 0 then mret None
    else
      bytes ← take_bytes length;
      text ← lift (ok_or (from_utf8 bytes) ("22021"%string, ParameterNotUtf8));
      mret (Some text).

Definition handle_bind (e : ExtendedState) (payload : list byte) : PgResult ExtendedState :=
  eval (
    portal_name ← take_cstring;
    statement_name ← take_cstring;
    prepared ← lift (ok_or (statements e !! statement_name) ("26000"%string, StatementMissing statement_name));
    format_count ← take_i16;
    formats ← times format_count take_i16;
    supplied ← take_i16;
    let value_count := supplied mod (U64_MAX + 1) in
    if negb (value_count =? parameters prepared) then throw ("08P01"%string, ParameterCount value_count (parameters prepared))
    else
      values ← collect (seq 0 (Z.to_nat value_count)) (take_parameter formats);
      sql ← lift (substitute_parameters (prepared_sql prepared) (bound_literal <$> values));
      mret (mkExtended (statements e) (<[portal_name := sql]> (portals e)) (skip_until_sync e)))
  payload.

Definition ASCII_S : Z := 83.
Definition ASCII_P : Z := 80.

(** The SQL that a Describe message names, and its statement when it names
    one, with NULL for every parameter. *)
Definition describe_target (e : ExtendedState) (payload : list byte) : PgResult (str * option Prepared) :=
  eval (
    target ← take_u8;
    name ← take_cstring;
    if target =? ASCII_S then
      prepared ← lift (ok_or (statements e !! name) ("26000"%string, StatementMissing name));
      sql ← lift (substitute_parameters (prepared_sql prepared) (replicate (Z.to_nat (parameters prepared)) (chars "NULL")));
      mret (sql, Some prepared)
    else if target =? ASCII_P then
      sql ← lift (ok_or (portals e !! name) ("34000"%string, PortalMissing name));
      mret (sql, None)
    else throw ("08P01"%string, BadDescribeTarget))
  payload.

Definition handle_describe (payload : list byte) (k : Connection) : PgResult unit * Connection :=
  match describe_target (k_extended k) payload with
  | Err e => (Err e, k)
  | Ok (sql, prepared) =>
      let k := match prepared with
               | Some p => write (write_message "t" (to_be 2 (parameters p) ++ mjoin (replicate (Z.to_nat (parameters p)) (to_be 4 25)))) k
               | None => k
               end in
      let '(r, s) := service_describe sql (k_session k) in
      let k := set_session s k in
      match r with
      | Ok (Some columns) => (Ok tt, write (write_row_description columns) k)
      | Ok None => (Ok tt, write (write_message "n" []) k)
      | Err e => (Err (engine_error e), k)
      end
  end.

Definition handle_execute (payload : list byte) (k : Connection) : option (PgResult unit * Connection) :=
  match eval (name ← take_cstring; lift (ok_or (portals (k_extended k) !! name) ("34000"%string, PortalMissing name))) payload with
  | Err e => Some (Err e, k)
  | Ok sql =>
      x ← service_execute sql (k_session k);
      let k := set_session x.2 k in
      Some match x.1 with
           | Ok outputs => (Ok tt, write (mjoin (write_output_rows_only <$> outputs)) k)
           | Err e => (Err (engine_error e), k)
           end
  end.

Definition handle_close (e : ExtendedState) (payload : list byte) : ExtendedState :=
  match eval (target ← take_u8; name ← take_cstring; mret (target, name)) payload with
  | Ok (target, name) =>
      if target =? ASCII_S then mkExtended (delete name (statements e)) (portals e) (skip_until_sync e)
      else if target =? ASCII_P then mkExtended (statements e) (delete name (portals e)) (skip_until_sync e)
      else e
  | Err _ => e
  end.

(** [sql.trim().is_empty()] first. *)
Definition run_simple_query (sql : str) (k : Connection) : option Connection :=
  if forallb is_whitespace sql then Some (write (write_message "I" [] ++ send_ready (k_session k)) k)
  else
    x ← service_execute sql (k_session k);
    let k := set_session x.2 k in
    let k := write match x.1 with Ok outputs => mjoin (write_output <$> outputs) | Err e => send_error (engine_error e) end k in
    Some (write (send_ready (k_session k)) k).

(** An error in an extended sequence is sent, and what follows is skipped. *)
Definition fail_sequence (e : PgError) (k : Connection) : Connection :=
  write (send_error e) (set_extended (skipping true (k_extended k)) k).

Definition after {A} (r : PgResult A) (ok : A -> Connection -> Connection) (k : Connection) : Connection :=
  match r with Ok a => ok a k | Err e => fail_sequence e k end.

(** One message that is not skipped; [false] ends the connection. *)
Definition handle_message (kind : byte) (payload : list byte) (k : Connection) : option (bool * Connection) :=
  let e := k_extended k in
  match kind with
  | Byte.x51 (* Q *) => k ← run_simple_query (default [] (cstring_at payload)) k; Some (true, k)
  | Byte.x50 (* P *) => Some (true, after (handle_parse e payload) (fun e k => write (write_message "1" []) (set_extended e k)) k)
  | Byte.x42 (* B *) => Some (true, after (handle_bind e payload) (fun e k => write (write_message "2" []) (set_extended e k)) k)
  | Byte.x44 (* D *) => let '(r, k) := handle_describe payload k in Some (true, after r (fun _ k => k) k)
  | Byte.x45 (* E *) => x ← handle_execute payload k; Some (true, after x.1 (fun _ k => k) x.2)
  | Byte.x43 (* C *) => Some (true, write (write_message "3" []) (set_extended (handle_close e payload) k))
  | Byte.x48 (* H *) => Some (true, k)
  | Byte.x53 (* S *) => let k := set_extended (skipping false e) k in Some (true, write (send_ready (k_session k)) k)
  | Byte.x58 (* X *) => Some (false, k)
  | other => Some (true, write (send_error ("0A000"%string, MessageUnsupported (byte_to_Z other)) ++ send_ready (k_session k)) k)
  end.

Definition MAX_STARTUP_BYTES : Z := 65536.
Definition MAX_QUERY_BYTES : Z := Z.shiftl 4 20.

(** [read_i32] and [read_exact] on what the client still sends: nothing when
    the connection ends first. *)
Definition read_exact (n : Z) (input : list byte) : option (list byte * list byte) :=
  if n <=? blen input then Some (take (Z.to_nat n) input, drop (Z.to_nat n) input) else None.

Definition read_i32 (input : list byte) : option (Z * list byte) :=
  x ← read_exact 4 input; Some (signed 32 (from_be x.1), x.2).

(** A message: its kind, and its payload when the length is in range. *)
Definition read_message (input : list byte) : option (byte * option (list byte) * list byte) :=
  match input with
  | [] => None
  | kind :: r =>
      x ← read_i32 r;
      if (4 <=? x.1) && (x.1 <=? MAX_QUERY_BYTES) then y ← read_exact (x.1 - 4) x.2; Some (kind, Some y.1, y.2)
      else Some (kind, None, x.2)
  end.

(** The loop of [run_connection]; each message takes five bytes at least. *)
Fixpoint serve (fuel : nat) (input : list byte) (k : Connection) : option Connection :=
  match fuel, read_message input with
  | Datatypes.S fuel, Some (kind, Some payload, input) =>
      if skip_until_sync (k_extended k) && negb (within 83 83 kind || within 88 88 kind) then serve fuel input k
      else
        x ← handle_message kind payload k;
        if x.1 : bool then serve fuel input x.2 else Some x.2
  | Datatypes.S fuel, Some (_, None, _) => Some (write (send_error ("08P01"%string, LengthOutOfRange)) k)
  | _, _ => Some k
  end.

Definition SSL_REQUEST_CODE : Z := 80877103.
Definition GSSENC_REQUEST_CODE : Z := 80877104.
Definition PROTOCOL_VERSION_3 : Z := 196608.
Definition CANCEL_REQUEST_CODE : Z := 80877102.

(** What a client that starts a session is sent. *)
Definition greeting : list byte :=
  write_message "R" (to_be 4 0) ++ write_parameter_status "server_version" "16.0 (QuantaDB 0.2)" ++
  write_parameter_status "server_encoding" "UTF8" ++ write_parameter_status "client_encoding" "UTF8" ++
  write_parameter_status "DateStyle" "ISO, MDY" ++ write_message "K" (to_be 4 1 ++ to_be 4 1) ++ write_message "Z" (bytes_of_string "I").

(** The handshake: what it wrote, and what the client sends after it unless
    it went away.  Each round takes eight bytes at least. *)
Fixpoint handshake (fuel : nat) (input out : list byte) : list byte * option (list byte) :=
  match fuel with
  | O => (out, None)
  | Datatypes.S fuel =>
      match read_i32 input with
      | Some (length, r) =>
          if (8 <=? length) && (length <=? MAX_STARTUP_BYTES) then
            match read_i32 r with
            | Some (code, r) =>
                match read_exact (length - 8) r with
                | Some (_, r) =>
                    if (code =? SSL_REQUEST_CODE) || (code =? GSSENC_REQUEST_CODE) then handshake fuel r (out ++ bytes_of_string "N")
                    else if code =? CANCEL_REQUEST_CODE then (out, None)
                    else if code =? PROTOCOL_VERSION_3 then (out ++ greeting, Some r)
                    else (out ++ write_message "E" (error_fields ("08P01"%string, UnsupportedProtocol)), None)
                | None => (out, None)
                end
            | None => (out, None)
            end
          else (out, None)
      | None => (out, None)
      end
  end.

(** What a connection writes and the session it leaves. *)
Definition run_connection (input : list byte) (session : S) : option (list byte * S) :=
  let '(out, rest) := handshake (length input) input [] in
  match rest with
  | None => Some (out, session)
  | Some rest =>
      k ← serve (length rest) rest (mkConnection session (mkExtended ∅ ∅ false) out);
      Some (k_output k, k_session k)
  end.
End Connection.

(** ** Strings and messages survive the wire *)

(** A Unicode scalar value. *)
Definition is_scalar (c : char) : Prop := 0 <= c < 55296 \/ 57343 < c < 1114112.

Lemma continuation_byte z : 0 <= z < 64 -> is_continuation (byte_of_Z (128 + z)) = true /\ low6 (byte_of_Z (128 + z)) = z.
Proof.
  intros Hz. unfold is_continuation, low6. rewrite byte_of_Z_small by lia. split; [lia|].
  rewrite <- Zplus_mod_idemp_l. change (128 mod 64) with 0. by apply Z.mod_small.
Qed.

Lemma from_utf8_char c r : is_scalar c -> from_utf8 (encode_utf8 c ++ r) = cons c <$> from_utf8 r.
Proof.
  intros Hc. unfold is_scalar in Hc. unfold encode_utf8.
  pose proof (Z.div_mod c 64 ltac:(lia)) as E1. pose proof (Z.mod_pos_bound c 64 ltac:(lia)) as B1.
  replace (c / 262144) with (c / 64 / 64 / 64) by (rewrite !Z.div_div by lia; done).
  replace (c / 4096) with (c / 64 / 64) by (rewrite Z.div_div by lia; done).
  pose proof (Z.div_mod (c / 64) 64 ltac:(lia)) as E2. pose proof (Z.mod_pos_bound (c / 64) 64 ltac:(lia)) as B2.
  pose proof (Z.div_mod (c / 64 / 64) 64 ltac:(lia)) as E3. pose proof (Z.mod_pos_bound (c / 64 / 64) 64 ltac:(lia)) as B3.
  set (q1 := c / 64) in *. set (m1 := c mod 64) in *. set (q2 := q1 / 64) in *. set (m2 := q1 mod 64) in *. set (q3 := q2 / 64) in *. set (m3 := q2 mod 64) in *.
  destruct (continuation_byte m1 B1) as [C1 L1], (continuation_byte m2 B2) as [C2 L2], (continuation_byte m3 B3) as [C3 L3].
  destruct (Z.ltb_spec c 128); [|destruct (Z.ltb_spec c 2048); [|destruct (Z.ltb_spec c 65536)]].
  - cbn [app from_utf8]. unfold within. rewrite byte_of_Z_small by lia. by replace ((0 <=? c) && (c <=? 127)) with true by lia.
  - cbn [app from_utf8]. unfold within. rewrite (byte_of_Z_small (192 + q1)), C1, L1 by lia.
    replace ((0 <=? 192 + q1) && (192 + q1 <=? 127)) with false by lia. replace ((194 <=? 192 + q1) && (192 + q1 <=? 223)) with true by lia.
    by replace ((192 + q1 - 192) * 64 + m1) with c by lia.
  - cbn [app from_utf8]. unfold within. rewrite (byte_of_Z_small (224 + q2)), C1, L1, C2, L2 by lia.
    replace ((0 <=? 224 + q2) && (224 + q2 <=? 127)) with false by lia. replace ((194 <=? 224 + q2) && (224 + q2 <=? 223)) with false by lia.
    replace ((224 <=? 224 + q2) && (224 + q2 <=? 239)) with true by lia. cbv zeta.
    replace (((224 + q2 - 224) * 64 + m2) * 64 + m1) with c by lia.
    by replace (true && true && (2048 <=? c) && negb ((55296 <=? c) && (c <=? 57343))) with true by lia.
  - cbn [app from_utf8]. unfold within. rewrite (byte_of_Z_small (240 + q3)), C1, L1, C2, L2, C3, L3 by lia.
    replace ((0 <=? 240 + q3) && (240 + q3 <=? 127)) with false by lia. replace ((194 <=? 240 + q3) && (240 + q3 <=? 223)) with false by lia.
    replace ((224 <=? 240 + q3) && (240 + q3 <=? 239)) with false by lia. replace ((240 <=? 240 + q3) && (240 + q3 <=? 244)) with true by lia. cbv zeta.
    replace ((((240 + q3 - 240) * 64 + m3) * 64 + m2) * 64 + m1) with c by lia.
    by replace (true && true && true && (65536 <=? c) && (c <? 1114112)) with true by lia.
Qed.

Lemma from_utf8_as_bytes s : Forall is_scalar s -> from_utf8 (as_bytes s) = Some s.
Proof. induction 1 as [|c s Hc Hs IH]; [done|]. by rewrite as_bytes_cons, from_utf8_char, IH. Qed.

Lemma read_exact_app a r : read_exact (blen a) (a ++ r) = Some (a, r).
Proof.
  unfold read_exact. rewrite length_app, (proj2 (Z.leb_le _ _)) by lia. rewrite Nat2Z.id, take_app_length, drop_app_length. done.
Qed.

(** A message that is written is read back, when the server accepts its
    length. *)
Lemma read_write_message kind b body r :
  bytes_of_string kind = [b] -> blen body + 4 <= MAX_QUERY_BYTES -> read_message (write_message kind body ++ r) = Some (b, Some body, r).
Proof.
  intros Hk Hlen. unfold write_message. rewrite Hk, <- !app_assoc. cbn [app read_message].
  unfold read_i32. pose proof (read_exact_app (to_be 4 (blen body + 4)) (body ++ r)) as Hr. rewrite length_to_be in Hr.
  change (Z.of_nat 4) with 4 in Hr. rewrite Hr. cbn [mbind option_bind fst snd].
  assert (MAX_QUERY_BYTES = 4194304) as HM by reflexivity. rewrite HM in *.
  rewrite from_to_be_small by (change (256 ^ Z.of_nat 4) with 4294967296; lia).
  unfold signed. change (2 ^ (32 - 1)) with 2147483648. rewrite (proj2 (Z.ltb_lt _ _)) by lia.
  replace ((4 <=? blen body + 4) && (blen body + 4 <=? 4194304)) with true by lia.
  replace (blen body + 4 - 4) with (blen body) by lia. by rewrite read_exact_app.
Qed.

Section ConnectionFacts.
Context `{CharTables} `{Display} {S : Type} `{SqlService S}.

Lemma read_exact_shorter n input a r : read_exact n input = Some (a, r) -> (length r <= length input)%nat.
Proof. unfold read_exact. case_match; [|done]. intros [= <- <-]. rewrite length_drop. lia. Qed.

Lemma read_message_shorter input kind p r : read_message input = Some (kind, p, r) -> (length r < length input)%nat.
Proof.
  destruct input as [|b input]; [done|]. cbn [read_message length]. unfold read_i32.
  destruct (read_exact 4 input) as [[a q]|] eqn:E1; [|done]. cbn [mbind option_bind fst snd]. apply read_exact_shorter in E1.
  destruct (_ && _); [|intros [= <- <- <-]; lia].
  destruct (read_exact _ q) as [[x y]|] eqn:E2; [|done]. cbn. intros [= <- <- <-]. apply read_exact_shorter in E2. lia.
Qed.

(** The length of the input is enough fuel: more changes nothing. *)
Lemma serve_enough f g input k : (length input <= f)%nat -> (length input <= g)%nat -> serve f input k = serve g input k.
Proof.
  revert g input k. induction f as [|f IH]; intros [|g] input k Hf Hg; cbn [serve]; try (by destruct input; [|cbn in *; lia]).
  destruct (read_message input) as [[[kind [payload|]] r]|] eqn:E; [|done..]. apply read_message_shorter in E.
  destruct (_ && _); [apply IH; lia|]. destruct (handle_message kind payload k) as [[[] k']|]; cbn; [apply IH; lia|done..].
Qed.

(** After an error in an extended sequence, a message that is neither Sync
    nor Terminate changes nothing and is not answered. *)
Lemma serve_skips f kind b body r k :
  bytes_of_string kind = [b] -> blen body + 4 <= MAX_QUERY_BYTES -> b <> Byte.x53 -> b <> Byte.x58 ->
  skip_until_sync (k_extended k) = true -> serve (Datatypes.S f) (write_message kind body ++ r) k = serve f r k.
Proof.
  intros Hk Hlen HS HX Hskip. cbn [serve]. rewrite (read_write_message kind b body r Hk Hlen), Hskip.
  assert (within 83 83 b || within 88 88 b = false) as ->; [|done]. by destruct b.
Qed.

(** A Bind message stores its statement with the values as literals, which
    [parameters_do_not_inject] is about. *)
Lemma handle_bind_portal e payload e' :
  handle_bind e payload = Ok e' ->
  exists portal name prepared values sql, statements e !! name = Some prepared /\ blen values = parameters prepared /\
    substitute_parameters (prepared_sql prepared) (bound_literal <$> values) = Ok sql /\
    e' = mkExtended (statements e) (<[portal := sql]> (portals e)) (skip_until_sync e).
Proof.
  unfold handle_bind, eval. intros Hb. match type of Hb with fst ?m = _ => destruct m as [r s] eqn:Hm end. cbn in Hb. subst r.
  apply ST_bind_Ok in Hm as (portal & s1 & _ & (name & s2 & _ & (prepared & s3 & Hp & (fc & s4 & _ & (formats & s5 & _ & (supplied & s6 & _ & Hk)%ST_bind_Ok)%ST_bind_Ok)%ST_bind_Ok)%ST_bind_Ok)%ST_bind_Ok).
  cbv zeta in Hk. destruct (_ =? parameters prepared) eqn:Hc; cbn [negb] in Hk; [|by unfold throw in Hk].
  apply ST_bind_Ok in Hk as (values & s7 & Hv & (sql & s8 & Hs & [= <- _])%ST_bind_Ok).
  unfold lift in Hp, Hs. exists portal, name, prepared, values, sql. split_and!; [| | |done].
  - destruct (statements e !! name); [by injection Hp as <- _|done].
  - apply Z.eqb_eq in Hc. rewrite <- Hc. clear -Hv. apply (f_equal fst) in Hv. cbn in Hv.
    assert (forall l s vs, (collect l (take_parameter formats) s).1 = Ok vs -> length vs = length l) as Hlen.
    { intros l. induction l as [|x l IH]; intros s vs; cbn [collect]; [by intros [= <-]|].
      unfold mbind, ST_bind. destruct (take_parameter formats x s) as [[v|] s1]; [|done].
      specialize (IH s1). destruct (collect l _ s1) as [[us|] s2]; [|done]. intros [= <-]. cbn. f_equal. by apply IH. }
    apply Hlen in Hv. rewrite Hv, length_seq. rewrite Z2Nat.id; [done|]. apply Z.mod_pos_bound. reflexivity.
  - by injection Hs.
Qed.
End ConnectionFacts.

(** ** A connection on the example database *)

Definition plain_display : Display := {| message_text := fun _ => chars "error"; float_text := fun _ => chars "0" |}.

Definition client_bytes : list byte :=
  to_be 4 8 ++ to_be 4 PROTOCOL_VERSION_3 ++
  write_message "P" (cstring (chars "s") ++ cstring (chars "SELECT id FROM missing WHERE name = $1") ++ to_be 2 0) ++
  write_message "B" (cstring [] ++ cstring (chars "s") ++ to_be 2 0 ++ to_be 2 1 ++ to_be 4 3 ++ as_bytes (chars "ann")) ++
  write_message "E" (cstring [] ++ to_be 4 0) ++ write_message "H" [] ++ write_message "S" [] ++ write_message "X" [].

#[local] Existing Instances ascii_tables plain_display.

(** Parse and Bind are acknowledged, the query fails because its table does
    not exist, and Sync finds the session idle. *)
Lemma connection_answers :
  fst <$> run_connection (H1 := session_service 72 no_retries alone 1) client_bytes (session (inner ex_start)) =
  Some (greeting ++ write_message "1" [] ++ write_message "2" [] ++
        send_error (engine_error (TableNotFound (chars "missing"))) ++ write_message "Z" (bytes_of_string "I")).
Proof. vm_compute. reflexivity. Qed.
