(* ===== verification/Server.v ===== *)
(** * The server: settings, frames, requests and the HTTP bridge

    Models [src/server/src/config.rs], [protocol.rs], [service.rs],
    [server.rs] and [http.rs] without their sockets: the settings and their
    validation, newline-delimited frames, the dispatch of requests to a
    session, and the loop of each kind of connection over what the client
    sends.  JSON is a parameter of what uses it, and so are the clock, the
    permits of the semaphores and the parsing of socket addresses. *)
From stdpp Require Import pretty.
From S2P Require Import Prelude Token Lexer F64 Ast Parser Utf8 Schema PgText Pg.
Local Open Scope Z_scope.

(** ** Settings *)

(** The octets of the address and the port. *)
Record SocketAddr := mkSocketAddr { ip : list Z; port : Z }.

(** Times are in seconds. *)
Record ServerConfig := mkServerConfig {
  listen_address : SocketAddr;
  pg_listen_address : option SocketAddr;
  http_listen_address : option SocketAddr;
  data_directory : str;
  max_connections : Z;
  max_in_flight_requests : Z;
  max_frame_bytes : Z;
  idle_timeout : Z;
  shutdown_grace : Z;
}.

Definition default_config : ServerConfig :=
  mkServerConfig (mkSocketAddr [127; 0; 0; 1] 54321) (Some (mkSocketAddr [127; 0; 0; 1] 55432)) None (chars "quantadb-data")
    1024 256 (1024 * 1024) 300 5.

(** [ServerError::Configuration], by the setting that is wrong. *)
Inductive ConfigFault :=
| NotUnicode (name : string)
| BadAddress (name : string)
| BadNumber (name : string)
| ZeroConnections
| EmptyDataDirectory
| ZeroInFlight
| FrameBounds
| ZeroIdleTimeout
| ZeroShutdownGrace.

Definition validate (c : ServerConfig) : result ConfigFault unit :=
  if max_connections c =? 0 then Err ZeroConnections
  else match data_directory c with
       | [] => Err EmptyDataDirectory
       | _ =>
           if max_in_flight_requests c =? 0 then Err ZeroInFlight
           else if negb ((256 <=? max_frame_bytes c) && (max_frame_bytes c <=? 64 * 1024 * 1024)) then Err FrameBounds
           else if idle_timeout c =? 0 then Err ZeroIdleTimeout
           else if shutdown_grace c =? 0 then Err ZeroShutdownGrace
           else Ok tt
       end.

(** What [env::var] finds. *)
Inductive EnvVar := Present (value : str) | NotPresent | NonUnicode.

Definition read_env (env : string -> EnvVar) (name : string) : result ConfigFault (option str) :=
  match env name with Present value => Ok (Some value) | NotPresent => Ok None | NonUnicode => Err (NotUnicode name) end.

(** [str::parse] for [u64] and [usize]: an optional plus sign and digits. *)
Definition parse_unsigned (s : str) : option Z := parse_usize match s with 43 :: r => r | _ => s end.

Definition parse_number (name : string) (value : str) : result ConfigFault Z := ok_or (parse_unsigned value) (BadNumber name).

Definition eq_ignore_ascii_case (a b : str) : bool := bool_decide (to_ascii_lowercase a = to_ascii_lowercase b).

Section FromEnv.
Context (parse_address : str -> option SocketAddr) (env : string -> EnvVar).

(** An address, or nothing when it is switched off. *)
Definition read_optional_address (name : string) (current : option SocketAddr) : result ConfigFault (option SocketAddr) :=
  value ← read_env env name;
  match value with
  | None => Ok current
  | Some value =>
      if eq_ignore_ascii_case value (chars "off") then Ok None
      else address ← ok_or (parse_address value) (BadAddress name); Ok (Some address)
  end.

Definition read_number (name : string) (current : Z) : result ConfigFault Z :=
  value ← read_env env name;
  match value with None => Ok current | Some value => parse_number name value end.

Definition from_env : result ConfigFault ServerConfig :=
  let d := default_config in
  listen ← read_env env "QUANTA_LISTEN_ADDRESS";
  listen ← match listen with
           | None => Ok (listen_address d)
           | Some value => ok_or (parse_address value) (BadAddress "QUANTA_LISTEN_ADDRESS")
           end;
  pg ← read_optional_address "QUANTA_PG_LISTEN_ADDRESS" (pg_listen_address d);
  http ← read_optional_address "QUANTA_HTTP_LISTEN_ADDRESS" (http_listen_address d);
  directory ← read_env env "QUANTA_DATA_DIR";
  connections ← read_number "QUANTA_MAX_CONNECTIONS" (max_connections d);
  in_flight ← read_number "QUANTA_MAX_IN_FLIGHT_REQUESTS" (max_in_flight_requests d);
  frame_bytes ← read_number "QUANTA_MAX_FRAME_BYTES" (max_frame_bytes d);
  idle ← read_number "QUANTA_IDLE_TIMEOUT_SECS" (idle_timeout d);
  grace ← read_number "QUANTA_SHUTDOWN_GRACE_SECS" (shutdown_grace d);
  let config := mkServerConfig listen pg http (default (data_directory d) directory) connections in_flight frame_bytes idle grace in
  _ ← validate config;
  Ok config.

(** Settings from the environment always satisfy the limits. *)
Lemma from_env_validated c : from_env = Ok c -> validate c = Ok tt.
Proof.
  unfold from_env. intros Hc. repeat (apply bind_Ok in Hc as (? & ? & Hc)).
  injection Hc as <-. match goal with H : validate _ = Ok ?u |- _ => by destruct u end.
Qed.
End FromEnv.

(** ** The protocol *)

Definition PROTOCOL_VERSION : Z := 1.

Inductive Request := Ping | ParseSql (sql : str) | Execute (sql : str).

Record RequestFrame := mkRequestFrame {
  rq_protocol_version : Z;
  rq_request_id : Z;
  rq_request : Request;
}.

Inductive TransactionState := TxBegun | TxCommitted | TxRolledBack.

Record ColumnMetadata := mkColumnMetadata { cm_name : str; cm_data_type : str; cm_nullable : bool }.

Inductive ScalarValue := ScNull | ScBoolean (b : bool) | ScInteger (z : Z) | ScFloat (x : f64) | ScText (s : str).

Inductive StatementResult :=
| ResTransaction (state : TransactionState)
| ResCommand (tag : string) (affected_rows : Z)
| ResQuery (columns : list ColumnMetadata) (rows : list (list ScalarValue)).

Inductive ErrorCode :=
| InvalidJson | UnsupportedProtocolVersion | SyntaxErrorCode | ExecutionUnavailable | ExecutionError | TransactionErrorCode
| FrameTooLarge | IdleTimeout | ServerBusy.

(** The text of an error is what it was made from. *)
Inductive ErrorText :=
| TextSyntax (fault : syntax_fault)
| TextEngine (e : EngineError)
| TextVersion (version : Z)
| TextFrameLimit (maximum : Z)
| TextOther.

Record ProtocolError := mkProtocolError { pe_code : ErrorCode; pe_message : ErrorText; pe_span : option Span }.

Inductive Response :=
| Pong
| Parsed (statements : list Statement)
| Executed (results : list StatementResult)
| ErrorResponse (error : ProtocolError).

Record ResponseFrame := mkResponseFrame {
  rs_protocol_version : Z;
  rs_request_id : Z;
  rs_response : Response;
}.

Definition error_frame (request_id : Z) (code : ErrorCode) (text : ErrorText) (sp : option Span) : ResponseFrame :=
  mkResponseFrame PROTOCOL_VERSION request_id (ErrorResponse (mkProtocolError code text sp)).

(** ** Answering requests *)

Definition map_value (v : Value) : ScalarValue :=
  match v with VNull => ScNull | VBoolean b => ScBoolean b | VInteger z => ScInteger z | VFloat x => ScFloat x | VText s => ScText s end.

Definition logical_type_name (t : LogicalType) : str :=
  match t with
  | TUnknown => chars "unknown"
  | TBoolean => chars "boolean"
  | TInt64 => chars "int64"
  | TFloat64 => chars "float64"
  | TText None => chars "text"
  | TText (Some maximum) => chars "varchar(" ++ chars (pretty maximum) ++ chars ")"
  end.

Definition map_output (output : StatementOutput) : StatementResult :=
  match output with
  | OTransaction state => ResTransaction match state with Begun => TxBegun | Committed => TxCommitted | RolledBack => TxRolledBack end
  | OCommand tag affected_rows => ResCommand tag affected_rows
  | OQuery columns rows =>
      ResQuery ((fun c => mkColumnMetadata (oc_name c) (logical_type_name (oc_data_type c)) (oc_nullable c)) <$> columns)
               ((fun row : list Value => map_value <$> row) <$> rows)
  end.

Definition syntax_response (fault : syntax_fault) (sp : Span) : Response :=
  ErrorResponse (mkProtocolError SyntaxErrorCode (TextSyntax fault) (Some sp)).

Definition map_engine_error (e : EngineError) : Response :=
  match e with
  | ESyntax fault sp => syntax_response fault sp
  | TransactionAlreadyActive | NoActiveTransaction | TransactionAborted | ETransaction _ =>
      ErrorResponse (mkProtocolError TransactionErrorCode (TextEngine e) None)
  | _ => ErrorResponse (mkProtocolError ExecutionError (TextEngine e) None)
  end.

(** [RequestSession]: a request, and what the session answers.  It has no
    answer when the retries of a statement run out of fuel. *)
Class RequestSession (S : Type) := { handle : Request -> S -> option (Response * S) }.

Section Sessions.
Context `{CharTables}.

Definition parse_response (sql : str) : Response :=
  match parse_sql sql with Ok statements => Parsed statements | Err e => syntax_response (message e) (err_span e) end.

(** [SyntaxSession], which cannot execute. *)
Definition syntax_session : RequestSession unit := {|
  handle request s :=
    Some (match request with
          | Ping => Pong
          | ParseSql sql => parse_response sql
          | Execute sql =>
              match parse_sql sql with
              | Err e => syntax_response (message e) (err_span e)
              | Ok _ => ErrorResponse (mkProtocolError ExecutionUnavailable TextOther None)
              end
          end, s)
|}.

(** [EngineSession] over a session of the engine. *)
Definition engine_session {S : Type} `{SqlService S} : RequestSession S := {|
  handle request s :=
    match request with
    | Ping => Some (Pong, s)
    | ParseSql sql => Some (parse_response sql, s)
    | Execute sql =>
        x ← service_execute sql s;
        Some (match x.1 with Ok outputs => Executed (map_output <$> outputs) | Err e => map_engine_error e end, x.2)
    end
|}.
End Sessions.

(** ** Frames *)

Definition is_newline (b : byte) : bool := byte_to_Z b =? 10.

(** A carriage return before the newline is dropped. *)
Definition strip_return (frame : list byte) : list byte :=
  match last frame with Some b => if byte_to_Z b =? 13 then removelast frame else frame | None => frame end.

Inductive FrameRead := FrameEnd | FrameBytes (frame : list byte) | FrameReadTooLarge.

(** [read_bounded_frame] over the buffers that the socket delivers, from the
    part of the frame read so far; what is left of the buffers. *)
Fixpoint read_bounded_frame (maximum : Z) (frame : list byte) (buffers : list (list byte)) : FrameRead * list (list byte) :=
  match buffers with
  | [] => (match frame with [] => FrameEnd | _ => FrameBytes frame end, [])
  | available :: buffers =>
      match position is_newline available with
      | Some n =>
          let rest := match drop (S n) available with [] => buffers | unread => unread :: buffers end in
          if maximum <? saturating_add U64_MAX (blen frame) (Z.of_nat n) then (FrameReadTooLarge, rest)
          else (FrameBytes (strip_return (frame ++ take n available)), rest)
      | None =>
          if maximum <? saturating_add U64_MAX (blen frame) (blen available) then (FrameReadTooLarge, buffers)
          else read_bounded_frame maximum (frame ++ available) buffers
      end
  end.

(** ** Connections of the JSON protocol *)

(** What the loop waits for: the shutdown, the idle timeout, or a frame, with
    whether a request slot is free for it. *)
Inductive Event := ShutdownRequested | IdleExpired | ReadFailed | FrameReady (slot : bool).

Section Connection.
Context (parse_request : list byte -> option RequestFrame) {S : Type} `{RequestSession S}.

Definition dispatch_frame (frame : list byte) (slot : bool) (session : S) : option (ResponseFrame * S) :=
  match parse_request frame with
  | None => Some (error_frame 0 InvalidJson TextOther None, session)
  | Some request =>
      if negb (rq_protocol_version request =? PROTOCOL_VERSION) then
        Some (error_frame (rq_request_id request) UnsupportedProtocolVersion (TextVersion (rq_protocol_version request)) None, session)
      else if negb slot then Some (error_frame (rq_request_id request) ServerBusy TextOther None, session)
      else
        x ← handle (rq_request request) session;
        Some (mkResponseFrame PROTOCOL_VERSION (rq_request_id request) x.1, x.2)
  end.

(** The responses of a connection, in order, and the session it leaves. *)
Fixpoint handle_connection (c : ServerConfig) (events : list Event) (buffers : list (list byte)) (session : S) : option (list ResponseFrame * S) :=
  match events with
  | [] | ShutdownRequested :: _ | ReadFailed :: _ => Some ([], session)
  | IdleExpired :: _ => Some ([error_frame 0 IdleTimeout TextOther None], session)
  | FrameReady slot :: events =>
      match read_bounded_frame (max_frame_bytes c) [] buffers with
      | (FrameEnd, _) => Some ([], session)
      | (FrameReadTooLarge, _) => Some ([error_frame 0 FrameTooLarge (TextFrameLimit (max_frame_bytes c)) None], session)
      | (FrameBytes frame, buffers) =>
          x ← dispatch_frame frame slot session;
          y ← handle_connection c events buffers x.2;
          Some (x.1 :: y.1, y.2)
      end
  end.

(** Every answer carries the protocol version and, when its frame could be
    read as a request, the number of that request. *)
Lemma dispatch_answers frame slot session r s :
  dispatch_frame frame slot session = Some (r, s) ->
  rs_protocol_version r = PROTOCOL_VERSION /\ rs_request_id r = match parse_request frame with Some q => rq_request_id q | None => 0 end.
Proof.
  unfold dispatch_frame. destruct (parse_request frame) as [q|]; [|by intros [= <- <-]].
  destruct (negb _); [by intros [= <- <-]|]. destruct (negb slot); [by intros [= <- <-]|].
  destruct (handle _ _) as [[x y]|]; [|done]. by intros [= <- <-].
Qed.
End Connection.

(** ** Frames do not depend on how the bytes arrive *)

(** The first line of the bytes, read at once. *)
Definition read_line_bounded (maximum : Z) (bytes : list byte) : FrameRead :=
  match position is_newline bytes with
  | Some n => if maximum <? Z.of_nat n then FrameReadTooLarge else FrameBytes (strip_return (take n bytes))
  | None => if maximum <? blen bytes then FrameReadTooLarge else match bytes with [] => FrameEnd | _ => FrameBytes bytes end
  end.

Lemma position_app {A} (p : A -> bool) a b :
  position p (a ++ b) = match position p a with Some n => Some n | None => (fun n => (length a + n)%nat) <$> position p b end.
Proof.
  induction a as [|x a IH]; cbn [app position length]; [by destruct (position p b)|]. destruct (p x); [done|]. rewrite IH.
  destruct (position p a); [done|]. by destruct (position p b).
Qed.

Lemma position_inside {A} (p : A -> bool) l n : position p l = Some n -> (n < length l)%nat.
Proof.
  revert n. induction l as [|x l IH]; intros n; cbn [position length]; [done|]. destruct (p x); [intros [= <-]; lia|].
  destruct (position p l) as [m|]; [|done]. intros [= <-]. specialize (IH m eq_refl). lia.
Qed.

Lemma read_bounded_frame_spec maximum frame buffers :
  0 <= maximum < U64_MAX -> position is_newline frame = None -> blen frame <= maximum ->
  (read_bounded_frame maximum frame buffers).1 = read_line_bounded maximum (frame ++ concat buffers).
Proof.
  intros Hm. revert frame. induction buffers as [|b bs IH]; intros frame Hf Hlen; cbn [read_bounded_frame concat].
  - rewrite app_nil_r. unfold read_line_bounded. rewrite Hf. by rewrite (proj2 (Z.ltb_ge _ _)).
  - unfold saturating_add. destruct (position is_newline b) as [n|] eqn:Hb.
    + pose proof (position_inside _ _ _ Hb) as Hn. unfold read_line_bounded. rewrite !position_app, Hf, Hb. cbn [fmap option_fmap option_map].
      destruct (Z.ltb_spec maximum (Z.min U64_MAX (blen frame + Z.of_nat n))) as [Hlt|Hge]; cbn [fst].
      * by rewrite (proj2 (Z.ltb_lt _ _)) by lia.
      * rewrite (proj2 (Z.ltb_ge _ _)) by lia. do 2 f_equal. rewrite take_app_ge by lia.
        replace (length frame + n - length frame)%nat with n by lia. by rewrite take_app_le by lia.
    + assert (position is_newline (frame ++ b) = None) as Hfb by (by rewrite position_app, Hf, Hb).
      destruct (Z.ltb_spec maximum (Z.min U64_MAX (blen frame + blen b))) as [Hlt|Hge]; cbn [fst].
      * unfold read_line_bounded. rewrite app_assoc, position_app, Hfb. rewrite !length_app in *.
        destruct (position is_newline (concat bs)) as [m|]; cbn [fmap option_fmap option_map]; by rewrite (proj2 (Z.ltb_lt _ _)) by lia.
      * rewrite IH; [by rewrite app_assoc|done|]. rewrite length_app. lia.
Qed.

(** ** The HTTP bridge *)

Section Text.
Context `{CharTables}.

Fixpoint trim_start (s : str) : str := match s with c :: r => if is_whitespace c then trim_start r else s | [] => [] end.
Definition trim_end (s : str) : str := reverse (trim_start (reverse s)).
Definition trim (s : str) : str := trim_end (trim_start s).

(** The characters up to white space, and the rest. *)
Fixpoint word (s : str) : str * str :=
  match s with
  | c :: r => if is_whitespace c then ([], s) else let '(w, rest) := word r in (c :: w, rest)
  | [] => ([], [])
  end.

(** [split_whitespace().next().unwrap_or_default()], and what follows. *)
Definition next_word (s : str) : str * str := word (trim_start s).

(** [split_once(':')]. *)
Fixpoint split_colon (s : str) : option (str * str) :=
  match s with
  | [] => None
  | c :: r => if c =? 58 then Some ([], r) else x ← split_colon r; Some (c :: x.1, x.2)
  end.

(** [read_line]: nothing at the end of the input or on a line that is not
    UTF-8, both of which end the connection. *)
Definition read_line (input : list byte) : option (str * list byte) :=
  match input with
  | [] => None
  | _ =>
      let n := match position is_newline input with Some n => S n | None => length input end in
      line ← from_utf8 (take n input); Some (line, drop n input)
  end.

Definition MAX_BODY_BYTES : Z := Z.shiftl 4 20.
Definition MAX_HEADER_LINES : nat := 100.

(** The header lines: the length of the body, whether to keep the
    connection, and what follows them. *)
Fixpoint read_headers (lines : nat) (input : list byte) (content_length : Z) (keep_alive : bool) : option (Z * bool * list byte) :=
  match lines with
  | O => Some (content_length, keep_alive, input)
  | S lines =>
      x ← read_line input;
      match trim_end x.1 with
      | [] => Some (content_length, keep_alive, x.2)
      | header =>
          match split_colon header with
          | None => read_headers lines x.2 content_length keep_alive
          | Some (name, value) =>
              let value := trim value in
              if eq_ignore_ascii_case name (chars "content-length")
              then read_headers lines x.2 (default U64_MAX (parse_unsigned value)) keep_alive
              else if eq_ignore_ascii_case name (chars "connection") && eq_ignore_ascii_case value (chars "close")
              then read_headers lines x.2 content_length false
              else read_headers lines x.2 content_length keep_alive
          end
      end
  end.
End Text.

Inductive HttpBody :=
| NoBody | BodyTooLarge | BodyNotFound | BodyInvalid | BodyResults (results : list StatementResult) | BodyError (error : ProtocolError)
| BodyEncodingFailed | BodyUnexpected.

Definition HttpReply : Type := Z * string * HttpBody.

Definition crlf : str := [13; 10].

(** [respond]: the bytes of a reply, with its body as text. *)
Definition respond (status : Z) (reason : string) (body : str) : list byte :=
  as_bytes (chars "HTTP/1.1 " ++ chars (pretty status) ++ chars " " ++ chars reason ++ crlf ++
    chars "Content-Type: application/json" ++ crlf ++ chars "Content-Length: " ++ chars (pretty (str_len body)) ++ crlf ++
    chars "Access-Control-Allow-Origin: *" ++ crlf ++ chars "Access-Control-Allow-Methods: POST, OPTIONS" ++ crlf ++
    chars "Access-Control-Allow-Headers: Content-Type" ++ crlf ++ crlf ++ body).

Section Http.
Context `{CharTables} {S : Type} `{SqlService S}.

(** [serde_json] on the body of a request and on results, and the session of
    one request: the one before it is dropped, on the same engine. *)
Context (parse_body : list byte -> option str) (encodes : list StatementResult -> bool) (reopen : S -> S).

Definition execute_reply (body : list byte) (s : S) : option (HttpReply * S) :=
  match parse_body body with
  | None => Some ((400, "Bad Request"%string, BodyInvalid), s)
  | Some sql =>
      x ← service_execute sql (reopen s);
      Some (match x.1 with
            | Ok outputs =>
                let results := map_output <$> outputs in
                if encodes results then (200, "OK"%string, BodyResults results) else (500, "Internal Server Error"%string, BodyEncodingFailed)
            | Err e =>
                match map_engine_error e with
                | ErrorResponse error => (400, "Bad Request"%string, BodyError error)
                | _ => (500, "Internal Server Error"%string, BodyUnexpected)
                end
            end, x.2)
  end.

(** The loop of [run_connection]; a request takes one byte at least. *)
Fixpoint run_http (fuel : nat) (input : list byte) (s : S) : option (list HttpReply * S) :=
  match fuel with
  | O => Some ([], s)
  | Datatypes.S fuel =>
      match (line ← read_line input; headers ← read_headers MAX_HEADER_LINES line.2 0 true; Some (line.1, headers)) with
      | None => Some ([], s)
      | Some (request_line, (content_length, keep_alive, input)) =>
          if MAX_BODY_BYTES <? content_length then Some ([(413, "Payload Too Large"%string, BodyTooLarge)], s)
          else
            match read_exact content_length input with
            | None => Some ([], s)
            | Some (body, input) =>
                let '(method, rest) := next_word request_line in
                let path := (next_word rest).1 in
                x ← (if bool_decide (method = chars "OPTIONS") then Some ((204, "No Content"%string, NoBody), s)
                     else if bool_decide (method = chars "POST") && bool_decide (path = chars "/v1/execute") then execute_reply body s
                     else Some ((404, "Not Found"%string, BodyNotFound), s));
                if keep_alive : bool then y ← run_http fuel input x.2; Some (x.1 :: y.1, y.2)
                else Some ([x.1], x.2)
            end
      end
  end.

(** The mapping of engine errors never takes the branch of the bridge that
    calls it unexpected. *)
Lemma execute_reply_expected body s r s' : execute_reply body s = Some (r, s') -> r.2 <> BodyUnexpected.
Proof.
  unfold execute_reply. destruct (parse_body body) as [sql|]; [|by intros [= <- <-]].
  destruct (service_execute sql (reopen s)) as [[[outputs|e] s1]|]; cbn; [|intros [= <- <-]|done].
  - case_match; by intros [= <- <-].
  - by destruct e.
Qed.
End Http.
